(** * AquaEngineering/os: TLSF heap, heap facade, tick source and timer scheduler

    A shallow embedding of [OS/os_tlsf.c], [OS/os_mem.c], [OS/os_hal_tick.c]
    and [OS/os_timer.c] for a 32-bit little-endian target (a [size_t] and a
    pointer are both four bytes wide), together with the properties the specification
    states about them. *)

From Stdlib Require Import ZArith List Bool Lia.
Import ListNotations.
Open Scope Z_scope.

(** ** 32-bit machine arithmetic *)

Module Word.

Definition modulus : Z := 2 ^ 32.

(** Wrap-around of an [unsigned int] / [size_t] / [uint32_t] result. *)
Definition u32 (z : Z) : Z := z mod modulus.

(** [tlsf_cast(int, x)]: reinterpret a 32-bit pattern as a signed [int]. *)
Definition to_int (z : Z) : Z :=
  let w := u32 z in if w <? 2 ^ 31 then w else w - modulus.

Definition add (a b : Z) : Z := u32 (a + b).
Definition sub (a b : Z) : Z := u32 (a - b).
Definition not32 (a : Z) : Z := u32 (Z.lnot a).
Definition shl (a n : Z) : Z := u32 (Z.shiftl a n).
Definition shr (a n : Z) : Z := Z.shiftr a n.

(** [__builtin_clz] on a non-zero 32-bit word. *)
Definition builtin_clz (w : Z) : Z := 31 - Z.log2 w.

(** [__builtin_ffs]: one plus the index of the least significant set bit,
    zero when no bit is set. *)
Fixpoint ffs_scan (n : nat) (i : Z) (w : Z) : Z :=
  match n with
  | O => 0
  | S n' => if Z.testbit w i then i + 1 else ffs_scan n' (i + 1) w
  end.

Definition builtin_ffs (w : Z) : Z := ffs_scan 32 0 w.

End Word.

(** ** Byte-addressed memory

    The memory visible to the allocator is one buffer of bytes starting at
    an absolute address [mem_base].  Any access outside the buffer, and any
    32-bit access at an address that is not a multiple of four, is undefined
    behaviour in the source and a [Fault] here.  [Diverge] marks a loop that
    has not finished within the fuel it was given. *)

Module Memory.

Record memory : Type := mkMem { mem_base : Z; mem_bytes : list Z }.

Definition mem_size (m : memory) : Z := Z.of_nat (length (mem_bytes m)).

Definition in_bounds (m : memory) (a n : Z) : bool :=
  (mem_base m <=? a) && (a + n <=? mem_base m + mem_size m).

Fixpoint upd (l : list Z) (i : nat) (v : Z) : list Z :=
  match l, i with
  | [], _ => []
  | _ :: t, O => v :: t
  | h :: t, S i' => h :: upd t i' v
  end.

Definition byte_at (m : memory) (a : Z) : Z :=
  nth (Z.to_nat (a - mem_base m)) (mem_bytes m) 0 mod 256.

Definition set_byte (m : memory) (a v : Z) : memory :=
  mkMem (mem_base m) (upd (mem_bytes m) (Z.to_nat (a - mem_base m)) (v mod 256)).

Inductive res (A : Type) : Type :=
| Done (a : A) (m : memory)
| Fault
| Diverge.
Arguments Done {A} a m.
Arguments Fault {A}.
Arguments Diverge {A}.

Definition M (A : Type) : Type := memory -> res A.

Definition ret {A} (a : A) : M A := fun m => Done a m.
Definition bind {A B} (c : M A) (k : A -> M B) : M B :=
  fun m => match c m with
           | Done a m' => k a m'
           | Fault => Fault
           | Diverge => Diverge
           end.
Definition fault {A} : M A := fun _ => Fault.
Definition diverge {A} : M A := fun _ => Diverge.

Declare Scope mem_scope.
Delimit Scope mem_scope with mem.
Notation "x <- c ;; k" := (bind c (fun x => k))
  (at level 61, c at next level, right associativity) : mem_scope.
Notation "' pat <- c ;; k" := (bind c (fun x => match x with pat => k end))
  (at level 61, pat pattern, c at next level, right associativity) : mem_scope.
Notation "c ;;; k" := (bind c (fun _ => k))
  (at level 61, right associativity) : mem_scope.
Open Scope mem_scope.

Definition load8 (a : Z) : M Z :=
  fun m => if in_bounds m a 1 then Done (byte_at m a) m else Fault.

Definition store8 (a v : Z) : M unit :=
  fun m => if in_bounds m a 1 then Done tt (set_byte m a v) else Fault.

(** A little-endian 32-bit load or store at a four-aligned address. *)
Definition load32 (a : Z) : M Z :=
  fun m =>
    if (a mod 4 =? 0) && in_bounds m a 4 then
      Done (byte_at m a + 2 ^ 8 * byte_at m (a + 1)
            + 2 ^ 16 * byte_at m (a + 2) + 2 ^ 24 * byte_at m (a + 3)) m
    else Fault.

Definition store32 (a v : Z) : M unit :=
  fun m =>
    if (a mod 4 =? 0) && in_bounds m a 4 then
      Done tt (set_byte (set_byte (set_byte (set_byte m a v)
                 (a + 1) (v / 2 ^ 8)) (a + 2) (v / 2 ^ 16)) (a + 3) (v / 2 ^ 24))
    else Fault.

(** A buffer of [n] zero bytes at address [base]. *)
Definition zeroed (base : Z) (n : nat) : memory := mkMem base (repeat 0 n).

End Memory.

(** ** Copy routines of the heap facade ([os_mem.c]) *)

Module Copy.
Import Memory.

Definition ALIGN_MASK : Z := 3.

(** [COPY8]: [*d8 = *s8; d8++; s8++;] *)
Definition COPY8 (d8 s8 : Z) : M (Z * Z) :=
  v <- load8 s8 ;; store8 d8 v ;;; ret (d8 + 1, s8 + 1).

(** [COPY32]: [*d32 = *s32; d32++; s32++;] *)
Definition COPY32 (d32 s32 : Z) : M (Z * Z) :=
  v <- load32 s32 ;; store32 d32 v ;;; ret (d32 + 4, s32 + 4).

(** [n] textual repetitions of a copy macro ([REPEAT8] and its nestings). *)
Fixpoint REPEAT (n : nat) (step : Z -> Z -> M (Z * Z)) (d s : Z) : M (Z * Z) :=
  match n with
  | O => ret (d, s)
  | S n' => '(d', s') <- step d s ;; REPEAT n' step d' s'
  end.

(** [while(len > bound) { body; len -= chunk; }]; the fuel is the initial
    [len], which the loop cannot outlast. *)
Fixpoint while_gt (fuel : nat) (bound chunk : Z) (body : Z -> Z -> M (Z * Z))
         (d s len : Z) : M (Z * Z * Z) :=
  match fuel with
  | O => ret (d, s, len)
  | S fuel' =>
      if bound <? len then
        '(d', s') <- body d s ;;
        while_gt fuel' bound chunk body d' s' (len - chunk)
      else ret (d, s, len)
  end.

(** [while(d_align && len) { COPY8; d_align--; len--; }] *)
Fixpoint align_loop (fuel : nat) (d s d_align len : Z) : M (Z * Z * Z) :=
  match fuel with
  | O => ret (d, s, len)
  | S fuel' =>
      if negb (d_align =? 0) && negb (len =? 0) then
        '(d', s') <- COPY8 d s ;;
        align_loop fuel' d' s' (d_align - 1) (len - 1)
      else ret (d, s, len)
  end.

Definition os_memcpy (dst src len : Z) : M Z :=
  let d8 := dst in
  let s8 := src in
  let d_align := Z.land d8 ALIGN_MASK in
  let s_align := Z.land s8 ALIGN_MASK in
  if negb (s_align =? d_align) then
    '(d8, s8, len) <- while_gt (Z.to_nat len) 32 32 (REPEAT 32 COPY8) d8 s8 len ;;
    '(_, _, _) <- while_gt (Z.to_nat len) 0 1 COPY8 d8 s8 len ;;
    ret dst
  else
    '(d8, s8, len) <-
      (if negb (d_align =? 0) then
         align_loop 4 d8 s8 (ALIGN_MASK + 1 - d_align) len
       else ret (d8, s8, len)) ;;
    '(d32, s32, len) <- while_gt (Z.to_nat len) 32 32 (REPEAT 8 COPY32) d8 s8 len ;;
    '(d32, s32, len) <- while_gt (Z.to_nat len) 4 4 COPY32 d32 s32 len ;;
    '(_, _, _) <- while_gt (Z.to_nat len) 0 1 COPY8 d32 s32 len ;;
    ret dst.

(** [os_memcpy_small]: the byte-only loop. *)
Definition os_memcpy_small (dst src len : Z) : M Z :=
  '(_, _, _) <- while_gt (Z.to_nat len) 0 1 COPY8 dst src len ;;
  ret dst.

(** The naive reference copy: byte [i] of the source goes to byte [i] of
    the destination, for [i] from [0] upwards. *)
Fixpoint naive_copy (n : nat) (d s : Z) : M unit :=
  match n with
  | O => ret tt
  | S n' => v <- load8 s ;; store8 d v ;;; naive_copy n' (d + 1) (s + 1)
  end.


(** [SET8(x)]: [*d8 = x; d8++;] and [SET32(x)]: [*d32 = x; d32++;] *)
Definition SET8 (x d8 : Z) : M Z := store8 d8 x ;;; ret (d8 + 1).
Definition SET32 (x d32 : Z) : M Z := store32 d32 x ;;; ret (d32 + 4).

Fixpoint REPEAT_SET (n : nat) (step : Z -> M Z) (d : Z) : M Z :=
  match n with
  | O => ret d
  | S n' => d' <- step d ;; REPEAT_SET n' step d'
  end.

(** [while(len > bound) { body; len -= chunk; }] for the set routines. *)
Fixpoint set_while_gt (fuel : nat) (bound chunk : Z) (body : Z -> M Z)
         (d len : Z) : M (Z * Z) :=
  match fuel with
  | O => ret (d, len)
  | S fuel' =>
      if bound <? len then
        d' <- body d ;;
        set_while_gt fuel' bound chunk body d' (len - chunk)
      else ret (d, len)
  end.

(** [while(d_align && len) { SET8(v); len--; d_align--; }] *)
Fixpoint set_align_loop (fuel : nat) (v d d_align len : Z) : M (Z * Z) :=
  match fuel with
  | O => ret (d, len)
  | S fuel' =>
      if negb (d_align =? 0) && negb (len =? 0) then
        d' <- SET8 v d ;;
        set_align_loop fuel' v d' (d_align - 1) (len - 1)
      else ret (d, len)
  end.

(** The common shape of [os_memset], [os_memset_00] and [os_memset_ff]:
    bytes [v8] up to a word boundary, words [v32] in chunks of 32 bytes and
    then singly, bytes [v8] for the rest. *)
Definition set_bytes_then_words (v8 v32 dst len : Z) : M unit :=
  let d8 := dst in
  let d_align := Z.land d8 ALIGN_MASK in
  '(d8, len) <-
    (if negb (d_align =? 0) then
       set_align_loop 4 v8 d8 (ALIGN_MASK + 1 - d_align) len
     else ret (d8, len)) ;;
  '(d32, len) <- set_while_gt (Z.to_nat len) 32 32 (REPEAT_SET 8 (SET32 v32)) d8 len ;;
  '(d32, len) <- set_while_gt (Z.to_nat len) 4 4 (SET32 v32) d32 len ;;
  '(_, _) <- set_while_gt (Z.to_nat len) 0 1 (SET8 v8) d32 len ;;
  ret tt.

(** [v] arrives as a [uint8_t]. *)
Definition os_memset (dst v len : Z) : M unit :=
  let v := v mod 256 in
  let v32 := Word.u32 (v + Z.shiftl v 8 + Z.shiftl v 16 + Z.shiftl v 24) in
  set_bytes_then_words v v32 dst len.

Definition os_memset_00 (dst len : Z) : M unit :=
  set_bytes_then_words 0 0 dst len.

Definition os_memset_ff (dst len : Z) : M unit :=
  set_bytes_then_words 255 4294967295 dst len.

End Copy.

(** ** The TLSF allocator ([os_tlsf.c]) *)

Module Tlsf.
Import Word.

(** *** Constants *)

Definition OS_MEM_SIZE : Z := 1024.
Definition TLSF_MAX_POOL_SIZE : Z := OS_MEM_SIZE.

Definition TLSF_FLS1 (n : Z) : Z := if Z.land n 1 =? 0 then 0 else 1.
Definition TLSF_FLS2 (n : Z) : Z :=
  if Z.land n 2 =? 0 then TLSF_FLS1 n else 1 + TLSF_FLS1 (Z.shiftr n 1).
Definition TLSF_FLS4 (n : Z) : Z :=
  if Z.land n 12 =? 0 then TLSF_FLS2 n else 2 + TLSF_FLS2 (Z.shiftr n 2).
Definition TLSF_FLS8 (n : Z) : Z :=
  if Z.land n 240 =? 0 then TLSF_FLS4 n else 4 + TLSF_FLS4 (Z.shiftr n 4).
Definition TLSF_FLS16 (n : Z) : Z :=
  if Z.land n 65280 =? 0 then TLSF_FLS8 n else 8 + TLSF_FLS8 (Z.shiftr n 8).
Definition TLSF_FLS32 (n : Z) : Z :=
  if Z.land n 4294901760 =? 0 then TLSF_FLS16 n
  else 16 + TLSF_FLS16 (Z.shiftr n 16).
Definition TLSF_FLS (n : Z) : Z := TLSF_FLS32 n.

Definition TLSF_LOG2_CEIL (n : Z) : Z :=
  if Z.land n (n - 1) =? 0 then TLSF_FLS n - 1 else TLSF_FLS n.

Definition SL_INDEX_COUNT_LOG2 : Z := 5.
Definition ALIGN_SIZE_LOG2 : Z := 2.
Definition ALIGN_SIZE : Z := Z.shiftl 1 ALIGN_SIZE_LOG2.
Definition FL_INDEX_MAX : Z := Eval vm_compute in TLSF_LOG2_CEIL TLSF_MAX_POOL_SIZE.
Definition SL_INDEX_COUNT : Z := Z.shiftl 1 SL_INDEX_COUNT_LOG2.
Definition FL_INDEX_SHIFT : Z := SL_INDEX_COUNT_LOG2 + ALIGN_SIZE_LOG2.
Definition FL_INDEX_COUNT : Z := FL_INDEX_MAX - FL_INDEX_SHIFT + 1.
Definition SMALL_BLOCK_SIZE : Z := Z.shiftl 1 FL_INDEX_SHIFT.

(** [block_header_t] is four 32-bit fields. *)
Definition sizeof_ptr : Z := 4.
Definition sizeof_size_t : Z := 4.
Definition sizeof_block_header_t : Z := 16.
Definition off_prev_phys_block : Z := 0.
Definition off_size : Z := 4.
Definition off_next_free : Z := 8.
Definition off_prev_free : Z := 12.

Definition block_header_free_bit : Z := Z.shiftl 1 0.
Definition block_header_prev_free_bit : Z := Z.shiftl 1 1.
Definition block_header_overhead : Z := sizeof_size_t.
Definition block_start_offset : Z := off_size + sizeof_size_t.
Definition block_size_min : Z := sizeof_block_header_t - sizeof_ptr.
Definition block_size_max : Z := Z.shiftl 1 FL_INDEX_MAX.

(** [control_t]: [block_null], [fl_bitmap], [sl_bitmap[FL_INDEX_COUNT]],
    [blocks[FL_INDEX_COUNT][SL_INDEX_COUNT]]. *)
Definition off_block_null : Z := 0.
Definition off_fl_bitmap : Z := sizeof_block_header_t.
Definition off_sl_bitmap : Z := off_fl_bitmap + 4.
Definition off_blocks : Z := off_sl_bitmap + 4 * FL_INDEX_COUNT.
Definition sizeof_control_t : Z :=
  off_blocks + sizeof_ptr * (FL_INDEX_COUNT * SL_INDEX_COUNT).

(** *** Bit scans *)

Definition tlsf_ffs (word : Z) : Z := builtin_ffs word - 1.

Definition tlsf_fls (word : Z) : Z :=
  let bit := if word =? 0 then 0 else 32 - builtin_clz word in
  bit - 1.

(** *** Size to index mapping *)

Definition mapping_insert (size : Z) : Z * Z :=
  if size <? SMALL_BLOCK_SIZE then
    (0, Z.quot (to_int size) (Z.quot SMALL_BLOCK_SIZE SL_INDEX_COUNT))
  else
    let fl := tlsf_fls size in
    let sl := Z.lxor (to_int (shr size (fl - SL_INDEX_COUNT_LOG2)))
                     (Z.shiftl 1 SL_INDEX_COUNT_LOG2) in
    (fl - (FL_INDEX_SHIFT - 1), sl).

Definition mapping_search (size : Z) : Z * Z :=
  let size :=
    if SMALL_BLOCK_SIZE <=? size then
      let round := Z.shiftl 1 (tlsf_fls size - SL_INDEX_COUNT_LOG2) - 1 in
      add size round
    else size in
  mapping_insert size.

(** *** [block_header_t] member functions *)

Import Memory.

Definition field (p off : Z) : Z := add p off.

Definition flag_bits : Z := Z.lor block_header_free_bit block_header_prev_free_bit.

Definition block_size (block : Z) : M Z :=
  s <- load32 (field block off_size) ;;
  ret (Z.land s (not32 flag_bits)).

Definition block_set_size (block size : Z) : M unit :=
  oldsize <- load32 (field block off_size) ;;
  store32 (field block off_size) (Z.lor size (Z.land oldsize flag_bits)).

Definition block_is_last (block : Z) : M bool :=
  s <- block_size block ;; ret (s =? 0).

Definition block_is_free (block : Z) : M bool :=
  s <- load32 (field block off_size) ;;
  ret (negb (Z.land s block_header_free_bit =? 0)).

Definition block_set_free (block : Z) : M unit :=
  s <- load32 (field block off_size) ;;
  store32 (field block off_size) (Z.lor s block_header_free_bit).

Definition block_set_used (block : Z) : M unit :=
  s <- load32 (field block off_size) ;;
  store32 (field block off_size) (Z.land s (not32 block_header_free_bit)).

Definition block_is_prev_free (block : Z) : M bool :=
  s <- load32 (field block off_size) ;;
  ret (negb (Z.land s block_header_prev_free_bit =? 0)).

Definition block_set_prev_free (block : Z) : M unit :=
  s <- load32 (field block off_size) ;;
  store32 (field block off_size) (Z.lor s block_header_prev_free_bit).

Definition block_set_prev_used (block : Z) : M unit :=
  s <- load32 (field block off_size) ;;
  store32 (field block off_size) (Z.land s (not32 block_header_prev_free_bit)).

Definition block_from_ptr (ptr : Z) : Z := sub ptr block_start_offset.
Definition block_to_ptr (block : Z) : Z := add block block_start_offset.
Definition offset_to_block (ptr size : Z) : Z := add ptr size.

Definition block_prev (block : Z) : M Z :=
  load32 (field block off_prev_phys_block).

Definition block_next (block : Z) : M Z :=
  sz <- block_size block ;;
  ret (offset_to_block (block_to_ptr block) (sub sz block_header_overhead)).

Definition block_link_next (block : Z) : M Z :=
  next <- block_next block ;;
  store32 (field next off_prev_phys_block) block ;;;
  ret next.

Definition block_mark_as_free (block : Z) : M unit :=
  next <- block_link_next block ;;
  block_set_prev_free next ;;;
  block_set_free block.

Definition block_mark_as_used (block : Z) : M unit :=
  next <- block_next block ;;
  block_set_prev_used next ;;;
  block_set_used block.

Definition align_up (x align : Z) : Z :=
  Z.land (add x (sub align 1)) (not32 (sub align 1)).

Definition align_down (x align : Z) : Z :=
  sub x (Z.land x (sub align 1)).

Definition align_ptr (ptr align : Z) : Z :=
  Z.land (add ptr (sub align 1)) (not32 (sub align 1)).

Definition adjust_request_size (size align : Z) : Z :=
  if size =? 0 then 0
  else
    let aligned := align_up size align in
    if aligned <? block_size_max then Z.max aligned block_size_min else 0.

(** *** The control structure

    [sl_bitmap[fl]] and [blocks[fl][sl]] are C arrays: an index outside
    their bounds is undefined behaviour, hence a fault. *)

Definition fl_bitmap_at (control : Z) : Z := field control off_fl_bitmap.

Definition sl_bitmap_at (control fl : Z) : M Z :=
  if (0 <=? fl) && (fl <? FL_INDEX_COUNT)
  then ret (field control (off_sl_bitmap + 4 * fl)) else fault.

Definition blocks_at (control fl sl : Z) : M Z :=
  if (0 <=? fl) && (fl <? FL_INDEX_COUNT) && (0 <=? sl) && (sl <? SL_INDEX_COUNT)
  then ret (field control (off_blocks + sizeof_ptr * (fl * SL_INDEX_COUNT + sl)))
  else fault.

(** [&control->block_null] *)
Definition block_null (control : Z) : Z := field control off_block_null.

(** Returns the block found (0 when memory is exhausted) together with the
    indices left in [*fli] and [*sli]. *)
Definition search_suitable_block (control fl sl : Z) : M (Z * Z * Z) :=
  let finish (fl sl_map : Z) : M (Z * Z * Z) :=
    let sl := tlsf_ffs sl_map in
    a <- blocks_at control fl sl ;;
    b <- load32 a ;;
    ret (b, fl, sl) in
  a <- sl_bitmap_at control fl ;;
  w <- load32 a ;;
  let sl_map := Z.land w (shl (not32 0) sl) in
  if sl_map =? 0 then
    flw <- load32 (fl_bitmap_at control) ;;
    let fl_map := Z.land flw (shl (not32 0) (fl + 1)) in
    if fl_map =? 0 then ret (0, fl, sl)
    else
      let fl := tlsf_ffs fl_map in
      a <- sl_bitmap_at control fl ;;
      sl_map <- load32 a ;;
      finish fl sl_map
  else finish fl sl_map.

Definition remove_free_block (control block fl sl : Z) : M unit :=
  prev <- load32 (field block off_prev_free) ;;
  next <- load32 (field block off_next_free) ;;
  store32 (field next off_prev_free) prev ;;;
  store32 (field prev off_next_free) next ;;;
  ha <- blocks_at control fl sl ;;
  head <- load32 ha ;;
  if head =? block then
    store32 ha next ;;;
    if next =? block_null control then
      sa <- sl_bitmap_at control fl ;;
      w <- load32 sa ;;
      store32 sa (Z.land w (not32 (shl 1 sl))) ;;;
      w' <- load32 sa ;;
      if w' =? 0 then
        f <- load32 (fl_bitmap_at control) ;;
        store32 (fl_bitmap_at control) (Z.land f (not32 (shl 1 fl)))
      else ret tt
    else ret tt
  else ret tt.

Definition insert_free_block (control block fl sl : Z) : M unit :=
  ha <- blocks_at control fl sl ;;
  current <- load32 ha ;;
  store32 (field block off_next_free) current ;;;
  store32 (field block off_prev_free) (block_null control) ;;;
  store32 (field current off_prev_free) block ;;;
  store32 ha block ;;;
  f <- load32 (fl_bitmap_at control) ;;
  store32 (fl_bitmap_at control) (Z.lor f (shl 1 fl)) ;;;
  sa <- sl_bitmap_at control fl ;;
  w <- load32 sa ;;
  store32 sa (Z.lor w (shl 1 sl)).

Definition block_remove (control block : Z) : M unit :=
  sz <- block_size block ;;
  let '(fl, sl) := mapping_insert sz in
  remove_free_block control block fl sl.

Definition block_insert (control block : Z) : M unit :=
  sz <- block_size block ;;
  let '(fl, sl) := mapping_insert sz in
  insert_free_block control block fl sl.

Definition block_can_split (block size : Z) : M bool :=
  sz <- block_size block ;;
  ret (add sizeof_block_header_t size <=? sz).

Definition block_split (block size : Z) : M Z :=
  let remaining :=
    offset_to_block (block_to_ptr block) (sub size block_header_overhead) in
  block_set_size block size ;;;
  block_mark_as_free remaining ;;;
  ret remaining.

Definition block_absorb (prev block : Z) : M Z :=
  sz <- block_size block ;;
  w <- load32 (field prev off_size) ;;
  store32 (field prev off_size) (add w (add sz block_header_overhead)) ;;;
  _ <- block_link_next prev ;;
  ret prev.

Definition block_merge_prev (control block : Z) : M Z :=
  pf <- block_is_prev_free block ;;
  if pf then
    prev <- block_prev block ;;
    block_remove control prev ;;;
    block_absorb prev block
  else ret block.

Definition block_merge_next (control block : Z) : M Z :=
  next <- block_next block ;;
  nf <- block_is_free next ;;
  if nf then
    block_remove control next ;;;
    block_absorb block next
  else ret block.

Definition block_trim_free (control block size : Z) : M unit :=
  cs <- block_can_split block size ;;
  if cs then
    remaining_block <- block_split block size ;;
    _ <- block_link_next block ;;
    block_set_prev_free remaining_block ;;;
    block_insert control remaining_block
  else ret tt.

Definition block_trim_used (control block size : Z) : M unit :=
  cs <- block_can_split block size ;;
  if cs then
    remaining_block <- block_split block size ;;
    block_set_prev_used remaining_block ;;;
    remaining_block <- block_merge_next control remaining_block ;;
    block_insert control remaining_block
  else ret tt.

Definition block_trim_free_leading (control block size : Z) : M Z :=
  cs <- block_can_split block size ;;
  if cs then
    remaining_block <- block_split block (sub size block_header_overhead) ;;
    block_set_prev_free remaining_block ;;;
    _ <- block_link_next block ;;
    block_insert control block ;;;
    ret remaining_block
  else ret block.

Definition block_locate_free (control size : Z) : M Z :=
  '(block, fl, sl) <-
    (if size =? 0 then ret (0, 0, 0)
     else
       let '(fl, sl) := mapping_search size in
       if fl <? FL_INDEX_COUNT then search_suitable_block control fl sl
       else ret (0, fl, sl)) ;;
  if block =? 0 then ret block
  else remove_free_block control block fl sl ;;; ret block.

Definition block_prepare_used (control block size : Z) : M Z :=
  if block =? 0 then ret 0
  else
    block_trim_free control block size ;;;
    block_mark_as_used block ;;;
    ret (block_to_ptr block).

Fixpoint for_each (l : list Z) (f : Z -> M unit) : M unit :=
  match l with
  | [] => ret tt
  | i :: l' => f i ;;; for_each l' f
  end.

(** [0, 1, ..., n - 1] *)
Definition upto (n : Z) : list Z := map Z.of_nat (seq 0 (Z.to_nat n)).

Definition control_constructor (control : Z) : M unit :=
  store32 (field (block_null control) off_next_free) (block_null control) ;;;
  store32 (field (block_null control) off_prev_free) (block_null control) ;;;
  store32 (fl_bitmap_at control) 0 ;;;
  for_each (upto FL_INDEX_COUNT) (fun i =>
    sa <- sl_bitmap_at control i ;;
    store32 sa 0 ;;;
    for_each (upto SL_INDEX_COUNT) (fun j =>
      ha <- blocks_at control i j ;;
      store32 ha (block_null control))).

(** *** Debugging utilities *)

(** [integrity_t]: [prev_status] and [status]. *)
Record integrity_t : Type := mkInteg { prev_status : Z; status : Z }.

Definition integrity_walker (ptr size : Z) (used : bool) (integ : integrity_t)
  : M integrity_t :=
  let block := block_from_ptr ptr in
  fr <- block_is_free block ;;
  let this_status := if fr then 1 else 0 in
  let status0 := 0 in
  ret (mkInteg this_status (to_int (status integ + status0))).

(** The inner [while(block != &control->block_null)] of [os_tlsf_check]. *)
Fixpoint check_list (fuel : nat) (control block : Z) : M unit :=
  match fuel with
  | O => diverge
  | S fuel' =>
      if block =? block_null control then ret tt
      else
        sz <- block_size block ;;
        let '(fli, sli) := mapping_insert sz in
        next <- load32 (field block off_next_free) ;;
        check_list fuel' control next
  end.

Definition os_tlsf_check (fuel : nat) (tlsf : Z) : M Z :=
  let control := tlsf in
  let status := 0 in
  for_each (upto FL_INDEX_COUNT) (fun i =>
    for_each (upto SL_INDEX_COUNT) (fun j =>
      ha <- blocks_at control i j ;;
      block <- load32 ha ;;
      check_list fuel control block)) ;;;
  ret status.

Definition default_walker {U} (ptr size : Z) (used : bool) (user : U) : M U :=
  ret user.

Fixpoint walk_loop {U} (fuel : nat) (pool_walker : Z -> Z -> bool -> U -> M U)
         (block : Z) (user : U) : M U :=
  match fuel with
  | O => diverge
  | S fuel' =>
      if block =? 0 then ret user
      else
        last <- block_is_last block ;;
        if last then ret user
        else
          sz <- block_size block ;;
          fr <- block_is_free block ;;
          user' <- pool_walker (block_to_ptr block) sz (negb fr) user ;;
          next <- block_next block ;;
          walk_loop fuel' pool_walker next user'
  end.

Definition os_tlsf_walk_pool {U} (fuel : nat) (pool : Z)
           (walker : option (Z -> Z -> bool -> U -> M U)) (user : U) : M U :=
  let pool_walker := match walker with Some w => w | None => default_walker end in
  let block := offset_to_block pool (u32 (- to_int block_header_overhead)) in
  walk_loop fuel pool_walker block user.

Definition os_tlsf_block_size (ptr : Z) : M Z :=
  if ptr =? 0 then ret 0 else block_size (block_from_ptr ptr).

Definition os_tlsf_check_pool (fuel : nat) (pool : Z) : M Z :=
  integ <- os_tlsf_walk_pool fuel pool (Some integrity_walker) (mkInteg 0 0) ;;
  ret (status integ).

Definition os_tlsf_size : Z := sizeof_control_t.
Definition os_tlsf_align_size : Z := ALIGN_SIZE.
Definition os_tlsf_block_size_min : Z := block_size_min.
Definition os_tlsf_block_size_max : Z := block_size_max.
Definition os_tlsf_pool_overhead : Z := 2 * block_header_overhead.
Definition os_tlsf_alloc_overhead : Z := block_header_overhead.

(** *** Pools *)

Definition os_tlsf_add_pool (tlsf mem bytes : Z) : M Z :=
  let pool_overhead := os_tlsf_pool_overhead in
  let pool_bytes := align_down (sub bytes pool_overhead) ALIGN_SIZE in
  if negb (Z.rem (to_int mem) ALIGN_SIZE =? 0) then ret 0
  else if (pool_bytes <? block_size_min) || (block_size_max <? pool_bytes) then ret 0
  else
    let block := offset_to_block mem (u32 (- to_int block_header_overhead)) in
    block_set_size block pool_bytes ;;;
    block_set_free block ;;;
    block_set_prev_used block ;;;
    block_insert tlsf block ;;;
    next <- block_link_next block ;;
    block_set_size next 0 ;;;
    block_set_used next ;;;
    block_set_prev_free next ;;;
    ret mem.

Definition os_tlsf_remove_pool (tlsf pool : Z) : M unit :=
  let control := tlsf in
  let block := offset_to_block pool (u32 (- to_int block_header_overhead)) in
  sz <- block_size block ;;
  let '(fl, sl) := mapping_insert sz in
  remove_free_block control block fl sl.

Definition os_tlsf_create (mem : Z) : M Z :=
  if negb (Z.rem (to_int mem) ALIGN_SIZE =? 0) then ret 0
  else control_constructor mem ;;; ret mem.

Definition os_tlsf_create_with_pool (mem bytes : Z) : M Z :=
  tlsf <- os_tlsf_create mem ;;
  _ <- os_tlsf_add_pool tlsf (add mem os_tlsf_size) (sub bytes os_tlsf_size) ;;
  ret tlsf.

Definition os_tlsf_get_pool (tlsf : Z) : Z := add tlsf os_tlsf_size.

(** *** Allocation *)

Definition os_tlsf_malloc (tlsf size : Z) : M Z :=
  let control := tlsf in
  let adjust := adjust_request_size size ALIGN_SIZE in
  block <- block_locate_free control adjust ;;
  block_prepare_used control block adjust.

Definition os_tlsf_memalign (tlsf align size : Z) : M Z :=
  let control := tlsf in
  let adjust := adjust_request_size size ALIGN_SIZE in
  let gap_minimum := sizeof_block_header_t in
  let size_with_gap :=
    adjust_request_size (add (add adjust align) gap_minimum) align in
  let aligned_size :=
    if negb (adjust =? 0) && (ALIGN_SIZE <? align) then size_with_gap else adjust in
  block <- block_locate_free control aligned_size ;;
  block <-
    (if block =? 0 then ret block
     else
       let ptr := block_to_ptr block in
       let aligned := align_ptr ptr align in
       let gap := sub aligned ptr in
       let '(aligned, gap) :=
         if negb (gap =? 0) && (gap <? gap_minimum) then
           let gap_remain := sub gap_minimum gap in
           let offset := Z.max gap_remain align in
           let next_aligned := add aligned offset in
           let aligned := align_ptr next_aligned align in
           (aligned, sub aligned ptr)
         else (aligned, gap) in
       if negb (gap =? 0) then block_trim_free_leading control block gap
       else ret block) ;;
  block_prepare_used control block adjust.

Definition os_tlsf_free (tlsf ptr : Z) : M Z :=
  if ptr =? 0 then ret 0
  else
    let control := tlsf in
    let block := block_from_ptr ptr in
    size <- load32 (field block off_size) ;;
    block_mark_as_free block ;;;
    block <- block_merge_prev control block ;;
    block <- block_merge_next control block ;;
    block_insert control block ;;;
    ret size.

Definition os_tlsf_realloc (tlsf ptr size : Z) : M Z :=
  let control := tlsf in
  if negb (ptr =? 0) && (size =? 0) then
    _ <- os_tlsf_free tlsf ptr ;; ret 0
  else if ptr =? 0 then os_tlsf_malloc tlsf size
  else
    let block := block_from_ptr ptr in
    next <- block_next block ;;
    cursize <- block_size block ;;
    nsz <- block_size next ;;
    let combined := add (add cursize nsz) block_header_overhead in
    let adjust := adjust_request_size size ALIGN_SIZE in
    if (cursize <? size) && (adjust =? 0) then ret 0
    else
      nf <- block_is_free next ;;
      if (cursize <? adjust) && (negb nf || (combined <? adjust)) then
        p <- os_tlsf_malloc tlsf size ;;
        if negb (p =? 0) then
          let minsize := Z.min cursize size in
          _ <- Copy.os_memcpy p ptr minsize ;;
          _ <- os_tlsf_free tlsf ptr ;;
          ret p
        else ret p
      else
        (if cursize <? adjust then
           _ <- block_merge_next control block ;;
           block_mark_as_used block
         else ret tt) ;;;
        block_trim_used control block adjust ;;;
        ret ptr.

(** The mapping as the specification words it. *)
Definition spec_mapping (s : Z) : Z * Z :=
  if s <? 128 then (0, s / (128 / 32))
  else
    let fl := Z.log2 s - (7 - 1) in
    (fl, Z.lxor (Z.shiftr s (fl + 7 - 1 - 5)) 32).

End Tlsf.

(** ** The heap facade ([os_mem.c]) *)

Module OsMem.
Import Word Memory Tlsf.

Definition ZERO_MEM_SENTINEL : Z := 2712847316.
Definition OS_RES_INV : Z := 0.
Definition OS_RES_OK : Z := 1.
Definition OS_MAX (a b : Z) : Z := if b <? a then a else b.

(** The static variables of [os_mem.c].  [zero_mem] is the current value of
    the four-byte object handed out for zero-byte allocations; it lives
    outside the heap buffer. *)
Record globals : Type := mkGlobals {
  tlsf : Z;
  cur_used : Z;
  max_used : Z;
  zero_mem : Z
}.

Definition initial_globals : globals := mkGlobals 0 0 0 ZERO_MEM_SENTINEL.

(** [os_mem_monitor_t] *)
Record os_mem_monitor_t : Type := mkMon {
  total_size : Z; free_cnt : Z; free_size : Z; free_biggest_size : Z;
  used_cnt : Z; mon_max_used : Z; used_pct : Z; frag_pct : Z
}.

Definition os_mem_walker (ptr size : Z) (used : bool) (mon : os_mem_monitor_t)
  : M os_mem_monitor_t :=
  if used then
    ret (mkMon (total_size mon) (free_cnt mon) (free_size mon)
               (free_biggest_size mon) (add (used_cnt mon) 1)
               (mon_max_used mon) (used_pct mon) (frag_pct mon))
  else
    let big := if free_biggest_size mon <? size then size
               else free_biggest_size mon in
    ret (mkMon (total_size mon) (add (free_cnt mon) 1)
               (add (free_size mon) size) big (used_cnt mon)
               (mon_max_used mon) (used_pct mon) (frag_pct mon)).


(** [os_mem_buf_t] *)
Record os_mem_buf_t : Type := mkBuf {
  buf_p : Z; buf_size : Z; buf_used : bool
}.

Definition OS_MEM_BUF_MAX_NUM : Z := 16.

(** [os_mem_buf[i]], and the array with [os_mem_buf[i]] replaced. *)
Definition buf_at (bufs : list os_mem_buf_t) (i : Z) : os_mem_buf_t :=
  nth (Z.to_nat i) bufs (mkBuf 0 0 false).

Fixpoint buf_upd (bufs : list os_mem_buf_t) (i : nat) (b : os_mem_buf_t)
  : list os_mem_buf_t :=
  match bufs, i with
  | [], _ => []
  | _ :: t, O => b :: t
  | h :: t, S i' => h :: buf_upd t i' b
  end.

Definition buf_put (bufs : list os_mem_buf_t) (i : Z) (b : os_mem_buf_t)
  : list os_mem_buf_t :=
  buf_upd bufs (Z.to_nat i) b.

(** The array at start-up: a static object, all zero. *)
Definition os_mem_buf_init : list os_mem_buf_t :=
  repeat (mkBuf 0 0 false) (Z.to_nat OS_MEM_BUF_MAX_NUM).

Section Facade.

(** The addresses the linker gives to [work_mem_int] and to [zero_mem]. *)
Variable work_mem_int : Z.
Variable zero_mem_addr : Z.

Definition os_mem_init (g : globals) : M globals :=
  t <- os_tlsf_create_with_pool work_mem_int OS_MEM_SIZE ;;
  ret (mkGlobals t (cur_used g) (max_used g) (zero_mem g)).

Definition os_mem_monitor (fuel : nat) (g : globals) : M os_mem_monitor_t :=
  let mon := mkMon 0 0 0 0 0 0 0 0 in
  mon <- os_tlsf_walk_pool fuel (os_tlsf_get_pool (tlsf g)) (Some os_mem_walker) mon ;;
  let total := OS_MEM_SIZE in
  let upct := (100 - u32 (100 * free_size mon) / total) mod 256 in
  let fpct :=
    if 0 <? free_size mon then
      (100 - (u32 (free_biggest_size mon * 100) / free_size mon) mod 256) mod 256
    else 0 in
  ret (mkMon total (free_cnt mon) (free_size mon) (free_biggest_size mon)
             (used_cnt mon) (max_used g) upct fpct).

(** The block under [#if LV_LOG_LEVEL <= LV_LOG_LEVEL_INFO] is compiled in
    (both names are undefined, hence zero): a failed allocation walks the
    pool.  [fuel] bounds that walk. *)
Definition os_mem_alloc (fuel : nat) (g : globals) (size : Z) : M (Z * globals) :=
  if size =? 0 then ret (zero_mem_addr, g)
  else
    alloc <- os_tlsf_malloc (tlsf g) size ;;
    _ <- (if alloc =? 0 then os_mem_monitor fuel g
          else ret (mkMon 0 0 0 0 0 0 0 0)) ;;
    if negb (alloc =? 0) then
      let cu := add (cur_used g) size in
      ret (alloc, mkGlobals (tlsf g) cu (OS_MAX cu (max_used g)) (zero_mem g))
    else ret (alloc, g).

Definition os_mem_free (g : globals) (data : Z) : M globals :=
  if data =? zero_mem_addr then ret g
  else if data =? 0 then ret g
  else
    size <- os_tlsf_free (tlsf g) data ;;
    let cu := if size <? cur_used g then sub (cur_used g) size else 0 in
    ret (mkGlobals (tlsf g) cu (max_used g) (zero_mem g)).

Definition os_mem_realloc (fuel : nat) (g : globals) (data_p new_size : Z)
  : M (Z * globals) :=
  if new_size =? 0 then
    g' <- os_mem_free g data_p ;; ret (zero_mem_addr, g')
  else if data_p =? zero_mem_addr then os_mem_alloc fuel g new_size
  else
    new_p <- os_tlsf_realloc (tlsf g) data_p new_size ;;
    if new_p =? 0 then ret (0, g) else ret (new_p, g).

Definition os_mem_test (fuel : nat) (g : globals) : M Z :=
  if negb (zero_mem g =? ZERO_MEM_SENTINEL) then ret OS_RES_INV
  else
    c <- os_tlsf_check fuel (tlsf g) ;;
    if negb (c =? 0) then ret OS_RES_INV
    else
      cp <- os_tlsf_check_pool fuel (os_tlsf_get_pool (tlsf g)) ;;
      if negb (cp =? 0) then ret OS_RES_INV
      else ret OS_RES_OK.


(** *** Temporary buffers

    [os_mem_buf] is an array of [OS_MEM_BUF_MAX_NUM] entries; the model
    passes it along as a list that the loops index from 0 to 15.  The
    [size] field is a [uint16_t]. *)

Fixpoint buf_search (n : nat) (i : Z) (bufs : list os_mem_buf_t)
         (size i_guess : Z) : Z + Z :=
  match n with
  | O => inr i_guess
  | S n' =>
      let b := buf_at bufs i in
      if negb (buf_used b) && (size <=? buf_size b) then
        if buf_size b =? size then inl i
        else if i_guess <? 0 then buf_search n' (i + 1) bufs size i
        else if buf_size b <? buf_size (buf_at bufs i_guess)
             then buf_search n' (i + 1) bufs size i
             else buf_search n' (i + 1) bufs size i_guess
      else buf_search n' (i + 1) bufs size i_guess
  end.

Fixpoint buf_first_unused (n : nat) (i : Z) (bufs : list os_mem_buf_t)
  : option Z :=
  match n with
  | O => None
  | S n' =>
      if negb (buf_used (buf_at bufs i)) then Some i
      else buf_first_unused n' (i + 1) bufs
  end.

Definition set_used (b : os_mem_buf_t) (u : bool) : os_mem_buf_t :=
  mkBuf (buf_p b) (buf_size b) u.

Definition os_mem_buf_get (fuel : nat) (g : globals) (bufs : list os_mem_buf_t)
           (size : Z) : M (Z * globals * list os_mem_buf_t) :=
  if size =? 0 then ret (0, g, bufs)
  else
    match buf_search (Z.to_nat OS_MEM_BUF_MAX_NUM) 0 bufs size (-1) with
    | inl i =>
        ret (buf_p (buf_at bufs i), g, buf_put bufs i (set_used (buf_at bufs i) true))
    | inr i_guess =>
        if 0 <=? i_guess then
          ret (buf_p (buf_at bufs i_guess), g,
               buf_put bufs i_guess (set_used (buf_at bufs i_guess) true))
        else
          match buf_first_unused (Z.to_nat OS_MEM_BUF_MAX_NUM) 0 bufs with
          | Some i =>
              '(buf, g') <- os_mem_realloc fuel g (buf_p (buf_at bufs i)) size ;;
              if buf =? 0 then ret (0, g', bufs)
              else ret (buf, g', buf_put bufs i (mkBuf buf (size mod 2 ^ 16) true))
          | None => ret (0, g, bufs)
          end
    end.

Fixpoint buf_release_from (n : nat) (i : Z) (bufs : list os_mem_buf_t) (p : Z)
  : list os_mem_buf_t :=
  match n with
  | O => bufs
  | S n' =>
      if buf_p (buf_at bufs i) =? p
      then buf_put bufs i (set_used (buf_at bufs i) false)
      else buf_release_from n' (i + 1) bufs p
  end.

Definition os_mem_buf_release (bufs : list os_mem_buf_t) (p : Z)
  : list os_mem_buf_t :=
  buf_release_from (Z.to_nat OS_MEM_BUF_MAX_NUM) 0 bufs p.

Fixpoint buf_free_from (n : nat) (i : Z) (g : globals)
         (bufs : list os_mem_buf_t) : M (globals * list os_mem_buf_t) :=
  match n with
  | O => ret (g, bufs)
  | S n' =>
      if negb (buf_p (buf_at bufs i) =? 0) then
        g' <- os_mem_free g (buf_p (buf_at bufs i)) ;;
        buf_free_from n' (i + 1) g' (buf_put bufs i (mkBuf 0 0 false))
      else buf_free_from n' (i + 1) g bufs
  end.

Definition os_mem_buf_free_all (g : globals) (bufs : list os_mem_buf_t)
  : M (globals * list os_mem_buf_t) :=
  buf_free_from (Z.to_nat OS_MEM_BUF_MAX_NUM) 0 g bufs.

End Facade.

End OsMem.

(** ** Tick source and timer scheduler ([os_hal_tick.c], [os_timer.c]) *)

Module Timer.
Import Word.

Definition IDLE_MEAS_PERIOD : Z := 500.
Definition DEF_PERIOD : Z := 500.
Definition OS_NO_TIMER_READY : Z := 4294967295.
Definition UINT32_MAX : Z := 4294967295.

(** [os_timer_t].  [timer_cb] is a function pointer (0 is [NULL]);
    [repeat_count] is a signed [int32_t].  [uid] is a ghost serial number
    given at creation: the node address of a deleted timer may be handed out
    again, the serial number never is. *)
Record os_timer_t : Type := mkTimer {
  period : Z;
  last_run : Z;
  timer_cb : Z;
  user_data : Z;
  repeat_count : Z;
  paused : bool;
  uid : nat
}.

(** One callback invocation, recorded by the model: which timer, the tick
    value written to [last_run] just before the call, and the [last_run] it
    replaced. *)
Record fire : Type := mkFire {
  fire_uid : nat; fire_at : Z; fire_prev_run : Z
}.

(** The static state of both files.  [timer_ll] is the list [_os_timer_ll]
    from head to tail, each node with its address. *)
Record sched : Type := mkSched {
  sys_time : Z;
  tick_irq_flag : Z;
  timer_ll : list (Z * os_timer_t);
  os_timer_act : Z;
  os_timer_run : bool;
  idle_last : Z;
  timer_deleted : bool;
  timer_created : bool;
  already_running : bool;
  idle_period_start : Z;
  busy_time : Z;
  run_cnt : Z;
  next_uid : nat;
  fired : list fire
}.

Definition with_ll (s : sched) (l : list (Z * os_timer_t)) : sched :=
  mkSched (sys_time s) (tick_irq_flag s) l (os_timer_act s) (os_timer_run s)
          (idle_last s) (timer_deleted s) (timer_created s) (already_running s)
          (idle_period_start s) (busy_time s) (run_cnt s) (next_uid s) (fired s).

Definition with_flags (s : sched) (del cre : bool) : sched :=
  mkSched (sys_time s) (tick_irq_flag s) (timer_ll s) (os_timer_act s)
          (os_timer_run s) (idle_last s) del cre (already_running s)
          (idle_period_start s) (busy_time s) (run_cnt s) (next_uid s) (fired s).

Definition with_act (s : sched) (a : Z) : sched :=
  mkSched (sys_time s) (tick_irq_flag s) (timer_ll s) a (os_timer_run s)
          (idle_last s) (timer_deleted s) (timer_created s) (already_running s)
          (idle_period_start s) (busy_time s) (run_cnt s) (next_uid s) (fired s).

Definition with_running (s : sched) (b : bool) : sched :=
  mkSched (sys_time s) (tick_irq_flag s) (timer_ll s) (os_timer_act s)
          (os_timer_run s) (idle_last s) (timer_deleted s) (timer_created s) b
          (idle_period_start s) (busy_time s) (run_cnt s) (next_uid s) (fired s).

Definition with_fired (s : sched) (f : list fire) : sched :=
  mkSched (sys_time s) (tick_irq_flag s) (timer_ll s) (os_timer_act s)
          (os_timer_run s) (idle_last s) (timer_deleted s) (timer_created s)
          (already_running s) (idle_period_start s) (busy_time s) (run_cnt s)
          (next_uid s) f.

(** *** [os_hal_tick.c] *)

Definition os_tick_inc (s : sched) (tick_period : Z) : sched :=
  mkSched (add (sys_time s) tick_period) 0 (timer_ll s) (os_timer_act s)
          (os_timer_run s) (idle_last s) (timer_deleted s) (timer_created s)
          (already_running s) (idle_period_start s) (busy_time s) (run_cnt s)
          (next_uid s) (fired s).

(** The re-read loop leaves after one round here: nothing interrupts the
    single thread of the model between the store to the flag and its test. *)
Definition os_tick_get (s : sched) : Z * sched :=
  (sys_time s,
   mkSched (sys_time s) 1 (timer_ll s) (os_timer_act s) (os_timer_run s)
           (idle_last s) (timer_deleted s) (timer_created s) (already_running s)
           (idle_period_start s) (busy_time s) (run_cnt s) (next_uid s) (fired s)).

Definition os_tick_elaps (s : sched) (prev_tick : Z) : Z * sched :=
  let '(act_time, s) := os_tick_get s in
  if prev_tick <=? act_time then (sub act_time prev_tick, s)
  else (add (add (sub UINT32_MAX prev_tick) 1) act_time, s).

(** *** The linked list of timers

    Modelled from the spec: [os_ll.c] is not among the sources; section 4.3
    gives the list operations ([ins_head], [remove], [get_head], [get_next])
    on nodes that the heap facade allocates. *)

Fixpoint ll_find (l : list (Z * os_timer_t)) (n : Z) : option os_timer_t :=
  match l with
  | [] => None
  | (a, t) :: l' => if a =? n then Some t else ll_find l' n
  end.

Fixpoint ll_set (l : list (Z * os_timer_t)) (n : Z) (t : os_timer_t)
  : list (Z * os_timer_t) :=
  match l with
  | [] => []
  | (a, x) :: l' => if a =? n then (a, t) :: l' else (a, x) :: ll_set l' n t
  end.

Fixpoint _os_ll_remove (l : list (Z * os_timer_t)) (n : Z)
  : list (Z * os_timer_t) :=
  match l with
  | [] => []
  | (a, x) :: l' => if a =? n then l' else (a, x) :: _os_ll_remove l' n
  end.

Definition _os_ll_get_head (l : list (Z * os_timer_t)) : Z :=
  match l with
  | [] => 0
  | (a, _) :: _ => a
  end.

(** The node after [n]; 0 after the tail.  [None] when [n] is not a node of
    the list (a dangling pointer). *)
Fixpoint _os_ll_get_next (l : list (Z * os_timer_t)) (n : Z) : option Z :=
  match l with
  | [] => None
  | (a, _) :: l' => if a =? n then Some (_os_ll_get_head l') else _os_ll_get_next l' n
  end.

(** *** Application code

    A timer callback, and the application between two handler calls, act on
    the scheduler through its public functions.  [app] is such a piece of
    code: a finite tree of calls, each continuation receiving the value the
    call returned. *)

Inductive api_call : Type :=
| c_tick_inc (tick_period : Z)
| c_tick_get
| c_create (timer_xcb period user_data : Z)
| c_create_basic
| c_del (timer : Z)
| c_pause (timer : Z)
| c_resume (timer : Z)
| c_set_cb (timer timer_cb : Z)
| c_set_period (timer period : Z)
| c_ready (timer : Z)
| c_set_repeat_count (timer repeat_count : Z)
| c_reset (timer : Z)
| c_enable (en : bool)
| c_get_idle
| c_get_next (timer : Z)
| c_handler.

Inductive app : Type :=
| Stop
| Call (c : api_call) (k : Z -> app).

Definition obind {A B} (o : option A) (k : A -> option B) : option B :=
  match o with Some a => k a | None => None end.

Section Scheduler.

(** The node allocation inside [_os_ll_ins_head]: from the addresses of the
    live nodes to the address of the new one, [None] when the heap has no
    room. *)
Variable ll_alloc : list Z -> option Z.

(** The code behind each function pointer, applied to the timer it is
    called with. *)
Variable cb_code : Z -> Z -> app.

Definition set_timer (s : sched) (timer : Z) (f : os_timer_t -> os_timer_t)
  : option sched :=
  obind (ll_find (timer_ll s) timer) (fun t =>
    Some (with_ll s (ll_set (timer_ll s) timer (f t)))).

Definition os_timer_create (s : sched) (timer_xcb per ud : Z) : Z * sched :=
  match ll_alloc (map fst (timer_ll s)) with
  | None => (0, s)
  | Some new_timer =>
      let '(now, s) := os_tick_get s in
      let t := mkTimer (u32 per) now timer_xcb ud (-1) false (next_uid s) in
      (new_timer,
       mkSched (sys_time s) (tick_irq_flag s) ((new_timer, t) :: timer_ll s)
               (os_timer_act s) (os_timer_run s) (idle_last s)
               (timer_deleted s) true (already_running s)
               (idle_period_start s) (busy_time s) (run_cnt s)
               (S (next_uid s)) (fired s))
  end.

Definition os_timer_create_basic (s : sched) : Z * sched :=
  os_timer_create s 0 DEF_PERIOD 0.

(** Deleting through a pointer that is not a node of the list is undefined
    behaviour ([None]); so is every field access below. *)
Definition os_timer_del (s : sched) (timer : Z) : option sched :=
  obind (ll_find (timer_ll s) timer) (fun _ =>
    let s := with_ll s (_os_ll_remove (timer_ll s) timer) in
    Some (with_flags s true (timer_created s))).

Definition os_timer_set_cb (s : sched) (timer cb : Z) : option sched :=
  set_timer s timer (fun t =>
    mkTimer (period t) (last_run t) cb (user_data t) (repeat_count t) (paused t) (uid t)).

Definition os_timer_pause (s : sched) (timer : Z) : option sched :=
  set_timer s timer (fun t =>
    mkTimer (period t) (last_run t) (timer_cb t) (user_data t) (repeat_count t) true (uid t)).

Definition os_timer_resume (s : sched) (timer : Z) : option sched :=
  set_timer s timer (fun t =>
    mkTimer (period t) (last_run t) (timer_cb t) (user_data t) (repeat_count t) false (uid t)).

Definition os_timer_set_period (s : sched) (timer per : Z) : option sched :=
  set_timer s timer (fun t =>
    mkTimer (u32 per) (last_run t) (timer_cb t) (user_data t) (repeat_count t)
            (paused t) (uid t)).

Definition set_last_run (t : os_timer_t) (v : Z) : os_timer_t :=
  mkTimer (period t) v (timer_cb t) (user_data t) (repeat_count t) (paused t) (uid t).

Definition os_timer_ready (s : sched) (timer : Z) : option sched :=
  let '(now, s) := os_tick_get s in
  set_timer s timer (fun t => set_last_run t (sub (sub now (period t)) 1)).

Definition os_timer_set_repeat_count (s : sched) (timer rc : Z) : option sched :=
  set_timer s timer (fun t =>
    mkTimer (period t) (last_run t) (timer_cb t) (user_data t) (to_int rc) (paused t) (uid t)).

Definition os_timer_reset (s : sched) (timer : Z) : option sched :=
  let '(now, s) := os_tick_get s in
  set_timer s timer (fun t => set_last_run t now).

Definition os_timer_enable (s : sched) (en : bool) : sched :=
  mkSched (sys_time s) (tick_irq_flag s) (timer_ll s) (os_timer_act s) en
          (idle_last s) (timer_deleted s) (timer_created s) (already_running s)
          (idle_period_start s) (busy_time s) (run_cnt s) (next_uid s) (fired s).

Definition os_timer_get_idle (s : sched) : Z := idle_last s.

Definition os_timer_get_next (s : sched) (timer : Z) : option Z :=
  if timer =? 0 then Some (_os_ll_get_head (timer_ll s))
  else _os_ll_get_next (timer_ll s) timer.

(** One call; [handler] is what a call of [os_timer_handler] does. *)
Definition exec_call (handler : sched -> option (Z * sched)) (s : sched)
           (c : api_call) : option (Z * sched) :=
  let unit_call (o : option sched) := obind o (fun s' => Some (0, s')) in
  match c with
  | c_tick_inc p => Some (0, os_tick_inc s p)
  | c_tick_get => Some (os_tick_get s)
  | c_create cb p ud => Some (os_timer_create s cb p ud)
  | c_create_basic => Some (os_timer_create_basic s)
  | c_del t => unit_call (os_timer_del s t)
  | c_pause t => unit_call (os_timer_pause s t)
  | c_resume t => unit_call (os_timer_resume s t)
  | c_set_cb t cb => unit_call (os_timer_set_cb s t cb)
  | c_set_period t p => unit_call (os_timer_set_period s t p)
  | c_ready t => unit_call (os_timer_ready s t)
  | c_set_repeat_count t rc => unit_call (os_timer_set_repeat_count s t rc)
  | c_reset t => unit_call (os_timer_reset s t)
  | c_enable en => Some (0, os_timer_enable s en)
  | c_get_idle => Some (os_timer_get_idle s, s)
  | c_get_next t => obind (os_timer_get_next s t) (fun r => Some (r, s))
  | c_handler => handler s
  end.

Fixpoint run_app (handler : sched -> option (Z * sched)) (p : app) (s : sched)
  : option sched :=
  match p with
  | Stop => Some s
  | Call c k =>
      match exec_call handler s c with
      | Some (r, s') => run_app handler (k r) s'
      | None => None
      end
  end.

Definition os_timer_time_remaining (s : sched) (t : os_timer_t) : Z * sched :=
  let '(elp, s) := os_tick_elaps s (last_run t) in
  if period t <=? elp then (0, s) else (sub (period t) elp, s).

Definition os_timer_exec (handler : sched -> option (Z * sched)) (s : sched)
           (timer : Z) : option (bool * sched) :=
  obind (ll_find (timer_ll s) timer) (fun t =>
  if paused t then Some (false, s)
  else
    let '(rem, s) := os_timer_time_remaining s t in
    obind
      (if rem =? 0 then
         let original_repeat_count := repeat_count t in
         let rc := if 0 <? repeat_count t then repeat_count t - 1
                   else repeat_count t in
         let '(now, s) := os_tick_get s in
         let t' := mkTimer (period t) now (timer_cb t) (user_data t) rc
                           (paused t) (uid t) in
         let s := with_ll s (ll_set (timer_ll s) timer t') in
         obind
           (if negb (timer_cb t =? 0) && negb (original_repeat_count =? 0) then
              run_app handler (cb_code (timer_cb t) timer)
                (with_fired s (fired s ++ [mkFire (uid t) now (last_run t)]))
            else Some s)
           (fun s => Some (true, s))
       else Some (false, s))
      (fun '(exec, s) =>
         if negb (timer_deleted s) then
           obind (ll_find (timer_ll s) timer) (fun t =>
             if repeat_count t =? 0 then
               obind (os_timer_del s timer) (fun s => Some (exec, s))
             else Some (exec, s))
         else Some (exec, s))).

(** The top of one round of the [do ... while]: both flags cleared and
    [_os_timer_act] at the head of the list. *)
Definition pass_start (s : sched) : sched :=
  let s := with_flags s false false in
  with_act s (_os_ll_get_head (timer_ll s)).

(** The inner [while(_os_timer_act)] together with the enclosing
    [do ... while(_os_timer_act)], entered at the test of the inner loop.
    One unit of fuel is spent per timer visited. *)
Fixpoint timer_loop (handler : sched -> option (Z * sched)) (fuel : nat)
         (s : sched) : option sched :=
  match fuel with
  | O => None
  | S fuel' =>
      let act := os_timer_act s in
      if act =? 0 then Some s
      else
        obind (_os_ll_get_next (timer_ll s) act) (fun next =>
        obind (os_timer_exec handler s act) (fun '(exec, s) =>
          if exec && (timer_created s || timer_deleted s)
          then timer_loop handler fuel' (pass_start s)
          else timer_loop handler fuel' (with_act s next)))
  end.

(** The scan for the next wake-up time, over the nodes from [next] on. *)
Fixpoint next_wake (l : list (Z * os_timer_t)) (s : sched) (time_till_next : Z)
  : Z * sched :=
  match l with
  | [] => (time_till_next, s)
  | (_, t) :: l' =>
      if negb (paused t) then
        let '(delay, s) := os_timer_time_remaining s t in
        next_wake l' s (if delay <? time_till_next then delay else time_till_next)
      else next_wake l' s time_till_next
  end.

Definition idle_update (s : sched) (handler_start : Z) : sched :=
  let '(e, s) := os_tick_elaps s handler_start in
  let busy := add (busy_time s) e in
  let '(idle_period_time, s) := os_tick_elaps s (idle_period_start s) in
  if IDLE_MEAS_PERIOD <=? idle_period_time then
    let il := (u32 (busy * 100) / idle_period_time) mod 256 in
    let il := if 100 <? il then 0 else 100 - il in
    let '(now, s) := os_tick_get s in
    mkSched (sys_time s) (tick_irq_flag s) (timer_ll s) (os_timer_act s)
            (os_timer_run s) il (timer_deleted s) (timer_created s)
            (already_running s) now 0 (run_cnt s) (next_uid s) (fired s)
  else
    mkSched (sys_time s) (tick_irq_flag s) (timer_ll s) (os_timer_act s)
            (os_timer_run s) (idle_last s) (timer_deleted s) (timer_created s)
            (already_running s) (idle_period_start s) busy (run_cnt s)
            (next_uid s) (fired s).

Definition bump_run_cnt (s : sched) : sched :=
  let rc := add (run_cnt s) 1 in
  mkSched (sys_time s) (tick_irq_flag s) (timer_ll s) (os_timer_act s)
          (os_timer_run s) (idle_last s) (timer_deleted s) (timer_created s)
          (already_running s) (idle_period_start s) (busy_time s)
          (if 100 <? rc then 0 else rc) (next_uid s) (fired s).

(** [None]: the fuel ran out, or a dangling timer pointer was used. *)
Fixpoint os_timer_handler (fuel : nat) (s : sched) : option (Z * sched) :=
  match fuel with
  | O => None
  | S fuel' =>
      if already_running s then Some (1, s)
      else
        let s := with_running s true in
        if negb (os_timer_run s) then Some (1, with_running s false)
        else
          let '(handler_start, s) := os_tick_get s in
          let s := if handler_start =? 0 then bump_run_cnt s else s in
          obind (timer_loop (os_timer_handler fuel') fuel' (pass_start s))
            (fun s =>
               let '(time_till_next, s) :=
                 next_wake (timer_ll s) s OS_NO_TIMER_READY in
               let s := idle_update s handler_start in
               Some (time_till_next, with_running s false))
  end.

(** What the application does between start-up and any later moment: a
    sequence of tick increments, handler calls and other application code. *)
Inductive top_op : Type :=
| TickInc (tick_period : Z)
| Handler (fuel : nat)
| App (fuel : nat) (p : app).

Definition top_step (s : sched) (o : top_op) : option sched :=
  match o with
  | TickInc p => Some (os_tick_inc s p)
  | Handler fuel => obind (os_timer_handler fuel s) (fun '(_, s) => Some s)
  | App fuel p => run_app (os_timer_handler fuel) p s
  end.

Fixpoint run_ops (s : sched) (ops : list top_op) : option sched :=
  match ops with
  | [] => Some s
  | o :: ops' => obind (top_step s o) (fun s' => run_ops s' ops')
  end.

End Scheduler.

(** [_os_timer_core_init]: an empty list, handling enabled. *)
Definition _os_timer_core_init : sched :=
  mkSched 0 0 [] 0 true 0 false false false 0 0 0 O [].

End Timer.

(** * Checks, invariants and concrete scenarios

    What the properties below are stated with: executable checks of the
    heap invariants, the invariants of the scheduler, and the concrete
    heaps and schedules on which the code is run. *)

Import Word Memory.

Definition state_of {A} (r : res A) : memory :=
  match r with Done _ m => m | _ => mkMem 0 [] end.

(** The heap of [os_mem_init] on a zeroed 1024-byte array at 0x20000000. *)
Definition heap_base : Z := 536870912.

Definition fresh_heap : memory :=
  Eval vm_compute in
    state_of (Tlsf.os_tlsf_create_with_pool heap_base 1024 (zeroed heap_base 1024)).

(** The same heap after a stray write has cleared [fl_bitmap]. *)
Definition heap_fl_bitmap_cleared : memory :=
  Eval vm_compute in
    state_of (store32 (Tlsf.fl_bitmap_at heap_base) 0 fresh_heap).

(** The segregated free-list invariant, as a check on a heap: every block
    on the list [blocks[fl][sl]] maps to [(fl, sl)], bit [sl] of
    [sl_bitmap[fl]] is set exactly when that list is not empty, and bit
    [fl] of [fl_bitmap] is set exactly when [sl_bitmap[fl]] is not zero. *)
Fixpoint list_maps_to (fuel : nat) (control block fl sl : Z) : M bool :=
  match fuel with
  | O => diverge
  | S fuel' =>
      if block =? Tlsf.block_null control then ret true
      else
        sz <- Tlsf.block_size block ;;
        if negb (fst (Tlsf.mapping_insert sz) =? fl)
           || negb (snd (Tlsf.mapping_insert sz) =? sl)
        then ret false
        else
          next <- load32 (Tlsf.field block Tlsf.off_next_free) ;;
          list_maps_to fuel' control next fl sl
  end.

Fixpoint all_ok (l : list Z) (f : Z -> M bool) : M bool :=
  match l with
  | [] => ret true
  | i :: l' => b <- f i ;; if b then all_ok l' f else ret false
  end.

Definition free_lists_ok (fuel : nat) (control : Z) : M bool :=
  flw <- load32 (Tlsf.fl_bitmap_at control) ;;
  all_ok (Tlsf.upto Tlsf.FL_INDEX_COUNT) (fun fl =>
    sa <- Tlsf.sl_bitmap_at control fl ;;
    slw <- load32 sa ;;
    if negb (Bool.eqb (Z.testbit flw fl) (negb (slw =? 0))) then ret false
    else
      all_ok (Tlsf.upto Tlsf.SL_INDEX_COUNT) (fun sl =>
        ha <- Tlsf.blocks_at control fl sl ;;
        head <- load32 ha ;;
        if negb (Bool.eqb (Z.testbit slw sl)
                          (negb (head =? Tlsf.block_null control)))
        then ret false
        else list_maps_to fuel control head fl sl)).

(** No block of the physical chain that starts at [block] is free while its
    physical successor is free too. *)
Fixpoint no_adjacent_free (fuel : nat) (block : Z) : M bool :=
  match fuel with
  | O => diverge
  | S fuel' =>
      last <- Tlsf.block_is_last block ;;
      if last then ret true
      else
        fr <- Tlsf.block_is_free block ;;
        next <- Tlsf.block_next block ;;
        nfr <- Tlsf.block_is_free next ;;
        if fr && nfr then ret false else no_adjacent_free fuel' next
  end.

(** A buffer that is zero except for the given 32-bit words, as left behind
    by an earlier use of the memory. *)
Fixpoint with_words (m : memory) (ws : list (Z * Z)) : memory :=
  match ws with
  | [] => m
  | (a, v) :: ws' => with_words (state_of (store32 a v m)) ws'
  end.

Definition value_of {A} (r : res A) (d : A) : A :=
  match r with Done a _ => a | _ => d end.

(** A 1024-byte buffer whose earlier contents left the words 16 and 13 at
    byte offsets 616 and 636. *)
Definition stale_buffer_a : memory :=
  with_words (zeroed heap_base 1024)
             [(heap_base + 616, 16); (heap_base + 636, 13)].

(** [tlsf = create_with_pool(buf, 1024); a = malloc(tlsf, 64); free(tlsf, a);]
    followed by a look at the first block of the pool and at its physical
    successor: the address of [a], whether the first block is free, the
    successor's address, whether the successor is free, and the verdict of
    [no_adjacent_free] on the whole chain. *)
Definition malloc_then_free : M (Z * bool * Z * bool * bool) :=
  t <- Tlsf.os_tlsf_create_with_pool heap_base 1024 ;;
  a <- Tlsf.os_tlsf_malloc t 64 ;;
  _ <- Tlsf.os_tlsf_free t a ;;
  let first := Tlsf.offset_to_block (Tlsf.os_tlsf_get_pool t)
                 (u32 (- Tlsf.block_header_overhead)) in
  f1 <- Tlsf.block_is_free first ;;
  n <- Tlsf.block_next first ;;
  f2 <- Tlsf.block_is_free n ;;
  ok <- no_adjacent_free 64 first ;;
  ret (a, f1, n, f2, ok).

(** A 1024-byte buffer that holds 400, 332 and 120 at byte offsets 616, 684
    and 564. *)
Definition stale_buffer_b : memory :=
  with_words (zeroed heap_base 1024)
             [(heap_base + 616, 400); (heap_base + 684, 332);
              (heap_base + 564, 120)].

(** [a = malloc(64); b = malloc(64); free(a); c = malloc(12);] on a fresh
    pool, with the free-list check before and after the last call, and the
    size found in the block at offset 680, which is on a free list. *)
Definition split_next_to_free_block : M (bool * bool * Z) :=
  t <- Tlsf.os_tlsf_create_with_pool heap_base 1024 ;;
  a <- Tlsf.os_tlsf_malloc t 64 ;;
  b <- Tlsf.os_tlsf_malloc t 64 ;;
  _ <- Tlsf.os_tlsf_free t a ;;
  before <- free_lists_ok 64 t ;;
  c <- Tlsf.os_tlsf_malloc t 12 ;;
  after <- free_lists_ok 64 t ;;
  sz <- Tlsf.block_size (heap_base + 680) ;;
  ret (before, after, sz).

(** A TLSF instance over a zeroed buffer of 568 bytes: the control
    structure, one free block of 12 bytes and the sentinel. *)
Definition small_heap : memory :=
  Eval vm_compute in
    state_of (Tlsf.os_tlsf_create_with_pool heap_base 568 (zeroed heap_base 568)).

(** [small_heap] after [os_tlsf_malloc(tlsf, 8)]. *)
Definition small_heap_in_use : memory :=
  Eval vm_compute in state_of (Tlsf.os_tlsf_malloc heap_base 8 small_heap).

(** The memory after the bytes [s .. s + n - 1] have been copied, lowest
    address first, to [d .. d + n - 1]. *)
Fixpoint copy_bytes (n : nat) (d s : Z) (m : memory) : memory :=
  match n with
  | O => m
  | S n' => copy_bytes n' (d + 1) (s + 1) (set_byte m d (byte_at m s))
  end.

(** Two memories of the same extent. *)
Definition same_shape (m m' : memory) : Prop :=
  mem_base m' = mem_base m /\ length (mem_bytes m') = length (mem_bytes m).

(** [body] is a copy step of [chunk] bytes: wherever [P] holds of the two
    pointers and the two chunks lie in memory without overlap, it copies the
    chunk, advances both pointers past it, and [P] holds again. *)
Definition copies (P : Z -> Z -> Prop) (chunk : nat)
           (body : Z -> Z -> M (Z * Z)) : Prop :=
  (forall d s, P d s -> P (d + Z.of_nat chunk) (s + Z.of_nat chunk)) /\
  (forall d s m,
      P d s ->
      in_bounds m d (Z.of_nat chunk) = true ->
      in_bounds m s (Z.of_nat chunk) = true ->
      s + Z.of_nat chunk <= d \/ d + Z.of_nat chunk <= s ->
      body d s m
      = Done (d + Z.of_nat chunk, s + Z.of_nat chunk) (copy_bytes chunk d s m)).

Definition aligned4 (d s : Z) : Prop := d mod 4 = 0 /\ s mod 4 = 0.

Definition any_pointers (d s : Z) : Prop := True.

(** Forty bytes 1, 2, ..., 40 at address 1000. *)
Definition forty_bytes : memory := mkMem 1000 (map Z.of_nat (seq 1 40)).

Import Timer.

(** *** The calls a run executes

    The scheduler code once more, now with a ghost record of the calls it
    comes across: every call of a public function made by application code
    or by a callback, paired with the scheduler state in which it is made,
    in the order of execution.  The functions below differ from
    [exec_call], [run_app], [os_timer_exec], [timer_loop],
    [os_timer_handler] and [run_ops] in nothing but this record. *)

Definition call_event : Type := (sched * api_call)%type.

Section Traced.

Variable ll_alloc : list Z -> option Z.
Variable cb_code : Z -> Z -> app.

Definition traced_exec_call
           (handler : sched -> option (Z * sched * list call_event))
           (s : sched) (c : api_call) : option (Z * sched * list call_event) :=
  match c with
  | c_handler =>
      obind (handler s) (fun '(r, s', ev) => Some (r, s', (s, c) :: ev))
  | _ =>
      obind (exec_call ll_alloc (fun _ => None) s c)
            (fun '(r, s') => Some (r, s', [(s, c)]))
  end.

Fixpoint traced_run_app
         (handler : sched -> option (Z * sched * list call_event))
         (p : app) (s : sched) : option (sched * list call_event) :=
  match p with
  | Stop => Some (s, [])
  | Call c k =>
      match traced_exec_call handler s c with
      | Some (r, s', ev) =>
          obind (traced_run_app handler (k r) s')
                (fun '(s'', ev') => Some (s'', ev ++ ev'))
      | None => None
      end
  end.

Definition traced_os_timer_exec
           (handler : sched -> option (Z * sched * list call_event))
           (s : sched) (timer : Z) : option (bool * sched * list call_event) :=
  obind (ll_find (timer_ll s) timer) (fun t =>
  if paused t then Some (false, s, [])
  else
    let '(rem, s) := os_timer_time_remaining s t in
    obind
      (if rem =? 0 then
         let original_repeat_count := repeat_count t in
         let rc := if 0 <? repeat_count t then repeat_count t - 1
                   else repeat_count t in
         let '(now, s) := os_tick_get s in
         let t' := mkTimer (period t) now (timer_cb t) (user_data t) rc
                           (paused t) (uid t) in
         let s := with_ll s (ll_set (timer_ll s) timer t') in
         obind
           (if negb (timer_cb t =? 0) && negb (original_repeat_count =? 0) then
              traced_run_app handler (cb_code (timer_cb t) timer)
                (with_fired s (fired s ++ [mkFire (uid t) now (last_run t)]))
            else Some (s, []))
           (fun '(s, ev) => Some (true, s, ev))
       else Some (false, s, []))
      (fun '(exec, s, ev) =>
         if negb (timer_deleted s) then
           obind (ll_find (timer_ll s) timer) (fun t =>
             if repeat_count t =? 0 then
               obind (os_timer_del s timer) (fun s => Some (exec, s, ev))
             else Some (exec, s, ev))
         else Some (exec, s, ev))).

Fixpoint traced_timer_loop
         (handler : sched -> option (Z * sched * list call_event))
         (fuel : nat) (s : sched) : option (sched * list call_event) :=
  match fuel with
  | O => None
  | S fuel' =>
      let act := os_timer_act s in
      if act =? 0 then Some (s, [])
      else
        obind (_os_ll_get_next (timer_ll s) act) (fun next =>
        obind (traced_os_timer_exec handler s act) (fun '(exec, s, ev) =>
        obind (if exec && (timer_created s || timer_deleted s)
               then traced_timer_loop handler fuel' (pass_start s)
               else traced_timer_loop handler fuel' (with_act s next))
              (fun '(s', ev') => Some (s', ev ++ ev'))))
  end.

Fixpoint traced_os_timer_handler (fuel : nat) (s : sched)
  : option (Z * sched * list call_event) :=
  match fuel with
  | O => None
  | S fuel' =>
      if already_running s then Some (1, s, [])
      else
        let s := with_running s true in
        if negb (os_timer_run s) then Some (1, with_running s false, [])
        else
          let '(handler_start, s) := os_tick_get s in
          let s := if handler_start =? 0 then bump_run_cnt s else s in
          obind (traced_timer_loop (traced_os_timer_handler fuel') fuel'
                                   (pass_start s))
            (fun '(s, ev) =>
               let '(time_till_next, s) :=
                 next_wake (timer_ll s) s OS_NO_TIMER_READY in
               let s := idle_update s handler_start in
               Some (time_till_next, with_running s false, ev))
  end.

(** The calls executed by the callback, if any, that [os_timer_exec]
    invokes when the handler calls it on [timer]. *)
Definition callback_calls (fuel : nat) (s : sched) (timer : Z)
  : list call_event :=
  match traced_os_timer_exec (traced_os_timer_handler fuel) s timer with
  | Some (_, _, ev) => ev
  | None => []
  end.

Definition traced_top_step (s : sched) (o : top_op)
  : option (sched * list call_event) :=
  match o with
  | TickInc p => Some (os_tick_inc s p, [(s, c_tick_inc p)])
  | Handler fuel =>
      obind (traced_os_timer_handler fuel s)
            (fun '(_, s', ev) => Some (s', (s, c_handler) :: ev))
  | App fuel p => traced_run_app (traced_os_timer_handler fuel) p s
  end.

Fixpoint traced_run_ops (s : sched) (ops : list top_op)
  : option (sched * list call_event) :=
  match ops with
  | [] => Some (s, [])
  | o :: ops' =>
      obind (traced_top_step s o) (fun '(s', ev) =>
      obind (traced_run_ops s' ops') (fun '(s'', ev') =>
        Some (s'', ev ++ ev')))
  end.

(** The calls executed by the run of [ops] from [s], in order. *)
Definition executed_calls (s : sched) (ops : list top_op) : list call_event :=
  match traced_run_ops s ops with
  | Some (_, ev) => ev
  | None => []
  end.

End Traced.

(** The result of a traced function without the record. *)
Definition untraced {A} (o : option (A * sched * list call_event))
  : option (A * sched) :=
  match o with
  | Some (r, s, _) => Some (r, s)
  | None => None
  end.

(** A traced handler-like function that keeps [I] whenever the calls it
    executes satisfy [ok]. *)
Definition traced_keeps (I : sched -> Prop) (ok : call_event -> Prop)
           (h : sched -> option (Z * sched * list call_event)) : Prop :=
  forall s r s' ev, I s -> h s = Some (r, s', ev) -> Forall ok ev -> I s'.

(** The timer whose period, repeat count, callback or [last_run] a call
    writes. *)
Definition written_timer (c : api_call) : option Z :=
  match c with
  | c_set_cb t _ | c_set_period t _ | c_ready t | c_set_repeat_count t _
  | c_reset t => Some t
  | _ => None
  end.

(** The executed call [e] does not write the timer with serial number [u]:
    the pointer it passes, if it writes at all, is that of another timer. *)
Definition keeps_timer (u : nat) (e : call_event) : Prop :=
  match written_timer (snd e) with
  | Some n =>
      match ll_find (timer_ll (fst e)) n with
      | Some t => uid t <> u
      | None => True
      end
  | None => True
  end.

(** [s'] differs from [s] in neither the timer list, the flags of the
    dispatch loop, nor the ghost record of invocations. *)
Definition same_timers (s s' : sched) : Prop :=
  timer_ll s' = timer_ll s /\ fired s' = fired s /\ next_uid s' = next_uid s.

(** The timer record after [os_timer_exec] has found it due: the repeat
    count decremented when positive, [last_run] set to the tick. *)
Definition after_run (t : os_timer_t) (now : Z) : os_timer_t :=
  mkTimer (period t) now (timer_cb t) (user_data t)
          (if 0 <? repeat_count t then repeat_count t - 1 else repeat_count t)
          (paused t) (uid t).

(** A handler-like function that keeps [I]. *)
Definition keeps (I : sched -> Prop) (h : sched -> option (Z * sched)) : Prop :=
  forall s r s', I s -> h s = Some (r, s') -> I s'.

(** The allocator never hands out the address of a live node. *)
Definition fresh_alloc (ll_alloc : list Z -> option Z) : Prop :=
  forall l a, ll_alloc l = Some a -> ~ In a l.

(** A call that does not name [timer] as the timer to delete or to write. *)
Definition call_spares (timer : Z) (c : api_call) : Prop :=
  match c with
  | c_del t | c_pause t | c_resume t | c_set_cb t _ | c_set_period t _
  | c_ready t | c_set_repeat_count t _ | c_reset t => t <> timer
  | _ => True
  end.

(** The executed call [e] neither deletes nor writes the node [timer]. *)
Definition spares_timer (timer : Z) (e : call_event) : Prop :=
  call_spares timer (snd e).

(** An allocator for the examples: four past the highest live address. *)
Definition bump_alloc (l : list Z) : option Z := Some (4 + fold_right Z.max 0 l).

Definition no_callbacks (cb timer : Z) : app := Stop.

(** A scheduler whose only timer, at address 100, is paused with a repeat
    count of 0. *)
Definition paused_dead_timer : os_timer_t := mkTimer 10 0 0 0 0 true 0.

Definition sched_paused : sched :=
  mkSched 0 0 [(100, paused_dead_timer)] 0 true 0 false false false 0 0 0 1 [].


Definition sched_of (o : option sched) : sched :=
  match o with Some s => s | None => _os_timer_core_init end.

Definition node_uid (x : Z * os_timer_t) : nat := uid (snd x).

(** The recorded invocations of the timer with serial number [u]. *)
Definition events_of (u : nat) (log : list fire) : list fire :=
  filter (fun e => Nat.eqb (fire_uid e) u) log.

(** The elapsed time [os_tick_elaps] computes at tick [act] for the time
    stamp [prev]. *)
Definition elapsed (act prev : Z) : Z :=
  if prev <=? act then sub act prev
  else add (add (sub UINT32_MAX prev) 1) act.

(** The tick of the last invocation in [evs], [prev] when there is none. *)
Definition last_at (prev : option Z) (evs : list fire) : option Z :=
  fold_left (fun _ e => Some (fire_at e)) evs prev.

(** Every invocation found at least [P] ticks elapsed since the [last_run]
    it replaced, and that [last_run] was the one written at the invocation
    before ([prev] for the first of [evs]). *)
Fixpoint spaced (P : Z) (prev : option Z) (evs : list fire) : Prop :=
  match evs with
  | [] => True
  | e :: evs' =>
      P <= elapsed (fire_at e) (fire_prev_run e) /\
      match prev with Some p => fire_prev_run e = p | None => True end /\
      spaced P (Some (fire_at e)) evs'
  end.

(** Between two successive invocations: the later one replaced the
    [last_run] recorded at the earlier one, and at least [P] ticks had
    elapsed since. *)
Fixpoint gaps_ok (P : Z) (evs : list fire) : Prop :=
  match evs with
  | [] => True
  | e1 :: rest =>
      match rest with
      | [] => True
      | e2 :: _ =>
          fire_prev_run e2 = fire_at e1 /\
          P <= elapsed (fire_at e2) (fire_at e1)
      end /\ gaps_ok P rest
  end.

(** The invariant behind the bound on invocations: the timer with serial
    number [u], period [P] and callback [cb], as long as it lives at
    address [a], has a repeat count that together with the invocations so
    far does not exceed [k]. *)
Definition counted (a : Z) (u : nat) (P k cb : Z) (s : sched) : Prop :=
  let evs := events_of u (fired s) in
  NoDup (map node_uid (timer_ll s)) /\
  (forall x, In x (timer_ll s) -> (node_uid x < next_uid s)%nat) /\
  (u < next_uid s)%nat /\
  spaced P None evs /\
  ((exists t,
       ll_find (timer_ll s) a = Some t /\ uid t = u /\ period t = P /\
       timer_cb t = cb /\ 0 <= repeat_count t /\
       Z.of_nat (length evs) + repeat_count t <= k /\
       (cb <> 0 -> repeat_count t <> 0 ->
        match last_at None evs with
        | Some p => last_run t = p
        | None => True
        end))
   \/ ((forall x, In x (timer_ll s) -> node_uid x <> u) /\
       Z.of_nat (length evs) <= k)).

(** [t = os_timer_create(cb, 10, NULL); os_timer_set_repeat_count(t, 3);]
    with the function pointer 7 as callback, on the scheduler as
    [_os_timer_core_init] leaves it. *)
Definition setup_counting : app :=
  Call (c_create 7 10 0) (fun t =>
  Call (c_set_repeat_count t 3) (fun _ => Stop)).

Definition sched_counting : sched :=
  Eval vm_compute in
    sched_of (run_ops bump_alloc no_callbacks _os_timer_core_init
                      [App 0 setup_counting]).

(** 35 ms in four tick increments, the handler called after each. *)
Definition ops_counting : list top_op :=
  [TickInc 10; Handler 10; TickInc 10; Handler 10;
   TickInc 10; Handler 10; TickInc 5; Handler 10].

(** One period, then [os_timer_ready] on the timer one tick later. *)
Definition ops_ready : list top_op :=
  [TickInc 10; Handler 10; TickInc 1;
   App 0 (Call (c_ready 4) (fun _ => Stop)); Handler 10].

(** Callbacks that act on the scheduler: the function at pointer 8 writes
    the period of the timer it is called with and reads the tick; every
    other function calls [os_timer_handler] again. *)
Definition busy_callbacks (cb timer : Z) : app :=
  if cb =? 8 then
    Call (c_set_period timer 6) (fun _ => Call c_tick_get (fun _ => Stop))
  else Call c_handler (fun _ => Stop).

(** [t = os_timer_create(8, 5, NULL); os_timer_set_repeat_count(t, 2);]
    and then [ops_counting]. *)
Definition ops_busy : list top_op :=
  App 0 (Call (c_create 8 5 0) (fun t =>
         Call (c_set_repeat_count t 2) (fun _ => Stop)))
  :: ops_counting.

(** The memory after the [n] bytes from [d] on have been set to [v]. *)
Fixpoint fill_bytes (n : nat) (d v : Z) (m : memory) : memory :=
  match n with
  | O => m
  | S n' => fill_bytes n' (d + 1) v (set_byte m d v)
  end.

(** [body] is a set step of [chunk] bytes of value [v]: wherever [P] holds
    of the pointer and the chunk lies in memory, it sets the chunk,
    advances the pointer past it, and [P] holds again. *)
Definition fills (P : Z -> Prop) (chunk : nat) (v : Z) (body : Z -> M Z)
  : Prop :=
  (forall d, P d -> P (d + Z.of_nat chunk)) /\
  (forall d m,
      P d -> in_bounds m d (Z.of_nat chunk) = true ->
      body d m = Done (d + Z.of_nat chunk) (fill_bytes chunk d v m)).

Definition any_byte_pointer (d : Z) : Prop := True.

Definition word_pointer (d : Z) : Prop := d mod 4 = 0.

(** Lexicographic order on index pairs [(fl, sl)]. *)
Definition lex_le (p q : Z * Z) : bool :=
  (fst p <? fst q) || ((fst p =? fst q) && (snd p <=? snd q)).

(** [lo, lo + 1, ..., lo + n - 1] *)
Definition range (lo : Z) (n : nat) : list Z := map (fun i => lo + Z.of_nat i) (seq 0 n).

(** For every request in [ss] and every block size in [bs]: a block whose
    list is at or above the one [mapping_search] names is large enough. *)
Definition good_fit_on (ss bs : list Z) : bool :=
  forallb (fun s =>
    forallb (fun b =>
      implb (lex_le (Tlsf.mapping_search s) (Tlsf.mapping_insert b)) (s <=? b))
      bs) ss.

(** For every request in [ss]: the list that [mapping_search] names lies in
    the grid of free lists, or has the first-level index [FL_INDEX_COUNT],
    the latter exactly for the requests from [top] on. *)
Definition search_grid_on (top : Z) (ss : list Z) : bool :=
  forallb (fun s =>
    let '(fl, sl) := Tlsf.mapping_search s in
    (0 <=? fl) && (fl <=? Tlsf.FL_INDEX_COUNT) && (0 <=? sl)
    && (sl <? Tlsf.SL_INDEX_COUNT)
    && Bool.eqb (fl =? Tlsf.FL_INDEX_COUNT) (top <=? s)) ss.

(** Entry [k] of the buffer table can serve a request of [size] bytes: it is
    not in use and large enough. *)
Definition candidate (bufs : list OsMem.os_mem_buf_t) (size k : Z) : Prop :=
  OsMem.buf_used (OsMem.buf_at bufs k) = false /\
  size <= OsMem.buf_size (OsMem.buf_at bufs k).

(** [i_guess] after the first [i] rounds of the search loop: -1 with no
    candidate so far, or a candidate that no candidate so far is smaller
    than. *)
Definition tightest_below (bufs : list OsMem.os_mem_buf_t) (size i i_guess : Z)
  : Prop :=
  (i_guess = -1 /\ forall k, 0 <= k < i -> ~ candidate bufs size k) \/
  (0 <= i_guess < i /\ candidate bufs size i_guess /\
   forall k, 0 <= k < i -> candidate bufs size k ->
             OsMem.buf_size (OsMem.buf_at bufs i_guess)
             <= OsMem.buf_size (OsMem.buf_at bufs k)).

(** Two entries of the table share a pointer only when they hold no
    buffer. *)
Definition distinct_buffers (bufs : list OsMem.os_mem_buf_t) : Prop :=
  forall a b, 0 <= a < 16 -> 0 <= b < 16 -> a <> b ->
              OsMem.buf_p (OsMem.buf_at bufs a) = OsMem.buf_p (OsMem.buf_at bufs b) ->
              OsMem.buf_size (OsMem.buf_at bufs a) = 0.

(** A table with buffers of 40, 24 and 32 bytes, the second one in use. *)
Definition three_buffers : list OsMem.os_mem_buf_t :=
  [OsMem.mkBuf 1000 40 false; OsMem.mkBuf 1040 24 true;
   OsMem.mkBuf 1064 32 false]
  ++ repeat (OsMem.mkBuf 0 0 false) 13.

(** Rounds of the dispatch loop that suffice for a list of [n] timers whose
    callbacks leave the scheduler alone: a pass visits each timer once and
    is started again only after a timer has been deleted. *)
Fixpoint passes_fuel (n : nat) : nat :=
  match n with
  | O => 1%nat
  | S k => (passes_fuel k + S (S k))%nat
  end.

(** The rounds still needed after a restart of the pass, in a list of [n]
    timers: a restart needs a deletion, which has happened already when
    [deleted] is set. *)
Definition restart_fuel (deleted : bool) (n : nat) : nat :=
  if deleted then passes_fuel n
  else match n with O => 0%nat | S k => passes_fuel k end.

(** [c] does the word stores [ws], in this order, and nothing else. *)
Definition stores (c : M unit) (ws : list (Z * Z)) : Prop :=
  forall m,
    (forall a v, In (a, v) ws -> a mod 4 = 0 /\ in_bounds m a 4 = true) ->
    c m = Done tt (with_words m ws).

(** The words that [control_constructor] stores: the two list pointers of
    [block_null], [fl_bitmap], and for each first-level index the word
    [sl_bitmap[i]] followed by the row [blocks[i][0 .. 31]]. *)
Definition control_words (control : Z) : list (Z * Z) :=
  [(Tlsf.field (Tlsf.block_null control) Tlsf.off_next_free,
    Tlsf.block_null control);
   (Tlsf.field (Tlsf.block_null control) Tlsf.off_prev_free,
    Tlsf.block_null control);
   (Tlsf.fl_bitmap_at control, 0)]
  ++ flat_map (fun i =>
       (Tlsf.field control (Tlsf.off_sl_bitmap + 4 * i), 0)
       :: map (fun j =>
                 (Tlsf.field control
                    (Tlsf.off_blocks
                     + Tlsf.sizeof_ptr * (i * Tlsf.SL_INDEX_COUNT + j)),
                  Tlsf.block_null control))
              (Tlsf.upto Tlsf.SL_INDEX_COUNT))
     (Tlsf.upto Tlsf.FL_INDEX_COUNT).

(** The byte offsets of these words inside [control_t]. *)
Definition control_offsets : list Z :=
  [8; 12; 16]
  ++ flat_map (fun i => (20 + 4 * i) :: map (fun j => 36 + 4 * (i * 32 + j))
                                            (Tlsf.upto 32))
              (Tlsf.upto 4).

Fixpoint nodupb (l : list Z) : bool :=
  match l with
  | [] => true
  | x :: t => negb (existsb (Z.eqb x) t) && nodupb t
  end.

(** A control structure without a pool, in a zeroed buffer of 1024 bytes. *)
Definition empty_heap : memory :=
  Eval vm_compute in
    state_of (Tlsf.os_tlsf_create heap_base (zeroed heap_base 1024)).

(** [empty_heap] with one free block, at offset 600, on the list (1, 2). *)
Definition one_free_block : memory :=
  Eval vm_compute in
    state_of (Tlsf.insert_free_block heap_base (heap_base + 600) 1 2 empty_heap).

(** * Properties *)

(** ** The size mapping *)

Lemma small_block_size_eq : Tlsf.SMALL_BLOCK_SIZE = 128.
Proof. reflexivity. Qed.

Lemma u32_small (z : Z) : 0 <= z < modulus -> u32 z = z.
Proof. intros H. unfold u32. apply Z.mod_small. exact H. Qed.

Lemma to_int_small (z : Z) : 0 <= z < 2 ^ 31 -> to_int z = z.
Proof.
  intros H. unfold to_int. rewrite u32_small by (unfold modulus; lia).
  destruct (Z.ltb_spec z (2 ^ 31)); lia.
Qed.

(** C7. For every size [s] with [block_size_min <= s < block_size_max],
    [mapping_insert] yields [fl = 0] and [sl = s / (SMALL_BLOCK_SIZE /
    SL_INDEX_COUNT)] when [s < SMALL_BLOCK_SIZE], and otherwise
    [fl = floor(log2 s) - (FL_INDEX_SHIFT - 1)] and
    [sl = (s >> (fl + FL_INDEX_SHIFT - 1 - SL_INDEX_COUNT_LOG2)) xor
    SL_INDEX_COUNT], with [ALIGN_SIZE_LOG2 = 2], [SL_INDEX_COUNT_LOG2 = 5]
    and [FL_INDEX_SHIFT = 7]. *)
Theorem mapping_insert_spec (s : Z) :
  Tlsf.block_size_min <= s < Tlsf.block_size_max ->
  Tlsf.ALIGN_SIZE_LOG2 = 2 /\ Tlsf.SL_INDEX_COUNT_LOG2 = 5 /\
  Tlsf.FL_INDEX_SHIFT = 7 /\
  Tlsf.mapping_insert s =
    (if s <? Tlsf.SMALL_BLOCK_SIZE
     then (0, s / (Tlsf.SMALL_BLOCK_SIZE / Tlsf.SL_INDEX_COUNT))
     else
       let fl := Z.log2 s - (Tlsf.FL_INDEX_SHIFT - 1) in
       (fl, Z.lxor (Z.shiftr s (fl + Tlsf.FL_INDEX_SHIFT - 1
                                 - Tlsf.SL_INDEX_COUNT_LOG2))
                   Tlsf.SL_INDEX_COUNT)) /\
  Tlsf.mapping_insert s = Tlsf.spec_mapping s.
Proof.
  intros [Hlo Hhi].
  change Tlsf.block_size_min with 12 in Hlo.
  change Tlsf.block_size_max with 1024 in Hhi.
  assert (Hmap : Tlsf.mapping_insert s = Tlsf.spec_mapping s).
  { unfold Tlsf.mapping_insert, Tlsf.spec_mapping.
    change Tlsf.SMALL_BLOCK_SIZE with 128.
    change Tlsf.SL_INDEX_COUNT with 32.
    change Tlsf.SL_INDEX_COUNT_LOG2 with 5.
    change Tlsf.FL_INDEX_SHIFT with 7.
    destruct (Z.ltb_spec s 128) as [Hs | Hs].
    - rewrite to_int_small by lia.
      rewrite Z.quot_div_nonneg by (cbn; lia).
      reflexivity.
    - assert (Hfls : Tlsf.tlsf_fls s = Z.log2 s).
      { unfold Tlsf.tlsf_fls, builtin_clz.
        destruct (Z.eqb_spec s 0); lia. }
      rewrite Hfls. cbn zeta.
      assert (7 <= Z.log2 s < 10).
      { split.
        - apply (Z.log2_le_mono 128 s). lia.
        - apply Z.log2_lt_pow2; lia. }
      unfold shr.
      assert (Hsh : 0 <= Z.shiftr s (Z.log2 s - 5) < 2 ^ 31).
      { rewrite Z.shiftr_div_pow2 by lia. split.
        - apply Z.div_pos; [lia | apply Z.pow_pos_nonneg; lia].
        - apply Z.div_lt_upper_bound; [apply Z.pow_pos_nonneg; lia |].
          assert (0 < 2 ^ (Z.log2 s - 5)) by (apply Z.pow_pos_nonneg; lia).
          nia. }
      rewrite to_int_small by exact Hsh.
      f_equal. f_equal. f_equal. lia. }
  repeat split; try reflexivity; [| exact Hmap].
  rewrite Hmap. reflexivity.
Qed.

(** The mapping at a size below and a size above [SMALL_BLOCK_SIZE]. *)
Lemma mapping_insert_spec_witness :
  Tlsf.mapping_insert 468 = (2, 26) /\ Tlsf.mapping_insert 64 = (0, 16).
Proof.
  split.
  - destruct (mapping_insert_spec 468) as (_ & _ & _ & H & _).
    + change Tlsf.block_size_min with 12.
      change Tlsf.block_size_max with 1024. lia.
    + rewrite H. reflexivity.
  - destruct (mapping_insert_spec 64) as (_ & _ & _ & H & _).
    + change Tlsf.block_size_min with 12.
      change Tlsf.block_size_max with 1024. lia.
    + rewrite H. reflexivity.
Defined.

(** ** Zero-byte allocations *)

(** C8. [os_mem_alloc(0)] returns the address of [zero_mem] on every call:
    the same non-null address, with the heap and the counters untouched;
    that object holds [0xa1b2c3d4] from start-up on; and [os_mem_free] of
    that address or of null changes neither the heap nor [cur_used]. *)
Theorem os_mem_alloc_zero_stable
  (zero_mem_addr : Z) (fuel : nat) (g : OsMem.globals) (m : memory) :
  zero_mem_addr <> 0 ->
  OsMem.os_mem_alloc zero_mem_addr fuel g 0 m = Done (zero_mem_addr, g) m /\
  (forall fuel' g' m',
      exists r, OsMem.os_mem_alloc zero_mem_addr fuel' g' 0 m' = Done (r, g') m'
                /\ r = zero_mem_addr /\ r <> 0) /\
  OsMem.zero_mem OsMem.initial_globals = 2712847316 /\
  2712847316 = 0xa1b2c3d4 /\
  OsMem.os_mem_free zero_mem_addr g zero_mem_addr m = Done g m /\
  OsMem.os_mem_free zero_mem_addr g 0 m = Done g m.
Proof.
  intros Hnz. repeat split.
  - intros fuel' g' m'. exists zero_mem_addr. repeat split. exact Hnz.
  - unfold OsMem.os_mem_free. rewrite Z.eqb_refl. reflexivity.
  - unfold OsMem.os_mem_free.
    destruct (0 =? zero_mem_addr); reflexivity.
Qed.

Lemma os_mem_alloc_zero_stable_witness :
  OsMem.os_mem_alloc 536871936 0 OsMem.initial_globals 0 (zeroed 536870912 1024)
  = Done (536871936, OsMem.initial_globals) (zeroed 536870912 1024).
Proof.
  apply (os_mem_alloc_zero_stable 536871936 0 OsMem.initial_globals
           (zeroed 536870912 1024)).
  lia.
Defined.

(** ** Reasoning about the memory monad *)

Lemma bind_Done {A B} (c : M A) (k : A -> M B) (m : memory) (b : B) (m' : memory) :
  bind c k m = Done b m' ->
  exists a m1, c m = Done a m1 /\ k a m1 = Done b m'.
Proof.
  unfold bind. destruct (c m) as [a m1 | |]; intros H; try discriminate.
  exists a, m1. split; [reflexivity | exact H].
Qed.

Lemma ret_Done {A} (a b : A) (m m' : memory) :
  ret a m = Done b m' -> a = b /\ m = m'.
Proof. unfold ret. intros H. inversion H. split; reflexivity. Qed.

Ltac inv_bind H :=
  let a := fresh "a" in
  let m1 := fresh "m" in
  let H1 := fresh "Hc" in
  apply bind_Done in H; destruct H as (a & m1 & H1 & H).

(** ** The consistency checks *)

Lemma os_tlsf_check_zero (fuel : nat) (tlsf : Z) (m m' : memory) (r : Z) :
  Tlsf.os_tlsf_check fuel tlsf m = Done r m' -> r = 0.
Proof.
  unfold Tlsf.os_tlsf_check. intros H. inv_bind H.
  apply ret_Done in H. symmetry. apply H.
Qed.

Lemma integrity_walker_status (ptr size : Z) (used : bool)
      (integ r : Tlsf.integrity_t) (m m' : memory) :
  Tlsf.status integ = 0 ->
  Tlsf.integrity_walker ptr size used integ m = Done r m' ->
  Tlsf.status r = 0.
Proof.
  intros Hs H. unfold Tlsf.integrity_walker in H. inv_bind H.
  apply ret_Done in H. destruct H as [H _]. subst r. cbn. rewrite Hs. reflexivity.
Qed.

Lemma walk_loop_status (fuel : nat) :
  forall (block : Z) (integ r : Tlsf.integrity_t) (m m' : memory),
    Tlsf.status integ = 0 ->
    Tlsf.walk_loop fuel Tlsf.integrity_walker block integ m = Done r m' ->
    Tlsf.status r = 0.
Proof.
  induction fuel as [| fuel IH]; intros block integ r m m' Hs H; cbn in H.
  - discriminate.
  - destruct (block =? 0).
    + apply ret_Done in H. destruct H as [H _]. subst r. exact Hs.
    + inv_bind H. destruct a.
      * apply ret_Done in H. destruct H as [H _]. subst r. exact Hs.
      * inv_bind H. inv_bind H. inv_bind H. inv_bind H.
        eapply IH; [| exact H].
        eapply integrity_walker_status; [exact Hs | exact Hc2].
Qed.

Lemma os_tlsf_check_pool_zero (fuel : nat) (pool : Z) (m m' : memory) (r : Z) :
  Tlsf.os_tlsf_check_pool fuel pool m = Done r m' -> r = 0.
Proof.
  unfold Tlsf.os_tlsf_check_pool, Tlsf.os_tlsf_walk_pool. intros H. inv_bind H.
  apply ret_Done in H. destruct H as [H _]. subst r.
  eapply walk_loop_status; [| exact Hc]. reflexivity.
Qed.

(** Whatever the heap holds, a finished [os_mem_test] reports
    [OS_RES_INV] exactly when [zero_mem] has lost its value. *)
Lemma os_mem_test_only_sentinel (fuel : nat) (g : OsMem.globals)
      (m m' : memory) (r : Z) :
  OsMem.os_mem_test fuel g m = Done r m' ->
  r = if OsMem.zero_mem g =? OsMem.ZERO_MEM_SENTINEL
      then OsMem.OS_RES_OK else OsMem.OS_RES_INV.
Proof.
  unfold OsMem.os_mem_test. intros H.
  destruct (OsMem.zero_mem g =? OsMem.ZERO_MEM_SENTINEL); cbn in H.
  - inv_bind H. apply os_tlsf_check_zero in Hc. subst a. cbn in H.
    inv_bind H. apply os_tlsf_check_pool_zero in Hc. subst a. cbn in H.
    apply ret_Done in H. symmetry. apply H.
  - apply ret_Done in H. symmetry. apply H.
Qed.

(** C3 (as the code behaves). With [fl_bitmap] cleared the first-level bit
    of the list [blocks[2][26]] is 0 although that list holds the pool's
    free block; [os_mem_test] still returns [OS_RES_OK]. *)
Theorem os_mem_test_misses_bitmap_mismatch :
  let g := OsMem.mkGlobals heap_base 0 0 OsMem.ZERO_MEM_SENTINEL in
  load32 (Tlsf.fl_bitmap_at heap_base) heap_fl_bitmap_cleared
    = Done 0 heap_fl_bitmap_cleared /\
  (a <- Tlsf.blocks_at heap_base 2 26 ;; load32 a) heap_fl_bitmap_cleared
    = Done (heap_base + 544) heap_fl_bitmap_cleared /\
  heap_base + 544 <> Tlsf.block_null heap_base /\
  OsMem.os_mem_test 64 g heap_fl_bitmap_cleared
    = Done OsMem.OS_RES_OK heap_fl_bitmap_cleared.
Proof.
  cbv zeta.
  split; [vm_compute; reflexivity |].
  split; [vm_compute; reflexivity |].
  split; [vm_compute; discriminate |].
  vm_compute. reflexivity.
Qed.

(** ** The allocator on concrete heaps *)

(** C1 (as the code behaves). On a pool created over [stale_buffer_a],
    [a = malloc(64); free(a)] returns with the first block of the pool free
    and its physical successor, at offset 632, free as well: [block_split]
    never writes the size of the block it splits off, so that block has the
    size the buffer happened to hold (16 instead of 400) and the chain runs
    into stale memory.  Over a zeroed buffer the same two calls do not get
    that far: the block split off has its own address as size and the
    free-list tables are indexed out of bounds. *)
Theorem free_leaves_adjacent_free_blocks :
  malloc_then_free stale_buffer_a
  = Done (heap_base + 552, true, heap_base + 632, true, false)
         (state_of (malloc_then_free stale_buffer_a)) /\
  malloc_then_free (zeroed heap_base 1024) = Fault.
Proof. split; vm_compute; reflexivity. Qed.

(** The heap that run leaves, with two adjacent free blocks in it, also
    passes [os_mem_test]. *)
Lemma os_mem_test_misses_adjacent_free :
  let m := state_of (malloc_then_free stale_buffer_a) in
  OsMem.os_mem_test 64 (OsMem.mkGlobals heap_base 0 0 OsMem.ZERO_MEM_SENTINEL) m
  = Done OsMem.OS_RES_OK m.
Proof. vm_compute. reflexivity. Qed.

(** C2 (as the code behaves). On the heap of [os_mem_init] the free-list
    invariant holds, and the first [os_tlsf_malloc(64)] indexes [sl_bitmap]
    and [blocks] out of bounds: the block split off has its own address as
    size.  On a pool over [stale_buffer_b], where no index leaves the
    tables, the invariant holds before [malloc(12)] and is broken after it:
    the free block at offset 680 is on the list of size 332 with a size
    field that now holds an address. *)
Theorem malloc_breaks_free_lists :
  free_lists_ok 64 heap_base fresh_heap = Done true fresh_heap /\
  Tlsf.os_tlsf_malloc heap_base 64 fresh_heap = Fault /\
  split_next_to_free_block stale_buffer_b
  = Done (true, false, heap_base + 560)
         (state_of (split_next_to_free_block stale_buffer_b)).
Proof.
  split; [vm_compute; reflexivity |].
  split; vm_compute; reflexivity.
Qed.

(** C4 (as the code behaves). [os_tlsf_memalign(tlsf, 0x80000000, 8)] on
    [small_heap] returns a non-null pointer that is not a multiple of the
    alignment: the sum [adjust + align + gap_minimum] is rounded up to
    [2^32], which wraps to 0 and is then raised to [block_size_min]. *)
Theorem memalign_unaligned_result :
  Tlsf.adjust_request_size (add (add 12 2147483648) 16) 2147483648 = 12 /\
  Tlsf.os_tlsf_memalign heap_base 2147483648 8 small_heap
  = Done (heap_base + 552)
         (state_of (Tlsf.os_tlsf_memalign heap_base 2147483648 8 small_heap)) /\
  heap_base + 552 <> 0 /\
  (heap_base + 552) mod 2147483648 <> 0.
Proof.
  split; [vm_compute; reflexivity |].
  split; [vm_compute; reflexivity |].
  split; vm_compute; discriminate.
Qed.

(** C5 (as the code behaves). With [p = malloc(8)] on [small_heap],
    [os_tlsf_realloc(tlsf, p, 0xFFFFFFFF)] returns [p], not null:
    [align_up] wraps the size to 0 and [adjust_request_size] raises it to
    [block_size_min], so the request is taken for one of 12 bytes. *)
Theorem realloc_huge_size_not_rejected :
  Tlsf.block_size_max < 4294967295 /\
  Tlsf.adjust_request_size 4294967295 Tlsf.ALIGN_SIZE = 12 /\
  Tlsf.os_tlsf_malloc heap_base 8 small_heap
  = Done (heap_base + 552) small_heap_in_use /\
  Tlsf.os_tlsf_realloc heap_base (heap_base + 552) 4294967295 small_heap_in_use
  = Done (heap_base + 552) small_heap_in_use.
Proof.
  split; [vm_compute; reflexivity |].
  split; [vm_compute; reflexivity |].
  split; vm_compute; reflexivity.
Qed.
(** The two edge cases of [os_tlsf_realloc] that need no size check: a null
    pointer is a plain [os_tlsf_malloc], and a zero size with a non-null
    pointer is [os_tlsf_free] followed by a null result. *)
Lemma os_tlsf_realloc_null_and_zero (tlsf ptr size : Z) (m : memory) :
  Tlsf.os_tlsf_realloc tlsf 0 size m = Tlsf.os_tlsf_malloc tlsf size m /\
  (ptr <> 0 ->
   Tlsf.os_tlsf_realloc tlsf ptr 0 m
   = (_ <- Tlsf.os_tlsf_free tlsf ptr ;; ret 0) m).
Proof.
  split.
  - reflexivity.
  - intros Hp. unfold Tlsf.os_tlsf_realloc.
    destruct (Z.eqb_spec ptr 0) as [E | _]; [contradiction | reflexivity].
Qed.

(** ** Bytes in memory *)

Lemma upd_length (l : list Z) : forall i v, length (upd l i v) = length l.
Proof.
  induction l as [| h t IH]; intros [| i] v; cbn; try reflexivity.
  rewrite IH. reflexivity.
Qed.

Lemma nth_upd_same (l : list Z) :
  forall i v, (i < length l)%nat -> nth i (upd l i v) 0 = v.
Proof.
  induction l as [| h t IH]; intros [| i] v Hi; cbn in *; try lia.
  apply IH. lia.
Qed.

Lemma nth_upd_other (l : list Z) :
  forall i j v, i <> j -> nth j (upd l i v) 0 = nth j l 0.
Proof.
  induction l as [| h t IH]; intros [| i] [| j] v Hij; cbn; try reflexivity.
  - contradiction.
  - apply IH. intros E. apply Hij. rewrite E. reflexivity.
Qed.

Lemma same_shape_refl (m : memory) : same_shape m m.
Proof. split; reflexivity. Qed.

Lemma same_shape_trans (m1 m2 m3 : memory) :
  same_shape m1 m2 -> same_shape m2 m3 -> same_shape m1 m3.
Proof. intros [A B] [C D]. split; congruence. Qed.

Lemma set_byte_shape (m : memory) (a v : Z) : same_shape m (set_byte m a v).
Proof. split; cbn; [reflexivity | apply upd_length]. Qed.

Lemma in_bounds_shape (m m' : memory) (a n : Z) :
  same_shape m m' -> in_bounds m' a n = in_bounds m a n.
Proof.
  intros [Hb Hl]. unfold in_bounds, mem_size. rewrite Hb, Hl. reflexivity.
Qed.

Lemma in_bounds_spec (m : memory) (a n : Z) :
  in_bounds m a n = true <->
  mem_base m <= a /\ a + n <= mem_base m + mem_size m.
Proof.
  unfold in_bounds. rewrite andb_true_iff, !Z.leb_le. reflexivity.
Qed.

Lemma byte_at_range (m : memory) (a : Z) : 0 <= byte_at m a < 256.
Proof. unfold byte_at. apply Z.mod_pos_bound. lia. Qed.

Lemma byte_at_set_same (m : memory) (a v : Z) :
  in_bounds m a 1 = true -> byte_at (set_byte m a v) a = v mod 256.
Proof.
  intros Hb. apply in_bounds_spec in Hb. unfold mem_size in Hb.
  unfold byte_at, set_byte. cbn.
  rewrite nth_upd_same by lia.
  apply Z.mod_mod. lia.
Qed.

Lemma byte_at_set_other (m : memory) (a b v : Z) :
  mem_base m <= a -> mem_base m <= b -> a <> b ->
  byte_at (set_byte m a v) b = byte_at m b.
Proof.
  intros Ha Hb Hab. unfold byte_at, set_byte. cbn.
  rewrite nth_upd_other by lia. reflexivity.
Qed.

Lemma set_byte_congr (m : memory) (a v w : Z) :
  v mod 256 = w mod 256 -> set_byte m a v = set_byte m a w.
Proof. intros H. unfold set_byte. rewrite H. reflexivity. Qed.

Lemma copy_bytes_shape (n : nat) :
  forall d s m, same_shape m (copy_bytes n d s m).
Proof.
  induction n as [| n IH]; intros d s m; cbn.
  - apply same_shape_refl.
  - eapply same_shape_trans; [apply set_byte_shape | apply IH].
Qed.

Lemma copy_bytes_app (a : nat) :
  forall (b : nat) d s m,
    copy_bytes (a + b) d s m
    = copy_bytes b (d + Z.of_nat a) (s + Z.of_nat a) (copy_bytes a d s m).
Proof.
  induction a as [| a IH]; intros b d s m.
  - cbn. rewrite !Z.add_0_r. reflexivity.
  - change (S a + b)%nat with (S (a + b)). cbn [copy_bytes]. rewrite IH.
    replace (d + 1 + Z.of_nat a) with (d + Z.of_nat (S a)) by lia.
    replace (s + 1 + Z.of_nat a) with (s + Z.of_nat (S a)) by lia.
    reflexivity.
Qed.

(** What [copy_bytes] leaves outside the destination. *)
Lemma copy_bytes_outside (n : nat) :
  forall d s m a,
    mem_base m <= d -> mem_base m <= a ->
    a < d \/ d + Z.of_nat n <= a ->
    byte_at (copy_bytes n d s m) a = byte_at m a.
Proof.
  induction n as [| n IH]; intros d s m a Hd Ha Hout; cbn [copy_bytes].
  - reflexivity.
  - rewrite IH.
    + apply byte_at_set_other; lia.
    + cbn. lia.
    + cbn. exact Ha.
    + lia.
Qed.

(** What [copy_bytes] puts into the destination, when the source lies
    outside it. *)
Lemma copy_bytes_inside (n : nat) :
  forall d s m i,
    in_bounds m d (Z.of_nat n) = true ->
    in_bounds m s (Z.of_nat n) = true ->
    s + Z.of_nat n <= d \/ d + Z.of_nat n <= s ->
    0 <= i < Z.of_nat n ->
    byte_at (copy_bytes n d s m) (d + i) = byte_at m (s + i).
Proof.
  induction n as [| n IH]; intros d s m i Hd Hs Hdis Hi.
  - lia.
  - apply in_bounds_spec in Hd. apply in_bounds_spec in Hs.
    cbn [copy_bytes].
    assert (Hsh := set_byte_shape m d (byte_at m s)).
    destruct (Z.eq_dec i 0) as [-> | Hne].
    + rewrite Z.add_0_r. rewrite copy_bytes_outside; cbn; try lia.
      rewrite byte_at_set_same by (apply in_bounds_spec; lia).
      rewrite Z.add_0_r. apply Z.mod_small. apply byte_at_range.
    + replace (d + i) with (d + 1 + (i - 1)) by lia.
      rewrite IH.
      * replace (s + 1 + (i - 1)) with (s + i) by lia.
        apply byte_at_set_other; lia.
      * rewrite (in_bounds_shape _ _ _ _ Hsh). apply in_bounds_spec. lia.
      * rewrite (in_bounds_shape _ _ _ _ Hsh). apply in_bounds_spec. lia.
      * lia.
      * lia.
Qed.

(** ** The steps of [os_memcpy] *)

Lemma load8_in (m : memory) (a : Z) :
  in_bounds m a 1 = true -> load8 a m = Done (byte_at m a) m.
Proof. intros H. unfold load8. rewrite H. reflexivity. Qed.

Lemma store8_in (m : memory) (a v : Z) :
  in_bounds m a 1 = true -> store8 a v m = Done tt (set_byte m a v).
Proof. intros H. unfold store8. rewrite H. reflexivity. Qed.

Lemma load32_in (m : memory) (a : Z) :
  a mod 4 = 0 -> in_bounds m a 4 = true ->
  load32 a m
  = Done (byte_at m a + 2 ^ 8 * byte_at m (a + 1)
          + 2 ^ 16 * byte_at m (a + 2) + 2 ^ 24 * byte_at m (a + 3)) m.
Proof. intros Ha H. unfold load32. rewrite Ha, H. reflexivity. Qed.

Lemma store32_in (m : memory) (a v : Z) :
  a mod 4 = 0 -> in_bounds m a 4 = true ->
  store32 a v m
  = Done tt (set_byte (set_byte (set_byte (set_byte m a v)
               (a + 1) (v / 2 ^ 8)) (a + 2) (v / 2 ^ 16)) (a + 3) (v / 2 ^ 24)).
Proof. intros Ha H. unfold store32. rewrite Ha, H. reflexivity. Qed.

Lemma in_bounds_sub (m : memory) (a n b k : Z) :
  in_bounds m a n = true -> a <= b -> b + k <= a + n ->
  in_bounds m b k = true.
Proof. rewrite !in_bounds_spec. lia. Qed.

Lemma COPY8_ok (d s : Z) (m : memory) :
  in_bounds m d 1 = true -> in_bounds m s 1 = true ->
  Copy.COPY8 d s m = Done (d + 1, s + 1) (copy_bytes 1 d s m).
Proof.
  intros Hd Hs. unfold Copy.COPY8, bind.
  rewrite (load8_in _ _ Hs), (store8_in _ _ _ Hd). reflexivity.
Qed.

Lemma naive_copy_ok (n : nat) :
  forall d s m,
    in_bounds m d (Z.of_nat n) = true -> in_bounds m s (Z.of_nat n) = true ->
    Copy.naive_copy n d s m = Done tt (copy_bytes n d s m).
Proof.
  induction n as [| n IH]; intros d s m Hd Hs.
  - reflexivity.
  - cbn [Copy.naive_copy copy_bytes]. unfold bind.
    rewrite (load8_in m s) by (eapply in_bounds_sub; [exact Hs | lia | lia]).
    rewrite (store8_in m d) by (eapply in_bounds_sub; [exact Hd | lia | lia]).
    assert (Hsh := set_byte_shape m d (byte_at m s)).
    apply IH; rewrite (in_bounds_shape _ _ _ _ Hsh).
    + eapply in_bounds_sub; [exact Hd | lia | lia].
    + eapply in_bounds_sub; [exact Hs | lia | lia].
Qed.

Lemma word_bytes (b0 b1 b2 b3 : Z) :
  0 <= b0 < 256 -> 0 <= b1 < 256 -> 0 <= b2 < 256 -> 0 <= b3 < 256 ->
  let v := b0 + 2 ^ 8 * b1 + 2 ^ 16 * b2 + 2 ^ 24 * b3 in
  v mod 256 = b0 mod 256 /\ (v / 2 ^ 8) mod 256 = b1 mod 256 /\
  (v / 2 ^ 16) mod 256 = b2 mod 256 /\ (v / 2 ^ 24) mod 256 = b3 mod 256.
Proof.
  intros H0 H1 H2 H3 v. subst v.
  change (2 ^ 8) with 256. change (2 ^ 16) with 65536.
  change (2 ^ 24) with 16777216.
  repeat split; Z.div_mod_to_equations; lia.
Qed.

Lemma COPY32_ok (d s : Z) (m : memory) :
  d mod 4 = 0 -> s mod 4 = 0 ->
  in_bounds m d 4 = true -> in_bounds m s 4 = true ->
  s + 4 <= d \/ d + 4 <= s ->
  Copy.COPY32 d s m = Done (d + 4, s + 4) (copy_bytes 4 d s m).
Proof.
  intros Hda Hsa Hd Hs Hdis.
  unfold Copy.COPY32, bind.
  rewrite (load32_in _ _ Hsa Hs), (store32_in _ _ _ Hda Hd).
  unfold ret. f_equal.
  assert (Bd := proj1 (in_bounds_spec _ _ _) Hd).
  assert (Bs := proj1 (in_bounds_spec _ _ _) Hs).
  destruct (word_bytes (byte_at m s) (byte_at m (s + 1)) (byte_at m (s + 2))
              (byte_at m (s + 3)) (byte_at_range _ _) (byte_at_range _ _)
              (byte_at_range _ _) (byte_at_range _ _)) as (E0 & E1 & E2 & E3).
  cbv zeta in E0, E1, E2, E3.
  cbn [copy_bytes].
  replace (d + 1 + 1) with (d + 2) by lia.
  replace (d + 2 + 1) with (d + 3) by lia.
  replace (s + 1 + 1) with (s + 2) by lia.
  replace (s + 2 + 1) with (s + 3) by lia.
  rewrite (set_byte_congr m d _ _ E0).
  set (m1 := set_byte m d (byte_at m s)).
  assert (F1 : byte_at m1 (s + 1) = byte_at m (s + 1))
    by (apply byte_at_set_other; lia).
  rewrite F1. rewrite (set_byte_congr m1 (d + 1) _ _ E1).
  set (m2 := set_byte m1 (d + 1) (byte_at m (s + 1))).
  assert (F2 : byte_at m2 (s + 2) = byte_at m (s + 2)).
  { unfold m2. rewrite byte_at_set_other by (cbn; lia).
    apply byte_at_set_other; lia. }
  rewrite F2. rewrite (set_byte_congr m2 (d + 2) _ _ E2).
  set (m3 := set_byte m2 (d + 2) (byte_at m (s + 2))).
  assert (F3 : byte_at m3 (s + 3) = byte_at m (s + 3)).
  { unfold m3. rewrite byte_at_set_other by (cbn; lia).
    unfold m2. rewrite byte_at_set_other by (cbn; lia).
    apply byte_at_set_other; lia. }
  rewrite F3. rewrite (set_byte_congr m3 (d + 3) _ _ E3).
  reflexivity.
Qed.

Lemma copies_COPY8 : copies any_pointers 1 Copy.COPY8.
Proof.
  split.
  - intros; exact I.
  - intros d s m _ Hd Hs _. apply COPY8_ok; assumption.
Qed.

Lemma copies_COPY32 : copies aligned4 4 Copy.COPY32.
Proof.
  split.
  - intros d s [Hd Hs]. split.
    + change (Z.of_nat 4) with (1 * 4). rewrite Z.mod_add by lia. exact Hd.
    + change (Z.of_nat 4) with (1 * 4). rewrite Z.mod_add by lia. exact Hs.
  - intros d s m [Hda Hsa] Hd Hs Hdis. apply COPY32_ok; assumption.
Qed.

Lemma copies_REPEAT (P : Z -> Z -> Prop) (chunk : nat)
      (body : Z -> Z -> M (Z * Z)) (n : nat) :
  copies P chunk body -> copies P (n * chunk) (Copy.REPEAT n body).
Proof.
  intros [Hp Hb]. induction n as [| n [IHp IHb]].
  - split.
    + intros d s H. cbn. rewrite !Z.add_0_r. exact H.
    + intros d s m _ _ _ _. cbn. rewrite !Z.add_0_r. reflexivity.
  - split.
    + intros d s H. cbn [Nat.mul]. rewrite Nat2Z.inj_add, !Z.add_assoc.
      apply IHp. apply Hp. exact H.
    + intros d s m HP Hd Hs Hdis.
      cbn [Nat.mul] in *. rewrite Nat2Z.inj_add in *.
      assert (0 <= Z.of_nat chunk) by lia.
      assert (0 <= Z.of_nat (n * chunk)) by lia.
      cbn [Copy.REPEAT]. unfold bind.
      rewrite Hb; try assumption.
      * assert (Hsh := copy_bytes_shape chunk d s m).
        rewrite IHb.
        -- rewrite copy_bytes_app, !Z.add_assoc. reflexivity.
        -- apply Hp. exact HP.
        -- rewrite (in_bounds_shape _ _ _ _ Hsh).
           eapply in_bounds_sub; [exact Hd | lia | lia].
        -- rewrite (in_bounds_shape _ _ _ _ Hsh).
           eapply in_bounds_sub; [exact Hs | lia | lia].
        -- lia.
      * eapply in_bounds_sub; [exact Hd | lia | lia].
      * eapply in_bounds_sub; [exact Hs | lia | lia].
      * lia.
Qed.

(** A [while(len > bound)] loop around a copy step of [chunk] bytes copies
    some [k <= len] bytes and leaves at most [bound] of them. *)
Lemma while_gt_ok (P : Z -> Z -> Prop) (chunk : nat)
      (body : Z -> Z -> M (Z * Z)) (bound : Z) :
  copies P chunk body -> (0 < chunk)%nat -> Z.of_nat chunk <= bound + 1 ->
  forall (fuel : nat) (d s len : Z) (m : memory),
    (Z.to_nat len <= fuel)%nat -> 0 <= len ->
    (bound < len -> P d s) ->
    in_bounds m d len = true -> in_bounds m s len = true ->
    s + len <= d \/ d + len <= s ->
    exists k : nat,
      Z.of_nat k <= len /\ len - Z.of_nat k <= bound /\
      (P d s -> P (d + Z.of_nat k) (s + Z.of_nat k)) /\
      Copy.while_gt fuel bound (Z.of_nat chunk) body d s len m
      = Done (d + Z.of_nat k, s + Z.of_nat k, len - Z.of_nat k)
             (copy_bytes k d s m).
Proof.
  intros [Hp Hb] Hc Hcb.
  induction fuel as [| fuel IH]; intros d s len m Hf Hlen HP Hd Hs Hdis.
  - exists O. cbn. rewrite !Z.add_0_r, Z.sub_0_r.
    repeat split; try lia. intros H; exact H.
  - cbn [Copy.while_gt]. destruct (Z.ltb_spec bound len) as [Hgt | Hle].
    + unfold bind. rewrite Hb.
      * assert (Hsh := copy_bytes_shape chunk d s m).
        destruct (IH (d + Z.of_nat chunk) (s + Z.of_nat chunk)
                     (len - Z.of_nat chunk) (copy_bytes chunk d s m))
          as (k & Hk1 & Hk2 & Hk3 & Hk4).
        -- lia.
        -- lia.
        -- intros _. apply Hp. apply HP. exact Hgt.
        -- rewrite (in_bounds_shape _ _ _ _ Hsh).
           eapply in_bounds_sub; [exact Hd | lia | lia].
        -- rewrite (in_bounds_shape _ _ _ _ Hsh).
           eapply in_bounds_sub; [exact Hs | lia | lia].
        -- lia.
        -- exists (chunk + k)%nat. rewrite Nat2Z.inj_add.
           repeat split; try lia.
           ++ intros H. rewrite !Z.add_assoc. apply Hk3. apply Hp. exact H.
           ++ rewrite Hk4, copy_bytes_app. f_equal. f_equal; [f_equal |]; lia.
      * apply HP. exact Hgt.
      * eapply in_bounds_sub; [exact Hd | lia | lia].
      * eapply in_bounds_sub; [exact Hs | lia | lia].
      * lia.
    + exists O. cbn. rewrite !Z.add_0_r, Z.sub_0_r.
      repeat split; try lia. intros H; exact H.
Qed.

Lemma land_3 (x : Z) : Z.land x Copy.ALIGN_MASK = x mod 4.
Proof.
  change Copy.ALIGN_MASK with (Z.ones 2). rewrite Z.land_ones by lia.
  reflexivity.
Qed.

Lemma align_loop_ok (fuel : nat) :
  forall (d s a len : Z) (m : memory),
    0 <= a -> (Z.to_nat a <= fuel)%nat -> 0 <= len ->
    in_bounds m d len = true -> in_bounds m s len = true ->
    let k := Z.to_nat (Z.min a len) in
    Copy.align_loop fuel d s a len m
    = Done (d + Z.of_nat k, s + Z.of_nat k, len - Z.of_nat k)
           (copy_bytes k d s m).
Proof.
  induction fuel as [| fuel IH]; intros d s a len m Ha Hf Hlen Hd Hs k.
  - assert (a = 0) by lia. subst a k.
    replace (Z.min 0 len) with 0 by lia. cbn.
    rewrite ?Z.add_0_r, ?Z.sub_0_r. reflexivity.
  - cbn [Copy.align_loop].
    destruct (Z.eqb_spec a 0) as [-> | Hna]; cbn [negb andb].
    + subst k. replace (Z.min 0 len) with 0 by lia. cbn.
      rewrite ?Z.add_0_r, ?Z.sub_0_r. reflexivity.
    + destruct (Z.eqb_spec len 0) as [-> | Hnl]; cbn [negb].
      * subst k. replace (Z.min a 0) with 0 by lia. cbn.
        rewrite ?Z.add_0_r, ?Z.sub_0_r. reflexivity.
      * unfold bind. rewrite COPY8_ok.
        -- assert (Hsh := copy_bytes_shape 1 d s m).
           rewrite IH; try lia.
           ++ assert (Ek : k = (1 + Z.to_nat (Z.min (a - 1) (len - 1)))%nat)
                by (subst k; lia).
              rewrite Ek, copy_bytes_app.
              f_equal. f_equal; [f_equal |]; lia.
           ++ rewrite (in_bounds_shape _ _ _ _ Hsh).
              eapply in_bounds_sub; [exact Hd | lia | lia].
           ++ rewrite (in_bounds_shape _ _ _ _ Hsh).
              eapply in_bounds_sub; [exact Hs | lia | lia].
        -- eapply in_bounds_sub; [exact Hd | lia | lia].
        -- eapply in_bounds_sub; [exact Hs | lia | lia].
Qed.

(** The byte loops of the path for differently aligned pointers. *)
Lemma byte_path_ok (dst d s len : Z) (m : memory) :
  0 <= len ->
  in_bounds m d len = true -> in_bounds m s len = true ->
  s + len <= d \/ d + len <= s ->
  ('(d8, s8, len) <-
     Copy.while_gt (Z.to_nat len) 32 32 (Copy.REPEAT 32 Copy.COPY8) d s len ;;
   '(_, _, _) <- Copy.while_gt (Z.to_nat len) 0 1 Copy.COPY8 d8 s8 len ;;
   ret dst) m
  = Done dst (copy_bytes (Z.to_nat len) d s m).
Proof.
  intros Hlen Hd Hs Hdis.
  destruct (while_gt_ok any_pointers (32 * 1) (Copy.REPEAT 32 Copy.COPY8) 32
              (copies_REPEAT _ _ _ 32 copies_COPY8) ltac:(cbn; lia)
              ltac:(cbn; lia) (Z.to_nat len) d s len m)
    as (k1 & A1 & A2 & _ & A4); try assumption; try lia.
  { intros _. exact I. }
  change (Z.of_nat (32 * 1)) with 32 in A4.
  unfold bind at 1. rewrite A4. cbv beta iota.
  assert (Hsh := copy_bytes_shape k1 d s m).
  destruct (while_gt_ok any_pointers 1 Copy.COPY8 0 copies_COPY8
              ltac:(lia) ltac:(cbn; lia)
              (Z.to_nat (len - Z.of_nat k1)) (d + Z.of_nat k1)
              (s + Z.of_nat k1) (len - Z.of_nat k1) (copy_bytes k1 d s m))
    as (k2 & B1 & B2 & _ & B4); try lia.
  { intros _. exact I. }
  { rewrite (in_bounds_shape _ _ _ _ Hsh).
    eapply in_bounds_sub; [exact Hd | lia | lia]. }
  { rewrite (in_bounds_shape _ _ _ _ Hsh).
    eapply in_bounds_sub; [exact Hs | lia | lia]. }
  change (Z.of_nat 1) with 1 in B4.
  unfold bind. rewrite B4. cbv beta iota. unfold ret.
  rewrite <- copy_bytes_app. f_equal. f_equal. lia.
Qed.

(** The word loops and the closing byte loop of the aligned path. *)
Lemma word_path_ok (dst d s len : Z) (m : memory) :
  0 <= len -> (0 < len -> aligned4 d s) ->
  in_bounds m d len = true -> in_bounds m s len = true ->
  s + len <= d \/ d + len <= s ->
  ('(d32, s32, len) <-
     Copy.while_gt (Z.to_nat len) 32 32 (Copy.REPEAT 8 Copy.COPY32) d s len ;;
   '(d32, s32, len) <- Copy.while_gt (Z.to_nat len) 4 4 Copy.COPY32 d32 s32 len ;;
   '(_, _, _) <- Copy.while_gt (Z.to_nat len) 0 1 Copy.COPY8 d32 s32 len ;;
   ret dst) m
  = Done dst (copy_bytes (Z.to_nat len) d s m).
Proof.
  intros Hlen Hal Hd Hs Hdis.
  destruct (while_gt_ok aligned4 (8 * 4) (Copy.REPEAT 8 Copy.COPY32) 32
              (copies_REPEAT _ _ _ 8 copies_COPY32) ltac:(cbn; lia)
              ltac:(cbn; lia) (Z.to_nat len) d s len m)
    as (k1 & A1 & A2 & A3 & A4); try assumption; try lia.
  { intros H. apply Hal. lia. }
  change (Z.of_nat (8 * 4)) with 32 in A4.
  unfold bind at 1. rewrite A4. cbv beta iota.
  assert (Hsh1 := copy_bytes_shape k1 d s m).
  set (m1 := copy_bytes k1 d s m) in *.
  destruct (while_gt_ok aligned4 4 Copy.COPY32 4 copies_COPY32
              ltac:(lia) ltac:(cbn; lia)
              (Z.to_nat (len - Z.of_nat k1)) (d + Z.of_nat k1)
              (s + Z.of_nat k1) (len - Z.of_nat k1) m1)
    as (k2 & B1 & B2 & _ & B4); try lia.
  { intros H. apply A3. apply Hal. lia. }
  { rewrite (in_bounds_shape _ _ _ _ Hsh1).
    eapply in_bounds_sub; [exact Hd | lia | lia]. }
  { rewrite (in_bounds_shape _ _ _ _ Hsh1).
    eapply in_bounds_sub; [exact Hs | lia | lia]. }
  change (Z.of_nat 4) with 4 in B4.
  unfold bind at 1. rewrite B4. cbv beta iota.
  assert (Hsh2 := copy_bytes_shape k2 (d + Z.of_nat k1) (s + Z.of_nat k1) m1).
  set (m2 := copy_bytes k2 (d + Z.of_nat k1) (s + Z.of_nat k1) m1) in *.
  assert (Hsh12 := same_shape_trans _ _ _ Hsh1 Hsh2).
  destruct (while_gt_ok any_pointers 1 Copy.COPY8 0 copies_COPY8
              ltac:(lia) ltac:(cbn; lia)
              (Z.to_nat (len - Z.of_nat k1 - Z.of_nat k2))
              (d + Z.of_nat k1 + Z.of_nat k2) (s + Z.of_nat k1 + Z.of_nat k2)
              (len - Z.of_nat k1 - Z.of_nat k2) m2)
    as (k3 & C1 & C2 & _ & C4); try lia.
  { intros _. exact I. }
  { rewrite (in_bounds_shape _ _ _ _ Hsh12).
    eapply in_bounds_sub; [exact Hd | lia | lia]. }
  { rewrite (in_bounds_shape _ _ _ _ Hsh12).
    eapply in_bounds_sub; [exact Hs | lia | lia]. }
  change (Z.of_nat 1) with 1 in C4.
  unfold bind. rewrite C4. cbv beta iota. unfold ret.
  subst m2 m1.
  replace (d + Z.of_nat k1 + Z.of_nat k2) with (d + Z.of_nat (k1 + k2)) by lia.
  replace (s + Z.of_nat k1 + Z.of_nat k2) with (s + Z.of_nat (k1 + k2)) by lia.
  rewrite <- (copy_bytes_app k1 k2), <- copy_bytes_app.
  f_equal. f_equal. lia.
Qed.

(** On buffers that lie in memory and do not overlap, [os_memcpy] returns
    [dst] and leaves the memory that [n] single byte copies leave. *)
Lemma os_memcpy_copy_bytes (dst src n : Z) (m : memory) :
  0 <= n ->
  in_bounds m dst n = true -> in_bounds m src n = true ->
  src + n <= dst \/ dst + n <= src ->
  Copy.os_memcpy dst src n m = Done dst (copy_bytes (Z.to_nat n) dst src m).
Proof.
  intros Hn Hd Hs Hdis. unfold Copy.os_memcpy. rewrite !land_3.
  destruct (Z.eqb_spec (src mod 4) (dst mod 4)) as [Heq | Hne]; cbn [negb].
  - destruct (Z.eqb_spec (dst mod 4) 0) as [Hd0 | Hd0]; cbn [negb].
    + unfold bind at 1. unfold ret at 1.
      apply word_path_ok; try assumption.
      intros _. split; congruence.
    + assert (Hr := Z.mod_pos_bound dst 4 ltac:(lia)).
      unfold bind at 1. change (Copy.ALIGN_MASK + 1) with 4.
      rewrite align_loop_ok; try assumption; try lia.
      set (k := Z.to_nat (Z.min (4 - dst mod 4) n)).
      assert (Hsh := copy_bytes_shape k dst src m).
      rewrite word_path_ok.
      * rewrite <- copy_bytes_app. f_equal. f_equal. lia.
      * lia.
      * intros Hpos. assert (Z.of_nat k = 4 - dst mod 4) by lia.
        split.
        -- replace (dst + Z.of_nat k) with (dst - dst mod 4 + 1 * 4) by lia.
           rewrite Z.mod_add by lia.
           rewrite Zminus_mod, Z.mod_mod, Z.sub_diag by lia. reflexivity.
        -- replace (src + Z.of_nat k) with (src - src mod 4 + 1 * 4) by lia.
           rewrite Z.mod_add by lia.
           rewrite Zminus_mod, Z.mod_mod, Z.sub_diag by lia. reflexivity.
      * rewrite (in_bounds_shape _ _ _ _ Hsh).
        eapply in_bounds_sub; [exact Hd | lia | lia].
      * rewrite (in_bounds_shape _ _ _ _ Hsh).
        eapply in_bounds_sub; [exact Hs | lia | lia].
      * lia.
  - apply byte_path_ok; assumption.
Qed.

(** C9. For buffers that lie in memory and do not overlap, whatever the
    alignment of the two pointers, [os_memcpy(d, s, n)] returns [d] and
    leaves exactly the memory that the naive byte-by-byte copy leaves: the
    first [n] bytes of [d] are the original first [n] bytes of [s] and no
    byte outside [d[0..n)] has changed. *)
Theorem os_memcpy_naive_copy (dst src n : Z) (m : memory) :
  0 <= n ->
  in_bounds m dst n = true -> in_bounds m src n = true ->
  src + n <= dst \/ dst + n <= src ->
  exists m',
    Copy.os_memcpy dst src n m = Done dst m' /\
    Copy.naive_copy (Z.to_nat n) dst src m = Done tt m' /\
    same_shape m m' /\
    (forall i, 0 <= i < n -> byte_at m' (dst + i) = byte_at m (src + i)) /\
    (forall a, in_bounds m a 1 = true -> a < dst \/ dst + n <= a ->
               byte_at m' a = byte_at m a).
Proof.
  intros Hn Hd Hs Hdis.
  exists (copy_bytes (Z.to_nat n) dst src m).
  split; [apply os_memcpy_copy_bytes; assumption |].
  split; [apply naive_copy_ok; rewrite Z2Nat.id by lia; assumption |].
  split; [apply copy_bytes_shape |].
  split.
  - intros i Hi. apply copy_bytes_inside; rewrite ?Z2Nat.id by lia;
      try assumption.
  - intros a Ha Hout.
    apply in_bounds_spec in Ha. apply in_bounds_spec in Hd.
    apply copy_bytes_outside; rewrite ?Z2Nat.id by lia; lia.
Qed.

(** The three paths on [forty_bytes]: pointers of different alignment, a
    destination that is first brought to a word boundary, and 37 bytes
    between two word-aligned pointers would not fit, so 17 are copied there. *)
Lemma os_memcpy_naive_copy_witness :
  (exists m', Copy.os_memcpy 1021 1002 9 forty_bytes = Done 1021 m' /\
              byte_at m' 1029 = 11) /\
  (exists m', Copy.os_memcpy 1022 1002 10 forty_bytes = Done 1022 m' /\
              byte_at m' 1031 = 12) /\
  (exists m', Copy.os_memcpy 1020 1000 17 forty_bytes = Done 1020 m' /\
              byte_at m' 1036 = 17).
Proof.
  split; [| split].
  - destruct (os_memcpy_naive_copy 1021 1002 9 forty_bytes)
      as (m' & H1 & _ & _ & H4 & _);
      [lia | reflexivity | reflexivity | lia |].
    exists m'. split; [exact H1 |].
    change 1029 with (1021 + 8). rewrite (H4 8) by lia. reflexivity.
  - destruct (os_memcpy_naive_copy 1022 1002 10 forty_bytes)
      as (m' & H1 & _ & _ & H4 & _);
      [lia | reflexivity | reflexivity | lia |].
    exists m'. split; [exact H1 |].
    change 1031 with (1022 + 9). rewrite (H4 9) by lia. reflexivity.
  - destruct (os_memcpy_naive_copy 1020 1000 17 forty_bytes)
      as (m' & H1 & _ & _ & H4 & _);
      [lia | reflexivity | reflexivity | lia |].
    exists m'. split; [exact H1 |].
    change 1036 with (1020 + 16). rewrite (H4 16) by lia. reflexivity.
Defined.

(** ** Invariants of the scheduler *)

Lemma obind_Some {A B} (o : option A) (k : A -> option B) (b : B) :
  obind o k = Some b -> exists a, o = Some a /\ k a = Some b.
Proof.
  destruct o as [a |]; cbn; intros H; [| discriminate].
  exists a. split; [reflexivity | exact H].
Qed.

Lemma same_timers_refl (s : sched) : same_timers s s.
Proof. repeat split. Qed.

Lemma same_timers_trans (s1 s2 s3 : sched) :
  same_timers s1 s2 -> same_timers s2 s3 -> same_timers s1 s3.
Proof. intros (A & B & C) (D & E & F). repeat split; congruence. Qed.

Lemma os_tick_get_same (s : sched) :
  same_timers s (snd (os_tick_get s)) /\ fst (os_tick_get s) = sys_time s /\
  sys_time (snd (os_tick_get s)) = sys_time s /\
  timer_deleted (snd (os_tick_get s)) = timer_deleted s.
Proof. repeat split. Qed.

Lemma os_tick_elaps_same (s : sched) (prev : Z) :
  same_timers s (snd (os_tick_elaps s prev)) /\
  sys_time (snd (os_tick_elaps s prev)) = sys_time s /\
  timer_deleted (snd (os_tick_elaps s prev)) = timer_deleted s.
Proof.
  unfold os_tick_elaps. cbn.
  destruct (prev <=? sys_time s); repeat split.
Qed.

Lemma os_timer_time_remaining_same (s : sched) (t : os_timer_t) :
  same_timers s (snd (os_timer_time_remaining s t)) /\
  sys_time (snd (os_timer_time_remaining s t)) = sys_time s /\
  timer_deleted (snd (os_timer_time_remaining s t)) = timer_deleted s.
Proof.
  unfold os_timer_time_remaining.
  destruct (os_tick_elaps_same s (last_run t)) as (A & B & C).
  destruct (os_tick_elaps s (last_run t)) as [elp s1] eqn:E. cbn in *.
  destruct (period t <=? elp); cbn; repeat split; try apply A; assumption.
Qed.

Lemma next_wake_same (l : list (Z * os_timer_t)) :
  forall s ttn, same_timers s (snd (next_wake l s ttn)).
Proof.
  induction l as [| [a t] l IH]; intros s ttn; cbn [next_wake].
  - apply same_timers_refl.
  - destruct (paused t); cbn [negb].
    + apply IH.
    + destruct (os_timer_time_remaining_same s t) as (A & _).
      destruct (os_timer_time_remaining s t) as [delay s1]. cbn in A.
      eapply same_timers_trans; [exact A | apply IH].
Qed.

Lemma idle_update_same (s : sched) (handler_start : Z) :
  same_timers s (idle_update s handler_start).
Proof.
  unfold idle_update.
  destruct (os_tick_elaps_same s handler_start) as (A & _).
  destruct (os_tick_elaps s handler_start) as [e s1]. cbn in A.
  destruct (os_tick_elaps_same s1 (idle_period_start s1)) as (B & _).
  destruct (os_tick_elaps s1 (idle_period_start s1)) as [ipt s2]. cbn in B.
  destruct (IDLE_MEAS_PERIOD <=? ipt); cbn;
    (eapply same_timers_trans; [exact A |]);
    (eapply same_timers_trans; [exact B |]); repeat split.
Qed.

(** *** The record of calls *)

Section Erasure.

Variable ll_alloc : list Z -> option Z.
Variable cb_code : Z -> Z -> app.

Lemma traced_exec_call_erase
      (h : sched -> option (Z * sched))
      (ht : sched -> option (Z * sched * list call_event)) (s : sched)
      (c : api_call) :
  (forall s, h s = untraced (ht s)) ->
  exec_call ll_alloc h s c = untraced (traced_exec_call ll_alloc ht s c).
Proof.
  intros H. destruct c; cbn [exec_call traced_exec_call];
    try (cbn; reflexivity);
    try (match goal with
         | |- Some ?x = _ => destruct x; reflexivity
         | |- context [obind ?o _] => destruct o; cbn; reflexivity
         end).
  rewrite H. destruct (ht s) as [[[r s'] ev] |]; reflexivity.
Qed.

Lemma traced_run_app_erase
      (h : sched -> option (Z * sched))
      (ht : sched -> option (Z * sched * list call_event)) (p : app) :
  (forall s, h s = untraced (ht s)) ->
  forall s, run_app ll_alloc h p s
            = option_map fst (traced_run_app ll_alloc ht p s).
Proof.
  intros H. induction p as [| c k IH]; intros s; cbn [run_app traced_run_app].
  - reflexivity.
  - rewrite (traced_exec_call_erase h ht s c H).
    destruct (traced_exec_call ll_alloc ht s c) as [[[r s'] ev] |];
      cbn [untraced]; [| reflexivity].
    rewrite IH.
    destruct (traced_run_app ll_alloc ht (k r) s') as [[s'' ev'] |];
      reflexivity.
Qed.

(** The last step of [os_timer_exec], the deletion check, with and without
    the record. *)
Lemma deletion_check_erase (timer : Z) (e : bool) (s : sched)
      (ev : list call_event) :
  (if negb (timer_deleted s) then
     obind (ll_find (timer_ll s) timer) (fun t =>
       if repeat_count t =? 0 then
         obind (os_timer_del s timer) (fun s => Some (e, s))
       else Some (e, s))
   else Some (e, s))
  = untraced
      (if negb (timer_deleted s) then
         obind (ll_find (timer_ll s) timer) (fun t =>
           if repeat_count t =? 0 then
             obind (os_timer_del s timer) (fun s => Some (e, s, ev))
           else Some (e, s, ev))
       else Some (e, s, ev)).
Proof.
  destruct (timer_deleted s); cbn [negb]; [reflexivity |].
  destruct (ll_find (timer_ll s) timer) as [t |]; cbn [obind]; [| reflexivity].
  destruct (repeat_count t =? 0); [| reflexivity].
  destruct (os_timer_del s timer); reflexivity.
Qed.

Lemma traced_os_timer_exec_erase
      (h : sched -> option (Z * sched))
      (ht : sched -> option (Z * sched * list call_event)) (s : sched)
      (timer : Z) :
  (forall s, h s = untraced (ht s)) ->
  os_timer_exec ll_alloc cb_code h s timer
  = untraced (traced_os_timer_exec ll_alloc cb_code ht s timer).
Proof.
  intros H. unfold os_timer_exec, traced_os_timer_exec.
  destruct (ll_find (timer_ll s) timer) as [t |]; cbn [obind]; [| reflexivity].
  destruct (paused t); [reflexivity |].
  destruct (os_timer_time_remaining s t) as [rem s1].
  destruct (rem =? 0).
  - cbn [os_tick_get].
    destruct (negb (timer_cb t =? 0) && negb (repeat_count t =? 0)).
    + rewrite (traced_run_app_erase h ht _ H).
      match goal with
      | |- context [traced_run_app ll_alloc ht ?p ?s0] =>
          destruct (traced_run_app ll_alloc ht p s0) as [[s2 ev] |]
      end; cbn [option_map obind fst]; [| reflexivity].
      apply deletion_check_erase.
    + cbn [obind]. apply deletion_check_erase.
  - cbn [obind]. apply deletion_check_erase.
Qed.

Lemma traced_timer_loop_erase
      (h : sched -> option (Z * sched))
      (ht : sched -> option (Z * sched * list call_event)) :
  (forall s, h s = untraced (ht s)) ->
  forall fuel s,
    timer_loop ll_alloc cb_code h fuel s
    = option_map fst (traced_timer_loop ll_alloc cb_code ht fuel s).
Proof.
  intros H. induction fuel as [| fuel IH]; intros s;
    cbn [timer_loop traced_timer_loop]; [reflexivity |].
  destruct (os_timer_act s =? 0); [reflexivity |].
  destruct (_os_ll_get_next (timer_ll s) (os_timer_act s)) as [next |];
    cbn [obind]; [| reflexivity].
  rewrite (traced_os_timer_exec_erase h ht s _ H).
  destruct (traced_os_timer_exec ll_alloc cb_code ht s (os_timer_act s))
    as [[[e s1] ev] |]; cbn [untraced obind]; [| reflexivity].
  destruct (e && (timer_created s1 || timer_deleted s1)); rewrite IH;
    match goal with
    | |- context [traced_timer_loop ll_alloc cb_code ht fuel ?s0] =>
        destruct (traced_timer_loop ll_alloc cb_code ht fuel s0) as [[s2 ev'] |]
    end; reflexivity.
Qed.

Lemma traced_os_timer_handler_erase (fuel : nat) :
  forall s, os_timer_handler ll_alloc cb_code fuel s
            = untraced (traced_os_timer_handler ll_alloc cb_code fuel s).
Proof.
  induction fuel as [| fuel IH]; intros s;
    cbn [os_timer_handler traced_os_timer_handler]; [reflexivity |].
  destruct (already_running s); [reflexivity |].
  destruct (negb (os_timer_run (with_running s true))); [reflexivity |].
  cbn [os_tick_get].
  rewrite (traced_timer_loop_erase _ _ IH).
  match goal with
  | |- context [traced_timer_loop ll_alloc cb_code ?ht fuel ?s0] =>
      destruct (traced_timer_loop ll_alloc cb_code ht fuel s0) as [[s2 ev] |]
  end; cbn [option_map obind fst]; [| reflexivity].
  destruct (next_wake (timer_ll s2) s2 OS_NO_TIMER_READY). reflexivity.
Qed.

(** The traced run ends in the state of the run itself. *)
Lemma traced_run_ops_erase (ops : list top_op) :
  forall s, run_ops ll_alloc cb_code s ops
            = option_map fst (traced_run_ops ll_alloc cb_code s ops).
Proof.
  induction ops as [| o ops IH]; intros s; cbn [run_ops traced_run_ops];
    [reflexivity |].
  assert (E : top_step ll_alloc cb_code s o
              = option_map fst (traced_top_step ll_alloc cb_code s o)).
  { destruct o as [p | fuel | fuel p]; cbn [top_step traced_top_step].
    - reflexivity.
    - rewrite traced_os_timer_handler_erase.
      destruct (traced_os_timer_handler ll_alloc cb_code fuel s)
        as [[[r s'] ev] |]; reflexivity.
    - apply traced_run_app_erase. apply traced_os_timer_handler_erase. }
  rewrite E.
  destruct (traced_top_step ll_alloc cb_code s o) as [[s1 ev] |];
    cbn [option_map obind fst]; [| reflexivity].
  rewrite IH.
  destruct (traced_run_ops ll_alloc cb_code s1 ops) as [[s2 ev'] |];
    reflexivity.
Qed.

(** A run that ends has a record. *)
Lemma run_ops_traced (s s' : sched) (ops : list top_op) :
  run_ops ll_alloc cb_code s ops = Some s' ->
  traced_run_ops ll_alloc cb_code s ops
  = Some (s', executed_calls ll_alloc cb_code s ops).
Proof.
  intros H. rewrite traced_run_ops_erase in H. unfold executed_calls.
  destruct (traced_run_ops ll_alloc cb_code s ops) as [[s2 ev] |];
    cbn in H; [| discriminate].
  congruence.
Qed.

End Erasure.

(** *** Invariants of runs *)

Section SchedulerInvariant.

Variable ll_alloc : list Z -> option Z.
Variable cb_code : Z -> Z -> app.

(** [I] is kept by every step that the handler itself takes and by every
    call that satisfies [ok]; [Q] is known of every timer that is not paused
    when [os_timer_exec] looks at it. *)
Variable I : sched -> Prop.
Variable ok : call_event -> Prop.
Variable Q : Z -> Prop.

Hypothesis I_same : forall s s', same_timers s s' -> I s -> I s'.

Hypothesis I_call :
  forall s c r s',
    ok (s, c) -> I s ->
    exec_call ll_alloc (fun _ => None) s c = Some (r, s') -> I s'.

Hypothesis I_entry :
  forall s timer t,
    I s -> ll_find (timer_ll s) timer = Some t -> paused t = false -> Q timer.

Hypothesis I_run :
  forall s timer t,
    I s -> ll_find (timer_ll s) timer = Some t -> paused t = false ->
    fst (os_timer_time_remaining s t) = 0 ->
    timer_cb t = 0 \/ repeat_count t = 0 ->
    I (with_ll s (ll_set (timer_ll s) timer (after_run t (sys_time s)))).

Hypothesis I_fire :
  forall s timer t,
    I s -> ll_find (timer_ll s) timer = Some t -> paused t = false ->
    fst (os_timer_time_remaining s t) = 0 ->
    timer_cb t <> 0 -> repeat_count t <> 0 ->
    I (with_fired
         (with_ll s (ll_set (timer_ll s) timer (after_run t (sys_time s))))
         (fired s ++ [mkFire (uid t) (sys_time s) (last_run t)])).

Hypothesis I_del :
  forall s timer t s',
    I s -> Q timer -> ll_find (timer_ll s) timer = Some t ->
    repeat_count t = 0 -> os_timer_del s timer = Some s' -> I s'.

Lemma traced_exec_call_keeps
      (ht : sched -> option (Z * sched * list call_event)) :
  traced_keeps I ok ht ->
  forall s c r s' ev,
    I s -> traced_exec_call ll_alloc ht s c = Some (r, s', ev) ->
    Forall ok ev -> I s'.
Proof.
  intros Hh s c r s' ev HI H Hev.
  assert (Hplain : forall x,
             obind (exec_call ll_alloc (fun _ => None) s c)
                   (fun '(r, s') => Some (r, s', [(s, c)])) = Some x ->
             x = (r, s', ev) -> I s').
  { intros x Hx Ex. subst x. apply obind_Some in Hx.
    destruct Hx as ([r0 s0] & H1 & H2). inversion H2. subst r0 s0 ev.
    inversion Hev. subst. eapply I_call; eassumption. }
  destruct c; cbn [traced_exec_call] in H;
    try (eapply Hplain; [exact H | reflexivity]).
  apply obind_Some in H. destruct H as ([[r0 s0] ev0] & H1 & H2).
  inversion H2. subst r0 s0 ev. inversion Hev. subst.
  eapply Hh; eassumption.
Qed.

Lemma traced_run_app_keeps
      (ht : sched -> option (Z * sched * list call_event)) (p : app) :
  traced_keeps I ok ht ->
  forall s s' ev,
    I s -> traced_run_app ll_alloc ht p s = Some (s', ev) ->
    Forall ok ev -> I s'.
Proof.
  intros Hh. induction p as [| c k IH]; intros s s' ev HI Hr Hev;
    cbn [traced_run_app] in Hr.
  - inversion Hr. subst. exact HI.
  - destruct (traced_exec_call ll_alloc ht s c) as [[[r s1] ev1] |] eqn:E;
      [| discriminate].
    apply obind_Some in Hr. destruct Hr as ([s2 ev2] & H1 & H2).
    inversion H2. subst s2 ev. apply Forall_app in Hev. destruct Hev as [Ha Hb].
    eapply IH; [| exact H1 | exact Hb].
    eapply traced_exec_call_keeps; eassumption.
Qed.

Lemma traced_os_timer_exec_keeps
      (ht : sched -> option (Z * sched * list call_event)) :
  traced_keeps I ok ht ->
  forall s timer e s' ev,
    I s -> traced_os_timer_exec ll_alloc cb_code ht s timer = Some (e, s', ev) ->
    Forall ok ev -> I s'.
Proof.
  intros Hh s timer e s' ev HI H Hev. unfold traced_os_timer_exec in H.
  apply obind_Some in H. destruct H as (t & Ht & H).
  destruct (paused t) eqn:Hp.
  - inversion H. subst. exact HI.
  - assert (HQ : Q timer) by (eapply I_entry; eassumption).
    destruct (os_timer_time_remaining_same s t) as (S1 & T1 & _).
    destruct (os_timer_time_remaining s t) as [rem s1] eqn:Er. cbn in S1, T1.
    apply obind_Some in H. destruct H as ([[e1 s2] ev2] & H1 & H2).
    assert (HI2 : I s2 /\ ev2 = ev).
    { assert (Eev : ev2 = ev).
      { destruct (timer_deleted s2); cbn [negb] in H2; [congruence |].
        apply obind_Some in H2. destruct H2 as (t2 & _ & H2).
        destruct (repeat_count t2 =? 0); [| congruence].
        apply obind_Some in H2. destruct H2 as (s3 & _ & H2). congruence. }
      split; [| exact Eev]. subst ev2.
      destruct (Z.eqb_spec rem 0) as [-> | Hrem].
      - cbn [os_tick_get] in H1.
        apply obind_Some in H1. destruct H1 as ([s3 ev3] & H1 & H3).
        inversion H3. subst s3 e1 ev3. clear H3.
        assert (Hrem0 : fst (os_timer_time_remaining s t) = 0)
          by (rewrite Er; reflexivity).
        assert (Hll : timer_ll s1 = timer_ll s) by apply S1.
        assert (Hfi : fired s1 = fired s) by apply S1.
        assert (Hnu : next_uid s1 = next_uid s) by apply S1.
        destruct (Z.eqb_spec (timer_cb t) 0) as [Hcb | Hcb]; cbn [negb andb] in H1.
        + inversion H1. subst s2.
          eapply I_same; [| apply (I_run s timer t); auto].
          repeat split; cbn; unfold after_run; rewrite ?Hll, ?T1, ?Hp; auto.
        + destruct (Z.eqb_spec (repeat_count t) 0) as [Hrc | Hrc];
            cbn [negb] in H1.
          * inversion H1. subst s2.
            eapply I_same; [| apply (I_run s timer t); auto].
            repeat split; cbn; unfold after_run; rewrite ?Hll, ?T1, ?Hp; auto.
          * eapply traced_run_app_keeps; [exact Hh | | exact H1 | exact Hev].
            eapply I_same; [| apply (I_fire s timer t); auto].
            repeat split; cbn; unfold after_run; rewrite ?Hll, ?T1, ?Hfi, ?Hp; auto.
      - inversion H1. subst. eapply I_same; [exact S1 | exact HI]. }
    destruct HI2 as [HI2 _].
    destruct (timer_deleted s2); cbn [negb] in H2.
    + inversion H2. subst. exact HI2.
    + apply obind_Some in H2. destruct H2 as (t2 & Ht2 & H2).
      destruct (Z.eqb_spec (repeat_count t2) 0) as [Hrc | Hrc].
      * apply obind_Some in H2. destruct H2 as (s3 & Hd & H2).
        inversion H2. subst. eapply I_del; eassumption.
      * inversion H2. subst. exact HI2.
Qed.

Lemma traced_timer_loop_keeps
      (ht : sched -> option (Z * sched * list call_event)) :
  traced_keeps I ok ht ->
  forall fuel s s' ev,
    I s -> traced_timer_loop ll_alloc cb_code ht fuel s = Some (s', ev) ->
    Forall ok ev -> I s'.
Proof.
  intros Hh. induction fuel as [| fuel IH]; intros s s' ev HI H Hev;
    cbn [traced_timer_loop] in H.
  - discriminate.
  - destruct (os_timer_act s =? 0).
    + inversion H. subst. exact HI.
    + apply obind_Some in H. destruct H as (next & _ & H).
      apply obind_Some in H. destruct H as ([[e s1] ev1] & He & H).
      apply obind_Some in H. destruct H as ([s2 ev2] & Hl & H).
      inversion H. subst s2 ev. apply Forall_app in Hev.
      destruct Hev as [Ha Hb].
      assert (HI1 : I s1) by (eapply traced_os_timer_exec_keeps; eassumption).
      destruct (e && (timer_created s1 || timer_deleted s1)).
      * eapply IH; [| exact Hl | exact Hb].
        eapply I_same; [| exact HI1]. repeat split.
      * eapply IH; [| exact Hl | exact Hb].
        eapply I_same; [| exact HI1]. repeat split.
Qed.

Lemma traced_os_timer_handler_keeps (fuel : nat) :
  traced_keeps I ok (traced_os_timer_handler ll_alloc cb_code fuel).
Proof.
  induction fuel as [| fuel IH]; intros s r s' ev HI H Hev;
    cbn [traced_os_timer_handler] in H.
  - discriminate.
  - destruct (already_running s).
    + inversion H. subst. exact HI.
    + destruct (os_timer_run (with_running s true)); cbn [negb] in H.
      * cbn [os_tick_get] in H.
        apply obind_Some in H. destruct H as ([s1 ev1] & Hl & H).
        destruct (next_wake (timer_ll s1) s1 OS_NO_TIMER_READY)
          as [ttn s2] eqn:En.
        inversion H. subst r s' ev1. clear H.
        apply traced_timer_loop_keeps in Hl; [| exact IH | | exact Hev].
        -- eapply I_same; [| exact Hl].
           eapply same_timers_trans;
             [apply (next_wake_same (timer_ll s1) s1 OS_NO_TIMER_READY) |].
           rewrite En. cbn [snd].
           eapply same_timers_trans; [apply idle_update_same |].
           repeat split.
        -- eapply I_same; [| exact HI].
           destruct (sys_time (with_running s true) =? 0); repeat split.
      * inversion H. subst. eapply I_same; [| exact HI]. repeat split.
Qed.

Lemma traced_run_ops_keeps (ops : list top_op) :
  forall s s' ev,
    I s -> traced_run_ops ll_alloc cb_code s ops = Some (s', ev) ->
    Forall ok ev -> I s'.
Proof.
  induction ops as [| o ops IH]; intros s s' ev HI H Hev;
    cbn [traced_run_ops] in H.
  - inversion H. subst. exact HI.
  - apply obind_Some in H. destruct H as ([s1 ev1] & H1 & H).
    apply obind_Some in H. destruct H as ([s2 ev2] & H2 & H).
    inversion H. subst s2 ev. apply Forall_app in Hev. destruct Hev as [Ha Hb].
    eapply IH; [| exact H2 | exact Hb].
    destruct o as [p | fuel | fuel p]; cbn [traced_top_step] in H1.
    + inversion H1. subst. eapply I_same; [| exact HI]. repeat split.
    + apply obind_Some in H1. destruct H1 as ([[r s3] ev3] & H1 & H3).
      inversion H3. subst s3 ev1. inversion Ha. subst.
      eapply traced_os_timer_handler_keeps; eassumption.
    + eapply traced_run_app_keeps;
        [apply traced_os_timer_handler_keeps | exact HI | exact H1 | exact Ha].
Qed.

(** The same for a run given without its record. *)
Lemma run_ops_keeps (ops : list top_op) (s s' : sched) :
  I s -> run_ops ll_alloc cb_code s ops = Some s' ->
  Forall ok (executed_calls ll_alloc cb_code s ops) -> I s'.
Proof.
  intros HI H Hev. apply run_ops_traced in H.
  eapply traced_run_ops_keeps; eassumption.
Qed.

End SchedulerInvariant.

(** ** Paused timers *)

Lemma ll_find_In (l : list (Z * os_timer_t)) (n : Z) (t : os_timer_t) :
  ll_find l n = Some t -> In n (map fst l).
Proof.
  induction l as [| [a x] l IH]; cbn; intros H; [discriminate |].
  destruct (Z.eqb_spec a n) as [-> | Hne]; [left; reflexivity |].
  right. apply IH. exact H.
Qed.

Lemma ll_find_set_other (l : list (Z * os_timer_t)) (n m : Z) (x : os_timer_t) :
  n <> m -> ll_find (ll_set l n x) m = ll_find l m.
Proof.
  intros Hnm. induction l as [| [a y] l IH]; cbn; [reflexivity |].
  destruct (Z.eqb_spec a n) as [-> | Hne]; cbn.
  - destruct (Z.eqb_spec n m); [contradiction | reflexivity].
  - destruct (a =? m); [reflexivity | exact IH].
Qed.

Lemma ll_find_set_same (l : list (Z * os_timer_t)) (n : Z) (x y : os_timer_t) :
  ll_find l n = Some x -> ll_find (ll_set l n y) n = Some y.
Proof.
  induction l as [| [a z] l IH]; cbn; intros H; [discriminate |].
  destruct (Z.eqb_spec a n) as [-> | Hne]; cbn.
  - rewrite Z.eqb_refl. reflexivity.
  - destruct (Z.eqb_spec a n); [contradiction | apply IH; exact H].
Qed.

Lemma ll_find_remove_other (l : list (Z * os_timer_t)) (n m : Z) :
  n <> m -> ll_find (_os_ll_remove l n) m = ll_find l m.
Proof.
  intros Hnm. induction l as [| [a y] l IH]; cbn; [reflexivity |].
  destruct (Z.eqb_spec a n) as [-> | Hne]; cbn.
  - destruct (Z.eqb_spec n m); [contradiction | reflexivity].
  - destruct (a =? m); [reflexivity | exact IH].
Qed.

Lemma ll_remove_set (l : list (Z * os_timer_t)) (n : Z) (x : os_timer_t) :
  _os_ll_remove (ll_set l n x) n = _os_ll_remove l n.
Proof.
  induction l as [| [a y] l IH]; cbn; [reflexivity |].
  destruct (Z.eqb_spec a n) as [-> | Hne]; cbn.
  - rewrite Z.eqb_refl. reflexivity.
  - destruct (Z.eqb_spec a n); [contradiction | rewrite IH; reflexivity].
Qed.

Lemma set_timer_other (s s' : sched) (n m : Z) (f : os_timer_t -> os_timer_t) :
  n <> m -> set_timer s n f = Some s' ->
  ll_find (timer_ll s') m = ll_find (timer_ll s) m.
Proof.
  intros Hnm H. unfold set_timer in H.
  apply obind_Some in H. destruct H as (t & _ & H). inversion H. subst. cbn.
  apply ll_find_set_other. exact Hnm.
Qed.

(** Calls that spare [timer] leave its record as it is. *)
Lemma exec_call_spares (ll_alloc : list Z -> option Z) (timer : Z)
      (t : os_timer_t) (h : sched -> option (Z * sched)) (s s' : sched)
      (c : api_call) (r : Z) :
  fresh_alloc ll_alloc ->
  keeps (fun s => ll_find (timer_ll s) timer = Some t) h ->
  call_spares timer c ->
  ll_find (timer_ll s) timer = Some t ->
  exec_call ll_alloc h s c = Some (r, s') ->
  ll_find (timer_ll s') timer = Some t.
Proof.
  intros Hfresh Hh Hc HI H.
  destruct c; cbn in H, Hc;
    try (inversion H; subst; exact HI);
    try (apply obind_Some in H; destruct H as (s1 & H1 & H);
         inversion H; subst; clear H).
  - (* create *)
    unfold os_timer_create in H.
    destruct (ll_alloc (map fst (timer_ll s))) as [a |] eqn:Ea.
    + injection H as Hr Hs. subst s'. cbn.
      destruct (Z.eqb_spec a timer) as [-> | _]; [| exact HI].
      exfalso. apply (Hfresh _ _ Ea). eapply ll_find_In. exact HI.
    + inversion H. subst. exact HI.
  - (* create_basic *)
    unfold os_timer_create_basic, os_timer_create in H.
    destruct (ll_alloc (map fst (timer_ll s))) as [a |] eqn:Ea.
    + injection H as Hr Hs. subst s'. cbn.
      destruct (Z.eqb_spec a timer) as [-> | _]; [| exact HI].
      exfalso. apply (Hfresh _ _ Ea). eapply ll_find_In. exact HI.
    + inversion H. subst. exact HI.
  - (* del *)
    unfold os_timer_del in H1.
    apply obind_Some in H1. destruct H1 as (x & _ & H1). inversion H1. subst.
    cbn. rewrite ll_find_remove_other by exact Hc. exact HI.
  - rewrite (set_timer_other _ _ _ _ _ Hc H1). exact HI.
  - rewrite (set_timer_other _ _ _ _ _ Hc H1). exact HI.
  - rewrite (set_timer_other _ _ _ _ _ Hc H1). exact HI.
  - rewrite (set_timer_other _ _ _ _ _ Hc H1). exact HI.
  - unfold os_timer_ready in H1. cbn [os_tick_get] in H1.
    rewrite (set_timer_other _ _ _ _ _ Hc H1). exact HI.
  - rewrite (set_timer_other _ _ _ _ _ Hc H1). exact HI.
  - unfold os_timer_reset in H1. cbn [os_tick_get] in H1.
    rewrite (set_timer_other _ _ _ _ _ Hc H1). exact HI.
  - (* get_next *)
    exact HI.
  - (* handler *)
    eapply Hh; eassumption.
Qed.

Lemma fold_max_ge (l : list Z) (x : Z) : In x l -> x <= fold_right Z.max 0 l.
Proof.
  induction l as [| y l IH]; cbn [fold_right In]; intros H; [contradiction |].
  destruct H as [-> | H]; [lia |]. specialize (IH H). lia.
Qed.

Lemma bump_alloc_fresh : fresh_alloc bump_alloc.
Proof.
  intros l a H Hin.
  assert (E : a = 4 + fold_right Z.max 0 l)
    by (unfold bump_alloc in H; congruence).
  apply fold_max_ge in Hin. lia.
Qed.

Lemma set_timer_running (s s' : sched) (n : Z) (f : os_timer_t -> os_timer_t) :
  set_timer s n f = Some s' ->
  already_running s' = already_running s /\ fired s' = fired s.
Proof.
  intros H. unfold set_timer in H. apply obind_Some in H.
  destruct H as (t & _ & H). inversion H. split; reflexivity.
Qed.

(** A call made while the handler is active leaves it active and invokes no
    callback; [os_timer_handler] itself then returns 1 and changes
    nothing. *)
Lemma exec_call_while_running
  (ll_alloc : list Z -> option Z) (cb_code : Z -> Z -> app)
  (fuel : nat) (s s' : sched) (c : api_call) (r : Z) :
  already_running s = true ->
  exec_call ll_alloc (os_timer_handler ll_alloc cb_code fuel) s c = Some (r, s') ->
  already_running s' = true /\ fired s' = fired s /\
  (c = c_handler -> r = 1 /\ s' = s).
Proof.
  intros Har H.
  assert (V : forall o : option sched,
             obind o (fun x => Some (0, x)) = Some (r, s') ->
             (forall x, o = Some x ->
                        already_running x = already_running s /\ fired x = fired s) ->
             already_running s' = true /\ fired s' = fired s).
  { intros o Ho Hx. apply obind_Some in Ho. destruct Ho as (x & Eo & Ex).
    destruct (Hx x Eo) as (A & B). inversion Ex. subst. split; congruence. }
  destruct c; cbn [exec_call] in H;
    try (destruct (V _ H) as (A & B);
         [ intros x Hx;
           first [ apply (set_timer_running _ _ _ _ Hx)
                 | unfold os_timer_ready in Hx; cbn [os_tick_get] in Hx;
                   apply (set_timer_running _ _ _ _ Hx)
                 | unfold os_timer_reset in Hx; cbn [os_tick_get] in Hx;
                   apply (set_timer_running _ _ _ _ Hx)
                 | unfold os_timer_del in Hx; apply obind_Some in Hx;
                   destruct Hx as (t & _ & Hx); inversion Hx; split; reflexivity ]
         | split; [exact A | split; [exact B | discriminate]] ]).
  - inversion H. subst. split; [exact Har |]. split; [reflexivity | discriminate].
  - inversion H. subst. split; [exact Har |]. split; [reflexivity | discriminate].
  - unfold os_timer_create in H.
    destruct (ll_alloc (map fst (timer_ll s))); inversion H; subst;
      (split; [exact Har |]; split; [reflexivity | discriminate]).
  - unfold os_timer_create_basic, os_timer_create in H.
    destruct (ll_alloc (map fst (timer_ll s))); inversion H; subst;
      (split; [exact Har |]; split; [reflexivity | discriminate]).
  - inversion H. subst. split; [exact Har |]. split; [reflexivity | discriminate].
  - inversion H. subst. split; [exact Har |]. split; [reflexivity | discriminate].
  - apply obind_Some in H. destruct H as (x & _ & H). inversion H. subst.
    split; [exact Har |]. split; [reflexivity | discriminate].
  - destruct fuel as [| fuel]; [discriminate |].
    cbn [os_timer_handler] in H. rewrite Har in H. inversion H. subst.
    split; [exact Har |]. split; [reflexivity |]. intros _. split; reflexivity.
Qed.

(** A call other than that of [os_timer_handler] does the same whatever
    the handler. *)
Lemma exec_call_plain (ll_alloc : list Z -> option Z)
      (h : sched -> option (Z * sched)) (s s' : sched) (c : api_call) (r : Z) :
  exec_call ll_alloc (fun _ => None) s c = Some (r, s') ->
  exec_call ll_alloc h s c = Some (r, s').
Proof. destruct c; cbn [exec_call]; intros H; try exact H. discriminate. Qed.

(** Inside the handler a nested call of [os_timer_handler] returns at
    once. *)
Lemma traced_handler_while_running
      (ll_alloc : list Z -> option Z) (cb_code : Z -> Z -> app) (fuel : nat)
      (s s' : sched) (r : Z) (ev : list call_event) :
  already_running s = true ->
  traced_os_timer_handler ll_alloc cb_code fuel s = Some (r, s', ev) ->
  s' = s /\ ev = [].
Proof.
  intros Har H. destruct fuel as [| fuel]; cbn [traced_os_timer_handler] in H;
    [discriminate |].
  rewrite Har in H. inversion H. split; reflexivity.
Qed.

(** Code run inside the handler keeps a node that none of the calls it
    executes deletes or writes. *)
Lemma callback_spares
      (ll_alloc : list Z -> option Z) (cb_code : Z -> Z -> app) (fuel : nat)
      (n : Z) (y : os_timer_t) (p : app) (s s' : sched)
      (ev : list call_event) :
  fresh_alloc ll_alloc ->
  already_running s = true -> ll_find (timer_ll s) n = Some y ->
  traced_run_app ll_alloc (traced_os_timer_handler ll_alloc cb_code fuel) p s
  = Some (s', ev) ->
  Forall (spares_timer n) ev ->
  already_running s' = true /\ ll_find (timer_ll s') n = Some y.
Proof.
  intros Hfresh Har Hy H Hev.
  refine (traced_run_app_keeps ll_alloc
            (fun s => already_running s = true /\ ll_find (timer_ll s) n = Some y)
            (spares_timer n) _ _ p _ s s' ev (conj Har Hy) H Hev).
  - intros s1 c r s2 Hc [A B] E. split.
    + apply (exec_call_plain ll_alloc (os_timer_handler ll_alloc cb_code 0)) in E.
      apply (exec_call_while_running _ _ _ _ _ _ _ A E).
    + eapply exec_call_spares; [exact Hfresh | | exact Hc | exact B | exact E].
      intros s3 r3 s4 _ Hn. discriminate.
  - intros s1 r s2 ev1 [A B] E _.
    destruct (traced_handler_while_running _ _ _ _ _ _ _ A E) as [-> _].
    split; assumption.
Qed.

Lemma os_timer_time_remaining_running (s : sched) (t : os_timer_t) :
  already_running (snd (os_timer_time_remaining s t)) = already_running s.
Proof.
  unfold os_timer_time_remaining, os_tick_elaps. cbn [os_tick_get].
  destruct (last_run t <=? sys_time s);
    match goal with
    | |- context [if ?b then _ else _] => destruct b
    end; reflexivity.
Qed.

(** [os_timer_exec], called by the handler, takes a node off the list only
    if it is the timer it is called with, that timer was not paused at
    entry, and its repeat count is 0 at the deletion check: it was 0, or it
    was 1 and the timer was due. *)
Lemma os_timer_exec_deletes_only
      (ll_alloc : list Z -> option Z) (cb_code : Z -> Z -> app) (fuel : nat)
      (s s' : sched) (timer n : Z) (x : os_timer_t) (e : bool)
      (ev : list call_event) :
  fresh_alloc ll_alloc -> already_running s = true ->
  ll_find (timer_ll s) n = Some x ->
  traced_os_timer_exec ll_alloc cb_code
    (traced_os_timer_handler ll_alloc cb_code fuel) s timer = Some (e, s', ev) ->
  Forall (spares_timer n) ev ->
  ll_find (timer_ll s') n = None ->
  timer = n /\ paused x = false /\
  (repeat_count x = 0 \/
   repeat_count x = 1 /\ fst (os_timer_time_remaining s x) = 0).
Proof.
  intros Hfresh Har Hx H Hev Hgone. unfold traced_os_timer_exec in H.
  apply obind_Some in H. destruct H as (t & Ht & H).
  destruct (paused t) eqn:Hp.
  { inversion H. subst. congruence. }
  destruct (os_timer_time_remaining_same s t) as ((Hll & Hfi & Hnu) & T1 & D1).
  pose proof (os_timer_time_remaining_running s t) as R1.
  destruct (os_timer_time_remaining s t) as [rem s1] eqn:Er.
  cbn [snd] in Hll, Hfi, Hnu, T1, D1, R1.
  apply obind_Some in H. destruct H as ([[e1 s2] ev2] & H1 & H2).
  assert (Eev : ev2 = ev).
  { destruct (timer_deleted s2); cbn [negb] in H2; [congruence |].
    apply obind_Some in H2. destruct H2 as (t2 & _ & H2).
    destruct (repeat_count t2 =? 0); [| congruence].
    apply obind_Some in H2. destruct H2 as (s3 & _ & H2). congruence. }
  subst ev2.
  assert (M : exists y,
             ll_find (timer_ll s2) n = Some y /\
             (timer = n -> repeat_count y = 0 ->
              paused x = false /\
              (repeat_count x = 0 \/
               repeat_count x = 1 /\ fst (os_timer_time_remaining s x) = 0))).
  { destruct (Z.eqb_spec rem 0) as [-> | Hrem].
    - cbn [os_tick_get] in H1.
      apply obind_Some in H1. destruct H1 as ([s3 ev3] & H1 & H3).
      inversion H3. subst s3 e1 ev3. clear H3.
      set (t' := mkTimer (period t) (sys_time s1) (timer_cb t) (user_data t)
                         (if 0 <? repeat_count t then repeat_count t - 1
                          else repeat_count t) false (uid t)) in *.
      set (y := if Z.eq_dec timer n then t' else x).
      assert (Hy : ll_find (ll_set (timer_ll s1) timer t') n = Some y).
      { unfold y. rewrite Hll. destruct (Z.eq_dec timer n) as [-> | Hne].
        - apply (ll_find_set_same _ _ _ _ Ht).
        - rewrite ll_find_set_other by exact Hne. exact Hx. }
      assert (Hy2 : ll_find (timer_ll s2) n = Some y).
      { destruct (negb (timer_cb t =? 0) && negb (repeat_count t =? 0)).
        - eapply callback_spares; [exact Hfresh | | | exact H1 | exact Hev].
          + cbn. rewrite R1. exact Har.
          + cbn. exact Hy.
        - inversion H1. subst s2. cbn. exact Hy. }
      exists y. split; [exact Hy2 |].
      intros -> Hrc. unfold y in Hrc.
      destruct (Z.eq_dec n n) as [_ | Hne]; [| contradiction].
      assert (x = t) by congruence. subst x.
      split; [exact Hp |]. unfold t' in Hrc. cbn [repeat_count] in Hrc.
      destruct (Z.ltb_spec 0 (repeat_count t)); [right | left; exact Hrc].
      split; [lia | rewrite Er; reflexivity].
    - inversion H1. subst e1 s2. exists x. rewrite Hll.
      split; [exact Hx |].
      intros -> Hrc. assert (x = t) by congruence. subst x.
      split; [exact Hp | left; exact Hrc]. }
  destruct M as (y & Hy & Himp).
  destruct (timer_deleted s2); cbn [negb] in H2.
  - inversion H2. subst. congruence.
  - apply obind_Some in H2. destruct H2 as (t2 & Ht2 & H2).
    destruct (Z.eqb_spec (repeat_count t2) 0) as [Hrc | Hrc].
    + apply obind_Some in H2. destruct H2 as (s3 & Hd & H2).
      inversion H2. subst e1 s3. clear H2.
      unfold os_timer_del in Hd. apply obind_Some in Hd.
      destruct Hd as (z & _ & Hd). inversion Hd. subst s'. cbn in Hgone.
      destruct (Z.eq_dec timer n) as [E | Hne].
      * split; [exact E |]. apply (Himp E). subst n. congruence.
      * rewrite ll_find_remove_other in Hgone by exact Hne. congruence.
    + inversion H2. subst. congruence.
Qed.

(** C10. [os_timer_exec] reads [paused] once, on entry, before anything
    else.  On a timer that is paused at that moment it returns false with
    the whole scheduler state as it was: no callback, no field written, no
    deletion, whatever the repeat count.  Hence the timer stays in the
    list, unchanged, through any sequence of tick increments, handler calls
    and application code in which no call that is executed names it as the
    timer to delete, pause, resume or write.  A timer that is not paused and
    has a repeat count of 0 is removed by [os_timer_exec] when no deletion
    is pending, and [os_timer_exec] removes nothing else: a node that is
    gone after the call, without the callback having deleted it, is the
    timer the call was made for, was not paused on entry, and had a repeat
    count of 0, or of 1 while being due. *)
Theorem paused_timer_is_skipped
  (ll_alloc : list Z -> option Z) (cb_code : Z -> Z -> app)
  (timer : Z) (t : os_timer_t) :
  paused t = true ->
  (forall h s,
      ll_find (timer_ll s) timer = Some t ->
      os_timer_exec ll_alloc cb_code h s timer = Some (false, s)) /\
  (fresh_alloc ll_alloc ->
   forall ops s s',
     ll_find (timer_ll s) timer = Some t ->
     run_ops ll_alloc cb_code s ops = Some s' ->
     Forall (spares_timer timer) (executed_calls ll_alloc cb_code s ops) ->
     ll_find (timer_ll s') timer = Some t) /\
  (forall h s t',
      ll_find (timer_ll s) timer = Some t' ->
      paused t' = false -> repeat_count t' = 0 -> timer_deleted s = false ->
      exists e s',
        os_timer_exec ll_alloc cb_code h s timer = Some (e, s') /\
        timer_ll s' = _os_ll_remove (timer_ll s) timer) /\
  (fresh_alloc ll_alloc ->
   forall fuel s n x act e s',
     already_running s = true ->
     ll_find (timer_ll s) n = Some x ->
     os_timer_exec ll_alloc cb_code (os_timer_handler ll_alloc cb_code fuel)
                   s act = Some (e, s') ->
     Forall (spares_timer n) (callback_calls ll_alloc cb_code fuel s act) ->
     ll_find (timer_ll s') n = None ->
     act = n /\ paused x = false /\
     (repeat_count x = 0 \/
      repeat_count x = 1 /\ fst (os_timer_time_remaining s x) = 0)).
Proof.
  intros Hp. split; [| split; [| split]].
  - intros h s Hf. unfold os_timer_exec. rewrite Hf. cbn. rewrite Hp.
    reflexivity.
  - intros Hfresh ops s s' Hf Hrun Hev.
    refine (run_ops_keeps ll_alloc cb_code
              (fun s => ll_find (timer_ll s) timer = Some t)
              (spares_timer timer) (fun n => n <> timer)
              _ _ _ _ _ _ ops s s' Hf Hrun Hev).
    + intros s1 s2 (E & _) H. rewrite E. exact H.
    + intros s1 c r s2 Hc H1 H2.
      eapply exec_call_spares; [exact Hfresh | | exact Hc | exact H1 | exact H2].
      intros s3 r3 s4 _ Hn. discriminate.
    + intros s1 n x H1 H2 H3 ->. rewrite H1 in H2. inversion H2. subst x.
      rewrite Hp in H3. discriminate.
    + intros s1 n x H1 H2 H3 _ _. cbn.
      rewrite ll_find_set_other; [exact H1 |].
      intros ->. rewrite H1 in H2. inversion H2. subst x.
      rewrite Hp in H3. discriminate.
    + intros s1 n x H1 H2 H3 _ _ _. cbn.
      rewrite ll_find_set_other; [exact H1 |].
      intros ->. rewrite H1 in H2. inversion H2. subst x.
      rewrite Hp in H3. discriminate.
    + intros s1 n x s2 H1 Hn _ _ Hd. unfold os_timer_del in Hd.
      apply obind_Some in Hd. destruct Hd as (y & _ & Hd). inversion Hd. subst.
      cbn. rewrite ll_find_remove_other by exact Hn. exact H1.
  - intros h s t' Hf Hnp Hrc Hnd. unfold os_timer_exec. rewrite Hf. cbn [obind].
    rewrite Hnp.
    destruct (os_timer_time_remaining_same s t') as ((A & _) & _ & D).
    destruct (os_timer_time_remaining s t') as [rem s1]. cbn in A, D.
    destruct (rem =? 0).
    + cbn [os_tick_get]. rewrite Hrc. cbn [Z.eqb negb].
      rewrite andb_false_r. cbn [obind].
      cbn [timer_deleted with_ll]. rewrite D, Hnd. cbn [negb].
      cbn [timer_ll with_ll]. rewrite A.
      rewrite (ll_find_set_same _ _ _ _ Hf). cbn [obind repeat_count Z.ltb Z.compare Z.eqb].
      unfold os_timer_del. cbn [timer_ll with_ll].
      rewrite (ll_find_set_same _ _ _ _ Hf). cbn [obind].
      eexists. eexists. split; [reflexivity |]. cbn. apply ll_remove_set.
    + cbn [obind]. rewrite D, Hnd. cbn [negb]. rewrite A, Hf. cbn [obind].
      rewrite Hrc. cbn [Z.eqb]. unfold os_timer_del. rewrite A, Hf. cbn [obind].
      eexists. eexists. split; [reflexivity |]. cbn. rewrite ?A. reflexivity.
  - intros Hfresh fuel s n x act e s' Har Hx H Hev Hgone.
    rewrite (traced_os_timer_exec_erase ll_alloc cb_code _
               (traced_os_timer_handler ll_alloc cb_code fuel))
      in H by apply traced_os_timer_handler_erase.
    unfold callback_calls in Hev.
    destruct (traced_os_timer_exec ll_alloc cb_code
                (traced_os_timer_handler ll_alloc cb_code fuel) s act)
      as [[[e0 s0] ev] |] eqn:E; cbn [untraced] in H; [| discriminate].
    inversion H. subst e0 s0.
    exact (os_timer_exec_deletes_only ll_alloc cb_code fuel s s' act n x e ev
             Hfresh Har Hx E Hev Hgone).
Qed.

(** On [sched_paused], with a second timer created and written by the
    application and callbacks that write their own timer, the paused timer
    with repeat count 0 is still in the list after four handler calls. *)
Lemma paused_timer_is_skipped_witness :
  ll_find (timer_ll (sched_of (run_ops bump_alloc busy_callbacks sched_paused
                                       ops_busy))) 100
  = Some paused_dead_timer.
Proof.
  destruct (paused_timer_is_skipped bump_alloc busy_callbacks 100
              paused_dead_timer eq_refl) as (_ & H & _).
  apply (H bump_alloc_fresh) with (ops := ops_busy) (s := sched_paused).
  - reflexivity.
  - vm_compute. reflexivity.
  - vm_compute.
    repeat (apply Forall_cons; [first [exact I | discriminate] |]).
    apply Forall_nil.
Defined.

(** ** Counting invocations *)

Lemma ll_find_split (l : list (Z * os_timer_t)) (n : Z) (t : os_timer_t) :
  ll_find l n = Some t ->
  exists l1 l2,
    l = l1 ++ (n, t) :: l2 /\
    _os_ll_remove l n = l1 ++ l2 /\
    forall x, ll_set l n x = l1 ++ (n, x) :: l2.
Proof.
  induction l as [| [a y] l IH]; cbn; intros H; [discriminate |].
  destruct (Z.eqb_spec a n) as [-> | Hne].
  - inversion H. subst. exists [], l. repeat split.
  - destruct (IH H) as (l1 & l2 & E1 & E2 & E3).
    exists ((a, y) :: l1), l2. cbn. rewrite E1 at 1. rewrite E2.
    repeat split. intros x. rewrite E3. reflexivity.
Qed.

Lemma ll_find_In_pair (l : list (Z * os_timer_t)) (n : Z) (t : os_timer_t) :
  ll_find l n = Some t -> In (n, t) l.
Proof.
  intros H. destruct (ll_find_split _ _ _ H) as (l1 & l2 & E & _).
  rewrite E. apply in_or_app. right. left. reflexivity.
Qed.

Lemma NoDup_uid_eq (l : list (Z * os_timer_t)) (x y : Z * os_timer_t) :
  NoDup (map node_uid l) -> In x l -> In y l -> node_uid x = node_uid y ->
  x = y.
Proof.
  induction l as [| z l IH]; cbn; intros Hnd Hx Hy E; [contradiction |].
  inversion Hnd as [| ? ? Hnotin Hnd']. subst.
  destruct Hx as [-> | Hx], Hy as [-> | Hy].
  - reflexivity.
  - exfalso. apply Hnotin. rewrite E. apply in_map. exact Hy.
  - exfalso. apply Hnotin. rewrite <- E. apply in_map. exact Hx.
  - apply IH; assumption.
Qed.

Lemma ll_set_uids (l : list (Z * os_timer_t)) (n : Z) (t x : os_timer_t) :
  ll_find l n = Some t -> uid x = uid t ->
  map node_uid (ll_set l n x) = map node_uid l.
Proof.
  intros H E. destruct (ll_find_split _ _ _ H) as (l1 & l2 & E1 & _ & E3).
  rewrite E3, E1, !map_app. cbn. unfold node_uid at 2 4. cbn. rewrite E.
  reflexivity.
Qed.

Lemma ll_set_In (l : list (Z * os_timer_t)) (n : Z) (t x : os_timer_t)
      (y : Z * os_timer_t) :
  ll_find l n = Some t -> In y (ll_set l n x) ->
  y = (n, x) \/ In y l.
Proof.
  intros H Hy. destruct (ll_find_split _ _ _ H) as (l1 & l2 & E1 & _ & E3).
  rewrite E3 in Hy. rewrite E1.
  apply in_app_or in Hy. destruct Hy as [Hy | [Hy | Hy]].
  - right. apply in_or_app. left. exact Hy.
  - left. symmetry. exact Hy.
  - right. apply in_or_app. right. right. exact Hy.
Qed.

Lemma ll_remove_In (l : list (Z * os_timer_t)) (n : Z) (y : Z * os_timer_t) :
  In y (_os_ll_remove l n) -> In y l.
Proof.
  induction l as [| [a z] l IH]; cbn; [tauto |].
  destruct (a =? n); cbn; [tauto |].
  intros [H | H]; [left; exact H | right; apply IH; exact H].
Qed.

Lemma ll_remove_NoDup (l : list (Z * os_timer_t)) (n : Z) :
  NoDup (map node_uid l) -> NoDup (map node_uid (_os_ll_remove l n)).
Proof.
  induction l as [| [a z] l IH]; cbn; intros H; [exact H |].
  inversion H as [| ? ? Hnotin Hnd]. subst.
  destruct (a =? n); cbn; [exact Hnd |].
  constructor; [| apply IH; exact Hnd].
  intros Hin. apply Hnotin. apply in_map_iff in Hin.
  destruct Hin as (y & Ey & Hy). apply in_map_iff. exists y.
  split; [exact Ey | eapply ll_remove_In; exact Hy].
Qed.

(** Removing the node that carries a serial number leaves none with it. *)
Lemma ll_remove_uid_gone (l : list (Z * os_timer_t)) (n : Z) (t : os_timer_t) :
  NoDup (map node_uid l) -> ll_find l n = Some t ->
  forall x, In x (_os_ll_remove l n) -> node_uid x <> uid t.
Proof.
  intros Hnd H x Hx E.
  destruct (ll_find_split _ _ _ H) as (l1 & l2 & E1 & E2 & _).
  rewrite E2 in Hx. rewrite E1, map_app in Hnd. cbn in Hnd.
  apply NoDup_remove_2 in Hnd. apply Hnd.
  change (uid t) with (node_uid (n, t)) in E. rewrite <- E.
  rewrite <- map_app. apply in_map. exact Hx.
Qed.

Lemma events_of_snoc (u : nat) (log : list fire) (e : fire) :
  events_of u (log ++ [e])
  = events_of u log ++ (if Nat.eqb (fire_uid e) u then [e] else []).
Proof. unfold events_of. rewrite filter_app. reflexivity. Qed.

Lemma last_at_snoc (prev : option Z) (evs : list fire) (e : fire) :
  last_at prev (evs ++ [e]) = Some (fire_at e).
Proof. unfold last_at. rewrite fold_left_app. reflexivity. Qed.

Lemma spaced_snoc (P : Z) (evs : list fire) :
  forall (prev : option Z) (e : fire),
    spaced P prev evs ->
    P <= elapsed (fire_at e) (fire_prev_run e) ->
    match last_at prev evs with
    | Some p => fire_prev_run e = p
    | None => True
    end ->
    spaced P prev (evs ++ [e]).
Proof.
  induction evs as [| e0 evs IH]; intros prev e Hs He Hl; cbn in *.
  - repeat split; assumption.
  - destruct Hs as (A & B & C). repeat split; try assumption.
    apply IH; assumption.
Qed.

Lemma spaced_gaps (P : Z) (evs : list fire) :
  forall prev, spaced P prev evs -> gaps_ok P evs.
Proof.
  induction evs as [| e1 evs IH]; intros prev H; cbn in *; [exact I |].
  destruct H as (A & B & C). split; [| eapply IH; exact C].
  destruct evs as [| e2 evs]; [exact I |].
  cbn in C. destruct C as (C1 & C2 & _). split; [exact C2 |].
  rewrite <- C2. exact C1.
Qed.

Lemma os_tick_elaps_elapsed (s : sched) (prev : Z) :
  fst (os_tick_elaps s prev) = elapsed (sys_time s) prev.
Proof.
  unfold os_tick_elaps, elapsed. cbn.
  destruct (prev <=? sys_time s); reflexivity.
Qed.

Lemma elapsed_range (act prev : Z) : 0 <= elapsed act prev < modulus.
Proof.
  unfold elapsed, sub, add, u32.
  destruct (prev <=? act); apply Z.mod_pos_bound; reflexivity.
Qed.

(** A timer is found due only when its period has elapsed. *)
Lemma due_elapsed (s : sched) (t : os_timer_t) :
  0 <= period t < modulus ->
  fst (os_timer_time_remaining s t) = 0 ->
  period t <= elapsed (sys_time s) (last_run t).
Proof.
  intros HP H. unfold os_timer_time_remaining in H.
  pose proof (os_tick_elaps_elapsed s (last_run t)) as E.
  destruct (os_tick_elaps s (last_run t)) as [elp s1]. cbn in E. subst elp.
  pose proof (elapsed_range (sys_time s) (last_run t)) as R.
  destruct (Z.leb_spec (period t) (elapsed (sys_time s) (last_run t)))
    as [Hle | Hgt]; [exact Hle |].
  cbn in H. unfold sub, u32 in H.
  rewrite Z.mod_small in H by lia. lia.
Qed.

Section Counted.

Variables (a : Z) (u : nat) (P k cb : Z).

Lemma counted_same (s s' : sched) :
  same_timers s s' -> counted a u P k cb s -> counted a u P k cb s'.
Proof.
  intros (E1 & E2 & E3). unfold counted. rewrite E1, E2, E3. tauto.
Qed.

(** The serial number [u] is found at address [a] only. *)
Lemma counted_uid_at (s : sched) (n : Z) (t : os_timer_t) :
  counted a u P k cb s -> ll_find (timer_ll s) n = Some t -> uid t = u ->
  n = a /\ ll_find (timer_ll s) a = Some t.
Proof.
  intros (Hnd & _ & _ & _ & [(t0 & Hf & Hu & _) | (Hdead & _)]) Hn E.
  - assert (Eq : (n, t) = (a, t0)).
    { apply (NoDup_uid_eq (timer_ll s)); try assumption.
      - eapply ll_find_In_pair; exact Hn.
      - eapply ll_find_In_pair; exact Hf.
      - unfold node_uid. cbn. congruence. }
    inversion Eq. subst. split; [reflexivity | exact Hf].
  - exfalso. apply (Hdead (n, t)); [eapply ll_find_In_pair; exact Hn | exact E].
Qed.

(** One node rewritten and the record of invocations replaced. *)
Lemma counted_step (s : sched) (n : Z) (t x : os_timer_t) (log' : list fire) :
  counted a u P k cb s ->
  ll_find (timer_ll s) n = Some t -> uid x = uid t ->
  (uid t <> u -> events_of u log' = events_of u (fired s)) ->
  (uid t = u ->
   period x = P /\ timer_cb x = cb /\ 0 <= repeat_count x /\
   spaced P None (events_of u log') /\
   Z.of_nat (length (events_of u log')) + repeat_count x <= k /\
   (cb <> 0 -> repeat_count x <> 0 ->
    match last_at None (events_of u log') with
    | Some p => last_run x = p
    | None => True
    end)) ->
  counted a u P k cb (with_fired (with_ll s (ll_set (timer_ll s) n x)) log').
Proof.
  intros HI Hn Hux Hother Hsame.
  pose proof HI as (Hnd & Hlt & Hu & Hsp & Hcase).
  unfold counted. cbn [timer_ll fired next_uid with_fired with_ll].
  assert (Hin : In (n, t) (timer_ll s)) by (eapply ll_find_In_pair; exact Hn).
  split; [rewrite (ll_set_uids _ _ _ _ Hn Hux); exact Hnd |].
  split.
  { intros y Hy. destruct (ll_set_In _ _ _ _ _ Hn Hy) as [-> | Hy'].
    - unfold node_uid. cbn. rewrite Hux. apply (Hlt _ Hin).
    - apply Hlt. exact Hy'. }
  split; [exact Hu |].
  destruct (Nat.eq_dec (uid t) u) as [Eu | Nu].
  - destruct (counted_uid_at s n t HI Hn Eu) as (-> & Hfa).
    destruct (Hsame Eu) as (A1 & A2 & A3 & A4 & A5 & A6).
    split; [exact A4 |]. left. exists x.
    rewrite (ll_find_set_same _ _ _ _ Hn).
    repeat split; try assumption. congruence.
  - rewrite (Hother Nu). split; [exact Hsp |].
    destruct Hcase as [(t0 & Hf & Hu0 & Hrest) | (Hdead & Hlen)].
    + left. exists t0. split; [| split; [exact Hu0 | exact Hrest]].
      rewrite ll_find_set_other; [exact Hf |].
      intros ->. rewrite Hn in Hf. inversion Hf. subst. contradiction.
    + right. split; [| exact Hlen].
      intros y Hy. destruct (ll_set_In _ _ _ _ _ Hn Hy) as [-> | Hy'].
      * unfold node_uid. cbn. rewrite Hux. exact Nu.
      * apply Hdead. exact Hy'.
Qed.

(** A field write that leaves serial number, period, callback, repeat count
    and [last_run] of the counted timer alone. *)
Lemma counted_set_timer (s s' : sched) (n : Z) (f : os_timer_t -> os_timer_t) :
  counted a u P k cb s ->
  (forall t, uid (f t) = uid t) ->
  (forall t, ll_find (timer_ll s) n = Some t -> uid t = u ->
             period (f t) = period t /\ timer_cb (f t) = timer_cb t /\
             repeat_count (f t) = repeat_count t /\ last_run (f t) = last_run t) ->
  set_timer s n f = Some s' ->
  counted a u P k cb s'.
Proof.
  intros HI Hu Hf H. unfold set_timer in H.
  apply obind_Some in H. destruct H as (t & Hn & H). inversion H. subst s'.
  apply (counted_same (with_fired (with_ll s (ll_set (timer_ll s) n (f t)))
                                  (fired s))); [repeat split |].
  apply (counted_step s n t (f t) (fired s)); try assumption.
  - apply Hu.
  - reflexivity.
  - intros Eu. destruct (Hf t Hn Eu) as (F1 & F2 & F3 & F4).
    destruct (counted_uid_at s n t HI Hn Eu) as (-> & Hfa).
    destruct HI as (_ & _ & _ & Hsp & [(t0 & Hf0 & _ & A1 & A2 & A3 & A4 & A5)
                                      | (Hdead & _)]).
    + rewrite Hfa in Hf0. inversion Hf0. subst t0.
      rewrite F1, F2, F3, F4. repeat split; assumption.
    + exfalso. apply (Hdead (a, t)); [eapply ll_find_In_pair; exact Hfa | exact Eu].
Qed.

Lemma counted_del (s s' : sched) (n : Z) :
  counted a u P k cb s -> os_timer_del s n = Some s' -> counted a u P k cb s'.
Proof.
  intros HI H. unfold os_timer_del in H.
  apply obind_Some in H. destruct H as (t & Hn & H). inversion H. subst s'.
  pose proof HI as (Hnd & Hlt & Hu & Hsp & Hcase).
  unfold counted. cbn [timer_ll fired next_uid with_flags with_ll].
  split; [apply ll_remove_NoDup; exact Hnd |].
  split; [intros y Hy; apply Hlt; eapply ll_remove_In; exact Hy |].
  split; [exact Hu |]. split; [exact Hsp |].
  destruct Hcase as [(t0 & Hf & Hu0 & A1 & A2 & A3 & A4 & A5) | (Hdead & Hlen)].
  - destruct (Z.eq_dec n a) as [-> | Hne].
    + right. rewrite Hn in Hf. inversion Hf. subst t0. split; [| lia].
      intros y Hy. rewrite <- Hu0. eapply ll_remove_uid_gone; eassumption.
    + left. exists t0. rewrite ll_find_remove_other by exact Hne.
      repeat split; assumption.
  - right. split; [| exact Hlen].
    intros y Hy. apply Hdead. eapply ll_remove_In; exact Hy.
Qed.

Lemma counted_create (ll_alloc : list Z -> option Z) (s s' : sched)
      (xcb per ud r : Z) :
  fresh_alloc ll_alloc ->
  counted a u P k cb s ->
  os_timer_create ll_alloc s xcb per ud = (r, s') ->
  counted a u P k cb s'.
Proof.
  intros Hfresh HI H. unfold os_timer_create in H.
  destruct (ll_alloc (map fst (timer_ll s))) as [n |] eqn:En.
  - injection H as _ <-.
    pose proof HI as (Hnd & Hlt & Hu & Hsp & Hcase).
    unfold counted. cbn.
    split.
    { constructor; [| exact Hnd].
      intros Hin. apply in_map_iff in Hin. destruct Hin as (y & Ey & Hy).
      specialize (Hlt y Hy). unfold node_uid in Ey, Hlt. lia. }
    split.
    { intros y [<- | Hy]; [unfold node_uid; cbn; lia |].
      specialize (Hlt y Hy). lia. }
    split; [lia |]. split; [exact Hsp |].
    destruct Hcase as [(t0 & Hf & Hrest) | (Hdead & Hlen)].
    + left. exists t0. split; [| exact Hrest].
      destruct (Z.eqb_spec n a) as [-> | _]; [| exact Hf].
      exfalso. apply (Hfresh _ _ En). eapply ll_find_In. exact Hf.
    + right. split; [| exact Hlen].
      intros y [<- | Hy]; [unfold node_uid; cbn; lia | apply Hdead; exact Hy].
  - injection H as _ <-. exact HI.
Qed.

End Counted.

Section CountedRuns.

Variables (a : Z) (u : nat) (P k cb : Z).
Variable ll_alloc : list Z -> option Z.
Hypothesis alloc_fresh : fresh_alloc ll_alloc.
Hypothesis P_range : 0 <= P < modulus.

(** The facts about the counted timer while it is in the list. *)
Lemma counted_alive (s : sched) (n : Z) (t : os_timer_t) :
  counted a u P k cb s -> ll_find (timer_ll s) n = Some t -> uid t = u ->
  period t = P /\ timer_cb t = cb /\ 0 <= repeat_count t /\
  Z.of_nat (length (events_of u (fired s))) + repeat_count t <= k /\
  (cb <> 0 -> repeat_count t <> 0 ->
   match last_at None (events_of u (fired s)) with
   | Some p => last_run t = p
   | None => True
   end).
Proof.
  intros HI Hn Eu. destruct (counted_uid_at a u P k cb s n t HI Hn Eu) as (-> & Hfa).
  destruct HI as (_ & _ & _ & _ & [(t0 & Hf0 & _ & A) | (Hdead & _)]).
  - rewrite Hfa in Hf0. inversion Hf0. subst t0. exact A.
  - exfalso. apply (Hdead (a, t)); [eapply ll_find_In_pair; exact Hfa | exact Eu].
Qed.

(** A call that does not write the counted timer. *)
Lemma counted_call (s s' : sched) (c : api_call) (r : Z) :
  keeps_timer u (s, c) ->
  counted a u P k cb s ->
  exec_call ll_alloc (fun _ => None) s c = Some (r, s') ->
  counted a u P k cb s'.
Proof.
  intros Hc HI H.
  assert (W : forall n t,
             written_timer c = Some n -> ll_find (timer_ll s) n = Some t ->
             uid t = u -> False).
  { intros n t Ew Hn Eu. unfold keeps_timer in Hc. cbn [fst snd] in Hc.
    rewrite Ew, Hn in Hc. exact (Hc Eu). }
  destruct c; cbn [exec_call] in H;
    try (apply obind_Some in H; destruct H as (s1 & H1 & H);
         inversion H; subst; clear H).
  - inversion H. subst. eapply counted_same; [| exact HI]. repeat split.
  - inversion H. subst. eapply counted_same; [| exact HI]. repeat split.
  - injection H as H. eapply counted_create; eassumption.
  - injection H as H. eapply counted_create; eassumption.
  - eapply counted_del; eassumption.
  - eapply counted_set_timer; [exact HI | | | exact H1];
      intros; repeat split.
  - eapply counted_set_timer; [exact HI | | | exact H1];
      intros; repeat split.
  - eapply counted_set_timer; [exact HI | | | exact H1];
      [reflexivity | intros t Hn Eu; exfalso; exact (W _ _ eq_refl Hn Eu)].
  - eapply counted_set_timer; [exact HI | | | exact H1];
      [reflexivity | intros t Hn Eu; exfalso; exact (W _ _ eq_refl Hn Eu)].
  - unfold os_timer_ready in H1. cbn [os_tick_get] in H1.
    eapply counted_set_timer; [| | | exact H1];
      [eapply counted_same; [| exact HI]; repeat split | reflexivity |].
    intros t Hn Eu. exfalso. exact (W _ _ eq_refl Hn Eu).
  - eapply counted_set_timer; [exact HI | | | exact H1];
      [reflexivity | intros t Hn Eu; exfalso; exact (W _ _ eq_refl Hn Eu)].
  - unfold os_timer_reset in H1. cbn [os_tick_get] in H1.
    eapply counted_set_timer; [| | | exact H1];
      [eapply counted_same; [| exact HI]; repeat split | reflexivity |].
    intros t Hn Eu. exfalso. exact (W _ _ eq_refl Hn Eu).
  - inversion H. subst. eapply counted_same; [| exact HI]. repeat split.
  - inversion H. subst. exact HI.
  - exact HI.
  - discriminate.
Qed.

Lemma counted_run (s : sched) (n : Z) (t : os_timer_t) :
  counted a u P k cb s -> ll_find (timer_ll s) n = Some t ->
  timer_cb t = 0 \/ repeat_count t = 0 ->
  counted a u P k cb
    (with_ll s (ll_set (timer_ll s) n (after_run t (sys_time s)))).
Proof.
  intros HI Hn Hquiet.
  apply (counted_same a u P k cb
           (with_fired (with_ll s (ll_set (timer_ll s) n
                                          (after_run t (sys_time s))))
                       (fired s))); [repeat split |].
  apply (counted_step a u P k cb s n t); try assumption; try reflexivity.
  intros Eu.
  destruct (counted_alive s n t HI Hn Eu) as (A1 & A2 & A3 & A4 & A5).
  destruct HI as (_ & _ & _ & Hsp & _).
  unfold after_run. cbn.
  destruct (Z.ltb_spec 0 (repeat_count t)); repeat split; try assumption;
    try lia; intros Hcb Hrc; destruct Hquiet; try congruence; lia.
Qed.

Lemma counted_fire (s : sched) (n : Z) (t : os_timer_t) :
  counted a u P k cb s -> ll_find (timer_ll s) n = Some t ->
  fst (os_timer_time_remaining s t) = 0 ->
  timer_cb t <> 0 -> repeat_count t <> 0 ->
  counted a u P k cb
    (with_fired
       (with_ll s (ll_set (timer_ll s) n (after_run t (sys_time s))))
       (fired s ++ [mkFire (uid t) (sys_time s) (last_run t)])).
Proof.
  intros HI Hn Hdue Hcb Hrc.
  apply (counted_step a u P k cb s n t); try assumption; try reflexivity.
  - intros Nu. rewrite events_of_snoc. cbn [fire_uid].
    destruct (Nat.eqb_spec (uid t) u); [contradiction |].
    apply app_nil_r.
  - intros Eu.
    destruct (counted_alive s n t HI Hn Eu) as (A1 & A2 & A3 & A4 & A5).
    destruct HI as (_ & _ & _ & Hsp & _).
    rewrite events_of_snoc. cbn [fire_uid].
    destruct (Nat.eqb_spec (uid t) u); [| contradiction].
    unfold after_run. cbn [period timer_cb repeat_count last_run].
    destruct (Z.ltb_spec 0 (repeat_count t)); [| lia].
    rewrite last_at_snoc, length_app, Nat2Z.inj_add. cbn [length fire_at].
    repeat split; try assumption; try lia.
    apply spaced_snoc; cbn [fire_at fire_prev_run].
    + exact Hsp.
    + rewrite <- A1. apply due_elapsed; [rewrite A1; exact P_range | exact Hdue].
    + apply A5; congruence.
Qed.

End CountedRuns.

(** C6. Take a timer with period [P] and repeat count [k > 0], and a run of
    tick increments, handler calls and application code in which no call
    that is executed, by the application or by a callback, writes the
    period, repeat count, callback or [last_run] of that timer; calls on
    other timers, also through pointers obtained during the run, are free.
    Then the callback of the timer is invoked at most [k] times, and every
    invocation after the first comes when at least [P] ticks have elapsed
    since the [last_run] recorded at the invocation before. *)
Theorem timer_fires_at_most_k
  (ll_alloc : list Z -> option Z) (cb_code : Z -> Z -> app)
  (a : Z) (u : nat) (P k : Z) :
  fresh_alloc ll_alloc -> 0 <= P < modulus -> 0 < k ->
  forall (s : sched) (t : os_timer_t) (ops : list top_op) (s' : sched),
    NoDup (map node_uid (timer_ll s)) ->
    (forall x, In x (timer_ll s) -> (node_uid x < next_uid s)%nat) ->
    ll_find (timer_ll s) a = Some t ->
    uid t = u -> period t = P -> repeat_count t = k ->
    events_of u (fired s) = [] ->
    run_ops ll_alloc cb_code s ops = Some s' ->
    Forall (keeps_timer u) (executed_calls ll_alloc cb_code s ops) ->
    Z.of_nat (length (events_of u (fired s'))) <= k /\
    gaps_ok P (events_of u (fired s')).
Proof.
  intros Hfresh HP Hk s t ops s' Hnd Hlt Hf Hu Hper Hrc Hev Hrun Hcalls.
  assert (Hfinal : counted a u P k (timer_cb t) s').
  { refine (run_ops_keeps ll_alloc cb_code (counted a u P k (timer_cb t))
              (keeps_timer u) (fun _ => True)
              _ _ _ _ _ _ ops s s' _ Hrun Hcalls).
    - apply counted_same.
    - intros s1 c r s2. apply counted_call. exact Hfresh.
    - intros; exact I.
    - intros s1 n x H1 H2 _ _ H3. apply counted_run; assumption.
    - intros s1 n x H1 H2 _ H3 H4 H5. apply counted_fire; assumption.
    - intros s1 n x s2 H1 _ _ _ H2. eapply counted_del; eassumption.
    - unfold counted. rewrite Hev. cbn [spaced length last_at fold_left].
      repeat split; try assumption.
      + rewrite <- Hu. apply (Hlt (a, t)). eapply ll_find_In_pair. exact Hf.
      + left. exists t. repeat split; try assumption; lia. }
  destruct Hfinal as (_ & _ & _ & Hsp & Hcase). split.
  - destruct Hcase as [(t' & _ & _ & _ & _ & A & B & _) | (_ & B)]; lia.
  - eapply spaced_gaps. exact Hsp.
Qed.

(** The timer of [sched_counting] (period 10, repeat count 3) over 35 ms,
    beside a second timer that the application creates and writes through
    the pointer [os_timer_create] returned, and whose callback writes its
    own timer. *)
Lemma timer_fires_at_most_k_witness :
  let s' := sched_of (run_ops bump_alloc busy_callbacks sched_counting
                              ops_busy) in
  Z.of_nat (length (events_of 0 (fired s'))) <= 3 /\
  gaps_ok 10 (events_of 0 (fired s')).
Proof.
  cbv zeta.
  apply (timer_fires_at_most_k bump_alloc busy_callbacks 4 0%nat 10 3
           bump_alloc_fresh)
    with (s := sched_counting) (ops := ops_busy)
         (t := mkTimer 10 0 7 0 3 false 0).
  - unfold modulus. lia.
  - lia.
  - repeat constructor. cbn. tauto.
  - intros x [<- | []]. cbn. lia.
  - reflexivity.
  - reflexivity.
  - reflexivity.
  - reflexivity.
  - reflexivity.
  - vm_compute. reflexivity.
  - vm_compute.
    repeat (apply Forall_cons; [first [exact I | discriminate] |]).
    apply Forall_nil.
Defined.

(** On that run the callback is invoked exactly three times, at ticks 10,
    20 and 30, and the timer is then gone from the list. *)
Lemma counting_run_fires_three_times :
  let s' := sched_of (run_ops bump_alloc (fun _ _ => Stop) sched_counting
                              ops_counting) in
  map fire_at (events_of 0 (fired s')) = [10; 20; 30] /\ timer_ll s' = [].
Proof. vm_compute. split; reflexivity. Qed.

(** Why the application must leave [last_run] alone: after
    [os_timer_ready] the timer of [sched_counting] is invoked again one
    tick after its first invocation. *)
Lemma os_timer_ready_breaks_spacing :
  let s' := sched_of (run_ops bump_alloc (fun _ _ => Stop) sched_counting
                              ops_ready) in
  map fire_at (events_of 0 (fired s')) = [10; 11] /\
  ~ gaps_ok 10 (events_of 0 (fired s')).
Proof.
  cbv zeta. split; [vm_compute; reflexivity |].
  intros H. vm_compute in H. destruct H as ((H & _) & _). discriminate.
Qed.

(** ** The set routines *)

Lemma fill_bytes_shape (n : nat) :
  forall d v m, same_shape m (fill_bytes n d v m).
Proof.
  induction n as [| n IH]; intros d v m; cbn.
  - apply same_shape_refl.
  - eapply same_shape_trans; [apply set_byte_shape | apply IH].
Qed.

Lemma fill_bytes_app (a : nat) :
  forall (b : nat) d v m,
    fill_bytes (a + b) d v m = fill_bytes b (d + Z.of_nat a) v (fill_bytes a d v m).
Proof.
  induction a as [| a IH]; intros b d v m.
  - cbn. rewrite Z.add_0_r. reflexivity.
  - change (S a + b)%nat with (S (a + b)). cbn [fill_bytes]. rewrite IH.
    replace (d + 1 + Z.of_nat a) with (d + Z.of_nat (S a)) by lia.
    reflexivity.
Qed.

Lemma fill_bytes_outside (n : nat) :
  forall d v m a,
    mem_base m <= d -> mem_base m <= a ->
    a < d \/ d + Z.of_nat n <= a ->
    byte_at (fill_bytes n d v m) a = byte_at m a.
Proof.
  induction n as [| n IH]; intros d v m a Hd Ha Hout; cbn [fill_bytes].
  - reflexivity.
  - rewrite IH; cbn; try lia. apply byte_at_set_other; lia.
Qed.

Lemma fill_bytes_inside (n : nat) :
  forall d v m i,
    in_bounds m d (Z.of_nat n) = true -> 0 <= i < Z.of_nat n ->
    byte_at (fill_bytes n d v m) (d + i) = v mod 256.
Proof.
  induction n as [| n IH]; intros d v m i Hd Hi.
  - lia.
  - apply in_bounds_spec in Hd. cbn [fill_bytes].
    assert (Hsh := set_byte_shape m d v).
    destruct (Z.eq_dec i 0) as [-> | Hne].
    + rewrite Z.add_0_r. rewrite fill_bytes_outside; cbn; try lia.
      apply byte_at_set_same. apply in_bounds_spec. lia.
    + replace (d + i) with (d + 1 + (i - 1)) by lia.
      apply IH; [| lia].
      rewrite (in_bounds_shape _ _ _ _ Hsh). apply in_bounds_spec. lia.
Qed.

Lemma fills_SET8 (v : Z) : fills any_byte_pointer 1 v (Copy.SET8 v).
Proof.
  split; [intros; exact I |].
  intros d m _ Hd. unfold Copy.SET8, bind.
  rewrite (store8_in _ _ _ Hd). reflexivity.
Qed.

Lemma fills_SET32 (v v32 : Z) :
  v32 mod 256 = v mod 256 -> (v32 / 2 ^ 8) mod 256 = v mod 256 ->
  (v32 / 2 ^ 16) mod 256 = v mod 256 -> (v32 / 2 ^ 24) mod 256 = v mod 256 ->
  fills word_pointer 4 v (Copy.SET32 v32).
Proof.
  intros E0 E1 E2 E3. split.
  - intros d Hd. unfold word_pointer in *.
    change (Z.of_nat 4) with (1 * 4). rewrite Z.mod_add by lia. exact Hd.
  - intros d m Hda Hd. unfold Copy.SET32, bind.
    rewrite (store32_in _ _ _ Hda Hd). unfold ret. f_equal.
    cbn [fill_bytes].
    replace (d + 1 + 1) with (d + 2) by lia.
    replace (d + 2 + 1) with (d + 3) by lia.
    rewrite (set_byte_congr m d _ _ E0).
    rewrite (set_byte_congr _ (d + 1) _ _ E1).
    rewrite (set_byte_congr _ (d + 2) _ _ E2).
    rewrite (set_byte_congr _ (d + 3) _ _ E3).
    reflexivity.
Qed.

Lemma fills_REPEAT_SET (P : Z -> Prop) (chunk : nat) (v : Z)
      (body : Z -> M Z) (n : nat) :
  fills P chunk v body -> fills P (n * chunk) v (Copy.REPEAT_SET n body).
Proof.
  intros [Hp Hb]. induction n as [| n [IHp IHb]].
  - split.
    + intros d H. cbn. rewrite Z.add_0_r. exact H.
    + intros d m _ _. cbn. rewrite Z.add_0_r. reflexivity.
  - split.
    + intros d H. cbn [Nat.mul]. rewrite Nat2Z.inj_add, Z.add_assoc.
      apply IHp. apply Hp. exact H.
    + intros d m HP Hd.
      cbn [Nat.mul] in *. rewrite Nat2Z.inj_add in *.
      assert (0 <= Z.of_nat chunk) by lia.
      assert (0 <= Z.of_nat (n * chunk)) by lia.
      cbn [Copy.REPEAT_SET]. unfold bind.
      rewrite Hb; [| exact HP | eapply in_bounds_sub; [exact Hd | lia | lia]].
      assert (Hsh := fill_bytes_shape chunk d v m).
      rewrite IHb.
      * rewrite fill_bytes_app, Z.add_assoc. reflexivity.
      * apply Hp. exact HP.
      * rewrite (in_bounds_shape _ _ _ _ Hsh).
        eapply in_bounds_sub; [exact Hd | lia | lia].
Qed.

Lemma set_while_gt_ok (P : Z -> Prop) (chunk : nat) (v : Z)
      (body : Z -> M Z) (bound : Z) :
  fills P chunk v body -> (0 < chunk)%nat -> Z.of_nat chunk <= bound + 1 ->
  forall (fuel : nat) (d len : Z) (m : memory),
    (Z.to_nat len <= fuel)%nat -> 0 <= len ->
    (bound < len -> P d) ->
    in_bounds m d len = true ->
    exists k : nat,
      Z.of_nat k <= len /\ len - Z.of_nat k <= bound /\
      (P d -> P (d + Z.of_nat k)) /\
      Copy.set_while_gt fuel bound (Z.of_nat chunk) body d len m
      = Done (d + Z.of_nat k, len - Z.of_nat k) (fill_bytes k d v m).
Proof.
  intros [Hp Hb] Hc Hcb.
  induction fuel as [| fuel IH]; intros d len m Hf Hlen HP Hd.
  - exists O. cbn. rewrite Z.add_0_r, Z.sub_0_r.
    repeat split; try lia. intros H; exact H.
  - cbn [Copy.set_while_gt]. destruct (Z.ltb_spec bound len) as [Hgt | Hle].
    + unfold bind. rewrite Hb;
        [| apply HP; exact Hgt | eapply in_bounds_sub; [exact Hd | lia | lia]].
      assert (Hsh := fill_bytes_shape chunk d v m).
      destruct (IH (d + Z.of_nat chunk) (len - Z.of_nat chunk)
                   (fill_bytes chunk d v m))
        as (k & Hk1 & Hk2 & Hk3 & Hk4).
      * lia.
      * lia.
      * intros _. apply Hp. apply HP. exact Hgt.
      * rewrite (in_bounds_shape _ _ _ _ Hsh).
        eapply in_bounds_sub; [exact Hd | lia | lia].
      * exists (chunk + k)%nat. rewrite Nat2Z.inj_add.
        repeat split; try lia.
        -- intros H. rewrite Z.add_assoc. apply Hk3. apply Hp. exact H.
        -- rewrite Hk4, fill_bytes_app. f_equal. f_equal; lia.
    + exists O. cbn. rewrite Z.add_0_r, Z.sub_0_r.
      repeat split; try lia. intros H; exact H.
Qed.

Lemma set_align_loop_ok (fuel : nat) :
  forall (v d a len : Z) (m : memory),
    0 <= a -> (Z.to_nat a <= fuel)%nat -> 0 <= len ->
    in_bounds m d len = true ->
    let k := Z.to_nat (Z.min a len) in
    Copy.set_align_loop fuel v d a len m
    = Done (d + Z.of_nat k, len - Z.of_nat k) (fill_bytes k d v m).
Proof.
  induction fuel as [| fuel IH]; intros v d a len m Ha Hf Hlen Hd k.
  - assert (a = 0) by lia. subst a k.
    replace (Z.min 0 len) with 0 by lia. cbn.
    rewrite ?Z.add_0_r, ?Z.sub_0_r. reflexivity.
  - cbn [Copy.set_align_loop].
    destruct (Z.eqb_spec a 0) as [-> | Hna]; cbn [negb andb].
    + subst k. replace (Z.min 0 len) with 0 by lia. cbn.
      rewrite ?Z.add_0_r, ?Z.sub_0_r. reflexivity.
    + destruct (Z.eqb_spec len 0) as [-> | Hnl]; cbn [negb].
      * subst k. replace (Z.min a 0) with 0 by lia. cbn.
        rewrite ?Z.add_0_r, ?Z.sub_0_r. reflexivity.
      * unfold bind, Copy.SET8 at 1, bind.
        rewrite store8_in by (eapply in_bounds_sub; [exact Hd | lia | lia]).
        unfold ret at 1.
        assert (Hsh := set_byte_shape m d v).
        rewrite IH; try lia.
        -- assert (Ek : k = (1 + Z.to_nat (Z.min (a - 1) (len - 1)))%nat)
             by (subst k; lia).
           rewrite Ek, fill_bytes_app.
           f_equal. f_equal; lia.
        -- rewrite (in_bounds_shape _ _ _ _ Hsh).
           eapply in_bounds_sub; [exact Hd | lia | lia].
Qed.

Lemma set_word_path_ok (v8 v32 d len : Z) (m : memory) :
  v32 mod 256 = v8 mod 256 -> (v32 / 2 ^ 8) mod 256 = v8 mod 256 ->
  (v32 / 2 ^ 16) mod 256 = v8 mod 256 -> (v32 / 2 ^ 24) mod 256 = v8 mod 256 ->
  0 <= len -> (0 < len -> word_pointer d) ->
  in_bounds m d len = true ->
  ('(d32, len) <-
     Copy.set_while_gt (Z.to_nat len) 32 32
       (Copy.REPEAT_SET 8 (Copy.SET32 v32)) d len ;;
   '(d32, len) <- Copy.set_while_gt (Z.to_nat len) 4 4 (Copy.SET32 v32) d32 len ;;
   '(_, _) <- Copy.set_while_gt (Z.to_nat len) 0 1 (Copy.SET8 v8) d32 len ;;
   ret tt) m
  = Done tt (fill_bytes (Z.to_nat len) d v8 m).
Proof.
  intros E0 E1 E2 E3 Hlen Hal Hd.
  pose proof (fills_SET32 v8 v32 E0 E1 E2 E3) as F32.
  destruct (set_while_gt_ok word_pointer (8 * 4) v8
              (Copy.REPEAT_SET 8 (Copy.SET32 v32)) 32
              (fills_REPEAT_SET _ _ _ _ 8 F32) ltac:(cbn; lia)
              ltac:(cbn; lia) (Z.to_nat len) d len m)
    as (k1 & A1 & A2 & A3 & A4); try assumption; try lia.
  { intros H. apply Hal. lia. }
  change (Z.of_nat (8 * 4)) with 32 in A4.
  unfold bind at 1. rewrite A4. cbv beta iota.
  assert (Hsh1 := fill_bytes_shape k1 d v8 m).
  set (m1 := fill_bytes k1 d v8 m) in *.
  destruct (set_while_gt_ok word_pointer 4 v8 (Copy.SET32 v32) 4 F32
              ltac:(lia) ltac:(cbn; lia)
              (Z.to_nat (len - Z.of_nat k1)) (d + Z.of_nat k1)
              (len - Z.of_nat k1) m1)
    as (k2 & B1 & B2 & _ & B4); try lia.
  { intros H. apply A3. apply Hal. lia. }
  { rewrite (in_bounds_shape _ _ _ _ Hsh1).
    eapply in_bounds_sub; [exact Hd | lia | lia]. }
  change (Z.of_nat 4) with 4 in B4.
  unfold bind at 1. rewrite B4. cbv beta iota.
  assert (Hsh2 := fill_bytes_shape k2 (d + Z.of_nat k1) v8 m1).
  set (m2 := fill_bytes k2 (d + Z.of_nat k1) v8 m1) in *.
  assert (Hsh12 := same_shape_trans _ _ _ Hsh1 Hsh2).
  destruct (set_while_gt_ok any_byte_pointer 1 v8 (Copy.SET8 v8) 0
              (fills_SET8 v8) ltac:(lia) ltac:(cbn; lia)
              (Z.to_nat (len - Z.of_nat k1 - Z.of_nat k2))
              (d + Z.of_nat k1 + Z.of_nat k2)
              (len - Z.of_nat k1 - Z.of_nat k2) m2)
    as (k3 & C1 & C2 & _ & C4); try lia.
  { intros _. exact I. }
  { rewrite (in_bounds_shape _ _ _ _ Hsh12).
    eapply in_bounds_sub; [exact Hd | lia | lia]. }
  change (Z.of_nat 1) with 1 in C4.
  unfold bind. rewrite C4. cbv beta iota. unfold ret.
  subst m2 m1.
  replace (d + Z.of_nat k1 + Z.of_nat k2) with (d + Z.of_nat (k1 + k2)) by lia.
  rewrite <- (fill_bytes_app k1 k2), <- fill_bytes_app.
  f_equal. f_equal. lia.
Qed.

Lemma set_bytes_then_words_ok (v8 v32 dst len : Z) (m : memory) :
  v32 mod 256 = v8 mod 256 -> (v32 / 2 ^ 8) mod 256 = v8 mod 256 ->
  (v32 / 2 ^ 16) mod 256 = v8 mod 256 -> (v32 / 2 ^ 24) mod 256 = v8 mod 256 ->
  0 <= len -> in_bounds m dst len = true ->
  Copy.set_bytes_then_words v8 v32 dst len m
  = Done tt (fill_bytes (Z.to_nat len) dst v8 m).
Proof.
  intros E0 E1 E2 E3 Hlen Hd. unfold Copy.set_bytes_then_words.
  rewrite land_3.
  destruct (Z.eqb_spec (dst mod 4) 0) as [Hd0 | Hd0]; cbn [negb].
  - unfold bind at 1. unfold ret at 1.
    apply set_word_path_ok; try assumption. intros _. exact Hd0.
  - assert (Hr := Z.mod_pos_bound dst 4 ltac:(lia)).
    unfold bind at 1. change (Copy.ALIGN_MASK + 1) with 4.
    rewrite set_align_loop_ok; try assumption; try lia.
    set (k := Z.to_nat (Z.min (4 - dst mod 4) len)).
    assert (Hsh := fill_bytes_shape k dst v8 m).
    rewrite set_word_path_ok; try assumption.
    + rewrite <- fill_bytes_app. f_equal. f_equal. lia.
    + lia.
    + intros Hpos. assert (Z.of_nat k = 4 - dst mod 4) by lia.
      unfold word_pointer.
      replace (dst + Z.of_nat k) with (dst - dst mod 4 + 1 * 4) by lia.
      rewrite Z.mod_add by lia.
      rewrite Zminus_mod, Z.mod_mod, Z.sub_diag by lia. reflexivity.
    + rewrite (in_bounds_shape _ _ _ _ Hsh).
      eapply in_bounds_sub; [exact Hd | lia | lia].
Qed.

Lemma fill_bytes_congr (n : nat) :
  forall d v w m, v mod 256 = w mod 256 -> fill_bytes n d v m = fill_bytes n d w m.
Proof.
  induction n as [| n IH]; intros d v w m E; cbn; [reflexivity |].
  rewrite (set_byte_congr m d v w E). apply IH. exact E.
Qed.

(** X1. For a destination that lies in memory, whatever its alignment,
    [os_memset(dst, v, len)] sets the [len] bytes from [dst] on to [v]
    and writes no other byte; [os_memset_00] and [os_memset_ff] do what
    [os_memset] does with 0 and with 0xFF. *)
Theorem os_memset_fills (dst v len : Z) (m : memory) :
  0 <= len -> in_bounds m dst len = true ->
  exists m',
    Copy.os_memset dst v len m = Done tt m' /\
    same_shape m m' /\
    (forall i, 0 <= i < len -> byte_at m' (dst + i) = v mod 256) /\
    (forall a, in_bounds m a 1 = true -> a < dst \/ dst + len <= a ->
               byte_at m' a = byte_at m a) /\
    (v mod 256 = 0 -> Copy.os_memset_00 dst len m = Done tt m') /\
    (v mod 256 = 255 -> Copy.os_memset_ff dst len m = Done tt m').
Proof.
  intros Hlen Hd.
  exists (fill_bytes (Z.to_nat len) dst v m).
  assert (Hv := Z.mod_pos_bound v 256 ltac:(lia)).
  split.
  { unfold Copy.os_memset. cbv zeta.
    rewrite (fill_bytes_congr _ dst v (v mod 256)) by (rewrite Z.mod_mod; lia).
    apply set_bytes_then_words_ok; try assumption;
      rewrite !Z.shiftl_mul_pow2 by lia; unfold u32, modulus;
      change (2 ^ 8) with 256; change (2 ^ 16) with 65536;
      change (2 ^ 24) with 16777216; change (2 ^ 32) with 4294967296;
      Z.div_mod_to_equations; lia. }
  split; [apply fill_bytes_shape |].
  split.
  { intros i Hi. apply fill_bytes_inside; rewrite ?Z2Nat.id by lia; assumption. }
  split.
  { intros a Ha Hout. apply in_bounds_spec in Ha. apply in_bounds_spec in Hd.
    apply fill_bytes_outside; rewrite ?Z2Nat.id by lia; lia. }
  split.
  - intros E. unfold Copy.os_memset_00.
    rewrite (fill_bytes_congr _ dst v 0) by (rewrite E; reflexivity).
    apply set_bytes_then_words_ok; try assumption; reflexivity.
  - intros E. unfold Copy.os_memset_ff.
    rewrite (fill_bytes_congr _ dst v 255) by (rewrite E; reflexivity).
    apply set_bytes_then_words_ok; try assumption; reflexivity.
Qed.

(** Eleven bytes set to 0xAB from the odd address 1003 of [forty_bytes]. *)
Lemma os_memset_fills_witness :
  exists m', Copy.os_memset 1003 171 11 forty_bytes = Done tt m' /\
             byte_at m' 1013 = 171 /\ byte_at m' 1014 = 15.
Proof.
  destruct (os_memset_fills 1003 171 11 forty_bytes)
    as (m' & H1 & _ & H3 & H4 & _); [lia | reflexivity |].
  exists m'. split; [exact H1 |]. split.
  - change 1013 with (1003 + 10). rewrite H3 by lia. reflexivity.
  - rewrite H4; [reflexivity | reflexivity | lia].
Defined.

(** ** The byte-only copy *)

Lemma byte_loop_ok (fuel : nat) :
  forall (d s len : Z) (m : memory),
    (Z.to_nat len <= fuel)%nat -> 0 <= len ->
    in_bounds m d len = true -> in_bounds m s len = true ->
    Copy.while_gt fuel 0 1 Copy.COPY8 d s len m
    = Done (d + len, s + len, 0) (copy_bytes (Z.to_nat len) d s m).
Proof.
  induction fuel as [| fuel IH]; intros d s len m Hf Hlen Hd Hs.
  - assert (len = 0) by lia. subst len. cbn. rewrite !Z.add_0_r. reflexivity.
  - cbn [Copy.while_gt]. destruct (Z.ltb_spec 0 len) as [Hpos | Hz].
    + unfold bind. rewrite COPY8_ok;
        [| eapply in_bounds_sub; [exact Hd | lia | lia]
         | eapply in_bounds_sub; [exact Hs | lia | lia]].
      assert (Hsh := copy_bytes_shape 1 d s m).
      rewrite IH; try lia.
      * replace (Z.to_nat len) with (1 + Z.to_nat (len - 1))%nat by lia.
        rewrite copy_bytes_app.
        replace (d + 1 + (len - 1)) with (d + len) by lia.
        replace (s + 1 + (len - 1)) with (s + len) by lia.
        reflexivity.
      * rewrite (in_bounds_shape _ _ _ _ Hsh).
        eapply in_bounds_sub; [exact Hd | lia | lia].
      * rewrite (in_bounds_shape _ _ _ _ Hsh).
        eapply in_bounds_sub; [exact Hs | lia | lia].
    + assert (len = 0) by lia. subst len. cbn. rewrite !Z.add_0_r. reflexivity.
Qed.

(** A copy towards lower addresses reads every source byte before it is
    overwritten. *)
Lemma copy_bytes_forward (n : nat) :
  forall d s m i,
    in_bounds m d (Z.of_nat n) = true -> in_bounds m s (Z.of_nat n) = true ->
    d <= s -> 0 <= i < Z.of_nat n ->
    byte_at (copy_bytes n d s m) (d + i) = byte_at m (s + i).
Proof.
  induction n as [| n IH]; intros d s m i Hd Hs Hle Hi.
  - lia.
  - apply in_bounds_spec in Hd. apply in_bounds_spec in Hs.
    cbn [copy_bytes].
    assert (Hsh := set_byte_shape m d (byte_at m s)).
    destruct (Z.eq_dec i 0) as [-> | Hne].
    + rewrite Z.add_0_r. rewrite copy_bytes_outside; cbn; try lia.
      rewrite byte_at_set_same by (apply in_bounds_spec; lia).
      rewrite Z.add_0_r. apply Z.mod_small. apply byte_at_range.
    + replace (d + i) with (d + 1 + (i - 1)) by lia.
      rewrite IH.
      * replace (s + 1 + (i - 1)) with (s + i) by lia.
        apply byte_at_set_other; lia.
      * rewrite (in_bounds_shape _ _ _ _ Hsh). apply in_bounds_spec. lia.
      * rewrite (in_bounds_shape _ _ _ _ Hsh). apply in_bounds_spec. lia.
      * lia.
      * lia.
Qed.

(** X2. [os_memcpy_small] on buffers that lie in memory returns [dst] and
    leaves the memory of the naive byte loop, overlapping buffers
    included.  When the destination does not start above the source, or
    the buffers do not overlap, the destination ends up holding the
    original source bytes; no byte outside the destination changes. *)
Theorem os_memcpy_small_forward (dst src n : Z) (m : memory) :
  0 <= n -> in_bounds m dst n = true -> in_bounds m src n = true ->
  exists m',
    Copy.os_memcpy_small dst src n m = Done dst m' /\
    Copy.naive_copy (Z.to_nat n) dst src m = Done tt m' /\
    (dst <= src \/ src + n <= dst ->
     forall i, 0 <= i < n -> byte_at m' (dst + i) = byte_at m (src + i)) /\
    (forall a, in_bounds m a 1 = true -> a < dst \/ dst + n <= a ->
               byte_at m' a = byte_at m a).
Proof.
  intros Hn Hd Hs. exists (copy_bytes (Z.to_nat n) dst src m).
  split.
  { unfold Copy.os_memcpy_small, bind.
    rewrite byte_loop_ok by (try assumption; lia). reflexivity. }
  split; [apply naive_copy_ok; rewrite Z2Nat.id by lia; assumption |].
  split.
  - intros [Hle | Hdis] i Hi.
    + apply copy_bytes_forward; rewrite ?Z2Nat.id by lia; assumption.
    + apply copy_bytes_inside; rewrite ?Z2Nat.id by lia; try assumption.
      left. exact Hdis.
  - intros a Ha Hout. apply in_bounds_spec in Ha. apply in_bounds_spec in Hd.
    apply copy_bytes_outside; rewrite ?Z2Nat.id by lia; lia.
Qed.

(** Ten bytes moved two addresses down inside [forty_bytes]. *)
Lemma os_memcpy_small_forward_witness :
  exists m', Copy.os_memcpy_small 1010 1012 10 forty_bytes = Done 1010 m' /\
             byte_at m' 1019 = 22.
Proof.
  destruct (os_memcpy_small_forward 1010 1012 10 forty_bytes)
    as (m' & H1 & _ & H3 & _); [lia | reflexivity | reflexivity |].
  exists m'. split; [exact H1 |].
  change 1019 with (1010 + 9). rewrite H3; [reflexivity | lia | lia].
Defined.

(** ** Bit scans and size adjustment *)

Lemma ffs_scan_none (n : nat) :
  forall i w,
    (forall j, i <= j < i + Z.of_nat n -> Z.testbit w j = false) ->
    ffs_scan n i w = 0.
Proof.
  induction n as [| n IH]; intros i w H; cbn [ffs_scan]; [reflexivity |].
  rewrite (H i) by lia. apply IH. intros j Hj. apply H. lia.
Qed.

Lemma ffs_scan_some (n : nat) :
  forall i w j,
    i <= j < i + Z.of_nat n -> Z.testbit w j = true ->
    let r := ffs_scan n i w in
    i < r <= j + 1 /\ Z.testbit w (r - 1) = true /\
    forall j', i <= j' < r - 1 -> Z.testbit w j' = false.
Proof.
  induction n as [| n IH]; intros i w j Hj Hb; [lia |].
  cbn [ffs_scan]. destruct (Z.testbit w i) eqn:Ei.
  - cbv zeta. replace (i + 1 - 1) with i by lia.
    repeat split; try lia; try assumption.
  - assert (i <> j) by (intros ->; congruence).
    destruct (IH (i + 1) w j ltac:(lia) Hb) as (A & B & C).
    cbv zeta. repeat split; try lia; try assumption.
    intros j' Hj'. destruct (Z.eq_dec j' i) as [-> | Hne]; [exact Ei |].
    apply C. lia.
Qed.

Lemma ffs_fls_bits (w : Z) :
  0 < w < 2 ^ 32 ->
  (0 <= Tlsf.tlsf_ffs w < 32 /\
   Z.testbit w (Tlsf.tlsf_ffs w) = true /\
   forall j, 0 <= j < Tlsf.tlsf_ffs w -> Z.testbit w j = false) /\
  (0 <= Tlsf.tlsf_fls w < 32 /\
   Z.testbit w (Tlsf.tlsf_fls w) = true /\
   forall j, Tlsf.tlsf_fls w < j -> Z.testbit w j = false) /\
  Tlsf.tlsf_ffs w <= Tlsf.tlsf_fls w /\
  Tlsf.tlsf_ffs 0 = -1 /\ Tlsf.tlsf_fls 0 = -1.
Proof.
  intros Hw.
  assert (Hl : 0 <= Z.log2 w < 32).
  { split; [apply Z.log2_nonneg | apply Z.log2_lt_pow2; lia]. }
  assert (Hb : Z.testbit w (Z.log2 w) = true) by (apply Z.bit_log2; lia).
  assert (Hfls : Tlsf.tlsf_fls w = Z.log2 w).
  { unfold Tlsf.tlsf_fls, builtin_clz. destruct (Z.eqb_spec w 0); lia. }
  destruct (ffs_scan_some 32 0 w (Z.log2 w) ltac:(cbn; lia) Hb) as (A & B & C).
  cbv zeta in A, B, C.
  unfold Tlsf.tlsf_ffs, builtin_ffs. rewrite Hfls.
  split; [| split; [| split; [| split; reflexivity]]].
  - split; [lia |]. split; [exact B |].
    intros j Hj. apply C. lia.
  - split; [lia |]. split; [exact Hb |].
    intros j Hj. apply Z.bits_above_log2; lia.
  - lia.
Qed.

(** X3. [tlsf_ffs] is the index of the lowest set bit and [tlsf_fls] the
    index of the highest set bit of a non-zero 32-bit word; both are -1 for
    the word 0. *)
Theorem tlsf_ffs_fls_bits (w : Z) :
  0 < w < 2 ^ 32 ->
  (0 <= Tlsf.tlsf_ffs w < 32 /\
   Z.testbit w (Tlsf.tlsf_ffs w) = true /\
   forall j, 0 <= j < Tlsf.tlsf_ffs w -> Z.testbit w j = false) /\
  (0 <= Tlsf.tlsf_fls w < 32 /\
   Z.testbit w (Tlsf.tlsf_fls w) = true /\
   forall j, Tlsf.tlsf_fls w < j -> Z.testbit w j = false) /\
  Tlsf.tlsf_ffs w <= Tlsf.tlsf_fls w /\
  Tlsf.tlsf_ffs 0 = -1 /\ Tlsf.tlsf_fls 0 = -1.
Proof. exact (ffs_fls_bits w). Qed.

Lemma tlsf_ffs_fls_bits_witness :
  Tlsf.tlsf_ffs 40 = 3 /\ Tlsf.tlsf_fls 40 = 5.
Proof.
  destruct (tlsf_ffs_fls_bits 40 ltac:(lia)) as ((A1 & A2 & A3) & (B1 & B2 & B3) & _).
  split; reflexivity.
Defined.

(** Clearing the two low bits of a 32-bit value. *)
Lemma land_not32_3 (y : Z) :
  0 <= y < modulus -> Z.land y (not32 3) = 4 * (y / 4).
Proof.
  intros Hy.
  change (not32 3) with (Z.land (Z.lnot (Z.ones 2)) (Z.ones 32)).
  rewrite (Z.land_comm (Z.lnot (Z.ones 2))), Z.land_assoc.
  rewrite (Z.land_ones y 32) by lia.
  rewrite Z.mod_small by exact Hy.
  change (Z.land y (Z.lnot (Z.ones 2))) with (Z.ldiff y (Z.ones 2)).
  rewrite Z.ldiff_ones_r by lia.
  rewrite Z.shiftr_div_pow2, Z.shiftl_mul_pow2 by lia.
  change (2 ^ 2) with 4. lia.
Qed.

Lemma align_up_4 (x : Z) :
  0 <= x <= modulus - 4 -> Tlsf.align_up x 4 = 4 * ((x + 3) / 4).
Proof.
  intros Hx. unfold Tlsf.align_up, add, sub.
  change (u32 (4 - 1)) with 3.
  rewrite (u32_small (x + 3)) by (unfold modulus in *; lia).
  apply land_not32_3. unfold modulus in *. lia.
Qed.

Lemma adjust_request_size_ranges (size : Z) :
  0 <= size < modulus ->
  let r := Tlsf.adjust_request_size size Tlsf.ALIGN_SIZE in
  (1 <= size <= 1020 ->
   r mod 4 = 0 /\ Tlsf.block_size_min <= r < Tlsf.block_size_max /\
   size <= r /\ (Tlsf.block_size_min <= size -> r < size + 4)) /\
  (size = 0 \/ 1021 <= size <= modulus - 4 -> r = 0) /\
  (modulus - 4 < size -> r = Tlsf.block_size_min).
Proof.
  intros Hs r. subst r. unfold Tlsf.adjust_request_size.
  change Tlsf.ALIGN_SIZE with 4. change Tlsf.block_size_min with 12.
  change Tlsf.block_size_max with 1024. unfold modulus in *.
  split; [| split].
  - intros H. destruct (Z.eqb_spec size 0); [lia |].
    rewrite align_up_4 by (unfold modulus; lia).
    assert (Hq : 4 * ((size + 3) / 4) <= size + 3 < 4 * ((size + 3) / 4) + 4)
      by (Z.div_mod_to_equations; lia).
    destruct (Z.ltb_spec (4 * ((size + 3) / 4)) 1024); [| lia].
    repeat split; try lia.
    + destruct (Z.max_spec (4 * ((size + 3) / 4)) 12) as [[_ ->] | [_ ->]];
        [reflexivity |].
      rewrite Z.mul_comm. apply Z.mod_mul. lia.
  - intros [-> | H]; [reflexivity |].
    destruct (Z.eqb_spec size 0); [lia |].
    rewrite align_up_4 by (unfold modulus; lia).
    assert (Hq : 4 * ((size + 3) / 4) <= size + 3 < 4 * ((size + 3) / 4) + 4)
      by (Z.div_mod_to_equations; lia).
    destruct (Z.ltb_spec (4 * ((size + 3) / 4)) 1024); [lia | reflexivity].
  - intros H. destruct (Z.eqb_spec size 0); [lia |].
    assert (E : Tlsf.align_up size 4 = 0).
    { unfold Tlsf.align_up, add, sub. change (u32 (4 - 1)) with 3.
      assert (E3 : u32 (size + 3) = size + 3 - 4294967296).
      { unfold u32, modulus. change (2 ^ 32) with 4294967296.
        Z.div_mod_to_equations. lia. }
      rewrite E3, land_not32_3 by (unfold modulus; lia).
      Z.div_mod_to_equations. lia. }
    rewrite E. reflexivity.
Qed.

Lemma adjust_request_size_value (size : Z) :
  1 <= size <= 1020 ->
  Tlsf.adjust_request_size size Tlsf.ALIGN_SIZE
  = Z.max (4 * ((size + 3) / 4)) 12.
Proof.
  intros H. unfold Tlsf.adjust_request_size. change Tlsf.ALIGN_SIZE with 4.
  destruct (Z.eqb_spec size 0); [lia |].
  rewrite align_up_4 by (unfold modulus; lia).
  change Tlsf.block_size_max with 1024.
  destruct (Z.ltb_spec (4 * ((size + 3) / 4)) 1024); [reflexivity |].
  Z.div_mod_to_equations. lia.
Qed.

(** X4. [adjust_request_size(size, ALIGN_SIZE)] on a 32-bit [size]: a size
    from 1 to 1020 becomes the least multiple of four that is at least the
    size and at least [block_size_min], so every size from 1 to 12 becomes
    12; a size from 1021 to [2^32 - 4] is rejected with 0, as is the size 0;
    the sizes above [2^32 - 4] wrap round and become [block_size_min]. *)
Theorem adjust_request_size_cases (size : Z) :
  0 <= size < modulus ->
  let r := Tlsf.adjust_request_size size Tlsf.ALIGN_SIZE in
  (1 <= size <= 1020 ->
   r = Z.max (4 * ((size + 3) / 4)) Tlsf.block_size_min /\
   r mod 4 = 0 /\ Tlsf.block_size_min <= r < Tlsf.block_size_max /\
   size <= r /\
   (forall r', r' mod 4 = 0 -> size <= r' -> Tlsf.block_size_min <= r' ->
               r <= r') /\
   (size <= Tlsf.block_size_min -> r = Tlsf.block_size_min)) /\
  (size = 0 \/ 1021 <= size <= modulus - 4 -> r = 0) /\
  (modulus - 4 < size -> r = Tlsf.block_size_min).
Proof.
  intros Hs r. destruct (adjust_request_size_ranges size Hs) as (A & B & C).
  split; [| split; [exact B | exact C]].
  intros H. destruct (A H) as (A1 & A2 & A3 & _).
  pose proof (adjust_request_size_value size H) as E.
  fold r in A1, A2, A3, E. change Tlsf.block_size_min with 12 in *.
  split; [exact E |]. split; [exact A1 |]. split; [exact A2 |].
  split; [exact A3 |]. split.
  - intros r' Hr' Hle Hmin. rewrite E.
    assert (4 * ((size + 3) / 4) <= r') by (Z.div_mod_to_equations; lia).
    lia.
  - intros Hsmall. rewrite E.
    assert (4 * ((size + 3) / 4) <= 12) by (Z.div_mod_to_equations; lia).
    lia.
Qed.

Lemma adjust_request_size_cases_witness :
  Tlsf.adjust_request_size 5 Tlsf.ALIGN_SIZE = 12 /\
  Tlsf.adjust_request_size 61 Tlsf.ALIGN_SIZE = 64 /\
  Tlsf.adjust_request_size 2000 Tlsf.ALIGN_SIZE = 0.
Proof.
  destruct (adjust_request_size_cases 5 ltac:(unfold modulus; lia))
    as (A & _).
  destruct (A ltac:(lia)) as (_ & _ & _ & _ & _ & A5).
  destruct (adjust_request_size_cases 61 ltac:(unfold modulus; lia))
    as (A61 & _).
  destruct (A61 ltac:(lia)) as (E61 & _).
  destruct (adjust_request_size_cases 2000 ltac:(unfold modulus; lia))
    as (_ & B & _).
  split; [apply A5; change Tlsf.block_size_min with 12; lia |].
  split; [exact E61 |]. apply B. right. unfold modulus. lia.
Defined.

(** ** Requests the allocator turns down *)

Lemma bind_step {A B} (c : M A) (k : A -> M B) (m m' : memory) (a : A) :
  c m = Done a m' -> bind c k m = k a m'.
Proof. intros H. unfold bind. rewrite H. reflexivity. Qed.


Lemma block_locate_free_zero (control : Z) (m : memory) :
  Tlsf.block_locate_free control 0 m = Done 0 m.
Proof. reflexivity. Qed.

(** X5. [os_tlsf_malloc] returns null and leaves memory as it is for the
    size 0 and for every size from 1021 to [2^32 - 4]; so does
    [os_tlsf_memalign] for these sizes when the alignment is at most
    [ALIGN_SIZE], and for the size 0 with any alignment; [os_tlsf_free] of
    null returns 0 and leaves memory as it is. *)
Theorem os_tlsf_null_results (tlsf size align : Z) (m : memory) :
  0 <= size < modulus ->
  size = 0 \/ 1021 <= size <= modulus - 4 ->
  Tlsf.os_tlsf_malloc tlsf size m = Done 0 m /\
  (size = 0 \/ align <= Tlsf.ALIGN_SIZE ->
   Tlsf.os_tlsf_memalign tlsf align size m = Done 0 m) /\
  Tlsf.os_tlsf_free tlsf 0 m = Done 0 m.
Proof.
  intros Hs Hcase.
  destruct (adjust_request_size_ranges size Hs) as (_ & Hz & _).
  cbv zeta in Hz. specialize (Hz Hcase).
  split; [| split].
  - unfold Tlsf.os_tlsf_malloc. rewrite Hz. reflexivity.
  - intros Ha. unfold Tlsf.os_tlsf_memalign. rewrite Hz. reflexivity.
  - reflexivity.
Qed.

Lemma os_tlsf_null_results_witness :
  Tlsf.os_tlsf_malloc heap_base 5000 fresh_heap = Done 0 fresh_heap.
Proof.
  apply (os_tlsf_null_results heap_base 5000 4 fresh_heap).
  - unfold modulus. lia.
  - right. unfold modulus. lia.
Defined.

(** X6. [os_tlsf_realloc] of a non-null pointer with a size from 1021 to
    [2^32 - 4]: when the header of the block and of its physical successor
    can be read and the block is smaller than the size asked for, the
    result is null and memory is as it was. *)
Theorem os_tlsf_realloc_too_large (tlsf ptr size w w2 : Z) (m : memory) :
  ptr <> 0 -> 1021 <= size <= modulus - 4 ->
  let block := Tlsf.block_from_ptr ptr in
  let cursize := Z.land w (not32 Tlsf.flag_bits) in
  let next := Tlsf.offset_to_block (Tlsf.block_to_ptr block)
                (sub cursize Tlsf.block_header_overhead) in
  load32 (Tlsf.field block Tlsf.off_size) m = Done w m ->
  load32 (Tlsf.field next Tlsf.off_size) m = Done w2 m ->
  cursize < size ->
  Tlsf.os_tlsf_realloc tlsf ptr size m = Done 0 m.
Proof.
  intros Hp Hs block cursize next H1 H2 Hlt.
  assert (Hsz : 0 <= size < modulus) by (unfold modulus in *; lia).
  destruct (adjust_request_size_ranges size Hsz) as (_ & Hz & _).
  cbv zeta in Hz. specialize (Hz (or_intror Hs)).
  unfold Tlsf.os_tlsf_realloc.
  destruct (Z.eqb_spec ptr 0) as [E | _]; [contradiction |].
  destruct (Z.eqb_spec size 0) as [E | _]; [lia |].
  cbn [negb andb].
  assert (Hbs : Tlsf.block_size block m = Done cursize m).
  { unfold Tlsf.block_size. rewrite (bind_step _ _ _ _ _ H1). reflexivity. }
  assert (Hbn : Tlsf.block_next block m = Done next m).
  { unfold Tlsf.block_next. rewrite (bind_step _ _ _ _ _ Hbs). reflexivity. }
  assert (Hns : Tlsf.block_size next m
                = Done (Z.land w2 (not32 Tlsf.flag_bits)) m).
  { unfold Tlsf.block_size. rewrite (bind_step _ _ _ _ _ H2). reflexivity. }
  fold block.
  rewrite (bind_step _ _ _ _ _ Hbn), (bind_step _ _ _ _ _ Hbs),
    (bind_step _ _ _ _ _ Hns).
  rewrite Hz.
  destruct (Z.ltb_spec cursize size); [| lia]. reflexivity.
Qed.

Lemma os_tlsf_realloc_too_large_witness :
  Tlsf.os_tlsf_realloc heap_base (heap_base + 552) 2000 small_heap_in_use
  = Done 0 small_heap_in_use.
Proof.
  apply (os_tlsf_realloc_too_large heap_base (heap_base + 552) 2000 12 0
           small_heap_in_use).
  - vm_compute. discriminate.
  - unfold modulus. lia.
  - vm_compute. reflexivity.
  - vm_compute. reflexivity.
  - vm_compute. reflexivity.
Defined.

(** ** Searching the free lists *)

Lemma range_In (lo : Z) (n : nat) (x : Z) :
  lo <= x < lo + Z.of_nat n -> In x (range lo n).
Proof.
  intros H. unfold range. apply in_map_iff.
  exists (Z.to_nat (x - lo)). split; [lia |].
  apply in_seq. lia.
Qed.

Lemma good_fit_checked :
  good_fit_on (map (fun i => 4 * i) (range 3 253)) (range 12 1012) = true.
Proof. vm_compute. reflexivity. Qed.

Lemma good_fit_from (ss bs : list Z) (s b : Z) :
  good_fit_on ss bs = true -> In s ss -> In b bs ->
  lex_le (Tlsf.mapping_search s) (Tlsf.mapping_insert b) = true -> s <= b.
Proof.
  intros H Hs Hb Hle. unfold good_fit_on in H.
  rewrite forallb_forall in H. specialize (H s Hs).
  rewrite forallb_forall in H. specialize (H b Hb).
  rewrite Hle in H. cbn in H. apply Z.leb_le. exact H.
Qed.

Lemma request_in_range (s : Z) :
  12 <= s < 1024 -> s mod 4 = 0 ->
  In s (map (fun i => 4 * i) (range 3 253)).
Proof.
  intros Hs Hs4. apply in_map_iff. exists (s / 4). split.
  - Z.div_mod_to_equations. lia.
  - apply range_In. Z.div_mod_to_equations. lia.
Qed.

(** X7. Good fit: for a request [s] as [adjust_request_size] produces it (a
    multiple of four from [block_size_min] up to, not including,
    [block_size_max]) and a block size [b] in the same range, if the list
    that [mapping_insert] files [b] under is the list that [mapping_search]
    names for [s], or a later one, then [b] is at least [s]. *)
Theorem mapping_search_good_fit (s b : Z) :
  Tlsf.block_size_min <= s < Tlsf.block_size_max -> s mod 4 = 0 ->
  Tlsf.block_size_min <= b < Tlsf.block_size_max ->
  lex_le (Tlsf.mapping_search s) (Tlsf.mapping_insert b) = true ->
  s <= b.
Proof.
  intros Hs Hs4 Hb Hle.
  apply (good_fit_from _ _ s b good_fit_checked).
  - apply request_in_range; [exact Hs | exact Hs4].
  - apply range_In. exact Hb.
  - exact Hle.
Qed.

Lemma mapping_search_good_fit_witness :
  Tlsf.mapping_search 260 = (2, 1) /\ 260 <= 264.
Proof.
  split; [reflexivity |].
  apply (mapping_search_good_fit 260 264).
  - change Tlsf.block_size_min with 12.
    change Tlsf.block_size_max with 1024. lia.
  - reflexivity.
  - change Tlsf.block_size_min with 12.
    change Tlsf.block_size_max with 1024. lia.
  - reflexivity.
Defined.

Lemma load32_Done (a w : Z) (m m' : memory) :
  load32 a m = Done w m' -> m' = m /\ 0 <= w < modulus.
Proof.
  intros H. destruct ((a mod 4 =? 0) && in_bounds m a 4) eqn:E.
  - apply andb_true_iff in E. destruct E as [E1 E2]. apply Z.eqb_eq in E1.
    rewrite (load32_in m a E1 E2) in H.
    assert (Em : m' = m) by congruence.
    assert (Ew : w = byte_at m a + 2 ^ 8 * byte_at m (a + 1)
                     + 2 ^ 16 * byte_at m (a + 2) + 2 ^ 24 * byte_at m (a + 3))
      by congruence.
    split; [exact Em |]. rewrite Ew.
    pose proof (byte_at_range m a). pose proof (byte_at_range m (a + 1)).
    pose proof (byte_at_range m (a + 2)). pose proof (byte_at_range m (a + 3)).
    unfold modulus. change (2 ^ 8) with 256. change (2 ^ 16) with 65536.
    change (2 ^ 24) with 16777216. change (2 ^ 32) with 4294967296. lia.
  - unfold load32 in H. rewrite E in H. discriminate.
Qed.

Lemma sl_bitmap_at_Done (control fl a : Z) (m m' : memory) :
  Tlsf.sl_bitmap_at control fl m = Done a m' ->
  m' = m /\ 0 <= fl < Tlsf.FL_INDEX_COUNT.
Proof.
  unfold Tlsf.sl_bitmap_at. change Tlsf.FL_INDEX_COUNT with 4.
  destruct (Z.leb_spec 0 fl), (Z.ltb_spec fl 4); cbn;
    unfold fault, ret; intros Hx; inversion Hx; subst; split; try reflexivity; lia.
Qed.

Lemma blocks_at_Done (control fl sl a : Z) (m m' : memory) :
  Tlsf.blocks_at control fl sl m = Done a m' ->
  m' = m /\ 0 <= fl < Tlsf.FL_INDEX_COUNT /\ 0 <= sl < Tlsf.SL_INDEX_COUNT.
Proof.
  unfold Tlsf.blocks_at. change Tlsf.FL_INDEX_COUNT with 4.
  change Tlsf.SL_INDEX_COUNT with 32.
  destruct (Z.leb_spec 0 fl), (Z.ltb_spec fl 4),
    (Z.leb_spec 0 sl), (Z.ltb_spec sl 32); cbn;
    unfold fault, ret; intros Hx; inversion Hx; subst; repeat split;
    try reflexivity; lia.
Qed.

(** The mask [~0U << n] has no bit below [n]. *)
Lemma mask_from_bit (n j : Z) :
  0 <= n -> Z.testbit (shl (not32 0) n) j = true -> n <= j.
Proof.
  intros Hn H. unfold shl, u32, modulus in H.
  rewrite Z.testbit_mod_pow2 in H by lia.
  apply andb_true_iff in H. destruct H as [_ H].
  destruct (Z.lt_ge_cases j n) as [Hlt | Hge]; [| exact Hge].
  destruct (Z.lt_ge_cases j 0) as [Hneg | Hpos].
  - rewrite Z.testbit_neg_r in H by exact Hneg. discriminate.
  - rewrite Z.shiftl_spec in H by exact Hpos.
    rewrite Z.testbit_neg_r in H by lia. discriminate.
Qed.

(** The lowest set bit of a non-zero masked bitmap word. *)
Lemma ffs_of_masked (w mask : Z) :
  0 <= w < modulus -> Z.land w mask <> 0 ->
  let i := Tlsf.tlsf_ffs (Z.land w mask) in
  0 <= i < 32 /\ Z.testbit w i = true /\ Z.testbit mask i = true.
Proof.
  intros Hw Hnz i.
  assert (Hr : 0 < Z.land w mask < 2 ^ 32).
  { assert (0 <= Z.land w mask) by (apply Z.land_nonneg; left; lia).
    split; [lia |].
    assert (E : Z.land w mask = Z.land w mask mod 2 ^ 32).
    { rewrite <- (Z.land_ones (Z.land w mask) 32) by lia.
      rewrite <- Z.land_assoc, (Z.land_comm mask), Z.land_assoc.
      rewrite (Z.land_ones w 32) by lia.
      rewrite (Z.mod_small w) by (unfold modulus in Hw; lia). reflexivity. }
    rewrite E. apply Z.mod_pos_bound. lia. }
  destruct (ffs_fls_bits _ Hr) as ((A & B & _) & _).
  subst i. rewrite Z.land_spec in B. apply andb_true_iff in B.
  destruct B as [B1 B2]. repeat split; try lia; assumption.
Qed.

Lemma lex_le_same_fl (fl sl sl' : Z) : sl <= sl' -> lex_le (fl, sl) (fl, sl') = true.
Proof.
  intros H. unfold lex_le. cbn. rewrite Z.eqb_refl.
  destruct (Z.leb_spec sl sl'); [| lia]. apply orb_true_r.
Qed.

Lemma lex_le_higher_fl (fl sl fl' sl' : Z) :
  fl < fl' -> lex_le (fl, sl) (fl', sl') = true.
Proof.
  intros H. unfold lex_le. cbn. destruct (Z.ltb_spec fl fl'); [reflexivity | lia].
Qed.


(** ** The tick counter *)

Lemma os_tick_inc_time (s : sched) (p : Z) :
  sys_time (os_tick_inc s p) = (sys_time s + p) mod modulus.
Proof. reflexivity. Qed.

Lemma elapsed_mod (act prev : Z) :
  0 <= act < modulus -> 0 <= prev < modulus ->
  elapsed act prev = (act - prev) mod modulus.
Proof.
  intros Ha Hp. unfold elapsed, add, sub, u32, UINT32_MAX.
  destruct (Z.leb_spec prev act) as [Hle | Hgt]; [reflexivity |].
  unfold modulus in *.
  rewrite (Z.mod_small (4294967295 - prev)) by lia.
  rewrite (Z.mod_small (4294967295 - prev + 1)) by lia.
  rewrite (Z.mod_small (4294967295 - prev + 1 + act)) by lia.
  apply Z.mod_unique with (q := -1); lia.
Qed.

(** X9. [os_tick_elaps(prev_tick)] is the difference between the tick
    counter and [prev_tick] modulo 2^32, in the branch without overflow and
    in the branch with it; the only thing it writes is [tick_irq_flag]. *)
Theorem os_tick_elaps_wraps (s : sched) (prev : Z) :
  0 <= sys_time s < modulus -> 0 <= prev < modulus ->
  os_tick_elaps s prev
  = ((sys_time s - prev) mod modulus, snd (os_tick_get s)).
Proof.
  intros Hs Hp. pose proof (elapsed_mod _ _ Hs Hp) as E.
  unfold elapsed in E. unfold os_tick_elaps. cbn [os_tick_get].
  destruct (prev <=? sys_time s); rewrite E; reflexivity.
Qed.

(** With the counter at 5 the time stamp 4294967290, taken before the
    counter wrapped, is 11 ticks old. *)
Lemma os_tick_elaps_wraps_witness :
  fst (os_tick_elaps (os_tick_inc _os_timer_core_init 5) 4294967290) = 11.
Proof.
  rewrite (os_tick_elaps_wraps (os_tick_inc _os_timer_core_init 5) 4294967290);
    [reflexivity | vm_compute; split; [discriminate | reflexivity]
                 | vm_compute; split; [discriminate | reflexivity]].
Defined.

Lemma ticks_time (ps : list Z) :
  forall s, sys_time (fold_left os_tick_inc ps s)
            = (sys_time s + fold_right Z.add 0 ps) mod modulus
            \/ (ps = [] /\ fold_left os_tick_inc ps s = s).
Proof.
  induction ps as [| p ps IH]; intros s; cbn [fold_left fold_right].
  - right. split; reflexivity.
  - left. destruct (IH (os_tick_inc s p)) as [E | [-> E]].
    + rewrite E, os_tick_inc_time. rewrite Z.add_mod_idemp_l by discriminate.
      f_equal. lia.
    + cbn [fold_left fold_right]. rewrite os_tick_inc_time. f_equal. lia.
Qed.

(** X10. After any number of [os_tick_inc] calls, [os_tick_elaps] of the
    counter value from before them is the sum of the tick periods modulo
    2^32, whether or not the counter wrapped in between. *)
Theorem os_tick_elaps_after_ticks (s : sched) (ps : list Z) :
  0 <= sys_time s < modulus ->
  fst (os_tick_elaps (fold_left os_tick_inc ps s) (sys_time s))
  = fold_right Z.add 0 ps mod modulus.
Proof.
  intros Hs. rewrite os_tick_elaps_elapsed.
  destruct (ticks_time ps s) as [E | [-> E]].
  - rewrite elapsed_mod; [| rewrite E; apply Z.mod_pos_bound; reflexivity | exact Hs].
    rewrite E. rewrite Zminus_mod_idemp_l. f_equal. lia.
  - cbn [fold_left fold_right]. rewrite elapsed_mod by assumption.
    rewrite Z.sub_diag. reflexivity.
Qed.

(** Two increments that take the counter past 2^32. *)
Lemma os_tick_elaps_after_ticks_witness :
  fst (os_tick_elaps
         (fold_left os_tick_inc [4294967000; 500]
            (os_tick_inc _os_timer_core_init 100)) 100) = 204.
Proof.
  assert (H : 0 <= sys_time (os_tick_inc _os_timer_core_init 100) < modulus)
    by (vm_compute; split; [discriminate | reflexivity]).
  exact (os_tick_elaps_after_ticks (os_tick_inc _os_timer_core_init 100)
           [4294967000; 500] H).
Defined.

(** ** The time a timer has left *)

Lemma time_remaining_fst (s : sched) (t : os_timer_t) :
  fst (os_timer_time_remaining s t)
  = if period t <=? elapsed (sys_time s) (last_run t) then 0
    else sub (period t) (elapsed (sys_time s) (last_run t)).
Proof.
  unfold os_timer_time_remaining.
  pose proof (os_tick_elaps_elapsed s (last_run t)) as E.
  destruct (os_tick_elaps s (last_run t)) as [elp s1]. cbn in E. subst elp.
  destruct (period t <=? elapsed (sys_time s) (last_run t)); reflexivity.
Qed.

Lemma ticks_ll (ps : list Z) :
  forall s, timer_ll (fold_left os_tick_inc ps s) = timer_ll s.
Proof.
  induction ps as [| p ps IH]; intros s; cbn [fold_left]; [reflexivity |].
  rewrite IH. reflexivity.
Qed.

Lemma ticks_elapsed (s : sched) (ps : list Z) :
  0 <= sys_time s < modulus ->
  elapsed (sys_time (fold_left os_tick_inc ps s)) (sys_time s)
  = fold_right Z.add 0 ps mod modulus.
Proof.
  intros Hs. destruct (ticks_time ps s) as [E | [-> E]].
  - rewrite elapsed_mod; [| rewrite E; apply Z.mod_pos_bound; reflexivity | exact Hs].
    rewrite E. rewrite Zminus_mod_idemp_l. f_equal. lia.
  - cbn [fold_left fold_right]. rewrite elapsed_mod by assumption.
    rewrite Z.sub_diag. reflexivity.
Qed.

(** X11. [os_timer_ready] makes a timer due at once, with one exception: a
    timer whose period is [0xFFFFFFFF] gets the current tick as [last_run]
    and so has its whole period left. *)
Theorem os_timer_ready_remaining (s : sched) (timer : Z) (t : os_timer_t) :
  0 <= sys_time s < modulus -> 0 <= period t < modulus ->
  ll_find (timer_ll s) timer = Some t ->
  exists s' t',
    os_timer_ready s timer = Some s' /\
    ll_find (timer_ll s') timer = Some t' /\
    period t' = period t /\ sys_time s' = sys_time s /\
    fst (os_timer_time_remaining s' t')
    = if period t =? UINT32_MAX then UINT32_MAX else 0.
Proof.
  intros Hs HP Hf.
  set (t' := set_last_run t (sub (sub (sys_time s) (period t)) 1)).
  exists (with_ll (snd (os_tick_get s)) (ll_set (timer_ll s) timer t')), t'.
  split; [| split; [| split; [| split]]].
  - unfold os_timer_ready, set_timer. cbn [os_tick_get timer_ll].
    rewrite Hf. reflexivity.
  - cbn [with_ll timer_ll]. apply (ll_find_set_same _ _ t). exact Hf.
  - reflexivity.
  - reflexivity.
  - rewrite time_remaining_fst.
    change (sys_time (with_ll (snd (os_tick_get s)) (ll_set (timer_ll s) timer t')))
      with (sys_time s).
    change (period t') with (period t).
    change (last_run t') with (sub (sub (sys_time s) (period t)) 1).
    assert (E : elapsed (sys_time s) (sub (sub (sys_time s) (period t)) 1)
                = (period t + 1) mod modulus).
    { rewrite elapsed_mod;
        [| exact Hs | unfold sub, u32; apply Z.mod_pos_bound; reflexivity].
      unfold sub, u32. rewrite Zminus_mod_idemp_r.
      replace (sys_time s - ((sys_time s - period t) mod modulus - 1))
        with (sys_time s + 1 - (sys_time s - period t) mod modulus) by lia.
      rewrite Zminus_mod_idemp_r. f_equal. lia. }
    rewrite E. unfold UINT32_MAX, modulus in *.
    destruct (Z.eqb_spec (period t) 4294967295) as [-> | Hne].
    + reflexivity.
    + rewrite Z.mod_small by lia.
      destruct (Z.leb_spec (period t) (period t + 1)); [reflexivity | lia].
Qed.

(** A timer of period 300 made ready at tick 100. *)
Lemma os_timer_ready_remaining_witness :
  exists s' t',
    os_timer_ready
      (mkSched 100 0 [(8, mkTimer 300 90 1 0 (-1) false 0)] 0 true 0 false false
               false 0 0 0 1 []) 8 = Some s' /\
    fst (os_timer_time_remaining s' t') = 0.
Proof.
  destruct (os_timer_ready_remaining
              (mkSched 100 0 [(8, mkTimer 300 90 1 0 (-1) false 0)] 0 true 0
                       false false false 0 0 0 1 [])
              8 (mkTimer 300 90 1 0 (-1) false 0))
    as (s' & t' & A & _ & _ & _ & B);
    [vm_compute; split; [discriminate | reflexivity]
    | vm_compute; split; [discriminate | reflexivity]
    | reflexivity |].
  exists s', t'. split; [exact A | exact B].
Defined.

(** X12. A timer that [os_timer_reset] has restarted has, after tick
    increments that add up to [d] modulo 2^32, [period - d] ticks left, and
    none once [d] has reached the period. *)
Theorem os_timer_reset_remaining
  (s : sched) (timer : Z) (t : os_timer_t) (ps : list Z) :
  0 <= sys_time s < modulus -> 0 <= period t < modulus ->
  ll_find (timer_ll s) timer = Some t ->
  exists s1 t',
    os_timer_reset s timer = Some s1 /\
    ll_find (timer_ll (fold_left os_tick_inc ps s1)) timer = Some t' /\
    fst (os_timer_time_remaining (fold_left os_tick_inc ps s1) t')
    = let d := fold_right Z.add 0 ps mod modulus in
      if period t <=? d then 0 else period t - d.
Proof.
  intros Hs HP Hf.
  set (t' := set_last_run t (sys_time s)).
  set (s1 := with_ll (snd (os_tick_get s)) (ll_set (timer_ll s) timer t')).
  exists s1, t'.
  split; [| split].
  - unfold os_timer_reset, set_timer. cbn [os_tick_get timer_ll].
    rewrite Hf. reflexivity.
  - rewrite ticks_ll. unfold s1. cbn [with_ll timer_ll].
    apply (ll_find_set_same _ _ t). exact Hf.
  - rewrite time_remaining_fst.
    change (period t') with (period t).
    change (last_run t') with (sys_time s1).
    rewrite (ticks_elapsed s1 ps Hs). cbv zeta.
    pose proof (Z.mod_pos_bound (fold_right Z.add 0 ps) modulus eq_refl) as Hd.
    destruct (period t <=? fold_right Z.add 0 ps mod modulus) eqn:E;
      [reflexivity |].
    apply Z.leb_gt in E. unfold sub, u32. apply Z.mod_small. lia.
Qed.

(** A timer of period 300, reset at tick 100 and looked at 120 ticks
    later. *)
Lemma os_timer_reset_remaining_witness :
  exists s1 t',
    os_timer_reset
      (mkSched 100 0 [(8, mkTimer 300 90 1 0 (-1) false 0)] 0 true 0 false false
               false 0 0 0 1 []) 8 = Some s1 /\
    fst (os_timer_time_remaining (fold_left os_tick_inc [100; 20] s1) t') = 180.
Proof.
  destruct (os_timer_reset_remaining
              (mkSched 100 0 [(8, mkTimer 300 90 1 0 (-1) false 0)] 0 true 0
                       false false false 0 0 0 1 [])
              8 (mkTimer 300 90 1 0 (-1) false 0) [100; 20])
    as (s1 & t' & A & _ & B);
    [vm_compute; split; [discriminate | reflexivity]
    | vm_compute; split; [discriminate | reflexivity]
    | reflexivity |].
  exists s1, t'. split; [exact A | exact B].
Defined.

(** ** What the handler returns *)

Lemma time_remaining_time (s s' : sched) (t : os_timer_t) :
  sys_time s' = sys_time s ->
  fst (os_timer_time_remaining s' t) = fst (os_timer_time_remaining s t).
Proof. intros E. rewrite !time_remaining_fst, E. reflexivity. Qed.

Lemma next_wake_time (l : list (Z * os_timer_t)) :
  forall s ttn, sys_time (snd (next_wake l s ttn)) = sys_time s.
Proof.
  induction l as [| [a t] l IH]; intros s ttn; cbn [next_wake]; [reflexivity |].
  destruct (paused t); cbn [negb]; [apply IH |].
  destruct (os_timer_time_remaining_same s t) as (_ & B & _).
  destruct (os_timer_time_remaining s t) as [delay s1]. cbn in B.
  rewrite IH. exact B.
Qed.

Lemma idle_update_time (s : sched) (handler_start : Z) :
  sys_time (idle_update s handler_start) = sys_time s.
Proof.
  unfold idle_update.
  destruct (os_tick_elaps_same s handler_start) as (_ & A & _).
  destruct (os_tick_elaps s handler_start) as [e s1]. cbn in A.
  destruct (os_tick_elaps_same s1 (idle_period_start s1)) as (_ & B & _).
  destruct (os_tick_elaps s1 (idle_period_start s1)) as [ipt s2]. cbn in B.
  destruct (IDLE_MEAS_PERIOD <=? ipt); cbn; congruence.
Qed.

(** The scan for the next wake-up time ends with the least of the start
    value and the times that the timers not paused have left. *)
Lemma next_wake_least (l : list (Z * os_timer_t)) :
  forall s ttn,
    fst (next_wake l s ttn) <= ttn /\
    (forall a t, In (a, t) l -> paused t = false ->
                 fst (next_wake l s ttn) <= fst (os_timer_time_remaining s t)) /\
    (fst (next_wake l s ttn) = ttn \/
     exists a t, In (a, t) l /\ paused t = false /\
                 fst (next_wake l s ttn) = fst (os_timer_time_remaining s t)).
Proof.
  induction l as [| [a t] l IH]; intros s ttn; cbn [next_wake].
  - cbn [fst]. split; [lia |]. split; [intros ? ? [] | left; reflexivity].
  - destruct (paused t) eqn:Ep; cbn [negb].
    + destruct (IH s ttn) as (A & B & C).
      split; [exact A |]. split.
      * intros a' t' [E | Hin] Hp; [| apply (B a' t' Hin Hp)].
        inversion E. subst. congruence.
      * destruct C as [C | (a' & t' & Hin & Hp & C)]; [left; exact C |].
        right. exists a', t'. split; [right; exact Hin | split; assumption].
    + destruct (os_timer_time_remaining_same s t) as (_ & T & _).
      destruct (os_timer_time_remaining s t) as [delay s1] eqn:Er. cbn in T.
      assert (Ed : delay = fst (os_timer_time_remaining s t))
        by (rewrite Er; reflexivity).
      set (ttn' := if delay <? ttn then delay else ttn).
      assert (Hm : ttn' <= ttn /\ ttn' <= delay /\ (ttn' = ttn \/ ttn' = delay)).
      { unfold ttn'. destruct (Z.ltb_spec delay ttn); lia. }
      destruct (IH s1 ttn') as (A & B & C).
      split; [lia |]. split.
      * intros a' t' [E | Hin] Hp.
        -- inversion E. subst a' t'. rewrite Er. cbn [fst]. lia.
        -- rewrite <- (time_remaining_time s s1 t' T). apply (B a' t' Hin Hp).
      * destruct C as [C | (a' & t' & Hin & Hp & C)].
        -- destruct Hm as (_ & _ & [Hm | Hm]).
           ++ left. congruence.
           ++ right. exists a, t. split; [left; reflexivity |].
              split; [exact Ep |]. rewrite Er. cbn [fst]. congruence.
        -- right. exists a', t'. split; [right; exact Hin |].
           split; [exact Hp |].
           rewrite <- (time_remaining_time s s1 t' T). exact C.
Qed.

(** X13. A call of [os_timer_handler] that gets past its two guards returns
    the least time that a timer not paused has left at its end, and
    [OS_NO_TIMER_READY] when there is no such timer; it never returns more
    than [OS_NO_TIMER_READY]. *)
Theorem os_timer_handler_returns_earliest
  (ll_alloc : list Z -> option Z) (cb_code : Z -> Z -> app)
  (fuel : nat) (s s' : sched) (r : Z) :
  already_running s = false -> os_timer_run s = true ->
  os_timer_handler ll_alloc cb_code fuel s = Some (r, s') ->
  r <= OS_NO_TIMER_READY /\
  (forall a t, In (a, t) (timer_ll s') -> paused t = false ->
               r <= fst (os_timer_time_remaining s' t)) /\
  (r = OS_NO_TIMER_READY \/
   exists a t, In (a, t) (timer_ll s') /\ paused t = false /\
               r = fst (os_timer_time_remaining s' t)).
Proof.
  intros Har Hrun H. destruct fuel as [| fuel]; [discriminate |].
  cbn [os_timer_handler] in H. rewrite Har in H.
  change (os_timer_run (with_running s true)) with (os_timer_run s) in H.
  rewrite Hrun in H. cbn [negb] in H.
  destruct (os_tick_get (with_running s true)) as [hs s0].
  apply obind_Some in H. destruct H as (s2 & _ & H).
  pose proof (next_wake_least (timer_ll s2) s2 OS_NO_TIMER_READY) as L.
  pose proof (next_wake_same (timer_ll s2) s2 OS_NO_TIMER_READY) as (S1 & _).
  pose proof (next_wake_time (timer_ll s2) s2 OS_NO_TIMER_READY) as T1.
  destruct (next_wake (timer_ll s2) s2 OS_NO_TIMER_READY) as [ttn s3].
  cbn [fst snd] in L, S1, T1.
  pose proof (idle_update_same s3 hs) as (S2 & _).
  pose proof (idle_update_time s3 hs) as T2.
  assert (Er : r = ttn) by congruence.
  assert (Es : s' = with_running (idle_update s3 hs) false) by congruence.
  assert (Ell : timer_ll s' = timer_ll s2).
  { rewrite Es. cbn [with_running timer_ll]. congruence. }
  assert (Et : sys_time s' = sys_time s2).
  { rewrite Es. cbn [with_running sys_time]. congruence. }
  rewrite Ell, Er. destruct L as (A & B & C).
  split; [exact A |]. split.
  - intros a t Hin Hp. rewrite (time_remaining_time s2 s' t Et).
    apply (B a t Hin Hp).
  - destruct C as [C | (a & t & Hin & Hp & C)]; [left; exact C |].
    right. exists a, t. split; [exact Hin |]. split; [exact Hp |].
    rewrite (time_remaining_time s2 s' t Et). exact C.
Qed.

(** Two timers at tick 100: one with 40 ticks left, one paused. *)
Lemma os_timer_handler_returns_earliest_witness :
  exists s',
    os_timer_handler bump_alloc no_callbacks 5
      (mkSched 100 0 [(8, mkTimer 300 90 1 0 (-1) true 0);
                      (4, mkTimer 50 90 1 0 (-1) false 1)]
               0 true 0 false false false 0 0 0 2 []) = Some (40, s') /\
    40 <= OS_NO_TIMER_READY.
Proof.
  eexists. split; [vm_compute; reflexivity |].
  refine (proj1 (os_timer_handler_returns_earliest bump_alloc no_callbacks 5
            (mkSched 100 0 [(8, mkTimer 300 90 1 0 (-1) true 0);
                            (4, mkTimer 50 90 1 0 (-1) false 1)]
                     0 true 0 false false false 0 0 0 2 [])
            _ 40 eq_refl eq_refl _)).
  vm_compute. reflexivity.
Defined.

(** ** The guards of the handler *)


(** X14. [os_timer_handler] is not re-entered: code that runs while the
    handler is active, such as a timer callback, may call any function of
    the scheduler, and whatever it calls, no callback is invoked and the
    handler is still marked active afterwards; a nested call of the handler
    returns 1 and changes nothing.  The same holds for a call while the
    handling is disabled with [os_timer_enable(false)]. *)
Theorem os_timer_handler_not_reentered
  (ll_alloc : list Z -> option Z) (cb_code : Z -> Z -> app)
  (fuel : nat) (p : app) (s s' : sched) :
  already_running s = true ->
  run_app ll_alloc (os_timer_handler ll_alloc cb_code (S fuel)) p s = Some s' ->
  already_running s' = true /\ fired s' = fired s /\
  os_timer_handler ll_alloc cb_code (S fuel) s = Some (1, s) /\
  forall s0, already_running s0 = false -> os_timer_run s0 = false ->
             os_timer_handler ll_alloc cb_code (S fuel) s0 = Some (1, s0).
Proof.
  intros Har H.
  assert (R : already_running s' = true /\ fired s' = fired s).
  { revert s Har H. induction p as [| c k IH]; intros s Har H; cbn [run_app] in H.
    - inversion H. subst. split; [exact Har | reflexivity].
    - destruct (exec_call ll_alloc (os_timer_handler ll_alloc cb_code (S fuel)) s c)
        as [[r s1] |] eqn:E; [| discriminate].
      destruct (exec_call_while_running _ _ _ _ _ _ _ Har E) as (A & B & _).
      destruct (IH r s1 A H) as (C & D). split; [exact C | congruence]. }
  destruct R as (A & B). split; [exact A |]. split; [exact B |]. split.
  - cbn [os_timer_handler]. rewrite Har. reflexivity.
  - intros s0 H0 H1. cbn [os_timer_handler]. rewrite H0.
    change (os_timer_run (with_running s0 true)) with (os_timer_run s0).
    rewrite H1. cbn [negb]. destruct s0. cbn in H0. subst. reflexivity.
Qed.

(** A callback that creates a timer, makes it ready and calls the handler,
    run while the handler is active. *)
Lemma os_timer_handler_not_reentered_witness :
  exists s',
    run_app bump_alloc (os_timer_handler bump_alloc no_callbacks 5)
      (Call (c_create 1 0 0) (fun n =>
       Call (c_ready n) (fun _ => Call c_handler (fun _ => Stop))))
      (mkSched 100 0 [] 0 true 0 false false true 0 0 0 0 []) = Some s' /\
    fired s' = [].
Proof.
  eexists. split; [vm_compute; reflexivity |].
  refine (proj1 (proj2 (os_timer_handler_not_reentered bump_alloc no_callbacks 4
            (Call (c_create 1 0 0) (fun n =>
             Call (c_ready n) (fun _ => Call c_handler (fun _ => Stop))))
            (mkSched 100 0 [] 0 true 0 false false true 0 0 0 0 [])
            _ eq_refl _))).
  vm_compute. reflexivity.
Defined.

(** ** Creating and deleting a timer *)

(** X15. A timer that [os_timer_create] returns is the head of the list:
    [os_timer_get_next(NULL)] gives it and [os_timer_get_next] of it gives
    the former head.  It runs without end ([repeat_count] -1), is not
    paused and has the current tick as [last_run].  [os_timer_del] of it
    gives the list back as it was and sets [timer_deleted]. *)
Theorem os_timer_create_del_round_trip
  (ll_alloc : list Z -> option Z) (s s1 : sched) (cb per ud n : Z) :
  os_timer_create ll_alloc s cb per ud = (n, s1) -> n <> 0 ->
  os_timer_get_next s1 0 = Some n /\
  os_timer_get_next s1 n = os_timer_get_next s 0 /\
  ll_find (timer_ll s1) n
  = Some (mkTimer (u32 per) (sys_time s) cb ud (-1) false (next_uid s)) /\
  timer_created s1 = true /\
  exists s2, os_timer_del s1 n = Some s2 /\ timer_ll s2 = timer_ll s /\
             timer_deleted s2 = true.
Proof.
  intros H Hn. unfold os_timer_create in H.
  destruct (ll_alloc (map fst (timer_ll s))) as [a |].
  - cbn [os_tick_get] in H. cbn in H.
    assert (Ea : a = n) by congruence. subst a.
    assert (Es : s1 = mkSched (sys_time s) 1
                   ((n, mkTimer (u32 per) (sys_time s) cb ud (-1) false (next_uid s))
                    :: timer_ll s)
                   (os_timer_act s) (os_timer_run s) (idle_last s)
                   (timer_deleted s) true (already_running s)
                   (idle_period_start s) (busy_time s) (run_cnt s)
                   (S (next_uid s)) (fired s)) by congruence.
    subst s1. unfold os_timer_get_next, os_timer_del.
    cbn [timer_ll _os_ll_get_head _os_ll_get_next ll_find _os_ll_remove
         timer_created].
    destruct (Z.eqb_spec n 0) as [E | _]; [contradiction |].
    rewrite !Z.eqb_refl. cbn [obind with_ll with_flags timer_ll timer_deleted].
    split; [reflexivity |]. split; [reflexivity |]. split; [reflexivity |].
    split; [reflexivity |]. eexists. split; [reflexivity |].
    split; reflexivity.
  - assert (E : n = 0) by congruence. contradiction.
Qed.

Lemma os_timer_create_del_round_trip_witness :
  exists s1,
    os_timer_create bump_alloc
      (mkSched 100 0 [(8, mkTimer 300 90 1 0 (-1) false 0)] 0 true 0 false false
               false 0 0 0 1 []) 7 20 0 = (12, s1) /\
    os_timer_get_next s1 12 = Some 8.
Proof.
  eexists. split; [vm_compute; reflexivity |].
  refine (proj1 (proj2 (os_timer_create_del_round_trip bump_alloc
            (mkSched 100 0 [(8, mkTimer 300 90 1 0 (-1) false 0)] 0 true 0
                     false false false 0 0 0 1 []) _ 7 20 0 12 _ _))).
  - vm_compute. reflexivity.
  - discriminate.
Defined.

(** ** Words in memory *)

Lemma store32_load32 (a v : Z) (m : memory) :
  a mod 4 = 0 -> in_bounds m a 4 = true ->
  exists m', store32 a v m = Done tt m' /\ same_shape m m' /\
             load32 a m' = Done (v mod modulus) m' /\
             forall b, b mod 4 = 0 -> b <> a -> load32 b m = Fault \/
               exists x, load32 b m = Done x m /\ load32 b m' = Done x m'.
Proof.
  intros Ha Hb.
  set (m1 := set_byte m a v).
  set (m2 := set_byte m1 (a + 1) (v / 2 ^ 8)).
  set (m3 := set_byte m2 (a + 2) (v / 2 ^ 16)).
  set (m4 := set_byte m3 (a + 3) (v / 2 ^ 24)).
  assert (S1 : same_shape m m1) by apply set_byte_shape.
  assert (S2 : same_shape m m2)
    by (eapply same_shape_trans; [exact S1 | apply set_byte_shape]).
  assert (S3 : same_shape m m3)
    by (eapply same_shape_trans; [exact S2 | apply set_byte_shape]).
  assert (S4 : same_shape m m4)
    by (eapply same_shape_trans; [exact S3 | apply set_byte_shape]).
  assert (B : forall k, 0 <= k < 4 -> in_bounds m (a + k) 1 = true).
  { intros k Hk. apply (in_bounds_sub m a 4); [exact Hb | lia | lia]. }
  pose proof (proj1 (in_bounds_spec m a 4) Hb) as Hr.
  assert (Eb : forall x, mem_base x = mem_base m -> mem_base x <= a)
    by (intros x Ex; rewrite Ex; lia).
  assert (M1 : mem_base m1 = mem_base m) by reflexivity.
  assert (M2 : mem_base m2 = mem_base m) by reflexivity.
  assert (M3 : mem_base m3 = mem_base m) by reflexivity.
  exists m4. split; [apply store32_in; assumption |].
  split; [exact S4 |]. split.
  - rewrite load32_in;
      [| exact Ha | rewrite (in_bounds_shape m m4 a 4 S4); exact Hb].
    f_equal.
    assert (E0 : byte_at m4 a = v mod 256).
    { unfold m4, m3, m2.
      rewrite !byte_at_set_other by (cbn [mem_base set_byte]; lia).
      apply byte_at_set_same. replace a with (a + 0) by lia. apply B. lia. }
    assert (E1 : byte_at m4 (a + 1) = (v / 2 ^ 8) mod 256).
    { unfold m4, m3.
      rewrite !byte_at_set_other by (cbn [mem_base set_byte]; lia).
      apply byte_at_set_same.
      rewrite (in_bounds_shape m m1 (a + 1) 1 S1). apply B. lia. }
    assert (E2 : byte_at m4 (a + 2) = (v / 2 ^ 16) mod 256).
    { unfold m4.
      rewrite !byte_at_set_other by (cbn [mem_base set_byte]; lia).
      apply byte_at_set_same.
      rewrite (in_bounds_shape m m2 (a + 2) 1 S2). apply B. lia. }
    assert (E3 : byte_at m4 (a + 3) = (v / 2 ^ 24) mod 256).
    { apply byte_at_set_same.
      rewrite (in_bounds_shape m m3 (a + 3) 1 S3). apply B. lia. }
    rewrite E0, E1, E2, E3. unfold modulus.
    change (2 ^ 8) with 256. change (2 ^ 16) with 65536.
    change (2 ^ 24) with 16777216. change (2 ^ 32) with 4294967296.
    Z.div_mod_to_equations. lia.
  - intros b Hb4 Hne.
    destruct (in_bounds m b 4) eqn:Ib.
    + right. exists (byte_at m b + 2 ^ 8 * byte_at m (b + 1)
                     + 2 ^ 16 * byte_at m (b + 2) + 2 ^ 24 * byte_at m (b + 3)).
      split; [apply load32_in; assumption |].
      rewrite load32_in;
        [| exact Hb4 | rewrite (in_bounds_shape m m4 b 4 S4); exact Ib].
      pose proof (proj1 (in_bounds_spec m b 4) Ib) as Hrb.
      assert (D : b + 4 <= a \/ a + 4 <= b).
      { Z.div_mod_to_equations. lia. }
      assert (O : forall k, 0 <= k < 4 -> byte_at m4 (b + k) = byte_at m (b + k)).
      { intros k Hk. unfold m4, m3, m2, m1.
        rewrite !byte_at_set_other by (cbn [mem_base set_byte]; lia).
        reflexivity. }
      pose proof (O 0 ltac:(lia)) as O0. rewrite Z.add_0_r in O0.
      rewrite O0, (O 1), (O 2), (O 3) by lia. reflexivity.
    + left. unfold load32. rewrite Ib, andb_false_r. reflexivity.
Qed.

Lemma load32_Done_in (a w : Z) (m m' : memory) :
  load32 a m = Done w m' -> a mod 4 = 0 /\ in_bounds m a 4 = true.
Proof.
  unfold load32. intros H.
  destruct (Z.eqb_spec (a mod 4) 0) as [E |]; [| discriminate].
  destruct (in_bounds m a 4); [| discriminate].
  split; [exact E | reflexivity].
Qed.

(** ** The size word of a block header *)

Lemma land_bit (v n : Z) :
  0 <= n -> negb (Z.land v (2 ^ n) =? 0) = Z.testbit v n.
Proof.
  intros Hn. destruct (Z.testbit v n) eqn:E.
  - destruct (Z.eqb_spec (Z.land v (2 ^ n)) 0) as [H |]; [| reflexivity].
    assert (X : Z.testbit (Z.land v (2 ^ n)) n = true)
      by (rewrite Z.land_spec, E, Z.pow2_bits_true by lia; reflexivity).
    rewrite H, Z.bits_0 in X. discriminate.
  - assert (H : Z.land v (2 ^ n) = 0).
    { apply Z.bits_inj'. intros i Hi.
      rewrite Z.land_spec, Z.bits_0, Z.pow2_bits_eqb by lia.
      destruct (Z.eqb_spec n i) as [<- |];
        [rewrite E; reflexivity | apply andb_false_r]. }
    rewrite H. reflexivity.
Qed.

Lemma word_high_bits (w n : Z) :
  0 <= w < modulus -> 32 <= n -> Z.testbit w n = false.
Proof.
  intros Hw Hn. destruct (Z.eq_dec w 0) as [-> | Hz]; [apply Z.bits_0 |].
  apply Z.bits_above_log2; [lia |].
  assert (Z.log2 w < 32) by (apply Z.log2_lt_pow2; unfold modulus in Hw; lia).
  lia.
Qed.

Lemma word_of_bits (v : Z) :
  0 <= v -> (forall n, 32 <= n -> Z.testbit v n = false) -> 0 <= v < modulus.
Proof.
  intros Hv H.
  assert (E : Z.land v (Z.ones 32) = v).
  { apply Z.bits_inj'. intros n Hn.
    rewrite Z.land_spec, Z.testbit_ones_nonneg by lia.
    destruct (Z.ltb_spec n 32); [apply andb_true_r |].
    rewrite H by lia. reflexivity. }
  rewrite Z.land_ones in E by lia. rewrite <- E.
  apply Z.mod_pos_bound. reflexivity.
Qed.

Lemma low_bits_of_multiple (sz : Z) :
  sz mod 4 = 0 -> Z.testbit sz 0 = false /\ Z.testbit sz 1 = false.
Proof.
  intros H. split; apply Z.testbit_false; try lia.
  - change (2 ^ 0) with 1. Z.div_mod_to_equations. lia.
  - change (2 ^ 1) with 2. Z.div_mod_to_equations. lia.
Qed.

Ltac word_bits n :=
  repeat first
    [ rewrite Z.land_spec | rewrite Z.lor_spec | rewrite Z.ldiff_spec
    | rewrite (Z.testbit_ones_nonneg 32 n) by lia
    | rewrite (Z.testbit_ones_nonneg 2 n) by lia
    | rewrite (Z.pow2_bits_eqb 0 n) by lia
    | rewrite (Z.pow2_bits_eqb 1 n) by lia ].

Lemma header_word_read (block v : Z) (m : memory) :
  load32 (Tlsf.field block Tlsf.off_size) m = Done v m ->
  Tlsf.block_size block m = Done (Z.land v (not32 Tlsf.flag_bits)) m /\
  Tlsf.block_is_free block m = Done (Z.testbit v 0) m /\
  Tlsf.block_is_prev_free block m = Done (Z.testbit v 1) m.
Proof.
  intros Hl.
  unfold Tlsf.block_size, Tlsf.block_is_free, Tlsf.block_is_prev_free.
  rewrite !(bind_step _ _ _ _ _ Hl). unfold ret.
  change Tlsf.block_header_free_bit with (2 ^ 0).
  change Tlsf.block_header_prev_free_bit with (2 ^ 1).
  rewrite !land_bit by lia.
  split; [reflexivity |]. split; reflexivity.
Qed.

Lemma header_store (a w v : Z) (m : memory) :
  load32 a m = Done w m -> 0 <= v < modulus ->
  exists m', store32 a v m = Done tt m' /\ load32 a m' = Done v m'.
Proof.
  intros Hl Hv. destruct (load32_Done_in _ _ _ _ Hl) as (Ha & Hb).
  destruct (store32_load32 _ v m Ha Hb) as (m' & Hs & _ & Hl' & _).
  rewrite Z.mod_small in Hl' by exact Hv.
  exists m'. split; [exact Hs | exact Hl'].
Qed.

Lemma header_setters_word (block w : Z) (m : memory) :
  load32 (Tlsf.field block Tlsf.off_size) m = Done w m ->
  let size := Z.land w (not32 Tlsf.flag_bits) in
  let free := Z.testbit w 0 in
  let prev_free := Z.testbit w 1 in
  let after (set : M unit) (size : Z) (free prev_free : bool) :=
    exists m' v, set m = Done tt m' /\
                 load32 (Tlsf.field block Tlsf.off_size) m' = Done v m' /\
                 Z.land v (not32 Tlsf.flag_bits) = size /\
                 Z.testbit v 0 = free /\ Z.testbit v 1 = prev_free in
  (forall sz, 0 <= sz < modulus -> sz mod 4 = 0 ->
              after (Tlsf.block_set_size block sz) sz free prev_free) /\
  after (Tlsf.block_set_free block) size true prev_free /\
  after (Tlsf.block_set_used block) size false prev_free /\
  after (Tlsf.block_set_prev_free block) size free true /\
  after (Tlsf.block_set_prev_used block) size free false.
Proof.
  intros Hl. cbv zeta.
  destruct (load32_Done _ _ _ _ Hl) as (_ & Hw).
  assert (Hw0 : 0 <= w) by lia.
  pose proof (fun n => word_high_bits w n Hw) as Hhi.
  assert (W : forall v sz (fr pf : bool),
             0 <= v ->
             (forall n, 32 <= n -> Z.testbit v n = false) ->
             Z.land v (Z.ldiff (Z.ones 32) (Z.ones 2)) = sz ->
             Z.testbit v 0 = fr -> Z.testbit v 1 = pf ->
             exists m' v',
               store32 (Tlsf.field block Tlsf.off_size) v m = Done tt m' /\
               load32 (Tlsf.field block Tlsf.off_size) m' = Done v' m' /\
               Z.land v' (Z.ldiff (Z.ones 32) (Z.ones 2)) = sz /\
               Z.testbit v' 0 = fr /\ Z.testbit v' 1 = pf).
  { intros v sz fr pf H0 Hh Hs Hf Hp.
    destruct (header_store _ w v m Hl (word_of_bits v H0 Hh)) as (m' & A & B).
    exists m', v. split; [exact A |]. split; [exact B |].
    split; [exact Hs |]. split; [exact Hf | exact Hp]. }
  split; [| split; [| split; [| split]]].
  - intros sz Hsz H4. destruct (low_bits_of_multiple sz H4) as (L0 & L1).
    pose proof (fun n => word_high_bits sz n Hsz) as Hhs.
    unfold Tlsf.block_set_size. rewrite (bind_step _ _ _ _ _ Hl).
    change Tlsf.flag_bits with (Z.ones 2).
    apply W.
    + apply Z.lor_nonneg. split; [lia |]. apply Z.land_nonneg. left. lia.
    + intros n Hn. word_bits n. rewrite Hhs, Hhi by lia. reflexivity.
    + apply Z.bits_inj'. intros n Hn. word_bits n.
      destruct (Z.ltb_spec n 2); destruct (Z.ltb_spec n 32); cbn; try lia.
      * assert (Hc : n = 0 \/ n = 1) by lia.
        destruct Hc as [-> | ->]; [rewrite L0 | rewrite L1];
          rewrite andb_false_r; reflexivity.
      * rewrite andb_false_r, orb_false_r, andb_true_r. reflexivity.
      * rewrite Hhs by lia. rewrite !andb_false_r. reflexivity.
    + word_bits 0. rewrite L0. cbn. apply andb_true_r.
    + word_bits 1. rewrite L1. cbn. apply andb_true_r.
  - unfold Tlsf.block_set_free. rewrite (bind_step _ _ _ _ _ Hl).
    change Tlsf.block_header_free_bit with (2 ^ 0).
    change (not32 Tlsf.flag_bits) with (Z.ldiff (Z.ones 32) (Z.ones 2)).
    apply W.
    + apply Z.lor_nonneg. split; lia.
    + intros n Hn. word_bits n. rewrite Hhi by lia.
      destruct (Z.eqb_spec 0 n); [lia | reflexivity].
    + apply Z.bits_inj'. intros n Hn. word_bits n.
      destruct (Z.eqb_spec 0 n) as [<- |]; cbn;
        [rewrite !andb_false_r; reflexivity | rewrite orb_false_r; reflexivity].
    + word_bits 0. cbn. apply orb_true_r.
    + word_bits 1. cbn. apply orb_false_r.
  - unfold Tlsf.block_set_used. rewrite (bind_step _ _ _ _ _ Hl).
    change (not32 Tlsf.block_header_free_bit)
      with (Z.ldiff (Z.ones 32) (2 ^ 0)).
    change (not32 Tlsf.flag_bits) with (Z.ldiff (Z.ones 32) (Z.ones 2)).
    apply W.
    + apply Z.land_nonneg. left. lia.
    + intros n Hn. word_bits n. rewrite Hhi by lia. reflexivity.
    + apply Z.bits_inj'. intros n Hn. word_bits n.
      destruct (Z.eqb_spec 0 n) as [<- |]; cbn;
        [rewrite !andb_false_r; reflexivity |].
      destruct (Z.ltb_spec n 32); cbn;
        [rewrite !andb_true_r; reflexivity | rewrite !andb_false_r; reflexivity].
    + word_bits 0. cbn. apply andb_false_r.
    + word_bits 1. cbn. apply andb_true_r.
  - unfold Tlsf.block_set_prev_free. rewrite (bind_step _ _ _ _ _ Hl).
    change Tlsf.block_header_prev_free_bit with (2 ^ 1).
    change (not32 Tlsf.flag_bits) with (Z.ldiff (Z.ones 32) (Z.ones 2)).
    apply W.
    + apply Z.lor_nonneg. split; lia.
    + intros n Hn. word_bits n. rewrite Hhi by lia.
      destruct (Z.eqb_spec 1 n); [lia | reflexivity].
    + apply Z.bits_inj'. intros n Hn. word_bits n.
      destruct (Z.eqb_spec 1 n) as [<- |]; cbn;
        [rewrite !andb_false_r; reflexivity | rewrite orb_false_r; reflexivity].
    + word_bits 0. cbn. apply orb_false_r.
    + word_bits 1. cbn. apply orb_true_r.
  - unfold Tlsf.block_set_prev_used. rewrite (bind_step _ _ _ _ _ Hl).
    change (not32 Tlsf.block_header_prev_free_bit)
      with (Z.ldiff (Z.ones 32) (2 ^ 1)).
    change (not32 Tlsf.flag_bits) with (Z.ldiff (Z.ones 32) (Z.ones 2)).
    apply W.
    + apply Z.land_nonneg. left. lia.
    + intros n Hn. word_bits n. rewrite Hhi by lia. reflexivity.
    + apply Z.bits_inj'. intros n Hn. word_bits n.
      destruct (Z.eqb_spec 1 n) as [<- |]; cbn;
        [rewrite !andb_false_r; reflexivity |].
      destruct (Z.ltb_spec n 32); cbn;
        [rewrite !andb_true_r; reflexivity | rewrite !andb_false_r; reflexivity].
    + word_bits 0. cbn. apply andb_true_r.
    + word_bits 1. cbn. apply andb_false_r.
Qed.

(** X16. The size word of a block header keeps its three parts apart.
    With [w] the word before: [block_set_size] of a multiple of four makes
    [block_size] return that size and leaves both flags as they were; each
    of [block_set_free], [block_set_used], [block_set_prev_free] and
    [block_set_prev_used] sets or clears its own flag and leaves the size
    and the other flag as they were. *)
Theorem block_header_setters (block w : Z) (m : memory) :
  load32 (Tlsf.field block Tlsf.off_size) m = Done w m ->
  let size := Z.land w (not32 Tlsf.flag_bits) in
  let free := Z.testbit w 0 in
  let prev_free := Z.testbit w 1 in
  let after (set : M unit) (size : Z) (free prev_free : bool) :=
    exists m', set m = Done tt m' /\
               Tlsf.block_size block m' = Done size m' /\
               Tlsf.block_is_free block m' = Done free m' /\
               Tlsf.block_is_prev_free block m' = Done prev_free m' in
  (Tlsf.block_size block m = Done size m /\
   Tlsf.block_is_free block m = Done free m /\
   Tlsf.block_is_prev_free block m = Done prev_free m) /\
  (forall sz, 0 <= sz < modulus -> sz mod 4 = 0 ->
              after (Tlsf.block_set_size block sz) sz free prev_free) /\
  after (Tlsf.block_set_free block) size true prev_free /\
  after (Tlsf.block_set_used block) size false prev_free /\
  after (Tlsf.block_set_prev_free block) size free true /\
  after (Tlsf.block_set_prev_used block) size free false.
Proof.
  intros Hl. cbv zeta.
  assert (R : forall (set : M unit) sz fr pf,
             (exists m' v, set m = Done tt m' /\
                load32 (Tlsf.field block Tlsf.off_size) m' = Done v m' /\
                Z.land v (not32 Tlsf.flag_bits) = sz /\
                Z.testbit v 0 = fr /\ Z.testbit v 1 = pf) ->
             exists m', set m = Done tt m' /\
                Tlsf.block_size block m' = Done sz m' /\
                Tlsf.block_is_free block m' = Done fr m' /\
                Tlsf.block_is_prev_free block m' = Done pf m').
  { intros set sz fr pf (m' & v & A & B & <- & <- & <-).
    exists m'. split; [exact A | apply header_word_read; exact B]. }
  destruct (header_setters_word block w m Hl) as (A & B & C & D & E).
  split; [apply header_word_read; exact Hl |].
  split; [intros sz Hsz H4; apply R, A; assumption |].
  split; [apply R, B |]. split; [apply R, C |].
  split; [apply R, D | apply R, E].
Qed.

(** A header at address 1000 of [forty_bytes]: its size word is at 1004. *)
Lemma block_header_setters_witness :
  exists m',
    Tlsf.block_set_size 1000 64 forty_bytes = Done tt m' /\
    Tlsf.block_size 1000 m' = Done 64 m' /\
    Tlsf.block_is_free 1000 m' = Done true m'.
Proof.
  assert (H : load32 (Tlsf.field 1000 Tlsf.off_size) forty_bytes
              = Done 134678021 forty_bytes) by (vm_compute; reflexivity).
  destruct (block_header_setters 1000 134678021 forty_bytes H) as (_ & A & _).
  destruct (A 64) as (m' & B & C & D & _);
    [vm_compute; split; [discriminate | reflexivity] | reflexivity |].
  exists m'. split; [exact B |]. split; [exact C | exact D].
Defined.

(** ** Creating a heap and adding a pool *)

Lemma aligned_test (mem : Z) :
  0 <= mem < modulus ->
  (Z.rem (to_int mem) Tlsf.ALIGN_SIZE =? 0) = (mem mod 4 =? 0).
Proof.
  intros Hm. change Tlsf.ALIGN_SIZE with 4.
  assert (E : to_int mem mod 4 = mem mod 4).
  { unfold to_int. rewrite (u32_small mem Hm).
    destruct (mem <? 2 ^ 31); [reflexivity |].
    unfold modulus. change (2 ^ 32) with (1073741824 * 4).
    rewrite <- (Z.mod_add (mem - 1073741824 * 4) 1073741824 4) by lia.
    f_equal. lia. }
  destruct (Z.eqb_spec (mem mod 4) 0) as [H | H].
  - apply Z.eqb_eq. apply Z.rem_mod_eq_0; [lia |]. congruence.
  - apply Z.eqb_neq. intros C. apply Z.rem_mod_eq_0 in C; [| lia]. congruence.
Qed.

Lemma pool_bytes_value (bytes : Z) :
  0 <= bytes < modulus ->
  Tlsf.align_down (sub bytes Tlsf.os_tlsf_pool_overhead) Tlsf.ALIGN_SIZE
  = (bytes - 8) mod modulus - ((bytes - 8) mod modulus) mod 4.
Proof.
  intros Hb. unfold Tlsf.align_down.
  change Tlsf.os_tlsf_pool_overhead with 8. change Tlsf.ALIGN_SIZE with 4.
  change (sub 4 1) with Copy.ALIGN_MASK. rewrite land_3.
  unfold sub, u32.
  pose proof (Z.mod_pos_bound (bytes - 8) modulus eq_refl) as R.
  pose proof (Z.mod_pos_bound ((bytes - 8) mod modulus) 4 eq_refl) as R4.
  apply Z.mod_small.
  assert ((bytes - 8) mod modulus mod 4 <= (bytes - 8) mod modulus).
  { apply Z.mod_le; lia. }
  lia.
Qed.

(** X17. [os_tlsf_create] refuses memory that is not four-aligned, and
    [os_tlsf_add_pool] refuses such memory and every byte count below 20 or
    above 1035: the result is null and nothing is written.
    [os_tlsf_create_with_pool] on memory that is not four-aligned returns
    null without writing. *)
Theorem os_tlsf_add_pool_rejects (tlsf mem bytes : Z) (m : memory) :
  0 <= mem < modulus -> 0 <= bytes < modulus ->
  mem mod 4 <> 0 \/ bytes < 20 \/ 1036 <= bytes ->
  Tlsf.os_tlsf_add_pool tlsf mem bytes m = Done 0 m /\
  (mem mod 4 <> 0 ->
   Tlsf.os_tlsf_create mem m = Done 0 m /\
   Tlsf.os_tlsf_create_with_pool mem bytes m = Done 0 m).
Proof.
  intros Hm Hb Hc.
  assert (A : forall t b, mem mod 4 <> 0 ->
                          Tlsf.os_tlsf_add_pool t (add mem Tlsf.os_tlsf_size) b m
                          = Done 0 m).
  { intros t b Hne. unfold Tlsf.os_tlsf_add_pool. cbv zeta.
    rewrite aligned_test
      by (unfold add, u32; apply Z.mod_pos_bound; reflexivity).
    assert (E : add mem Tlsf.os_tlsf_size mod 4 = mem mod 4).
    { unfold add, u32, modulus. change Tlsf.os_tlsf_size with 548.
      rewrite Z.mod_mod_divide by (exists 1073741824; reflexivity).
      change 548 with (137 * 4). apply Z.mod_add. lia. }
    rewrite E. destruct (Z.eqb_spec (mem mod 4) 0); [contradiction |].
    reflexivity. }
  split.
  - unfold Tlsf.os_tlsf_add_pool. cbv zeta. rewrite (aligned_test mem Hm).
    destruct (Z.eqb_spec (mem mod 4) 0) as [E | E]; cbn [negb];
      [| reflexivity].
    destruct Hc as [Hc | Hc]; [contradiction |].
    rewrite (pool_bytes_value bytes Hb).
    change Tlsf.block_size_min with 12. change Tlsf.block_size_max with 1024.
    set (x := (bytes - 8) mod modulus).
    assert (Hx : x - x mod 4 < 12 \/ 1024 < x - x mod 4).
    { pose proof (Z.mod_pos_bound x 4 eq_refl) as R4. unfold x, modulus in *.
      destruct (Z.lt_ge_cases bytes 8) as [L | G].
      - right.
        replace ((bytes - 8) mod 2 ^ 32) with (bytes - 8 + 2 ^ 32) in *
          by (apply Z.mod_unique with (q := -1); lia).
        lia.
      - rewrite (Z.mod_small (bytes - 8)) in * by lia.
        destruct Hc as [Hc | Hc]; [left; lia | right; lia]. }
    destruct (Z.ltb_spec (x - x mod 4) 12); [reflexivity |].
    destruct (Z.ltb_spec 1024 (x - x mod 4)); [reflexivity | lia].
  - intros Hne.
    assert (C : Tlsf.os_tlsf_create mem m = Done 0 m).
    { unfold Tlsf.os_tlsf_create. rewrite (aligned_test mem Hm).
      destruct (Z.eqb_spec (mem mod 4) 0); [contradiction | reflexivity]. }
    split; [exact C |].
    unfold Tlsf.os_tlsf_create_with_pool.
    rewrite (bind_step _ _ _ _ _ C). rewrite (bind_step _ _ _ _ _ (A _ _ Hne)).
    reflexivity.
Qed.

Lemma os_tlsf_add_pool_rejects_witness :
  Tlsf.os_tlsf_add_pool heap_base (heap_base + 548) 16 fresh_heap
  = Done 0 fresh_heap.
Proof.
  apply (os_tlsf_add_pool_rejects heap_base (heap_base + 548) 16 fresh_heap).
  - vm_compute. split; [discriminate | reflexivity].
  - vm_compute. split; [discriminate | reflexivity].
  - right. left. lia.
Defined.

Lemma load32_not_Diverge (a : Z) (m : memory) : load32 a m <> Diverge.
Proof.
  unfold load32. destruct ((a mod 4 =? 0) && in_bounds m a 4); discriminate.
Qed.

Lemma bind_Fault {A B} (c : M A) (k : A -> M B) (m : memory) :
  c m = Fault -> bind c k m = Fault.
Proof. intros H. unfold bind. rewrite H. reflexivity. Qed.

(** X18. The size test of [os_tlsf_add_pool] lets a pool of exactly
    [block_size_max] bytes through (byte counts 1032 to 1035).
    [mapping_insert] maps that size to the first-level index
    [FL_INDEX_COUNT], one past the end of [blocks] and [sl_bitmap], so
    whatever the memory holds the call runs into undefined behaviour. *)
Theorem os_tlsf_add_pool_largest_faults (tlsf mem bytes : Z) (m : memory) :
  0 <= mem < modulus -> mem mod 4 = 0 -> 1032 <= bytes <= 1035 ->
  Tlsf.mapping_insert Tlsf.block_size_max = (Tlsf.FL_INDEX_COUNT, 0) /\
  Tlsf.os_tlsf_add_pool tlsf mem bytes m = Fault.
Proof.
  intros Hm Ha Hb. split; [reflexivity |].
  unfold Tlsf.os_tlsf_add_pool. cbv zeta. rewrite (aligned_test mem Hm), Ha.
  cbn [Z.eqb negb].
  rewrite pool_bytes_value by (unfold modulus; lia).
  assert (E : (bytes - 8) mod modulus - ((bytes - 8) mod modulus) mod 4 = 1024).
  { unfold modulus. rewrite (Z.mod_small (bytes - 8)) by lia.
    Z.div_mod_to_equations. lia. }
  rewrite E. change (1024 <? Tlsf.block_size_min) with false.
  change (Tlsf.block_size_max <? 1024) with false. cbn [orb].
  set (block := Tlsf.offset_to_block mem (u32 (- to_int Tlsf.block_header_overhead))).
  destruct (load32 (Tlsf.field block Tlsf.off_size) m) as [w m0 | |] eqn:Hl.
  - destruct (load32_Done _ _ _ _ Hl) as (-> & _).
    destruct (header_setters_word block w m Hl) as (A & _).
    destruct (A 1024) as (m1 & v1 & S1 & L1 & Z1 & _);
      [unfold modulus; lia | reflexivity |].
    destruct (header_setters_word block v1 m1 L1) as (_ & B & _).
    destruct B as (m2 & v2 & S2 & L2 & Z2 & _).
    destruct (header_setters_word block v2 m2 L2) as (_ & _ & _ & _ & C).
    destruct C as (m3 & v3 & S3 & L3 & Z3 & _).
    destruct (header_word_read block v3 m3 L3) as (R & _).
    rewrite Z3, Z2, Z1 in R.
    rewrite (bind_step _ _ _ _ _ S1), (bind_step _ _ _ _ _ S2),
      (bind_step _ _ _ _ _ S3).
    apply bind_Fault. unfold Tlsf.block_insert.
    rewrite (bind_step _ _ _ _ _ R).
    change (Tlsf.mapping_insert 1024) with (4, 0).
    reflexivity.
  - apply bind_Fault. unfold Tlsf.block_set_size. apply bind_Fault. exact Hl.
  - destruct (load32_not_Diverge _ _ Hl).
Qed.

Lemma os_tlsf_add_pool_largest_faults_witness :
  Tlsf.os_tlsf_add_pool heap_base (heap_base + 548) 1032
    (zeroed heap_base 2048) = Fault.
Proof.
  apply (os_tlsf_add_pool_largest_faults heap_base (heap_base + 548) 1032
           (zeroed heap_base 2048)).
  - vm_compute. split; [discriminate | reflexivity].
  - reflexivity.
  - lia.
Defined.

(** ** A heap with no block left *)

Lemma search_grid_checked :
  search_grid_on 1012 (map (fun i => 4 * i) (range 3 253)) = true.
Proof. vm_compute. reflexivity. Qed.

Lemma search_grid (s : Z) :
  12 <= s < 1024 -> s mod 4 = 0 ->
  let fl := fst (Tlsf.mapping_search s) in
  let sl := snd (Tlsf.mapping_search s) in
  0 <= fl <= 4 /\ 0 <= sl < 32 /\ (fl = 4 <-> 1012 <= s).
Proof.
  intros Hs H4. pose proof search_grid_checked as C.
  unfold search_grid_on in C. rewrite forallb_forall in C.
  specialize (C s (request_in_range s Hs H4)).
  destruct (Tlsf.mapping_search s) as [fl sl]. cbn [fst snd].
  change Tlsf.FL_INDEX_COUNT with 4 in C.
  change Tlsf.SL_INDEX_COUNT with 32 in C.
  apply andb_true_iff in C. destruct C as [C C5].
  apply andb_true_iff in C. destruct C as [C C4].
  apply andb_true_iff in C. destruct C as [C C3].
  apply andb_true_iff in C. destruct C as [C1 C2].
  apply Bool.eqb_prop in C5.
  split; [lia |]. split; [lia |].
  destruct (Z.eqb_spec fl 4), (Z.leb_spec 1012 s); try discriminate;
    split; intros; lia.
Qed.

(** A bitmap word with no bit from [n] up is zero under the mask
    [~0U << n]. *)
Lemma masked_bitmap_zero (w n : Z) :
  0 <= n -> (forall j, n <= j < 32 -> Z.testbit w j = false) ->
  Z.land w (shl (not32 0) n) = 0.
Proof.
  intros Hn H. apply Z.bits_inj'. intros j Hj.
  rewrite Z.land_spec, Z.bits_0.
  destruct (Z.testbit (shl (not32 0) n) j) eqn:E; [| apply andb_false_r].
  pose proof (mask_from_bit n j Hn E) as Hle.
  destruct (Z.lt_ge_cases j 32) as [Hlt | Hge].
  - rewrite H by lia. reflexivity.
  - rewrite word_high_bits in E; [discriminate | | exact Hge].
    unfold shl, u32. apply Z.mod_pos_bound. reflexivity.
Qed.


(** X19. [os_tlsf_malloc] of 1 to 1020 bytes returns null and writes
    nothing when the bitmaps show no free list at or above the one that
    [mapping_search] names for the adjusted size.  For 1009 bytes and more
    that list has the first-level index [FL_INDEX_COUNT], and the call
    returns null whatever the heap holds, without looking at it. *)
Theorem os_tlsf_malloc_exhausted (tlsf size w f : Z) (m : memory) :
  1 <= size <= 1020 ->
  let adjust := Tlsf.adjust_request_size size Tlsf.ALIGN_SIZE in
  let fl := fst (Tlsf.mapping_search adjust) in
  let sl := snd (Tlsf.mapping_search adjust) in
  (1009 <= size <-> fl = Tlsf.FL_INDEX_COUNT) /\
  (1009 <= size \/
   ((a <- Tlsf.sl_bitmap_at tlsf fl ;; load32 a) m = Done w m /\
    (forall j, sl <= j < 32 -> Z.testbit w j = false) /\
    load32 (Tlsf.fl_bitmap_at tlsf) m = Done f m /\
    (forall i, fl < i < 32 -> Z.testbit f i = false)) ->
   Tlsf.os_tlsf_malloc tlsf size m = Done 0 m).
Proof.
  intros Hs. cbv zeta.
  destruct (adjust_request_size_ranges size ltac:(unfold modulus; lia))
    as (A & _).
  destruct (A Hs) as (A4 & Ar & Ale & Alt). clear A.
  change Tlsf.block_size_min with 12 in *.
  change Tlsf.block_size_max with 1024 in *.
  pose proof (adjust_request_size_value size Hs) as Ev.
  set (adjust := Tlsf.adjust_request_size size Tlsf.ALIGN_SIZE) in *.
  destruct (search_grid adjust Ar A4) as (Gf & Gs & Gt). cbv zeta in Gf, Gs, Gt.
  assert (Htop : 1009 <= size <-> 1012 <= adjust).
  { rewrite Ev. split; intros H; Z.div_mod_to_equations; lia. }
  change Tlsf.FL_INDEX_COUNT with 4.
  split; [rewrite Htop; symmetry; exact Gt |].
  intros H. unfold Tlsf.os_tlsf_malloc. cbv zeta. fold adjust.
  assert (L : Tlsf.block_locate_free tlsf adjust m = Done 0 m).
  { unfold Tlsf.block_locate_free.
    destruct (Z.eqb_spec adjust 0) as [E | _]; [lia |].
    destruct (Tlsf.mapping_search adjust) as [fl sl] eqn:Em.
    cbn [fst snd] in *. change Tlsf.FL_INDEX_COUNT with 4.
    destruct (Z.ltb_spec fl 4) as [Hlt | Hge]; [| reflexivity].
    destruct H as [H | (Hw & Hwb & Hf & Hfb)]; [lia |].
    assert (S : Tlsf.search_suitable_block tlsf fl sl m = Done (0, fl, sl) m).
    { unfold Tlsf.search_suitable_block. cbv zeta.
      unfold bind in Hw.
      destruct (Tlsf.sl_bitmap_at tlsf fl m) as [a m0 | |] eqn:Ea;
        [| discriminate | discriminate].
      destruct (sl_bitmap_at_Done _ _ _ _ _ Ea) as (-> & _).
      rewrite (bind_step _ _ _ _ _ Ea). rewrite (bind_step _ _ _ _ _ Hw).
      rewrite (masked_bitmap_zero w sl) by (lia || exact Hwb). cbn [Z.eqb].
      rewrite (bind_step _ _ _ _ _ Hf).
      rewrite (masked_bitmap_zero f (fl + 1))
        by (lia || (intros i Hi; apply Hfb; lia)).
      reflexivity. }
    rewrite (bind_step _ _ _ _ _ S). reflexivity. }
  rewrite (bind_step _ _ _ _ _ L). reflexivity.
Qed.

(** 1010 bytes on a fresh heap, whose one free block has 464 bytes; and
    500 bytes on a heap with nothing free. *)
Lemma os_tlsf_malloc_exhausted_witness :
  Tlsf.os_tlsf_malloc heap_base 1010 fresh_heap = Done 0 fresh_heap /\
  Tlsf.os_tlsf_malloc heap_base 500 heap_fl_bitmap_cleared
  = Done 0 heap_fl_bitmap_cleared.
Proof.
  split.
  - apply (os_tlsf_malloc_exhausted heap_base 1010 0 0 fresh_heap); [lia |].
    left. lia.
  - apply (os_tlsf_malloc_exhausted heap_base 500 67108864 0
             heap_fl_bitmap_cleared); [lia |].
    right. split; [vm_compute; reflexivity |]. split.
    + intros j Hj.
      assert (E : snd (Tlsf.mapping_search
                         (Tlsf.adjust_request_size 500 Tlsf.ALIGN_SIZE)) = 31)
        by reflexivity.
      rewrite E in Hj. assert (Ej : j = 31) by lia. subst j. reflexivity.
    + split; [vm_compute; reflexivity | intros; apply Z.bits_0].
Defined.

(** ** The counters of the facade *)

Lemma os_tlsf_free_size (tlsf ptr size : Z) (m m' : memory) :
  Tlsf.os_tlsf_free tlsf ptr m = Done size m' -> 0 <= size < modulus.
Proof.
  unfold Tlsf.os_tlsf_free. destruct (ptr =? 0).
  - intros H. apply ret_Done in H. destruct H as [<- _]. unfold modulus. lia.
  - intros H. inv_bind H. apply load32_Done in Hc. destruct Hc as (_ & R).
    inv_bind H. inv_bind H. inv_bind H. inv_bind H.
    apply ret_Done in H. destruct H as [<- _]. exact R.
Qed.

Lemma OS_MAX_spec (a b : Z) : OsMem.OS_MAX a b = Z.max a b.
Proof. unfold OsMem.OS_MAX. destruct (Z.ltb_spec b a); lia. Qed.

Lemma os_mem_alloc_counters
  (za : Z) (fuel : nat) (g g' : OsMem.globals) (size p : Z) (m m' : memory) :
  0 <= OsMem.cur_used g <= OsMem.max_used g -> OsMem.max_used g < modulus ->
  OsMem.os_mem_alloc za fuel g size m = Done (p, g') m' ->
  OsMem.tlsf g' = OsMem.tlsf g /\ OsMem.zero_mem g' = OsMem.zero_mem g /\
  OsMem.max_used g <= OsMem.max_used g' < modulus /\
  0 <= OsMem.cur_used g' <= OsMem.max_used g'.
Proof.
  intros Hc Hm H. unfold OsMem.os_mem_alloc in H.
  destruct (size =? 0).
  - apply ret_Done in H. destruct H as [E _].
    assert (Eg : g' = g) by congruence. subst g'.
    repeat split; lia.
  - inv_bind H. inv_bind H. destruct (a =? 0); cbn [negb] in H.
    + apply ret_Done in H. destruct H as [E _].
      assert (Eg : g' = g) by congruence. subst g'.
      repeat split; lia.
    + apply ret_Done in H. destruct H as [E _].
      assert (Eg : g' = OsMem.mkGlobals (OsMem.tlsf g)
                         (add (OsMem.cur_used g) size)
                         (OsMem.OS_MAX (add (OsMem.cur_used g) size)
                                       (OsMem.max_used g))
                         (OsMem.zero_mem g)) by congruence.
      subst g'. cbn [OsMem.tlsf OsMem.zero_mem OsMem.max_used OsMem.cur_used].
      rewrite OS_MAX_spec.
      pose proof (Z.mod_pos_bound (OsMem.cur_used g + size) modulus eq_refl) as R.
      unfold add, u32. repeat split; lia.
Qed.

Lemma os_mem_free_counters
  (za : Z) (g g' : OsMem.globals) (p : Z) (m m' : memory) :
  0 <= OsMem.cur_used g <= OsMem.max_used g -> OsMem.max_used g < modulus ->
  OsMem.os_mem_free za g p m = Done g' m' ->
  OsMem.tlsf g' = OsMem.tlsf g /\ OsMem.zero_mem g' = OsMem.zero_mem g /\
  OsMem.max_used g' = OsMem.max_used g /\
  0 <= OsMem.cur_used g' <= OsMem.cur_used g.
Proof.
  intros Hc Hm H. unfold OsMem.os_mem_free in H.
  destruct (p =? za); [| destruct (p =? 0)].
  - apply ret_Done in H. destruct H as [<- _]. repeat split; lia.
  - apply ret_Done in H. destruct H as [<- _]. repeat split; lia.
  - inv_bind H. apply os_tlsf_free_size in Hc0.
    apply ret_Done in H. destruct H as [<- _].
    cbn [OsMem.tlsf OsMem.zero_mem OsMem.max_used OsMem.cur_used].
    destruct (Z.ltb_spec a (OsMem.cur_used g)).
    + unfold sub, u32. rewrite Z.mod_small by lia. repeat split; lia.
    + repeat split; lia.
Qed.

(** X20. The counters of the facade: whenever [os_mem_alloc], [os_mem_free]
    or [os_mem_realloc] returns, [cur_used] is still at most [max_used],
    [max_used] has not gone down, and the heap handle and [zero_mem] are as
    before.  [os_mem_free] never raises [cur_used]; [os_mem_realloc] with a
    non-zero size of a pointer other than [&zero_mem] leaves both counters
    as they were, whatever the block becomes. *)
Theorem os_mem_counters
  (za : Z) (fuel : nat) (g g' : OsMem.globals) (p q size : Z) (m m' : memory) :
  0 <= OsMem.cur_used g <= OsMem.max_used g -> OsMem.max_used g < modulus ->
  OsMem.os_mem_alloc za fuel g size m = Done (q, g') m' \/
  OsMem.os_mem_free za g p m = Done g' m' \/
  OsMem.os_mem_realloc za fuel g p size m = Done (q, g') m' ->
  (OsMem.tlsf g' = OsMem.tlsf g /\ OsMem.zero_mem g' = OsMem.zero_mem g /\
   OsMem.max_used g <= OsMem.max_used g' < modulus /\
   0 <= OsMem.cur_used g' <= OsMem.max_used g') /\
  (OsMem.os_mem_free za g p m = Done g' m' ->
   OsMem.cur_used g' <= OsMem.cur_used g) /\
  (OsMem.os_mem_realloc za fuel g p size m = Done (q, g') m' ->
   size <> 0 -> p <> za -> g' = g).
Proof.
  intros Hc Hm H.
  assert (F : forall x, OsMem.os_mem_free za g p m = Done x m' ->
                        (OsMem.tlsf x = OsMem.tlsf g /\
                         OsMem.zero_mem x = OsMem.zero_mem g /\
                         OsMem.max_used g <= OsMem.max_used x < modulus /\
                         0 <= OsMem.cur_used x <= OsMem.max_used x) /\
                        OsMem.cur_used x <= OsMem.cur_used g).
  { intros x Hx.
    destruct (os_mem_free_counters _ _ _ _ _ _ Hc Hm Hx) as (A & B & C & D).
    repeat split; try assumption; lia. }
  assert (R : OsMem.os_mem_realloc za fuel g p size m = Done (q, g') m' ->
              (OsMem.tlsf g' = OsMem.tlsf g /\
               OsMem.zero_mem g' = OsMem.zero_mem g /\
               OsMem.max_used g <= OsMem.max_used g' < modulus /\
               0 <= OsMem.cur_used g' <= OsMem.max_used g') /\
              (size <> 0 -> p <> za -> g' = g)).
  { intros Hr. unfold OsMem.os_mem_realloc in Hr.
    destruct (Z.eqb_spec size 0) as [Es | Es].
    - inv_bind Hr. apply ret_Done in Hr. destruct Hr as [E <-].
      assert (Eg : a = g') by congruence. subst a.
      split; [apply (F g' Hc0) | contradiction].
    - destruct (Z.eqb_spec p za) as [Ep | Ep].
      + split; [| contradiction].
        apply (os_mem_alloc_counters _ _ _ _ _ _ _ _ Hc Hm Hr).
      + inv_bind Hr.
        assert (Eg : g' = g).
        { destruct (a =? 0); apply ret_Done in Hr; destruct Hr as [E _];
            congruence. }
        subst g'. split; [repeat split; lia | reflexivity]. }
  split; [| split].
  - destruct H as [H | [H | H]].
    + apply (os_mem_alloc_counters _ _ _ _ _ _ _ _ Hc Hm H).
    + apply (F g' H).
    + apply (R H).
  - intros Hf. apply (F g' Hf).
  - intros Hr. apply (R Hr).
Qed.

(** The first allocation on [small_heap]. *)
Lemma os_mem_counters_witness :
  OsMem.os_mem_alloc 536871936 10
    (OsMem.mkGlobals heap_base 0 0 OsMem.ZERO_MEM_SENTINEL) 8 small_heap
  = Done (heap_base + 552,
          OsMem.mkGlobals heap_base 8 8 OsMem.ZERO_MEM_SENTINEL)
         small_heap_in_use /\
  0 <= OsMem.cur_used (OsMem.mkGlobals heap_base 8 8 OsMem.ZERO_MEM_SENTINEL)
    <= OsMem.max_used (OsMem.mkGlobals heap_base 8 8 OsMem.ZERO_MEM_SENTINEL).
Proof.
  assert (H : OsMem.os_mem_alloc 536871936 10
                (OsMem.mkGlobals heap_base 0 0 OsMem.ZERO_MEM_SENTINEL) 8
                small_heap
              = Done (heap_base + 552,
                      OsMem.mkGlobals heap_base 8 8 OsMem.ZERO_MEM_SENTINEL)
                     small_heap_in_use) by (vm_compute; reflexivity).
  split; [exact H |].
  assert (Hc : 0 <= OsMem.cur_used
                      (OsMem.mkGlobals heap_base 0 0 OsMem.ZERO_MEM_SENTINEL)
               <= OsMem.max_used
                    (OsMem.mkGlobals heap_base 0 0 OsMem.ZERO_MEM_SENTINEL))
    by (cbn; lia).
  assert (Hm : OsMem.max_used
                 (OsMem.mkGlobals heap_base 0 0 OsMem.ZERO_MEM_SENTINEL)
               < modulus) by reflexivity.
  exact (proj2 (proj2 (proj2 (proj1
           (os_mem_counters 536871936 10 _ _ 0 _ 8 _ _ Hc Hm (or_introl H)))))).
Defined.

(** ** Temporary buffers *)

Lemma buf_search_spec (bufs : list OsMem.os_mem_buf_t) (size : Z) (n : nat) :
  forall i ig, 0 <= i -> tightest_below bufs size i ig ->
    match OsMem.buf_search n i bufs size ig with
    | inl r => i <= r < i + Z.of_nat n /\ candidate bufs size r /\
               OsMem.buf_size (OsMem.buf_at bufs r) = size
    | inr r => tightest_below bufs size (i + Z.of_nat n) r
    end.
Proof.
  induction n as [| n IH]; intros i ig Hi Inv; cbn [OsMem.buf_search].
  - rewrite Z.add_0_r. exact Inv.
  - cbv zeta.
    assert (Step : forall ig', tightest_below bufs size (i + 1) ig' ->
              match OsMem.buf_search n (i + 1) bufs size ig' with
              | inl r => i <= r < i + Z.of_nat (S n) /\ candidate bufs size r /\
                         OsMem.buf_size (OsMem.buf_at bufs r) = size
              | inr r => tightest_below bufs size (i + Z.of_nat (S n)) r
              end).
    { intros ig' Inv'. specialize (IH (i + 1) ig' ltac:(lia) Inv').
      destruct (OsMem.buf_search n (i + 1) bufs size ig') as [r | r].
      - destruct IH as (A & B & C). split; [lia | split; [exact B | exact C]].
      - replace (i + Z.of_nat (S n)) with (i + 1 + Z.of_nat n) by lia.
        exact IH. }
    destruct (OsMem.buf_used (OsMem.buf_at bufs i)) eqn:Eu; cbn [negb andb].
    + apply Step. destruct Inv as [(-> & N) | (R & C & T)].
      * left. split; [reflexivity |]. intros k Hk Ck.
        destruct (Z.eq_dec k i) as [-> | Hne];
          [destruct Ck as [Cu _]; congruence | apply (N k); [lia | exact Ck]].
      * right. split; [lia |]. split; [exact C |]. intros k Hk Ck.
        destruct (Z.eq_dec k i) as [-> | Hne];
          [destruct Ck; congruence | apply T; [lia | exact Ck]].
    + destruct (Z.leb_spec size (OsMem.buf_size (OsMem.buf_at bufs i)))
        as [Hle | Hgt].
      * assert (Ci : candidate bufs size i) by (split; assumption).
        destruct (Z.eqb_spec (OsMem.buf_size (OsMem.buf_at bufs i)) size)
          as [Ee | Ene].
        -- split; [lia |]. split; [exact Ci | exact Ee].
        -- destruct Inv as [(-> & N) | (R & C & T)].
           ++ cbn [Z.ltb Z.compare]. apply Step. right.
              split; [lia |]. split; [exact Ci |]. intros k Hk Ck.
              destruct (Z.eq_dec k i) as [-> | Hne]; [lia |].
              destruct (N k ltac:(lia) Ck).
           ++ destruct (Z.ltb_spec ig 0); [lia |].
              destruct (Z.ltb_spec (OsMem.buf_size (OsMem.buf_at bufs i))
                          (OsMem.buf_size (OsMem.buf_at bufs ig))).
              ** apply Step. right. split; [lia |]. split; [exact Ci |].
                 intros k Hk Ck.
                 destruct (Z.eq_dec k i) as [-> | Hne]; [lia |].
                 specialize (T k ltac:(lia) Ck). lia.
              ** apply Step. right. split; [lia |]. split; [exact C |].
                 intros k Hk Ck.
                 destruct (Z.eq_dec k i) as [-> | Hne]; [lia |].
                 apply T; [lia | exact Ck].
      * apply Step. destruct Inv as [(-> & N) | (R & C & T)].
        -- left. split; [reflexivity |]. intros k Hk Ck.
           destruct (Z.eq_dec k i) as [-> | Hne];
             [destruct Ck as [_ Cs]; lia | apply (N k); [lia | exact Ck]].
        -- right. split; [lia |]. split; [exact C |]. intros k Hk Ck.
           destruct (Z.eq_dec k i) as [-> | Hne];
             [destruct Ck; lia | apply T; [lia | exact Ck]].
Qed.

Lemma buf_first_unused_none (bufs : list OsMem.os_mem_buf_t) (n : nat) :
  forall i, (forall k, i <= k < i + Z.of_nat n ->
                       OsMem.buf_used (OsMem.buf_at bufs k) = true) ->
            OsMem.buf_first_unused n i bufs = None.
Proof.
  induction n as [| n IH]; intros i H; cbn [OsMem.buf_first_unused];
    [reflexivity |].
  rewrite (H i) by lia. cbn [negb]. apply IH. intros k Hk. apply H. lia.
Qed.

Lemma buf_get_fit
  (za : Z) (fuel : nat) (g : OsMem.globals) (bufs : list OsMem.os_mem_buf_t)
  (size j : Z) (m : memory) :
  0 < size -> 0 <= j < 16 -> candidate bufs size j ->
  exists i,
    0 <= i < 16 /\ candidate bufs size i /\
    (forall k, 0 <= k < 16 -> candidate bufs size k ->
               OsMem.buf_size (OsMem.buf_at bufs i)
               <= OsMem.buf_size (OsMem.buf_at bufs k)) /\
    OsMem.os_mem_buf_get za fuel g bufs size m
    = Done (OsMem.buf_p (OsMem.buf_at bufs i), g,
            OsMem.buf_put bufs i (OsMem.set_used (OsMem.buf_at bufs i) true)) m.
Proof.
  assert (I0 : tightest_below bufs size 0 (-1)).
  { left. split; [reflexivity |]. intros k Hk. lia. }
  pose proof (buf_search_spec bufs size 16 0 (-1) ltac:(lia) I0) as S.
  change (0 + Z.of_nat 16) with 16 in S.
  unfold OsMem.os_mem_buf_get.
  change (Z.to_nat OsMem.OS_MEM_BUF_MAX_NUM) with 16%nat.
  intros Hs Hj Cj. destruct (Z.eqb_spec size 0) as [E | _]; [lia |].
  destruct (OsMem.buf_search 16 0 bufs size (-1)) as [r | r].
  - destruct S as (A & B & C). exists r. split; [lia |].
    split; [exact B |]. split; [| reflexivity].
    intros k Hk [_ Ck]. lia.
  - destruct S as [(-> & N) | (R & C & T)]; [destruct (N j Hj Cj) |].
    exists r. split; [lia |]. split; [exact C |]. split; [exact T |].
    destruct (Z.leb_spec 0 r); [reflexivity | lia].
Qed.

(** X21. [os_mem_buf_get]: when some entry of the table is not in use and
    at least as large as the request, the call hands out such an entry that
    no other one undercuts in size, marks it used, and touches neither the
    heap nor anything else in the table.  When all sixteen entries are in
    use, or the size is 0, the result is null and nothing changes. *)
Theorem os_mem_buf_get_best_fit
  (za : Z) (fuel : nat) (g : OsMem.globals) (bufs : list OsMem.os_mem_buf_t)
  (size j : Z) (m : memory) :
  (0 < size -> 0 <= j < 16 -> candidate bufs size j ->
   exists i,
     0 <= i < 16 /\ candidate bufs size i /\
     (forall k, 0 <= k < 16 -> candidate bufs size k ->
                OsMem.buf_size (OsMem.buf_at bufs i)
                <= OsMem.buf_size (OsMem.buf_at bufs k)) /\
     OsMem.os_mem_buf_get za fuel g bufs size m
     = Done (OsMem.buf_p (OsMem.buf_at bufs i), g,
             OsMem.buf_put bufs i (OsMem.set_used (OsMem.buf_at bufs i) true)) m) /\
  (size = 0 \/
   (forall k, 0 <= k < 16 -> OsMem.buf_used (OsMem.buf_at bufs k) = true) ->
   OsMem.os_mem_buf_get za fuel g bufs size m = Done (0, g, bufs) m).
Proof.
  assert (I0 : tightest_below bufs size 0 (-1)).
  { left. split; [reflexivity |]. intros k Hk. lia. }
  pose proof (buf_search_spec bufs size 16 0 (-1) ltac:(lia) I0) as S.
  change (0 + Z.of_nat 16) with 16 in S.
  unfold OsMem.os_mem_buf_get.
  change (Z.to_nat OsMem.OS_MEM_BUF_MAX_NUM) with 16%nat.
  split; [apply buf_get_fit |].
  intros [-> | Hu]; [reflexivity |].
  destruct (size =? 0); [reflexivity |].
  destruct (OsMem.buf_search 16 0 bufs size (-1)) as [r | r].
  + destruct S as (A & (B & _) & _). rewrite (Hu r) in B by lia. discriminate.
  + destruct S as [(-> & N) | (R & (C & _) & T)].
    * cbn [Z.leb Z.compare]. rewrite buf_first_unused_none; [reflexivity |].
      intros k Hk. apply Hu. lia.
    * rewrite (Hu r) in C by lia. discriminate.
Qed.

(** A request of 30 bytes on [three_buffers] gets the buffer of 32 bytes. *)
Lemma os_mem_buf_get_best_fit_witness :
  OsMem.os_mem_buf_get 0 0 OsMem.initial_globals three_buffers 30
    (zeroed 0 0)
  = Done (1064, OsMem.initial_globals,
          OsMem.buf_put three_buffers 2 (OsMem.mkBuf 1064 32 true))
         (zeroed 0 0).
Proof.
  destruct (os_mem_buf_get_best_fit 0 0 OsMem.initial_globals three_buffers
              30 0 (zeroed 0 0)) as (A & _).
  destruct A as (i & Hi & Ci & Ti & E);
    [lia | lia | split; [reflexivity | apply Z.leb_le; reflexivity] |].
  assert (Ei : i = 2).
  { destruct Ci as [Cu Cs].
    assert (C2 : candidate three_buffers 30 2)
      by (split; [reflexivity | apply Z.leb_le; reflexivity]).
    pose proof (Ti 2 ltac:(lia) C2) as T2.
    assert (Hc : i = 0 \/ i = 1 \/ i = 2 \/ i = 3 \/ i = 4 \/ i = 5 \/ i = 6
                 \/ i = 7 \/ i = 8 \/ i = 9 \/ i = 10 \/ i = 11 \/ i = 12
                 \/ i = 13 \/ i = 14 \/ i = 15) by lia.
    apply Z.leb_le in Cs.
    destruct Hc as [-> | [-> | [-> | Hc]]];
      [apply Z.leb_le in T2; vm_compute in T2; discriminate
      | vm_compute in Cu; discriminate | reflexivity |].
    repeat (destruct Hc as [-> | Hc]; [vm_compute in Cs; discriminate |]).
    subst i. vm_compute in Cs. discriminate. }
  subst i. exact E.
Defined.

Lemma buf_upd_length (l : list OsMem.os_mem_buf_t) :
  forall i b, length (OsMem.buf_upd l i b) = length l.
Proof.
  induction l as [| h t IH]; intros [| i] b; cbn; try reflexivity.
  rewrite IH. reflexivity.
Qed.

Lemma nth_buf_upd_same (l : list OsMem.os_mem_buf_t) :
  forall i b d, (i < length l)%nat -> nth i (OsMem.buf_upd l i b) d = b.
Proof.
  induction l as [| h t IH]; intros [| i] b d H; cbn in *; try lia;
    [reflexivity |].
  apply IH. lia.
Qed.

Lemma nth_buf_upd_other (l : list OsMem.os_mem_buf_t) :
  forall i k b d, i <> k -> nth k (OsMem.buf_upd l i b) d = nth k l d.
Proof.
  induction l as [| h t IH]; intros [| i] [| k] b d H; cbn; try reflexivity;
    try congruence.
  apply IH. congruence.
Qed.

Lemma buf_upd_upd (l : list OsMem.os_mem_buf_t) :
  forall i b c, OsMem.buf_upd (OsMem.buf_upd l i b) i c = OsMem.buf_upd l i c.
Proof.
  induction l as [| h t IH]; intros [| i] b c; cbn; try reflexivity.
  rewrite IH. reflexivity.
Qed.

Lemma buf_upd_nth (l : list OsMem.os_mem_buf_t) :
  forall i d, OsMem.buf_upd l i (nth i l d) = l.
Proof.
  induction l as [| h t IH]; intros [| i] d; cbn; try reflexivity.
  rewrite IH. reflexivity.
Qed.

Lemma buf_release_from_at (bufs : list OsMem.os_mem_buf_t) (p i : Z) (n : nat) :
  forall k, 0 <= k <= i -> i < k + Z.of_nat n ->
    (forall j, k <= j < i -> OsMem.buf_p (OsMem.buf_at bufs j) <> p) ->
    OsMem.buf_p (OsMem.buf_at bufs i) = p ->
    OsMem.buf_release_from n k bufs p
    = OsMem.buf_put bufs i (OsMem.set_used (OsMem.buf_at bufs i) false).
Proof.
  induction n as [| n IH]; intros k Hk Hn Hb Hi; [lia |].
  cbn [OsMem.buf_release_from].
  destruct (Z.eq_dec k i) as [-> | Hne].
  - rewrite Hi, Z.eqb_refl. reflexivity.
  - destruct (Z.eqb_spec (OsMem.buf_p (OsMem.buf_at bufs k)) p) as [E | _];
      [destruct (Hb k ltac:(lia) E) |].
    apply IH; [lia | lia | | exact Hi]. intros j Hj. apply Hb. lia.
Qed.

Lemma buf_release_from_none (bufs : list OsMem.os_mem_buf_t) (p : Z) (n : nat) :
  forall k, (forall j, k <= j < k + Z.of_nat n ->
                       OsMem.buf_p (OsMem.buf_at bufs j) <> p) ->
            OsMem.buf_release_from n k bufs p = bufs.
Proof.
  induction n as [| n IH]; intros k Hb; [reflexivity |].
  cbn [OsMem.buf_release_from].
  destruct (Z.eqb_spec (OsMem.buf_p (OsMem.buf_at bufs k)) p) as [E | _];
    [destruct (Hb k ltac:(lia) E) |].
  apply IH. intros j Hj. apply Hb. lia.
Qed.

(** X22. A buffer that [os_mem_buf_get] handed out from the table goes back
    with [os_mem_buf_release]: in a table whose buffers have pointers of
    their own, releasing the pointer returned gives the table as it was
    before the call.  Releasing a pointer that no entry holds changes
    nothing. *)
Theorem os_mem_buf_release_round_trip
  (za : Z) (fuel : nat) (g g' : OsMem.globals)
  (bufs bufs' : list OsMem.os_mem_buf_t) (size p j : Z) (m m' : memory) :
  length bufs = 16%nat -> distinct_buffers bufs ->
  0 < size -> 0 <= j < 16 -> candidate bufs size j ->
  OsMem.os_mem_buf_get za fuel g bufs size m = Done (p, g', bufs') m' ->
  OsMem.os_mem_buf_release bufs' p = bufs /\ g' = g /\ m' = m /\
  forall q, (forall k, 0 <= k < 16 -> OsMem.buf_p (OsMem.buf_at bufs k) <> q) ->
            OsMem.os_mem_buf_release bufs q = bufs.
Proof.
  intros Hlen Hd Hs Hj Cj H.
  destruct (buf_get_fit za fuel g bufs size j m Hs Hj Cj)
    as (i & Hi & (Cu & Cs) & _ & E).
  rewrite E in H.
  assert (Ep : p = OsMem.buf_p (OsMem.buf_at bufs i)) by congruence.
  assert (Eg : g' = g) by congruence.
  assert (Em : m' = m) by congruence.
  assert (Eb : bufs' = OsMem.buf_put bufs i
                         (OsMem.set_used (OsMem.buf_at bufs i) true))
    by congruence.
  clear H E.
  split; [| split; [exact Eg |]; split; [exact Em |]].
  - subst bufs'. unfold OsMem.os_mem_buf_release.
    change (Z.to_nat OsMem.OS_MEM_BUF_MAX_NUM) with 16%nat.
    set (b' := OsMem.set_used (OsMem.buf_at bufs i) true).
    assert (Hin : (Z.to_nat i < length bufs)%nat) by lia.
    assert (Ai : OsMem.buf_at (OsMem.buf_put bufs i b') i = b').
    { unfold OsMem.buf_at, OsMem.buf_put. apply nth_buf_upd_same. exact Hin. }
    assert (Ao : forall k, 0 <= k -> k <> i ->
                 OsMem.buf_at (OsMem.buf_put bufs i b') k = OsMem.buf_at bufs k).
    { intros k Hk Hne. unfold OsMem.buf_at, OsMem.buf_put.
      apply nth_buf_upd_other. lia. }
    rewrite (buf_release_from_at _ p i 16 0); [| lia | lia | |].
    + rewrite Ai. unfold OsMem.buf_put. rewrite buf_upd_upd.
      replace (OsMem.set_used b' false) with (OsMem.buf_at bufs i).
      * unfold OsMem.buf_at. apply buf_upd_nth.
      * unfold b', OsMem.set_used. cbn. rewrite <- Cu.
        destruct (OsMem.buf_at bufs i). reflexivity.
    + intros k Hk. rewrite Ao by lia. rewrite Ep. intros C.
      pose proof (Hd i k ltac:(lia) ltac:(lia) ltac:(lia) (eq_sym C)). lia.
    + rewrite Ai. symmetry. exact Ep.
  - intros q Hq. unfold OsMem.os_mem_buf_release.
    apply buf_release_from_none. intros k Hk. apply Hq.
    change (Z.of_nat (Z.to_nat OsMem.OS_MEM_BUF_MAX_NUM)) with 16 in Hk. lia.
Qed.

Lemma os_mem_buf_release_round_trip_witness :
  OsMem.os_mem_buf_release
    (OsMem.buf_put three_buffers 2 (OsMem.mkBuf 1064 32 true)) 1064
  = three_buffers.
Proof.
  assert (H : OsMem.os_mem_buf_get 0 0 OsMem.initial_globals three_buffers 30
                (zeroed 0 0)
              = Done (1064, OsMem.initial_globals,
                      OsMem.buf_put three_buffers 2 (OsMem.mkBuf 1064 32 true))
                     (zeroed 0 0)) by reflexivity.
  refine (proj1 (os_mem_buf_release_round_trip 0 0 _ _ three_buffers _ 30 1064 0
                   _ _ eq_refl _ _ _ _ H)).
  - intros a b Ha Hb Hne E.
    assert (Ca : a = 0 \/ a = 1 \/ a = 2 \/ a = 3 \/ a = 4 \/ a = 5 \/ a = 6
                 \/ a = 7 \/ a = 8 \/ a = 9 \/ a = 10 \/ a = 11 \/ a = 12
                 \/ a = 13 \/ a = 14 \/ a = 15) by lia.
    assert (Cb : b = 0 \/ b = 1 \/ b = 2 \/ b = 3 \/ b = 4 \/ b = 5 \/ b = 6
                 \/ b = 7 \/ b = 8 \/ b = 9 \/ b = 10 \/ b = 11 \/ b = 12
                 \/ b = 13 \/ b = 14 \/ b = 15) by lia.
    destruct Ca as [-> | [-> | [-> | Ca]]].
    + repeat (destruct Cb as [-> | Cb]; [first [lia | vm_compute in E; discriminate] |]).
      subst b. vm_compute in E. discriminate.
    + repeat (destruct Cb as [-> | Cb]; [first [lia | vm_compute in E; discriminate] |]).
      subst b. vm_compute in E. discriminate.
    + repeat (destruct Cb as [-> | Cb]; [first [lia | vm_compute in E; discriminate] |]).
      subst b. vm_compute in E. discriminate.
    + repeat (destruct Ca as [-> | Ca]; [reflexivity |]). subst a. reflexivity.
  - lia.
  - lia.
  - split; [reflexivity | apply Z.leb_le; reflexivity].
Defined.

Lemma buf_at_put (bufs : list OsMem.os_mem_buf_t) (i k : Z) (b : OsMem.os_mem_buf_t) :
  0 <= i -> 0 <= k -> (Z.to_nat i < length bufs)%nat ->
  OsMem.buf_at (OsMem.buf_put bufs i b) k
  = if k =? i then b else OsMem.buf_at bufs k.
Proof.
  intros Hi Hk Hl. unfold OsMem.buf_at, OsMem.buf_put.
  destruct (Z.eqb_spec k i) as [-> | Hne].
  - apply nth_buf_upd_same. exact Hl.
  - apply nth_buf_upd_other. lia.
Qed.

Lemma buf_free_from_spec (za : Z) (n : nat) :
  forall i g bufs g' bufs' m m',
    0 <= i -> (Z.to_nat i + n <= length bufs)%nat ->
    OsMem.buf_free_from za n i g bufs m = Done (g', bufs') m' ->
    length bufs' = length bufs /\
    forall k, 0 <= k ->
      OsMem.buf_at bufs' k
      = if (i <=? k) && (k <? i + Z.of_nat n)
           && negb (OsMem.buf_p (OsMem.buf_at bufs k) =? 0)
        then OsMem.mkBuf 0 0 false else OsMem.buf_at bufs k.
Proof.
  induction n as [| n IH]; intros i g bufs g' bufs' m m' Hi Hl H;
    cbn [OsMem.buf_free_from] in H.
  - apply ret_Done in H. destruct H as [E _].
    assert (Eb : bufs' = bufs) by congruence. subst bufs'.
    split; [reflexivity |]. intros k Hk.
    destruct (Z.leb_spec i k), (Z.ltb_spec k (i + Z.of_nat 0)); cbn;
      try reflexivity; lia.
  - destruct (Z.eqb_spec (OsMem.buf_p (OsMem.buf_at bufs i)) 0) as [Ez | Enz];
      cbn [negb] in H.
    + apply IH in H; [| lia | lia]. destruct H as (L & A).
      split; [exact L |]. intros k Hk. rewrite (A k Hk).
      destruct (Z.eq_dec k i) as [-> | Hne].
      * rewrite Ez. cbn [Z.eqb negb]. rewrite !andb_false_r. reflexivity.
      * destruct (Z.leb_spec (i + 1) k), (Z.leb_spec i k),
          (Z.ltb_spec k (i + 1 + Z.of_nat n)),
          (Z.ltb_spec k (i + Z.of_nat (S n))); cbn; try reflexivity; lia.
    + inv_bind H.
      apply IH in H; [| lia | unfold OsMem.buf_put; rewrite buf_upd_length; lia].
      destruct H as (L & A). unfold OsMem.buf_put in L.
      rewrite buf_upd_length in L.
      split; [exact L |]. intros k Hk. rewrite (A k Hk).
      rewrite (buf_at_put bufs i k) by lia.
      destruct (Z.eqb_spec k i) as [-> | Hne].
      * cbn [OsMem.buf_p Z.eqb negb]. rewrite andb_false_r.
        destruct (Z.leb_spec i i), (Z.ltb_spec i (i + Z.of_nat (S n)));
          try lia.
        destruct (Z.eqb_spec (OsMem.buf_p (OsMem.buf_at bufs i)) 0);
          [contradiction | reflexivity].
      * destruct (Z.leb_spec (i + 1) k), (Z.leb_spec i k),
          (Z.ltb_spec k (i + 1 + Z.of_nat n)),
          (Z.ltb_spec k (i + Z.of_nat (S n))); cbn; try reflexivity; lia.
Qed.

Lemma buf_free_from_null (za : Z) (n : nat) :
  forall i g bufs m,
    (forall k, i <= k < i + Z.of_nat n ->
               OsMem.buf_p (OsMem.buf_at bufs k) = 0) ->
    OsMem.buf_free_from za n i g bufs m = Done (g, bufs) m.
Proof.
  induction n as [| n IH]; intros i g bufs m H; cbn [OsMem.buf_free_from];
    [reflexivity |].
  rewrite (H i) by lia. cbn [Z.eqb negb]. apply IH.
  intros k Hk. apply H. lia.
Qed.

(** X23. Whenever [os_mem_buf_free_all] returns, every entry of the table
    that held a pointer is cleared (null, size 0, not in use) and every
    other entry is as it was, even one that is marked used.  On a table
    without pointers, such as the one at start-up, the call changes
    nothing and does not touch the heap. *)
Theorem os_mem_buf_free_all_clears
  (za : Z) (g g' : OsMem.globals) (bufs bufs' : list OsMem.os_mem_buf_t)
  (m m' : memory) :
  length bufs = 16%nat ->
  (OsMem.os_mem_buf_free_all za g bufs m = Done (g', bufs') m' ->
   length bufs' = 16%nat /\
   forall k, 0 <= k < 16 ->
     OsMem.buf_p (OsMem.buf_at bufs' k) = 0 /\
     OsMem.buf_at bufs' k
     = if OsMem.buf_p (OsMem.buf_at bufs k) =? 0 then OsMem.buf_at bufs k
       else OsMem.mkBuf 0 0 false) /\
  ((forall k, 0 <= k < 16 -> OsMem.buf_p (OsMem.buf_at bufs k) = 0) ->
   OsMem.os_mem_buf_free_all za g bufs m = Done (g, bufs) m) /\
  OsMem.os_mem_buf_free_all za g OsMem.os_mem_buf_init m
  = Done (g, OsMem.os_mem_buf_init) m.
Proof.
  intros Hl. unfold OsMem.os_mem_buf_free_all.
  change (Z.to_nat OsMem.OS_MEM_BUF_MAX_NUM) with 16%nat.
  split; [| split].
  - intros H. apply buf_free_from_spec in H; [| lia | rewrite Hl; cbn; lia].
    destruct H as (L & A). split; [congruence |].
    intros k Hk. rewrite (A k ltac:(lia)).
    destruct (Z.leb_spec 0 k), (Z.ltb_spec k (0 + Z.of_nat 16)); try lia.
    cbn [andb].
    destruct (Z.eqb_spec (OsMem.buf_p (OsMem.buf_at bufs k)) 0) as [E | E];
      cbn [negb]; split; try reflexivity. exact E.
  - intros H. apply buf_free_from_null. intros k Hk. apply H. lia.
  - reflexivity.
Qed.

Lemma os_mem_buf_free_all_clears_witness :
  OsMem.os_mem_buf_free_all 0 OsMem.initial_globals
    (OsMem.buf_put OsMem.os_mem_buf_init 3 (OsMem.mkBuf 0 7 true)) (zeroed 0 0)
  = Done (OsMem.initial_globals,
          OsMem.buf_put OsMem.os_mem_buf_init 3 (OsMem.mkBuf 0 7 true))
         (zeroed 0 0).
Proof.
  refine (proj1 (proj2 (os_mem_buf_free_all_clears 0 OsMem.initial_globals
            OsMem.initial_globals
            (OsMem.buf_put OsMem.os_mem_buf_init 3 (OsMem.mkBuf 0 7 true))
            OsMem.os_mem_buf_init (zeroed 0 0) (zeroed 0 0) eq_refl)) _).
  intros k Hk.
  assert (Hc : k = 0 \/ k = 1 \/ k = 2 \/ k = 3 \/ k = 4 \/ k = 5 \/ k = 6
               \/ k = 7 \/ k = 8 \/ k = 9 \/ k = 10 \/ k = 11 \/ k = 12
               \/ k = 13 \/ k = 14 \/ k = 15) by lia.
  repeat (destruct Hc as [-> | Hc]; [reflexivity |]). subst k. reflexivity.
Defined.

(** ** The dispatch loop with callbacks that leave the scheduler alone *)

Lemma ll_find_mid (pre post : list (Z * os_timer_t)) (a : Z) (t : os_timer_t) :
  ~ In a (map fst pre) -> ll_find (pre ++ (a, t) :: post) a = Some t.
Proof.
  induction pre as [| [b x] pre IH]; cbn; intros H.
  - rewrite Z.eqb_refl. reflexivity.
  - destruct (Z.eqb_spec b a) as [E | _]; [destruct H; left; exact E |].
    apply IH. intros C. apply H. right. exact C.
Qed.

Lemma ll_set_mid (pre post : list (Z * os_timer_t)) (a : Z) (t x : os_timer_t) :
  ~ In a (map fst pre) ->
  ll_set (pre ++ (a, t) :: post) a x = pre ++ (a, x) :: post.
Proof.
  induction pre as [| [b y] pre IH]; cbn; intros H.
  - rewrite Z.eqb_refl. reflexivity.
  - destruct (Z.eqb_spec b a) as [E | _]; [destruct H; left; exact E |].
    rewrite IH; [reflexivity |]. intros C. apply H. right. exact C.
Qed.

Lemma ll_remove_mid (pre post : list (Z * os_timer_t)) (a : Z) (t : os_timer_t) :
  ~ In a (map fst pre) ->
  _os_ll_remove (pre ++ (a, t) :: post) a = pre ++ post.
Proof.
  induction pre as [| [b y] pre IH]; cbn; intros H.
  - rewrite Z.eqb_refl. reflexivity.
  - destruct (Z.eqb_spec b a) as [E | _]; [destruct H; left; exact E |].
    rewrite IH; [reflexivity |]. intros C. apply H. right. exact C.
Qed.

Lemma ll_get_next_mid (pre post : list (Z * os_timer_t)) (a : Z) (t : os_timer_t) :
  ~ In a (map fst pre) ->
  _os_ll_get_next (pre ++ (a, t) :: post) a = Some (_os_ll_get_head post).
Proof.
  induction pre as [| [b y] pre IH]; cbn; intros H.
  - rewrite Z.eqb_refl. reflexivity.
  - destruct (Z.eqb_spec b a) as [E | _]; [destruct H; left; exact E |].
    apply IH. intros C. apply H. right. exact C.
Qed.

Lemma time_remaining_snd (s : sched) (t : os_timer_t) :
  snd (os_timer_time_remaining s t) = snd (os_tick_get s).
Proof.
  unfold os_timer_time_remaining, os_tick_elaps. cbn [os_tick_get].
  destruct (last_run t <=? sys_time s);
    match goal with |- context [if ?c then _ else _] => destruct c end;
    reflexivity.
Qed.

Lemma pass_potential (n : nat) :
  (n + 1 + restart_fuel false n = passes_fuel n)%nat.
Proof. destruct n as [| k]; cbn [restart_fuel passes_fuel]; lia. Qed.

(** The end of [os_timer_exec]: a timer whose repeat count has reached 0 is
    deleted, unless a deletion has been recorded already. *)
Lemma os_timer_exec_tail
  (exec0 : bool) (X : sched) (pre post : list (Z * os_timer_t))
  (a : Z) (t1 : os_timer_t) :
  timer_ll X = pre ++ (a, t1) :: post -> ~ In a (map fst pre) ->
  exists s1,
    (if negb (timer_deleted X) then
       obind (ll_find (timer_ll X) a) (fun t0 =>
         if repeat_count t0 =? 0
         then obind (os_timer_del X a) (fun s2 => Some (exec0, s2))
         else Some (exec0, X))
     else Some (exec0, X)) = Some (exec0, s1) /\
    sys_time s1 = sys_time X /\ timer_created s1 = timer_created X /\
    already_running s1 = already_running X /\
    os_timer_run s1 = os_timer_run X /\ fired s1 = fired X /\
    ((timer_ll s1 = timer_ll X /\ timer_deleted s1 = timer_deleted X) \/
     (timer_ll s1 = pre ++ post /\ timer_deleted X = false /\
      timer_deleted s1 = true)).
Proof.
  intros Hl Ha.
  assert (Keep : exists s1, Some (exec0, X) = Some (exec0, s1) /\
            sys_time s1 = sys_time X /\ timer_created s1 = timer_created X /\
            already_running s1 = already_running X /\
            os_timer_run s1 = os_timer_run X /\ fired s1 = fired X /\
            ((timer_ll s1 = timer_ll X /\ timer_deleted s1 = timer_deleted X) \/
             (timer_ll s1 = pre ++ post /\ timer_deleted X = false /\
              timer_deleted s1 = true))).
  { exists X. repeat (split; [reflexivity |]). left. split; reflexivity. }
  destruct (timer_deleted X) eqn:Hd; cbn [negb]; [exact Keep |].
  rewrite Hl, (ll_find_mid _ _ _ _ Ha). cbn [obind].
  destruct (repeat_count t1 =? 0); [| rewrite <- Hl; exact Keep].
  unfold os_timer_del. rewrite Hl, (ll_find_mid _ _ _ _ Ha). cbn [obind].
  rewrite (ll_remove_mid _ _ _ _ Ha).
  eexists. split; [reflexivity |].
  repeat (split; [reflexivity |]).
  right. split; [reflexivity |]. split; reflexivity.
Qed.

Lemma os_timer_exec_no_callbacks
  (la : list Z -> option Z) (h : sched -> option (Z * sched))
  (s : sched) (pre post : list (Z * os_timer_t)) (a : Z) (t : os_timer_t) :
  timer_ll s = pre ++ (a, t) :: post -> ~ In a (map fst pre) ->
  exists exec s1 evs,
    os_timer_exec la no_callbacks h s a = Some (exec, s1) /\
    sys_time s1 = sys_time s /\ timer_created s1 = timer_created s /\
    already_running s1 = already_running s /\
    os_timer_run s1 = os_timer_run s /\
    fired s1 = fired s ++ evs /\
    (paused t = false -> fst (os_timer_time_remaining s t) = 0 ->
     timer_cb t <> 0 -> repeat_count t <> 0 ->
     In (mkFire (uid t) (sys_time s) (last_run t)) evs) /\
    ((exists t1, timer_ll s1 = pre ++ (a, t1) :: post /\
                 timer_deleted s1 = timer_deleted s) \/
     (timer_ll s1 = pre ++ post /\ timer_deleted s = false /\
      timer_deleted s1 = true)).
Proof.
  intros Hl Ha. unfold os_timer_exec. rewrite Hl, (ll_find_mid _ _ _ _ Ha).
  cbn [obind]. destruct (paused t) eqn:Hp.
  - exists false, s, []. rewrite app_nil_r.
    repeat (split; [reflexivity |]).
    split; [intros C; discriminate |].
    left. exists t. split; [exact Hl | reflexivity].
  - pose proof (time_remaining_snd s t) as Es.
    destruct (os_timer_time_remaining s t) as [rem s0] eqn:Er.
    cbn [fst snd] in Es. subst s0. cbn [fst].
    assert (Fin : forall (exec0 : bool) (X : sched) (t1 : os_timer_t)
                         (evs : list fire),
              timer_ll X = pre ++ (a, t1) :: post ->
              sys_time X = sys_time s -> timer_created X = timer_created s ->
              already_running X = already_running s ->
              os_timer_run X = os_timer_run s ->
              timer_deleted X = timer_deleted s ->
              fired X = fired s ++ evs ->
              (rem = 0 -> timer_cb t <> 0 -> repeat_count t <> 0 ->
               In (mkFire (uid t) (sys_time s) (last_run t)) evs) ->
              exists exec s1 evs',
                (if negb (timer_deleted X) then
                   obind (ll_find (timer_ll X) a) (fun t0 =>
                     if repeat_count t0 =? 0
                     then obind (os_timer_del X a) (fun s2 => Some (exec0, s2))
                     else Some (exec0, X))
                 else Some (exec0, X)) = Some (exec, s1) /\
                sys_time s1 = sys_time s /\
                timer_created s1 = timer_created s /\
                already_running s1 = already_running s /\
                os_timer_run s1 = os_timer_run s /\
                fired s1 = fired s ++ evs' /\
                (false = false -> rem = 0 -> timer_cb t <> 0 ->
                 repeat_count t <> 0 ->
                 In (mkFire (uid t) (sys_time s) (last_run t)) evs') /\
                ((exists t1, timer_ll s1 = pre ++ (a, t1) :: post /\
                             timer_deleted s1 = timer_deleted s) \/
                 (timer_ll s1 = pre ++ post /\ timer_deleted s = false /\
                  timer_deleted s1 = true))).
    { intros exec0 X t1 evs HX H1 H2 H3 H4 H5 H6 H7.
      destruct (os_timer_exec_tail exec0 X pre post a t1 HX Ha)
        as (s1 & E & A1 & A2 & A3 & A4 & A5 & A6).
      exists exec0, s1, evs. split; [exact E |].
      split; [congruence |]. split; [congruence |]. split; [congruence |].
      split; [congruence |]. split; [congruence |].
      split; [intros _; exact H7 |].
      destruct A6 as [(B1 & B2) | (B1 & B2 & B3)].
      - left. exists t1. split; congruence.
      - right. split; [exact B1 |]. split; congruence. }
    destruct (Z.eqb_spec rem 0) as [-> | Hrem].
    + cbn [os_tick_get snd fst sys_time timer_ll fired with_ll with_fired].
      rewrite Hl, (ll_set_mid _ _ _ _ _ Ha). unfold no_callbacks.
      cbn [run_app].
      destruct (Z.eqb_spec (timer_cb t) 0) as [Hcb | Hcb];
        [| destruct (Z.eqb_spec (repeat_count t) 0) as [Hrc | Hrc]];
        cbn [negb andb obind].
      * eapply Fin with (evs := []); try reflexivity.
        -- rewrite app_nil_r. reflexivity.
        -- intros _ C. contradiction.
      * eapply Fin with (evs := []); try reflexivity.
        -- rewrite app_nil_r. reflexivity.
        -- intros _ _ C. contradiction.
      * eapply Fin
          with (evs := [mkFire (uid t) (sys_time s) (last_run t)]);
          try reflexivity.
        intros _ _ _. left. reflexivity.
    + cbn [obind]. eapply Fin with (evs := []) (t1 := t); try reflexivity.
      * exact Hl.
      * rewrite app_nil_r. reflexivity.
      * intros C. contradiction.
Qed.

Lemma timer_loop_no_callbacks
  (la : list Z -> option Z) (h : sched -> option (Z * sched)) :
  forall fuel s pre post,
    timer_ll s = pre ++ post ->
    os_timer_act s = _os_ll_get_head post ->
    NoDup (map fst (timer_ll s)) -> ~ In 0 (map fst (timer_ll s)) ->
    timer_created s = false ->
    (length post + 1 + restart_fuel (timer_deleted s) (length (timer_ll s))
     <= fuel)%nat ->
    exists s' evs,
      timer_loop la no_callbacks h fuel s = Some s' /\
      sys_time s' = sys_time s /\ already_running s' = already_running s /\
      os_timer_run s' = os_timer_run s /\
      fired s' = fired s ++ evs /\
      forall a t, In (a, t) post -> paused t = false ->
        fst (os_timer_time_remaining s t) = 0 ->
        timer_cb t <> 0 -> repeat_count t <> 0 ->
        In (mkFire (uid t) (sys_time s) (last_run t)) evs.
Proof.
  induction fuel as [| fuel IH]; intros s pre post Hl Hact Hnd H0 Hcr Hf;
    [lia |].
  destruct post as [| [a t] post'].
  - cbn [timer_loop]. rewrite Hact. cbn [_os_ll_get_head Z.eqb].
    exists s, []. rewrite app_nil_r.
    repeat (split; [reflexivity |]). intros a t [].
  - cbn [_os_ll_get_head] in Hact.
    assert (Hnd' : NoDup (map fst pre ++ a :: map fst post')).
    { rewrite Hl, map_app in Hnd. exact Hnd. }
    assert (Ha : ~ In a (map fst pre)).
    { intros C. apply (NoDup_remove_2 _ _ _ Hnd'). apply in_or_app. left.
      exact C. }
    assert (Haz : a <> 0).
    { intros ->. apply H0. rewrite Hl, map_app. apply in_or_app. right.
      left. reflexivity. }
    cbn [timer_loop]. rewrite Hact.
    destruct (Z.eqb_spec a 0) as [C | _]; [contradiction |].
    assert (Gn : _os_ll_get_next (timer_ll s) a = Some (_os_ll_get_head post'))
      by (rewrite Hl; apply ll_get_next_mid; exact Ha).
    rewrite Gn. cbn [obind].
    destruct (os_timer_exec_no_callbacks la h s pre post' a t Hl Ha)
      as (exec & s1 & evs1 & E & T1 & C1 & R1 & U1 & F1 & D1 & K).
    rewrite E. cbn [obind]. rewrite C1, Hcr. cbn [orb].
    assert (Hlen : length (timer_ll s) = (length pre + S (length post'))%nat).
    { rewrite Hl, length_app. reflexivity. }
    (* what is left to show once the rest of the loop has run *)
    assert (Rest : forall s2 post2,
              sys_time s2 = sys_time s1 -> already_running s2 = already_running s1 ->
              os_timer_run s2 = os_timer_run s1 -> fired s2 = fired s1 ->
              (forall x, In x post' -> In x post2) ->
              (exists s' evs,
                 timer_loop la no_callbacks h fuel s2 = Some s' /\
                 sys_time s' = sys_time s2 /\
                 already_running s' = already_running s2 /\
                 os_timer_run s' = os_timer_run s2 /\
                 fired s' = fired s2 ++ evs /\
                 forall b tb, In (b, tb) post2 -> paused tb = false ->
                   fst (os_timer_time_remaining s2 tb) = 0 ->
                   timer_cb tb <> 0 -> repeat_count tb <> 0 ->
                   In (mkFire (uid tb) (sys_time s2) (last_run tb)) evs) ->
              exists s' evs,
                timer_loop la no_callbacks h fuel s2 = Some s' /\
                sys_time s' = sys_time s /\
                already_running s' = already_running s /\
                os_timer_run s' = os_timer_run s /\
                fired s' = fired s ++ evs /\
                forall b tb, In (b, tb) ((a, t) :: post') -> paused tb = false ->
                  fst (os_timer_time_remaining s tb) = 0 ->
                  timer_cb tb <> 0 -> repeat_count tb <> 0 ->
                  In (mkFire (uid tb) (sys_time s) (last_run tb)) evs).
    { intros s2 post2 A1 A2 A3 A4 Sub (s' & evs2 & B1 & B2 & B3 & B4 & B5 & B6).
      exists s', (evs1 ++ evs2). split; [exact B1 |].
      split; [congruence |]. split; [congruence |]. split; [congruence |].
      split; [rewrite B5, A4, F1, app_assoc; reflexivity |].
      intros b tb [Eb | Hin] Hp Hr Hc Hrc; apply in_or_app.
      - left. inversion Eb. subst b tb. apply D1; assumption.
      - right.
        assert (Et : sys_time s2 = sys_time s) by congruence.
        rewrite <- Et. apply (B6 b tb); try assumption.
        + apply Sub. exact Hin.
        + rewrite (time_remaining_time s s2 tb Et). exact Hr. }
    destruct K as [(t1 & L1 & X1) | (L1 & X0 & X1)].
    + (* the timer stays in the list *)
      assert (Hm : map fst (timer_ll s1) = map fst (timer_ll s)).
      { rewrite L1, Hl, !map_app. reflexivity. }
      assert (Hlen1 : length (timer_ll s1) = length (timer_ll s)).
      { rewrite L1, Hl, !length_app. reflexivity. }
      destruct (exec && timer_deleted s1) eqn:Eb.
      * apply andb_true_iff in Eb. destruct Eb as [_ Ed].
        apply (Rest (pass_start s1) (timer_ll s1)); try reflexivity.
        -- intros x Hx. rewrite L1. apply in_or_app. right. right. exact Hx.
        -- apply (IH (pass_start s1) [] (timer_ll s1)); try reflexivity.
           ++ cbn [pass_start with_act with_flags timer_ll]. rewrite Hm. exact Hnd.
           ++ cbn [pass_start with_act with_flags timer_ll]. rewrite Hm. exact H0.
           ++ cbn [pass_start with_act with_flags timer_ll timer_deleted].
              rewrite pass_potential, Hlen1.
              rewrite <- X1, Ed in Hf. cbn [restart_fuel length] in Hf. lia.
      * apply (Rest (with_act s1 (_os_ll_get_head post')) post');
          try reflexivity; [intros x Hx; exact Hx |].
        apply (IH (with_act s1 (_os_ll_get_head post')) (pre ++ [(a, t1)]) post');
          try reflexivity.
        -- cbn [with_act timer_ll]. rewrite L1, <- app_assoc. reflexivity.
        -- cbn [with_act timer_ll]. rewrite Hm. exact Hnd.
        -- cbn [with_act timer_ll]. rewrite Hm. exact H0.
        -- cbn [with_act timer_created]. congruence.
        -- cbn [with_act timer_ll timer_deleted]. rewrite Hlen1, X1.
           cbn [length] in Hf. lia.
    + (* the timer has been deleted *)
      assert (Hnd1 : NoDup (map fst (timer_ll s1))).
      { rewrite L1, map_app. apply (NoDup_remove_1 _ _ _ Hnd'). }
      assert (H01 : ~ In 0 (map fst (timer_ll s1))).
      { intros C. apply H0. rewrite Hl, map_app. rewrite L1, map_app in C.
        apply in_app_or in C. apply in_or_app.
        destruct C as [C | C]; [left; exact C | right; right; exact C]. }
      assert (Hlen1 : S (length (timer_ll s1)) = length (timer_ll s)).
      { rewrite L1, Hl, !length_app. cbn [length]. lia. }
      rewrite X0 in Hf. rewrite <- Hlen1 in Hf. cbn [restart_fuel length] in Hf.
      rewrite X1, andb_true_r.
      destruct exec.
      * apply (Rest (pass_start s1) (timer_ll s1)); try reflexivity.
        -- intros x Hx. rewrite L1. apply in_or_app. right. exact Hx.
        -- apply (IH (pass_start s1) [] (timer_ll s1)); try reflexivity.
           ++ exact Hnd1.
           ++ exact H01.
           ++ cbn [pass_start with_act with_flags timer_ll timer_deleted].
              rewrite pass_potential. lia.
      * apply (Rest (with_act s1 (_os_ll_get_head post')) post');
          try reflexivity; [intros x Hx; exact Hx |].
        apply (IH (with_act s1 (_os_ll_get_head post')) pre post');
          try reflexivity.
        -- exact L1.
        -- exact Hnd1.
        -- exact H01.
        -- cbn [with_act timer_created]. congruence.
        -- cbn [with_act timer_ll timer_deleted]. rewrite X1.
           cbn [restart_fuel]. lia.
Qed.

(** X24. With callbacks that leave the scheduler alone, a call of
    [os_timer_handler] that gets past its guards always returns: on a list
    of [n] timers the dispatch loop is through after at most
    [passes_fuel n] rounds, restarts after deletions included.  Every timer
    that was due at the call, not paused, with a callback and a repeat
    count other than 0, has had its callback invoked, with [last_run] set
    to the current tick. *)
Theorem os_timer_handler_runs_due_timers
  (ll_alloc : list Z -> option Z) (s : sched) :
  NoDup (map fst (timer_ll s)) -> ~ In 0 (map fst (timer_ll s)) ->
  already_running s = false -> os_timer_run s = true ->
  exists r s' evs,
    os_timer_handler ll_alloc no_callbacks
      (S (passes_fuel (length (timer_ll s)))) s = Some (r, s') /\
    fired s' = fired s ++ evs /\ already_running s' = false /\
    sys_time s' = sys_time s /\
    forall a t, ll_find (timer_ll s) a = Some t -> paused t = false ->
      fst (os_timer_time_remaining s t) = 0 ->
      timer_cb t <> 0 -> repeat_count t <> 0 ->
      In (mkFire (uid t) (sys_time s) (last_run t)) evs.
Proof.
  intros Hnd H0 Har Hrun. cbn [os_timer_handler]. rewrite Har.
  change (os_timer_run (with_running s true)) with (os_timer_run s).
  rewrite Hrun. cbn [negb os_tick_get].
  set (hs := sys_time (with_running s true)).
  set (s0 := if hs =? 0 then bump_run_cnt _ else _).
  assert (A : timer_ll s0 = timer_ll s /\ sys_time s0 = sys_time s /\
              fired s0 = fired s).
  { unfold s0. destruct (hs =? 0); repeat split. }
  destruct A as (A1 & A2 & A3).
  destruct (timer_loop_no_callbacks ll_alloc
              (os_timer_handler ll_alloc no_callbacks
                 (passes_fuel (length (timer_ll s))))
              (passes_fuel (length (timer_ll s))) (pass_start s0) []
              (timer_ll s0))
    as (s2 & evs & E & T2 & R2 & U2 & F2 & D2); try reflexivity.
  - cbn [pass_start with_act with_flags timer_ll]. rewrite A1. exact Hnd.
  - cbn [pass_start with_act with_flags timer_ll]. rewrite A1. exact H0.
  - cbn [pass_start with_act with_flags timer_ll timer_deleted].
    rewrite pass_potential, A1. lia.
  - rewrite E. cbn [obind].
    pose proof (next_wake_same (timer_ll s2) s2 OS_NO_TIMER_READY) as (_ & N1 & _).
    pose proof (next_wake_time (timer_ll s2) s2 OS_NO_TIMER_READY) as N2.
    destruct (next_wake (timer_ll s2) s2 OS_NO_TIMER_READY) as [ttn s3].
    cbn [snd] in N1, N2.
    pose proof (idle_update_same s3 hs) as (_ & I1 & _).
    pose proof (idle_update_time s3 hs) as I2.
    exists ttn, (with_running (idle_update s3 hs) false), evs.
    split; [reflexivity |].
    split; [cbn [with_running fired]; rewrite I1, N1, F2; cbn; rewrite A3;
            reflexivity |].
    split; [reflexivity |].
    split; [cbn [with_running sys_time]; rewrite I2, N2, T2; cbn; exact A2 |].
    intros a t Hf Hp Hr Hc Hrc.
    cbn [pass_start with_act with_flags sys_time] in D2. rewrite A2 in D2.
    apply (D2 a t); try assumption.
    + rewrite A1. apply ll_find_In_pair. exact Hf.
    + rewrite <- Hr. apply time_remaining_time.
      cbn [pass_start with_act with_flags sys_time]. exact A2.
Qed.

(** Three timers at tick 100: the first due with one run left, the second
    paused, the third due. *)
Lemma os_timer_handler_runs_due_timers_witness :
  exists r s' evs,
    os_timer_handler bump_alloc no_callbacks 11
      (mkSched 100 0 [(8, mkTimer 50 10 1 0 1 false 0);
                      (12, mkTimer 50 10 1 0 (-1) true 1);
                      (16, mkTimer 20 70 1 0 (-1) false 2)]
               0 true 0 false false false 0 0 0 3 []) = Some (r, s') /\
    fired s' = evs /\ In (mkFire 2 100 70) evs.
Proof.
  destruct (os_timer_handler_runs_due_timers bump_alloc
              (mkSched 100 0 [(8, mkTimer 50 10 1 0 1 false 0);
                              (12, mkTimer 50 10 1 0 (-1) true 1);
                              (16, mkTimer 20 70 1 0 (-1) false 2)]
                       0 true 0 false false false 0 0 0 3 []))
    as (r & s' & evs & E & F & _ & _ & D).
  - cbn. repeat constructor; cbn; intuition discriminate.
  - cbn. intuition discriminate.
  - reflexivity.
  - reflexivity.
  - exists r, s', evs. split; [exact E |]. split; [exact F |].
    apply (D 16 (mkTimer 20 70 1 0 (-1) false 2)); try reflexivity;
      cbn; discriminate.
Defined.

(** ** Rounding to a power of two *)

Lemma pow2_range (k : Z) : 0 <= k < 32 -> 0 < 2 ^ k <= 2 ^ 31.
Proof.
  intros Hk. split; [apply Z.pow_pos_nonneg; lia |].
  apply Z.pow_le_mono_r; lia.
Qed.

Lemma sub_pow2_1 (k : Z) : 0 <= k < 32 -> sub (2 ^ k) 1 = Z.ones k.
Proof.
  intros Hk. pose proof (pow2_range k Hk) as R.
  unfold sub, u32, modulus. rewrite Z.ones_equiv, Z.mod_small; [lia |].
  change (2 ^ 32) with (2 * 2 ^ 31). lia.
Qed.

Lemma land_not32_ones (y k : Z) :
  0 <= k < 32 -> 0 <= y < modulus ->
  Z.land y (not32 (Z.ones k)) = 2 ^ k * (y / 2 ^ k).
Proof.
  intros Hk Hy.
  assert (E : not32 (Z.ones k) = Z.land (Z.lnot (Z.ones k)) (Z.ones 32)).
  { unfold not32, u32, modulus. rewrite Z.land_ones by lia. reflexivity. }
  rewrite E.
  rewrite (Z.land_comm (Z.lnot (Z.ones k))), Z.land_assoc.
  rewrite (Z.land_ones y 32) by lia.
  rewrite Z.mod_small by exact Hy.
  rewrite <- Z.ldiff_land.
  rewrite Z.ldiff_ones_r by lia.
  rewrite Z.shiftr_div_pow2, Z.shiftl_mul_pow2 by lia. lia.
Qed.

(** X25. Rounding to a power of two [align = 2^k], [k] from 0 to 31, on
    32-bit values: [align_down] gives the greatest multiple of [align] that
    is at most [x]; [align_up] and [align_ptr] give the least multiple of
    [align] that is at least [x], as long as that multiple is below 2^32;
    when it would be 2^32 the addition wraps round and both give 0. *)
Theorem align_power_of_two (x k : Z) :
  0 <= k < 32 -> 0 <= x < modulus ->
  let align := 2 ^ k in
  (Tlsf.align_down x align mod align = 0 /\
   Tlsf.align_down x align <= x < Tlsf.align_down x align + align) /\
  (x + align - 1 < modulus ->
   Tlsf.align_up x align mod align = 0 /\
   x <= Tlsf.align_up x align < x + align) /\
  (modulus <= x + align - 1 -> Tlsf.align_up x align = 0) /\
  Tlsf.align_ptr x align = Tlsf.align_up x align.
Proof.
  intros Hk Hx. cbv zeta. pose proof (pow2_range k Hk) as R.
  assert (Ha : 0 < 2 ^ k) by lia.
  assert (HM : modulus = 2 * 2 ^ 31) by reflexivity.
  split; [| split; [| split]].
  - unfold Tlsf.align_down. rewrite (sub_pow2_1 k Hk), Z.land_ones by lia.
    pose proof (Z.mod_pos_bound x (2 ^ k) Ha) as Rm.
    pose proof (Z.mod_le x (2 ^ k) ltac:(lia) Ha) as Rl.
    unfold sub, u32. rewrite (Z.mod_small (x - x mod 2 ^ k)) by lia.
    split; [| lia].
    rewrite (Z.div_mod x (2 ^ k)) at 1 by lia.
    replace (2 ^ k * (x / 2 ^ k) + x mod 2 ^ k - x mod 2 ^ k)
      with (x / 2 ^ k * 2 ^ k) by lia.
    apply Z.mod_mul. lia.
  - intros Hs. unfold Tlsf.align_up. rewrite (sub_pow2_1 k Hk).
    rewrite Z.ones_equiv. unfold add, u32.
    rewrite (Z.mod_small (x + Z.pred (2 ^ k))) by lia.
    rewrite <- Z.ones_equiv, land_not32_ones by (rewrite ?Z.ones_equiv; lia).
    rewrite Z.ones_equiv.
    pose proof (Z.div_mod (x + Z.pred (2 ^ k)) (2 ^ k) ltac:(lia)) as D.
    pose proof (Z.mod_pos_bound (x + Z.pred (2 ^ k)) (2 ^ k) Ha) as Rm.
    split; [rewrite Z.mul_comm; apply Z.mod_mul; lia | lia].
  - intros Hs. unfold Tlsf.align_up. rewrite (sub_pow2_1 k Hk).
    rewrite Z.ones_equiv. unfold add, u32.
    assert (E : (x + Z.pred (2 ^ k)) mod modulus = x + Z.pred (2 ^ k) - modulus).
    { symmetry. apply Z.mod_unique with (q := 1); lia. }
    rewrite E, <- Z.ones_equiv, land_not32_ones by (rewrite ?Z.ones_equiv; lia).
    rewrite Z.ones_equiv.
    rewrite Z.div_small; lia.
  - reflexivity.
Qed.

Lemma align_power_of_two_witness :
  Tlsf.align_up 1001 (2 ^ 4) = 1008 /\
  1001 <= Tlsf.align_up 1001 (2 ^ 4) < 1001 + 2 ^ 4.
Proof.
  split; [reflexivity |].
  destruct (align_power_of_two 1001 4) as (_ & A & _);
    [lia | unfold modulus; lia |].
  apply A. unfold modulus. lia.
Defined.

(** ** Sequences of word stores *)

Lemma with_words_app (w1 w2 : list (Z * Z)) :
  forall m, with_words m (w1 ++ w2) = with_words (with_words m w1) w2.
Proof.
  induction w1 as [| [a v] w1 IH]; intros m; cbn; [reflexivity | apply IH].
Qed.

Lemma store32_state (a v : Z) (m : memory) :
  a mod 4 = 0 -> in_bounds m a 4 = true ->
  store32 a v m = Done tt (state_of (store32 a v m)) /\
  same_shape m (state_of (store32 a v m)).
Proof.
  intros Ha Hb. destruct (store32_load32 a v m Ha Hb) as (m' & E & S & _).
  rewrite E. cbn [state_of]. split; [reflexivity | exact S].
Qed.

Lemma with_words_shape (ws : list (Z * Z)) :
  forall m,
    (forall a v, In (a, v) ws -> a mod 4 = 0 /\ in_bounds m a 4 = true) ->
    same_shape m (with_words m ws).
Proof.
  induction ws as [| [a v] ws IH]; intros m H; cbn [with_words].
  - apply same_shape_refl.
  - destruct (H a v (or_introl eq_refl)) as (Ha & Hb).
    destruct (store32_state a v m Ha Hb) as (_ & S).
    eapply same_shape_trans; [exact S |]. apply IH.
    intros a' v' Hin. destruct (H a' v' (or_intror Hin)) as (A & B).
    split; [exact A |]. rewrite (in_bounds_shape _ _ _ _ S). exact B.
Qed.

Lemma stores_store32 (a v : Z) : stores (store32 a v) [(a, v)].
Proof.
  intros m H. destruct (H a v (or_introl eq_refl)) as (Ha & Hb).
  cbn [with_words]. apply (store32_state a v m Ha Hb).
Qed.

Lemma stores_seq (c1 c2 : M unit) (w1 w2 : list (Z * Z)) :
  stores c1 w1 -> stores c2 w2 -> stores (c1 ;;; c2) (w1 ++ w2).
Proof.
  intros S1 S2 m H.
  assert (H1 : forall a v, In (a, v) w1 -> a mod 4 = 0 /\ in_bounds m a 4 = true).
  { intros a v Hin. apply (H a v). apply in_or_app. left. exact Hin. }
  rewrite (bind_step _ _ _ _ _ (S1 m H1)), with_words_app.
  apply S2. intros a v Hin.
  destruct (H a v (in_or_app _ _ _ (or_intror Hin))) as (A & B).
  split; [exact A |].
  rewrite (in_bounds_shape _ _ _ _ (with_words_shape w1 m H1)). exact B.
Qed.

Lemma stores_for_each (l : list Z) (f : Z -> M unit) (g : Z -> list (Z * Z)) :
  (forall i, In i l -> stores (f i) (g i)) ->
  stores (Tlsf.for_each l f) (flat_map g l).
Proof.
  induction l as [| i l IH]; intros H; cbn [Tlsf.for_each flat_map].
  - intros m _. reflexivity.
  - apply stores_seq; [apply H; left; reflexivity |].
    apply IH. intros k Hk. apply H. right. exact Hk.
Qed.

Lemma upto_In (n i : Z) : In i (Tlsf.upto n) -> 0 <= i < n.
Proof.
  unfold Tlsf.upto. rewrite in_map_iff. intros (k & <- & Hk).
  apply in_seq in Hk. lia.
Qed.

Lemma In_upto (n i : Z) : 0 <= i < n -> In i (Tlsf.upto n).
Proof.
  intros H. unfold Tlsf.upto. apply in_map_iff. exists (Z.to_nat i).
  split; [lia |]. apply in_seq. lia.
Qed.

Lemma flat_map_singleton {A B} (f : A -> B) (l : list A) :
  flat_map (fun x => [f x]) l = map f l.
Proof. induction l as [| x l IH]; cbn; [reflexivity | rewrite IH; reflexivity]. Qed.

Lemma control_constructor_stores (control : Z) :
  stores (Tlsf.control_constructor control) (control_words control).
Proof.
  unfold Tlsf.control_constructor, control_words.
  change [(Tlsf.field (Tlsf.block_null control) Tlsf.off_next_free,
           Tlsf.block_null control);
          (Tlsf.field (Tlsf.block_null control) Tlsf.off_prev_free,
           Tlsf.block_null control);
          (Tlsf.fl_bitmap_at control, 0)]
    with ([(Tlsf.field (Tlsf.block_null control) Tlsf.off_next_free,
            Tlsf.block_null control)]
          ++ [(Tlsf.field (Tlsf.block_null control) Tlsf.off_prev_free,
               Tlsf.block_null control)]
          ++ [(Tlsf.fl_bitmap_at control, 0)]).
  rewrite <- !app_assoc.
  apply stores_seq; [apply stores_store32 |].
  apply stores_seq; [apply stores_store32 |].
  apply stores_seq; [apply stores_store32 |].
  apply stores_for_each. intros i Hi. apply upto_In in Hi.
  assert (Es : Tlsf.sl_bitmap_at control i
               = ret (Tlsf.field control (Tlsf.off_sl_bitmap + 4 * i))).
  { unfold Tlsf.sl_bitmap_at.
    destruct (Z.leb_spec 0 i), (Z.ltb_spec i Tlsf.FL_INDEX_COUNT);
      try reflexivity; lia. }
  rewrite Es.
  change (stores
            (store32 (Tlsf.field control (Tlsf.off_sl_bitmap + 4 * i)) 0 ;;;
             Tlsf.for_each (Tlsf.upto Tlsf.SL_INDEX_COUNT) (fun j =>
               ha <- Tlsf.blocks_at control i j ;;
               store32 ha (Tlsf.block_null control)))
            ([(Tlsf.field control (Tlsf.off_sl_bitmap + 4 * i), 0)]
             ++ map (fun j =>
                  (Tlsf.field control
                     (Tlsf.off_blocks
                      + Tlsf.sizeof_ptr * (i * Tlsf.SL_INDEX_COUNT + j)),
                   Tlsf.block_null control))
                  (Tlsf.upto Tlsf.SL_INDEX_COUNT))).
  apply stores_seq; [apply stores_store32 |].
  rewrite <- flat_map_singleton. apply stores_for_each.
  intros j Hj. apply upto_In in Hj.
  assert (Eb : Tlsf.blocks_at control i j
               = ret (Tlsf.field control
                        (Tlsf.off_blocks
                         + Tlsf.sizeof_ptr * (i * Tlsf.SL_INDEX_COUNT + j)))).
  { unfold Tlsf.blocks_at.
    destruct (Z.leb_spec 0 i), (Z.ltb_spec i Tlsf.FL_INDEX_COUNT),
      (Z.leb_spec 0 j), (Z.ltb_spec j Tlsf.SL_INDEX_COUNT);
      try reflexivity; lia. }
  rewrite Eb. apply stores_store32.
Qed.

Lemma with_words_frame (ws : list (Z * Z)) :
  forall m b x,
    (forall a v, In (a, v) ws -> a mod 4 = 0 /\ in_bounds m a 4 = true) ->
    b mod 4 = 0 -> ~ In b (map fst ws) ->
    load32 b m = Done x m ->
    load32 b (with_words m ws) = Done x (with_words m ws).
Proof.
  induction ws as [| [a v] ws IH]; intros m b x H Hb Hn Hl; cbn [with_words];
    [exact Hl |].
  destruct (H a v (or_introl eq_refl)) as (Ha & Hi).
  destruct (store32_load32 a v m Ha Hi) as (m' & E & S & _ & O).
  rewrite E. cbn [state_of].
  apply IH.
  - intros a' v' Hin. destruct (H a' v' (or_intror Hin)) as (A & B).
    split; [exact A |]. rewrite (in_bounds_shape _ _ _ _ S). exact B.
  - exact Hb.
  - intros C. apply Hn. right. exact C.
  - destruct (O b Hb) as [F | (x' & L & L')].
    + intros ->. apply Hn. left. reflexivity.
    + rewrite F in Hl. discriminate.
    + assert (x' = x) by congruence. subst x'. exact L'.
Qed.

Lemma with_words_load (ws : list (Z * Z)) :
  forall m a v,
    (forall a v, In (a, v) ws -> a mod 4 = 0 /\ in_bounds m a 4 = true) ->
    NoDup (map fst ws) -> In (a, v) ws ->
    load32 a (with_words m ws) = Done (v mod modulus) (with_words m ws).
Proof.
  induction ws as [| [a0 v0] ws IH]; intros m a v H Hnd Hin; [destruct Hin |].
  cbn [with_words]. cbn [map fst] in Hnd. inversion Hnd as [| ? ? Hn0 Hnd']. subst.
  destruct (H a0 v0 (or_introl eq_refl)) as (Ha & Hi).
  destruct (store32_load32 a0 v0 m Ha Hi) as (m' & E & S & L & _).
  rewrite E. cbn [state_of].
  assert (H' : forall a v, In (a, v) ws ->
                           a mod 4 = 0 /\ in_bounds m' a 4 = true).
  { intros a' v' Hin'. destruct (H a' v' (or_intror Hin')) as (A & B).
    split; [exact A |]. rewrite (in_bounds_shape _ _ _ _ S). exact B. }
  destruct Hin as [Eq | Hin].
  - inversion Eq. subst a v.
    apply with_words_frame; [exact H' | exact Ha | exact Hn0 | exact L].
  - apply IH; assumption.
Qed.

Lemma nodupb_NoDup (l : list Z) : nodupb l = true -> NoDup l.
Proof.
  induction l as [| x l IH]; cbn [nodupb]; intros H; [constructor |].
  apply andb_true_iff in H. destruct H as [H1 H2].
  constructor; [| apply IH; exact H2].
  intros C. apply negb_true_iff in H1.
  assert (E : existsb (Z.eqb x) l = true).
  { apply existsb_exists. exists x. split; [exact C | apply Z.eqb_refl]. }
  congruence.
Qed.

Lemma control_offsets_ok :
  nodupb control_offsets = true /\
  forallb (fun o => (o mod 4 =? 0) && (8 <=? o) && (o <=? 544)) control_offsets
  = true.
Proof. split; vm_compute; reflexivity. Qed.

Lemma map_flat_map {A B C} (f : B -> C) (g : A -> list B) (l : list A) :
  map f (flat_map g l) = flat_map (fun x => map f (g x)) l.
Proof.
  induction l as [| x l IH]; cbn; [reflexivity |].
  rewrite map_app, IH. reflexivity.
Qed.

Lemma flat_map_ext_in {A B} (f g : A -> list B) (l : list A) :
  (forall x, In x l -> f x = g x) -> flat_map f l = flat_map g l.
Proof.
  induction l as [| x l IH]; cbn; intros H; [reflexivity |].
  rewrite (H x (or_introl eq_refl)), IH; [reflexivity |].
  intros y Hy. apply H. right. exact Hy.
Qed.

Lemma field_offset (c o : Z) :
  0 <= c -> 0 <= o -> c + o < modulus -> Tlsf.field c o = c + o.
Proof. intros. unfold Tlsf.field, add, u32. apply Z.mod_small. lia. Qed.

Lemma control_addresses (c : Z) :
  0 <= c -> c + 548 <= modulus ->
  map fst (control_words c) = map (Z.add c) control_offsets.
Proof.
  intros Hc Hm.
  assert (Bn : Tlsf.block_null c = c).
  { unfold Tlsf.block_null. rewrite field_offset; change Tlsf.off_block_null with 0; lia. }
  unfold control_words, control_offsets. rewrite !map_app, !map_flat_map.
  f_equal.
  - cbn [map fst]. rewrite Bn. unfold Tlsf.fl_bitmap_at.
    rewrite !field_offset;
      change Tlsf.off_next_free with 8; change Tlsf.off_prev_free with 12;
      change Tlsf.off_fl_bitmap with 16; try lia.
    reflexivity.
  - change Tlsf.FL_INDEX_COUNT with 4. change Tlsf.SL_INDEX_COUNT with 32.
    apply flat_map_ext_in. intros i Hi. apply upto_In in Hi.
    cbn [map fst]. rewrite !map_map. f_equal.
    + change Tlsf.off_sl_bitmap with 20. apply field_offset; lia.
    + apply map_ext_in. intros j Hj. apply upto_In in Hj. cbn [fst].
      change Tlsf.off_blocks with 36. change Tlsf.sizeof_ptr with 4.
      apply field_offset; lia.
Qed.

Lemma NoDup_map_inj {A B} (f : A -> B) (l : list A) :
  (forall x y, f x = f y -> x = y) -> NoDup l -> NoDup (map f l).
Proof.
  intros Hf H. induction H as [| x l Hx Hl IH]; cbn; constructor.
  - intros C. apply in_map_iff in C. destruct C as (y & E & Hy).
    apply Hf in E. subst y. contradiction.
  - exact IH.
Qed.

Lemma control_words_ok (c : Z) (m : memory) :
  0 <= c -> c + 548 <= modulus -> c mod 4 = 0 -> in_bounds m c 548 = true ->
  (forall a v, In (a, v) (control_words c) ->
               a mod 4 = 0 /\ in_bounds m a 4 = true /\ c + 8 <= a < c + 548) /\
  NoDup (map fst (control_words c)).
Proof.
  intros Hc Hm H4 Hb. destruct control_offsets_ok as (N & F).
  rewrite forallb_forall in F. split.
  - intros a v Hin.
    assert (Ha : In a (map fst (control_words c))).
    { apply in_map_iff. exists (a, v). split; [reflexivity | exact Hin]. }
    rewrite (control_addresses c Hc Hm) in Ha. apply in_map_iff in Ha.
    destruct Ha as (o & <- & Ho). specialize (F o Ho).
    apply andb_true_iff in F. destruct F as [F F3].
    apply andb_true_iff in F. destruct F as [F1 F2].
    apply Z.eqb_eq in F1. apply Z.leb_le in F2. apply Z.leb_le in F3.
    split; [| split; [| lia]].
    + rewrite Z.add_mod, H4, F1 by lia. reflexivity.
    + apply (in_bounds_sub m c 548); [exact Hb | lia | lia].
  - rewrite (control_addresses c Hc Hm).
    apply NoDup_map_inj; [| apply nodupb_NoDup; exact N].
    intros x y E. lia.
Qed.

(** A control structure with both bitmaps clear never yields a block. *)
Lemma malloc_on_clear_bitmaps (tlsf size : Z) (m : memory) :
  0 <= size < modulus ->
  load32 (Tlsf.fl_bitmap_at tlsf) m = Done 0 m ->
  (forall fl, 0 <= fl < 4 ->
              (a <- Tlsf.sl_bitmap_at tlsf fl ;; load32 a) m = Done 0 m) ->
  Tlsf.os_tlsf_malloc tlsf size m = Done 0 m.
Proof.
  intros Hs Hf Hsl. unfold Tlsf.os_tlsf_malloc. cbv zeta.
  set (adjust := Tlsf.adjust_request_size size Tlsf.ALIGN_SIZE).
  assert (Ha : adjust = 0 \/ (12 <= adjust < 1024 /\ adjust mod 4 = 0)).
  { destruct (adjust_request_size_ranges size Hs) as (A & B & C).
    cbv zeta in A, B, C. fold adjust in A, B, C.
    change Tlsf.block_size_min with 12 in *.
    change Tlsf.block_size_max with 1024 in *.
    destruct (Z.eq_dec size 0) as [E | E]; [left; apply B; left; exact E |].
    destruct (Z.le_gt_cases size 1020) as [L | G].
    - right. destruct (A ltac:(lia)) as (A1 & A2 & _). split; assumption.
    - destruct (Z.le_gt_cases size (modulus - 4)) as [L' | G'].
      + left. apply B. right. lia.
      + right. rewrite (C G'). split; [lia | reflexivity]. }
  assert (L : Tlsf.block_locate_free tlsf adjust m = Done 0 m).
  { destruct Ha as [-> | (Hr & H4)]; [reflexivity |].
    unfold Tlsf.block_locate_free.
    destruct (Z.eqb_spec adjust 0) as [E | _]; [lia |].
    destruct (search_grid adjust Hr H4) as (Gf & Gs & _). cbv zeta in Gf, Gs.
    destruct (Tlsf.mapping_search adjust) as [fl sl]. cbn [fst snd] in Gf, Gs.
    change Tlsf.FL_INDEX_COUNT with 4.
    destruct (Z.ltb_spec fl 4) as [Hlt | Hge]; [| reflexivity].
    assert (S : Tlsf.search_suitable_block tlsf fl sl m = Done (0, fl, sl) m).
    { unfold Tlsf.search_suitable_block. cbv zeta.
      pose proof (Hsl fl ltac:(lia)) as Hw. unfold bind in Hw.
      destruct (Tlsf.sl_bitmap_at tlsf fl m) as [a m0 | |] eqn:Ea;
        [| discriminate | discriminate].
      destruct (sl_bitmap_at_Done _ _ _ _ _ Ea) as (-> & _).
      rewrite (bind_step _ _ _ _ _ Ea), (bind_step _ _ _ _ _ Hw).
      cbn [Z.land Z.eqb]. rewrite (bind_step _ _ _ _ _ Hf). reflexivity. }
    rewrite (bind_step _ _ _ _ _ S). reflexivity. }
  rewrite (bind_step _ _ _ _ _ L). reflexivity.
Qed.

Lemma create_empty_spec (mem : Z) (m : memory) :
  0 <= mem -> mem + 548 <= modulus -> mem mod 4 = 0 ->
  in_bounds m mem 548 = true ->
  exists m',
    Tlsf.os_tlsf_create mem m = Done mem m' /\ same_shape m m' /\
    load32 (Tlsf.fl_bitmap_at mem) m' = Done 0 m' /\
    (forall fl, 0 <= fl < Tlsf.FL_INDEX_COUNT ->
       (a <- Tlsf.sl_bitmap_at mem fl ;; load32 a) m' = Done 0 m') /\
    (forall fl sl, 0 <= fl < Tlsf.FL_INDEX_COUNT ->
       0 <= sl < Tlsf.SL_INDEX_COUNT ->
       (a <- Tlsf.blocks_at mem fl sl ;; load32 a) m'
       = Done (Tlsf.block_null mem) m') /\
    load32 (Tlsf.field (Tlsf.block_null mem) Tlsf.off_next_free) m'
    = Done (Tlsf.block_null mem) m' /\
    load32 (Tlsf.field (Tlsf.block_null mem) Tlsf.off_prev_free) m'
    = Done (Tlsf.block_null mem) m' /\
    (forall b x, b mod 4 = 0 -> b < mem + 8 \/ mem + 548 <= b ->
                 load32 b m = Done x m -> load32 b m' = Done x m') /\
    (forall size, 0 <= size < modulus ->
                  Tlsf.os_tlsf_malloc mem size m' = Done 0 m').
Proof.
  intros Hc Hm H4 Hb.
  destruct (control_words_ok mem m Hc Hm H4 Hb) as (W & Nd).
  assert (W' : forall a v, In (a, v) (control_words mem) ->
                           a mod 4 = 0 /\ in_bounds m a 4 = true).
  { intros a v Hin. destruct (W a v Hin) as (A & B & _). split; assumption. }
  pose proof (control_constructor_stores mem m W') as E.
  set (m' := with_words m (control_words mem)) in *.
  assert (Bn : Tlsf.block_null mem = mem).
  { unfold Tlsf.block_null.
    rewrite field_offset; change Tlsf.off_block_null with 0; lia. }
  assert (Bm : Tlsf.block_null mem mod modulus = Tlsf.block_null mem).
  { rewrite Bn. apply Z.mod_small. lia. }
  assert (Rd : forall a v, In (a, v) (control_words mem) ->
                           load32 a m' = Done (v mod modulus) m').
  { intros a v Hin. apply with_words_load; assumption. }
  assert (Hfl : load32 (Tlsf.fl_bitmap_at mem) m' = Done 0 m').
  { apply (Rd _ 0). unfold control_words. apply in_or_app. left.
    right. right. left. reflexivity. }
  assert (Hsl : forall fl, 0 <= fl < Tlsf.FL_INDEX_COUNT ->
                (a <- Tlsf.sl_bitmap_at mem fl ;; load32 a) m' = Done 0 m').
  { intros fl Hfl'. unfold Tlsf.sl_bitmap_at.
    destruct (Z.leb_spec 0 fl), (Z.ltb_spec fl Tlsf.FL_INDEX_COUNT); try lia.
    cbn [andb]. unfold bind, ret. apply (Rd _ 0).
    unfold control_words. apply in_or_app. right. apply in_flat_map.
    exists fl. split; [apply In_upto; exact Hfl' | left; reflexivity]. }
  exists m'. split.
  { unfold Tlsf.os_tlsf_create. rewrite (aligned_test mem) by lia.
    rewrite H4. cbn [Z.eqb negb]. rewrite (bind_step _ _ _ _ _ E).
    reflexivity. }
  split; [apply with_words_shape; exact W' |].
  split; [exact Hfl |]. split; [exact Hsl |]. split.
  { intros fl sl Hfl' Hsl'. unfold Tlsf.blocks_at.
    destruct (Z.leb_spec 0 fl), (Z.ltb_spec fl Tlsf.FL_INDEX_COUNT),
      (Z.leb_spec 0 sl), (Z.ltb_spec sl Tlsf.SL_INDEX_COUNT); try lia.
    cbn [andb]. unfold bind, ret. rewrite <- Bm at 1. apply Rd.
    unfold control_words. apply in_or_app. right. apply in_flat_map.
    exists fl. split; [apply In_upto; exact Hfl' |]. right.
    apply in_map_iff. exists sl. split; [reflexivity |].
    apply In_upto. exact Hsl'. }
  split.
  { rewrite <- Bm at 2. apply Rd. unfold control_words. apply in_or_app.
    left. left. reflexivity. }
  split.
  { rewrite <- Bm at 2. apply Rd. unfold control_words. apply in_or_app.
    left. right. left. reflexivity. }
  split.
  { intros b x Hb4 Hout Hl. apply with_words_frame; try assumption.
    intros C. apply in_map_iff in C. destruct C as ([a v] & Ea & Hin).
    cbn [fst] in Ea. subst a. destruct (W b v Hin) as (_ & _ & R). lia. }
  intros size Hs. apply malloc_on_clear_bitmaps; [exact Hs | exact Hfl |].
  intros fl Hfl'. apply Hsl. change Tlsf.FL_INDEX_COUNT with 4. exact Hfl'.
Qed.

(** X26. [os_tlsf_create] on four-aligned memory that holds the 548 bytes
    of [control_t]: the call returns the memory address and leaves an empty
    heap.  [fl_bitmap] and every [sl_bitmap[fl]] are 0, every
    [blocks[fl][sl]] and both list pointers of [block_null] point to
    [block_null], and no word outside the bytes 8 to 547 of the structure
    has changed.  On such a heap, with no pool added, [os_tlsf_malloc]
    returns null for every size. *)
Theorem os_tlsf_create_empty (mem : Z) (m : memory) :
  0 <= mem -> mem + 548 <= modulus -> mem mod 4 = 0 ->
  in_bounds m mem 548 = true ->
  exists m',
    Tlsf.os_tlsf_create mem m = Done mem m' /\ same_shape m m' /\
    load32 (Tlsf.fl_bitmap_at mem) m' = Done 0 m' /\
    (forall fl, 0 <= fl < Tlsf.FL_INDEX_COUNT ->
       (a <- Tlsf.sl_bitmap_at mem fl ;; load32 a) m' = Done 0 m') /\
    (forall fl sl, 0 <= fl < Tlsf.FL_INDEX_COUNT ->
       0 <= sl < Tlsf.SL_INDEX_COUNT ->
       (a <- Tlsf.blocks_at mem fl sl ;; load32 a) m'
       = Done (Tlsf.block_null mem) m') /\
    load32 (Tlsf.field (Tlsf.block_null mem) Tlsf.off_next_free) m'
    = Done (Tlsf.block_null mem) m' /\
    load32 (Tlsf.field (Tlsf.block_null mem) Tlsf.off_prev_free) m'
    = Done (Tlsf.block_null mem) m' /\
    (forall b x, b mod 4 = 0 -> b < mem + 8 \/ mem + 548 <= b ->
                 load32 b m = Done x m -> load32 b m' = Done x m') /\
    (forall size, 0 <= size < modulus ->
                  Tlsf.os_tlsf_malloc mem size m' = Done 0 m').
Proof. exact (create_empty_spec mem m). Qed.

(** A control structure at the start of a zeroed buffer of 600 bytes. *)
Lemma os_tlsf_create_empty_witness :
  exists m',
    Tlsf.os_tlsf_create heap_base (zeroed heap_base 600) = Done heap_base m' /\
    Tlsf.os_tlsf_malloc heap_base 100 m' = Done 0 m'.
Proof.
  destruct (os_tlsf_create_empty heap_base (zeroed heap_base 600))
    as (m' & A & _ & _ & _ & _ & _ & _ & _ & B).
  - vm_compute. discriminate.
  - vm_compute. discriminate.
  - reflexivity.
  - reflexivity.
  - exists m'. split; [exact A |]. apply B. unfold modulus. lia.
Defined.

(** ** Putting a block on a free list *)

Lemma store32_step (a v w : Z) (m : memory) :
  load32 a m = Done w m -> 0 <= v < modulus ->
  exists m',
    store32 a v m = Done tt m' /\ load32 a m' = Done v m' /\
    forall b x, b <> a -> load32 b m = Done x m -> load32 b m' = Done x m'.
Proof.
  intros Hl Hv. destruct (load32_Done_in _ _ _ _ Hl) as (Ha & Hb).
  destruct (store32_load32 a v m Ha Hb) as (m' & E & _ & L & O).
  rewrite Z.mod_small in L by exact Hv.
  exists m'. split; [exact E |]. split; [exact L |].
  intros b x Hne Hx. destruct (load32_Done_in _ _ _ _ Hx) as (Hb4 & _).
  destruct (O b Hb4 Hne) as [F | (x' & A & B)]; [congruence |].
  assert (x' = x) by congruence. subst x'. exact B.
Qed.

Lemma lor_word (a b : Z) :
  0 <= a < modulus -> 0 <= b < modulus -> 0 <= Z.lor a b < modulus.
Proof.
  intros Ha Hb. apply word_of_bits.
  - apply Z.lor_nonneg. lia.
  - intros n Hn. rewrite Z.lor_spec, !word_high_bits by assumption.
    reflexivity.
Qed.

Lemma shl_word (a n : Z) : 0 <= shl a n < modulus.
Proof. unfold shl, u32. apply Z.mod_pos_bound. reflexivity. Qed.

Ltac carry m Fr :=
  repeat match goal with
         | H : load32 ?b m = Done ?x m |- _ =>
             apply (Fr b x) in H;
             [| solve [intros ->; cbn [In] in *; tauto]]
         end.

Lemma insert_free_block_spec
  (control block fl sl cur f w xn xp xc : Z) (m : memory) :
  0 <= fl < 4 -> 0 <= sl < 32 -> 0 <= block < modulus ->
  let ha := Tlsf.field control
              (Tlsf.off_blocks + Tlsf.sizeof_ptr * (fl * Tlsf.SL_INDEX_COUNT + sl)) in
  let sa := Tlsf.field control (Tlsf.off_sl_bitmap + 4 * fl) in
  let fa := Tlsf.fl_bitmap_at control in
  let bn := Tlsf.field block Tlsf.off_next_free in
  let bp := Tlsf.field block Tlsf.off_prev_free in
  let cp := Tlsf.field cur Tlsf.off_prev_free in
  NoDup [bn; bp; cp; ha; fa; sa] ->
  load32 ha m = Done cur m -> load32 fa m = Done f m ->
  load32 sa m = Done w m ->
  load32 bn m = Done xn m -> load32 bp m = Done xp m ->
  load32 cp m = Done xc m ->
  exists m',
    Tlsf.insert_free_block control block fl sl m = Done tt m' /\
    load32 ha m' = Done block m' /\
    load32 bn m' = Done cur m' /\
    load32 bp m' = Done (Tlsf.block_null control) m' /\
    load32 cp m' = Done block m' /\
    load32 fa m' = Done (Z.lor f (shl 1 fl)) m' /\
    load32 sa m' = Done (Z.lor w (shl 1 sl)) m' /\
    forall b x, ~ In b [bn; bp; cp; ha; fa; sa] ->
                load32 b m = Done x m -> load32 b m' = Done x m'.
Proof.
  intros Hfl Hsl Hb ha sa fa bn bp cp Hnd Lha Lfa Lsa Lbn Lbp Lcp.
  assert (Eb : Tlsf.blocks_at control fl sl = ret ha).
  { unfold Tlsf.blocks_at. change Tlsf.FL_INDEX_COUNT with 4.
    change Tlsf.SL_INDEX_COUNT with 32.
    destruct (Z.leb_spec 0 fl), (Z.ltb_spec fl 4), (Z.leb_spec 0 sl),
      (Z.ltb_spec sl 32); try reflexivity; lia. }
  assert (Es : Tlsf.sl_bitmap_at control fl = ret sa).
  { unfold Tlsf.sl_bitmap_at. change Tlsf.FL_INDEX_COUNT with 4.
    destruct (Z.leb_spec 0 fl), (Z.ltb_spec fl 4); try reflexivity; lia. }
  assert (Ep : Tlsf.insert_free_block control block fl sl m
               = (store32 bn cur ;;;
                  store32 bp (Tlsf.block_null control) ;;;
                  store32 cp block ;;;
                  store32 ha block ;;;
                  f <- load32 fa ;;
                  store32 fa (Z.lor f (shl 1 fl)) ;;;
                  w <- load32 sa ;;
                  store32 sa (Z.lor w (shl 1 sl))) m).
  { unfold Tlsf.insert_free_block. rewrite Eb, Es.
    change (bind (ret ha) ?k m) with (k ha m). cbv beta.
    rewrite (bind_step _ _ _ _ _ Lha). reflexivity. }
  rewrite Ep. clear Ep Eb Es.
  assert (Hbn : 0 <= Tlsf.block_null control < modulus).
  { unfold Tlsf.block_null, Tlsf.field, add, u32. apply Z.mod_pos_bound.
    reflexivity. }
  destruct (load32_Done _ _ _ _ Lha) as (_ & Hcur).
  destruct (load32_Done _ _ _ _ Lfa) as (_ & Hf).
  destruct (load32_Done _ _ _ _ Lsa) as (_ & Hw).
  clearbody ha sa fa bn bp cp.
  inversion Hnd as [| ? ? N1 Hnd1]; subst.
  inversion Hnd1 as [| ? ? N2 Hnd2]; subst.
  inversion Hnd2 as [| ? ? N3 Hnd3]; subst.
  inversion Hnd3 as [| ? ? N4 Hnd4]; subst.
  inversion Hnd4 as [| ? ? N5 Hnd5]; subst.
  clear Hnd Hnd1 Hnd2 Hnd3 Hnd4 Hnd5.
  assert (Fr0 : forall b x, ~ In b [bn; bp; cp; ha; fa; sa] ->
                            load32 b m = Done x m -> load32 b m = Done x m)
    by (intros b x _ H; exact H).
  (* next_free of the block *)
  destruct (store32_step bn cur xn m Lbn Hcur) as (m1 & S1 & R1 & F1).
  rewrite (bind_step _ _ _ _ _ S1).
  assert (Fr1 : forall b x, ~ In b [bn; bp; cp; ha; fa; sa] ->
                            load32 b m = Done x m -> load32 b m1 = Done x m1).
  { intros b x Hn H. apply F1; [| exact H]. intros ->. apply Hn. cbn. tauto. }
  clear Lbn. carry m F1. clear F1 Fr0 S1.
  (* prev_free of the block *)
  destruct (store32_step bp (Tlsf.block_null control) xp m1 Lbp Hbn)
    as (m2 & S2 & R2 & F2).
  rewrite (bind_step _ _ _ _ _ S2).
  assert (Fr2 : forall b x, ~ In b [bn; bp; cp; ha; fa; sa] ->
                            load32 b m = Done x m -> load32 b m2 = Done x m2).
  { intros b x Hn H. apply F2; [| apply Fr1; assumption].
    intros ->. apply Hn. cbn. tauto. }
  clear Lbp Fr1. carry m1 F2. clear F2 S2.
  (* prev_free of the old head *)
  destruct (store32_step cp block xc m2 Lcp Hb) as (m3 & S3 & R3 & F3).
  rewrite (bind_step _ _ _ _ _ S3).
  assert (Fr3 : forall b x, ~ In b [bn; bp; cp; ha; fa; sa] ->
                            load32 b m = Done x m -> load32 b m3 = Done x m3).
  { intros b x Hn H. apply F3; [| apply Fr2; assumption].
    intros ->. apply Hn. cbn. tauto. }
  clear Lcp Fr2. carry m2 F3. clear F3 S3.
  (* the head of the list *)
  destruct (store32_step ha block cur m3 Lha Hb) as (m4 & S4 & R4 & F4).
  rewrite (bind_step _ _ _ _ _ S4).
  assert (Fr4 : forall b x, ~ In b [bn; bp; cp; ha; fa; sa] ->
                            load32 b m = Done x m -> load32 b m4 = Done x m4).
  { intros b x Hn H. apply F4; [| apply Fr3; assumption].
    intros ->. apply Hn. cbn. tauto. }
  clear Lha Fr3. carry m3 F4. clear F4 S4.
  (* the first-level bitmap *)
  rewrite (bind_step _ _ _ _ _ Lfa).
  destruct (store32_step fa (Z.lor f (shl 1 fl)) f m4 Lfa
              (lor_word _ _ Hf (shl_word 1 fl))) as (m5 & S5 & R5 & F5).
  rewrite (bind_step _ _ _ _ _ S5).
  assert (Fr5 : forall b x, ~ In b [bn; bp; cp; ha; fa; sa] ->
                            load32 b m = Done x m -> load32 b m5 = Done x m5).
  { intros b x Hn H. apply F5; [| apply Fr4; assumption].
    intros ->. apply Hn. cbn. tauto. }
  clear Lfa Fr4. carry m4 F5. clear F5 S5.
  (* the second-level bitmap *)
  rewrite (bind_step _ _ _ _ _ Lsa).
  destruct (store32_step sa (Z.lor w (shl 1 sl)) w m5 Lsa
              (lor_word _ _ Hw (shl_word 1 sl))) as (m6 & S6 & R6 & F6).
  assert (Fr6 : forall b x, ~ In b [bn; bp; cp; ha; fa; sa] ->
                            load32 b m = Done x m -> load32 b m6 = Done x m6).
  { intros b x Hn H. apply F6; [| apply Fr5; assumption].
    intros ->. apply Hn. cbn. tauto. }
  clear Lsa Fr5. carry m5 F6.
  exists m6. split; [exact S6 |].
  repeat (split; [assumption |]). exact Fr6.
Qed.

(** X27. [insert_free_block] makes the block the head of the list
    [(fl, sl)]: [blocks[fl][sl]] points to it, its [next_free] is the old
    head and its [prev_free] is [block_null], the old head's [prev_free]
    points back to it, bit [fl] of [fl_bitmap] and bit [sl] of
    [sl_bitmap[fl]] are set on top of what was there, and no other word of
    memory changes.  The six words are taken to lie at six different
    addresses inside memory. *)
Theorem insert_free_block_links
  (control block fl sl cur f w xn xp xc : Z) (m : memory) :
  0 <= fl < 4 -> 0 <= sl < 32 -> 0 <= block < modulus ->
  let ha := Tlsf.field control
              (Tlsf.off_blocks + Tlsf.sizeof_ptr * (fl * Tlsf.SL_INDEX_COUNT + sl)) in
  let sa := Tlsf.field control (Tlsf.off_sl_bitmap + 4 * fl) in
  let fa := Tlsf.fl_bitmap_at control in
  let bn := Tlsf.field block Tlsf.off_next_free in
  let bp := Tlsf.field block Tlsf.off_prev_free in
  let cp := Tlsf.field cur Tlsf.off_prev_free in
  NoDup [bn; bp; cp; ha; fa; sa] ->
  load32 ha m = Done cur m -> load32 fa m = Done f m ->
  load32 sa m = Done w m ->
  load32 bn m = Done xn m -> load32 bp m = Done xp m ->
  load32 cp m = Done xc m ->
  exists m',
    Tlsf.insert_free_block control block fl sl m = Done tt m' /\
    load32 ha m' = Done block m' /\
    load32 bn m' = Done cur m' /\
    load32 bp m' = Done (Tlsf.block_null control) m' /\
    load32 cp m' = Done block m' /\
    load32 fa m' = Done (Z.lor f (shl 1 fl)) m' /\
    load32 sa m' = Done (Z.lor w (shl 1 sl)) m' /\
    forall b x, ~ In b [bn; bp; cp; ha; fa; sa] ->
                load32 b m = Done x m -> load32 b m' = Done x m'.
Proof. exact (insert_free_block_spec control block fl sl cur f w xn xp xc m). Qed.

(** A block at offset 600 put on the list (1, 2) of [empty_heap]. *)
Lemma insert_free_block_links_witness :
  exists m',
    Tlsf.insert_free_block heap_base (heap_base + 600) 1 2 empty_heap
    = Done tt m' /\
    load32 (Tlsf.field heap_base
              (Tlsf.off_blocks + Tlsf.sizeof_ptr * (1 * Tlsf.SL_INDEX_COUNT + 2)))
           m' = Done (heap_base + 600) m' /\
    load32 (Tlsf.fl_bitmap_at heap_base) m' = Done 2 m'.
Proof.
  destruct (insert_free_block_links heap_base (heap_base + 600) 1 2
              heap_base 0 0 0 0 heap_base empty_heap)
    as (m' & A & B & _ & _ & _ & C & _).
  - lia.
  - lia.
  - vm_compute. split; [discriminate | reflexivity].
  - apply nodupb_NoDup. vm_compute. reflexivity.
  - vm_compute. reflexivity.
  - vm_compute. reflexivity.
  - vm_compute. reflexivity.
  - vm_compute. reflexivity.
  - vm_compute. reflexivity.
  - vm_compute. reflexivity.
  - exists m'. split; [exact A |]. split; [exact B | exact C].
Defined.

(** ** The first pool of a heap *)

Lemma load32_readable (a : Z) (m : memory) :
  a mod 4 = 0 -> in_bounds m a 4 = true -> exists x, load32 a m = Done x m.
Proof. intros Ha Hb. eexists. apply load32_in; assumption. Qed.

Lemma rmw_frame (a : Z) (g : Z -> Z) (m m' : memory) :
  (s <- load32 a ;; store32 a (g s)) m = Done tt m' ->
  forall b x, b <> a -> load32 b m = Done x m -> load32 b m' = Done x m'.
Proof.
  intros H b x Hne Hx. inv_bind H.
  destruct (load32_Done _ _ _ _ Hc) as (-> & Hr).
  destruct (load32_Done_in _ _ _ _ Hc) as (Ha & Hb).
  destruct (store32_load32 a (g a0) m Ha Hb) as (m'' & E & _ & _ & O).
  assert (Em : m'' = m') by congruence. subst m''.
  destruct (load32_Done_in _ _ _ _ Hx) as (Hb4 & _).
  destruct (O b Hb4 Hne) as [F | (x' & A & B)]; [congruence |].
  assert (x' = x) by congruence. subst x'. exact B.
Qed.

Lemma insert_grid_checked :
  forallb (fun s => let '(fl, sl) := Tlsf.mapping_insert s in
                    (0 <=? fl) && (fl <? 4) && (0 <=? sl) && (sl <? 32))
          (map (fun i => 4 * i) (range 3 253)) = true.
Proof. vm_compute. reflexivity. Qed.

Lemma insert_grid (s : Z) :
  12 <= s < 1024 -> s mod 4 = 0 ->
  0 <= fst (Tlsf.mapping_insert s) < 4 /\ 0 <= snd (Tlsf.mapping_insert s) < 32.
Proof.
  intros Hs H4. pose proof insert_grid_checked as C.
  rewrite forallb_forall in C. specialize (C s (request_in_range s Hs H4)).
  destruct (Tlsf.mapping_insert s) as [fl sl]. cbn [fst snd].
  apply andb_true_iff in C. destruct C as [C C4].
  apply andb_true_iff in C. destruct C as [C C3].
  apply andb_true_iff in C. destruct C as [C1 C2].
  lia.
Qed.

Lemma shl_1 (n : Z) : 0 <= n < 32 -> shl 1 n = 2 ^ n.
Proof.
  intros Hn. unfold shl, u32, modulus. rewrite Z.shiftl_1_l.
  apply Z.mod_small. split; [apply Z.pow_nonneg; lia |].
  apply Z.pow_lt_mono_r; lia.
Qed.

(** The three header writes that make a block of [size] bytes free with a
    predecessor in use, and the three that make a sentinel. *)
Lemma header_init (block size w : Z) (m : memory) :
  load32 (Tlsf.field block Tlsf.off_size) m = Done w m ->
  0 <= size < modulus -> size mod 4 = 0 ->
  (exists m' v,
     (Tlsf.block_set_size block size ;;; Tlsf.block_set_free block ;;;
      Tlsf.block_set_prev_used block) m = Done tt m' /\
     load32 (Tlsf.field block Tlsf.off_size) m' = Done v m' /\
     Z.land v (not32 Tlsf.flag_bits) = size /\
     Z.testbit v 0 = true /\ Z.testbit v 1 = false /\
     forall b x, b <> Tlsf.field block Tlsf.off_size ->
                 load32 b m = Done x m -> load32 b m' = Done x m') /\
  (exists m' v,
     (Tlsf.block_set_size block size ;;; Tlsf.block_set_used block ;;;
      Tlsf.block_set_prev_free block) m = Done tt m' /\
     load32 (Tlsf.field block Tlsf.off_size) m' = Done v m' /\
     Z.land v (not32 Tlsf.flag_bits) = size /\
     Z.testbit v 0 = false /\ Z.testbit v 1 = true /\
     forall b x, b <> Tlsf.field block Tlsf.off_size ->
                 load32 b m = Done x m -> load32 b m' = Done x m').
Proof.
  intros Hl Hs H4.
  destruct (header_setters_word block w m Hl) as (A & _).
  destruct (A size Hs H4) as (m1 & v1 & S1 & L1 & Z1 & B10 & B11).
  pose proof (rmw_frame _ _ _ _ S1) as F1.
  destruct (header_setters_word block v1 m1 L1) as (_ & Bf & Bu & _).
  split.
  - destruct Bf as (m2 & v2 & S2 & L2 & Z2 & B20 & B21).
    pose proof (rmw_frame _ _ _ _ S2) as F2.
    destruct (header_setters_word block v2 m2 L2) as (_ & _ & _ & _ & C).
    destruct C as (m3 & v3 & S3 & L3 & Z3 & B30 & B31).
    pose proof (rmw_frame _ _ _ _ S3) as F3.
    exists m3, v3.
    rewrite (bind_step _ _ _ _ _ S1), (bind_step _ _ _ _ _ S2).
    split; [exact S3 |]. split; [exact L3 |].
    split; [congruence |]. split; [congruence |]. split; [exact B31 |].
    intros b x Hne Hx. apply F3, F2, F1; assumption.
  - destruct Bu as (m2 & v2 & S2 & L2 & Z2 & B20 & B21).
    pose proof (rmw_frame _ _ _ _ S2) as F2.
    destruct (header_setters_word block v2 m2 L2) as (_ & _ & _ & C & _).
    destruct C as (m3 & v3 & S3 & L3 & Z3 & B30 & B31).
    pose proof (rmw_frame _ _ _ _ S3) as F3.
    exists m3, v3.
    rewrite (bind_step _ _ _ _ _ S1), (bind_step _ _ _ _ _ S2).
    split; [exact S3 |]. split; [exact L3 |].
    split; [congruence |]. split; [congruence |]. split; [exact B31 |].
    intros b x Hne Hx. apply F3, F2, F1; assumption.
Qed.

Lemma blocks_at_in (control fl sl : Z) :
  0 <= fl < 4 -> 0 <= sl < 32 ->
  Tlsf.blocks_at control fl sl
  = ret (Tlsf.field control
           (Tlsf.off_blocks + Tlsf.sizeof_ptr * (fl * Tlsf.SL_INDEX_COUNT + sl))).
Proof.
  intros Hf Hs. unfold Tlsf.blocks_at. change Tlsf.FL_INDEX_COUNT with 4.
  change Tlsf.SL_INDEX_COUNT with 32.
  destruct (Z.leb_spec 0 fl), (Z.ltb_spec fl 4), (Z.leb_spec 0 sl),
    (Z.ltb_spec sl 32); try reflexivity; lia.
Qed.

Lemma sl_bitmap_at_in (control fl : Z) :
  0 <= fl < 4 ->
  Tlsf.sl_bitmap_at control fl
  = ret (Tlsf.field control (Tlsf.off_sl_bitmap + 4 * fl)).
Proof.
  intros Hf. unfold Tlsf.sl_bitmap_at. change Tlsf.FL_INDEX_COUNT with 4.
  destruct (Z.leb_spec 0 fl), (Z.ltb_spec fl 4); try reflexivity; lia.
Qed.

Lemma seq3_step {B} (a b c : M unit) (k : M B) (m m' : memory) :
  (a ;;; b ;;; c) m = Done tt m' -> (a ;;; b ;;; c ;;; k) m = k m'.
Proof.
  unfold bind. destruct (a m) as [[] m1 | |]; try discriminate.
  destruct (b m1) as [[] m2 | |]; try discriminate.
  destruct (c m2) as [[] m3 | |]; try discriminate.
  intros H. assert (E : m3 = m') by congruence. rewrite E. reflexivity.
Qed.

Ltac carry_lia m Fr :=
  repeat match goal with
         | H : load32 ?b m = Done ?x m |- _ =>
             apply (Fr b x) in H; [| solve [lia]]
         end.

Lemma add_pool_empty_spec (tlsf mem bytes : Z) (m : memory) :
  0 <= tlsf -> tlsf + 548 <= modulus -> tlsf mod 4 = 0 ->
  in_bounds m tlsf 548 = true ->
  4 <= mem -> mem + bytes <= modulus -> mem mod 4 = 0 ->
  in_bounds m mem bytes = true ->
  tlsf + 548 <= mem \/ mem + bytes <= tlsf ->
  20 <= bytes <= 1031 ->
  load32 (Tlsf.fl_bitmap_at tlsf) m = Done 0 m ->
  (forall fl, 0 <= fl < 4 ->
     (a <- Tlsf.sl_bitmap_at tlsf fl ;; load32 a) m = Done 0 m) ->
  (forall fl sl, 0 <= fl < 4 -> 0 <= sl < 32 ->
     (a <- Tlsf.blocks_at tlsf fl sl ;; load32 a) m
     = Done (Tlsf.block_null tlsf) m) ->
  let pool_bytes := 4 * ((bytes - 8) / 4) in
  let block := mem - 4 in
  let fl := fst (Tlsf.mapping_insert pool_bytes) in
  let sl := snd (Tlsf.mapping_insert pool_bytes) in
  exists m',
    Tlsf.os_tlsf_add_pool tlsf mem bytes m = Done mem m' /\
    Tlsf.block_size block m' = Done pool_bytes m' /\
    Tlsf.block_is_free block m' = Done true m' /\
    Tlsf.block_is_prev_free block m' = Done false m' /\
    (a <- Tlsf.blocks_at tlsf fl sl ;; load32 a) m' = Done block m' /\
    load32 (Tlsf.fl_bitmap_at tlsf) m' = Done (2 ^ fl) m' /\
    (a <- Tlsf.sl_bitmap_at tlsf fl ;; load32 a) m' = Done (2 ^ sl) m' /\
    load32 (Tlsf.field block Tlsf.off_next_free) m'
    = Done (Tlsf.block_null tlsf) m' /\
    load32 (Tlsf.field block Tlsf.off_prev_free) m'
    = Done (Tlsf.block_null tlsf) m' /\
    Tlsf.block_next block m' = Done (mem + pool_bytes) m' /\
    Tlsf.block_size (mem + pool_bytes) m' = Done 0 m' /\
    Tlsf.block_is_free (mem + pool_bytes) m' = Done false m' /\
    Tlsf.block_is_prev_free (mem + pool_bytes) m' = Done true m' /\
    Tlsf.block_prev (mem + pool_bytes) m' = Done block m'.
Proof.
  intros Ht Htm Ht4 Htb Hmem Hmm Hm4 Hmb Hdis Hby Lf Lsl Lbl pb block fl sl.
  assert (HM : modulus = 4294967296) by reflexivity.
  assert (Hpb : 12 <= pb <= 1020 /\ pb <= bytes - 8).
  { unfold pb. Z.div_mod_to_equations. lia. }
  assert (Hpb4 : pb mod 4 = 0).
  { unfold pb. rewrite Z.mul_comm. apply Z.mod_mul. lia. }
  assert (Epb : Tlsf.align_down (sub bytes Tlsf.os_tlsf_pool_overhead)
                  Tlsf.ALIGN_SIZE = pb).
  { rewrite pool_bytes_value by lia. rewrite HM.
    rewrite (Z.mod_small (bytes - 8)) by lia.
    unfold pb. Z.div_mod_to_equations. lia. }
  destruct (insert_grid pb ltac:(lia) Hpb4) as (Gf & Gs).
  fold fl sl in Gf, Gs.
  assert (Emi : Tlsf.mapping_insert pb = (fl, sl)).
  { unfold fl, sl. destruct (Tlsf.mapping_insert pb). reflexivity. }
  assert (Hblock : block = mem - 4) by reflexivity.
  clearbody pb block fl sl.
  (* the addresses *)
  assert (Fo : forall c o, 0 <= c -> 0 <= o -> c + o < modulus ->
                           Tlsf.field c o = c + o) by apply field_offset.
  assert (Bn : Tlsf.block_null tlsf = tlsf).
  { unfold Tlsf.block_null. rewrite Fo; change Tlsf.off_block_null with 0; lia. }
  assert (Eblock : Tlsf.offset_to_block mem
                     (u32 (- to_int Tlsf.block_header_overhead)) = block).
  { unfold Tlsf.offset_to_block, add.
    change (u32 (- to_int Tlsf.block_header_overhead)) with 4294967292.
    unfold u32. rewrite HM. symmetry.
    apply Z.mod_unique with (q := 1); lia. }
  assert (EA : Tlsf.field block Tlsf.off_size = mem).
  { rewrite Fo; change Tlsf.off_size with 4; lia. }
  assert (Ebn : Tlsf.field block Tlsf.off_next_free = mem + 4).
  { rewrite Fo; change Tlsf.off_next_free with 8; lia. }
  assert (Ebp : Tlsf.field block Tlsf.off_prev_free = mem + 8).
  { rewrite Fo; change Tlsf.off_prev_free with 12; lia. }
  assert (Ecp : Tlsf.field tlsf Tlsf.off_prev_free = tlsf + 12).
  { rewrite Fo; change Tlsf.off_prev_free with 12; lia. }
  assert (Eha : Tlsf.field tlsf
                  (Tlsf.off_blocks
                   + Tlsf.sizeof_ptr * (fl * Tlsf.SL_INDEX_COUNT + sl))
                = tlsf + 36 + 4 * (fl * 32 + sl)).
  { change Tlsf.off_blocks with 36. change Tlsf.sizeof_ptr with 4.
    change Tlsf.SL_INDEX_COUNT with 32. rewrite Fo; lia. }
  assert (Efa : Tlsf.fl_bitmap_at tlsf = tlsf + 16).
  { unfold Tlsf.fl_bitmap_at. rewrite Fo; change Tlsf.off_fl_bitmap with 16; lia. }
  assert (Esa : Tlsf.field tlsf (Tlsf.off_sl_bitmap + 4 * fl) = tlsf + 20 + 4 * fl).
  { change Tlsf.off_sl_bitmap with 20. rewrite Fo; lia. }
  assert (Enext : Tlsf.offset_to_block (Tlsf.block_to_ptr block)
                    (sub pb Tlsf.block_header_overhead) = mem + pb).
  { unfold Tlsf.offset_to_block, Tlsf.block_to_ptr, add, sub, u32.
    change Tlsf.block_start_offset with 8.
    change Tlsf.block_header_overhead with 4. rewrite HM.
    rewrite (Z.mod_small (block + 8)), (Z.mod_small (pb - 4)) by lia.
    rewrite Z.mod_small by lia. lia. }
  assert (EN0 : Tlsf.field (mem + pb) Tlsf.off_prev_phys_block = mem + pb).
  { rewrite Fo; change Tlsf.off_prev_phys_block with 0; lia. }
  assert (EN4 : Tlsf.field (mem + pb) Tlsf.off_size = mem + pb + 4).
  { rewrite Fo; change Tlsf.off_size with 4; lia. }
  (* what the memory holds before the call *)
  pose proof (proj1 (in_bounds_spec m tlsf 548) Htb) as Bt.
  pose proof (proj1 (in_bounds_spec m mem bytes) Hmb) as Bm.
  assert (Rd : forall a, a mod 4 = 0 ->
                 (tlsf <= a /\ a + 4 <= tlsf + 548) \/
                 (mem <= a /\ a + 4 <= mem + bytes) ->
                 exists x, load32 a m = Done x m).
  { intros a Ha4 Hin. apply load32_readable; [exact Ha4 |].
    apply in_bounds_spec. lia. }
  assert (M4 : forall a k, a mod 4 = 0 -> (a + 4 * k) mod 4 = 0).
  { intros a k Ha. rewrite Z.add_mod, Ha, Z.mul_comm, Z.mod_mul by lia.
    reflexivity. }
  destruct (Rd mem Hm4 ltac:(lia)) as (w0 & L0).
  destruct (Rd (mem + 4) (M4 mem 1 Hm4) ltac:(lia)) as (xn & Lbn).
  destruct (Rd (mem + 8) (M4 mem 2 Hm4) ltac:(lia)) as (xp & Lbp).
  destruct (Rd (tlsf + 12) (M4 tlsf 3 Ht4) ltac:(lia)) as (xc & Lcp).
  assert (HN0 : (mem + pb) mod 4 = 0).
  { rewrite Z.add_mod, Hm4, Hpb4 by lia. reflexivity. }
  destruct (Rd (mem + pb) HN0 ltac:(lia)) as (y0 & LN0).
  destruct (Rd (mem + pb + 4) (M4 _ 1 HN0) ltac:(lia)) as (wN & LN4).
  pose proof (Lbl fl sl Gf Gs) as Lha.
  rewrite (blocks_at_in tlsf fl sl Gf Gs) in Lha.
  change (load32 (Tlsf.field tlsf
                    (Tlsf.off_blocks
                     + Tlsf.sizeof_ptr * (fl * Tlsf.SL_INDEX_COUNT + sl))) m
          = Done (Tlsf.block_null tlsf) m) in Lha.
  rewrite Eha, Bn in Lha.
  pose proof (Lsl fl Gf) as Lsa. rewrite (sl_bitmap_at_in tlsf fl Gf) in Lsa.
  change (load32 (Tlsf.field tlsf (Tlsf.off_sl_bitmap + 4 * fl)) m = Done 0 m)
    in Lsa.
  rewrite Esa in Lsa. rewrite Efa in Lf.
  clear Lsl Lbl Rd.
  (* the call *)
  unfold Tlsf.os_tlsf_add_pool. cbv zeta.
  rewrite (aligned_test mem) by lia. rewrite Hm4. cbn [Z.eqb negb].
  rewrite Epb, Eblock.
  change Tlsf.block_size_min with 12. change Tlsf.block_size_max with 1024.
  destruct (Z.ltb_spec pb 12); [lia |]. destruct (Z.ltb_spec 1024 pb); [lia |].
  cbn [orb].
  (* the header of the block *)
  rewrite <- EA in L0.
  destruct (header_init block pb w0 m L0 ltac:(lia) Hpb4) as (Hi & _).
  destruct Hi as (m3 & v3 & S3 & L3 & Z3 & B30 & B31 & F3).
  rewrite (seq3_step _ _ _ _ _ _ S3). rewrite EA in L3, F3. clear L0 S3.
  carry_lia m F3. clear F3.
  (* the free list *)
  assert (L3' : load32 (Tlsf.field block Tlsf.off_size) m3 = Done v3 m3)
    by (rewrite EA; exact L3).
  destruct (header_word_read block v3 m3 L3') as (Sz3 & _).
  rewrite Z3 in Sz3. clear L3'.
  destruct (insert_free_block_spec tlsf block fl sl tlsf 0 0 xn xp xc m3
              ltac:(lia) Gs ltac:(lia))
    as (m4 & S4 & Rha & Rbn & Rbp & Rcp & Rfa & Rsa & F4).
  { rewrite Ebn, Ebp, Ecp, Eha, Efa, Esa.
    repeat constructor; cbn [In]; lia. }
  { rewrite Eha. exact Lha. }
  { rewrite Efa. exact Lf. }
  { rewrite Esa. exact Lsa. }
  { rewrite Ebn. exact Lbn. }
  { rewrite Ebp. exact Lbp. }
  { rewrite Ecp. exact Lcp. }
  assert (I4 : Tlsf.block_insert tlsf block m3 = Done tt m4).
  { unfold Tlsf.block_insert. rewrite (bind_step _ _ _ _ _ Sz3), Emi.
    exact S4. }
  rewrite (bind_step _ _ _ _ _ I4).
  rewrite Ebn, Ebp, Ecp, Eha, Efa, Esa in *.
  clear S4 I4 Sz3 Lha Lf Lsa Lbn Lbp Lcp.
  assert (F4' : forall b x, b <> mem + 4 /\ b <> mem + 8 /\ b <> tlsf + 12 /\
                            b <> tlsf + 36 + 4 * (fl * 32 + sl) /\
                            b <> tlsf + 16 /\ b <> tlsf + 20 + 4 * fl ->
                            load32 b m3 = Done x m3 -> load32 b m4 = Done x m4).
  { intros b x Hne. apply F4. cbn [In]. lia. }
  carry_lia m3 F4'. clear F4 F4'.
  rewrite Z.lor_0_l, shl_1 in Rfa, Rsa by lia.
  (* the link to the sentinel *)
  assert (L4' : load32 (Tlsf.field block Tlsf.off_size) m4 = Done v3 m4)
    by (rewrite EA; exact L3).
  destruct (header_word_read block v3 m4 L4') as (Sz4 & _).
  rewrite Z3 in Sz4. clear L4'.
  assert (Nx4 : Tlsf.block_next block m4 = Done (mem + pb) m4).
  { unfold Tlsf.block_next. rewrite (bind_step _ _ _ _ _ Sz4), Enext.
    reflexivity. }
  destruct (store32_step (mem + pb) block y0 m4 LN0 ltac:(lia))
    as (m5 & S5 & R5 & F5).
  assert (K5 : Tlsf.block_link_next block m4 = Done (mem + pb) m5).
  { unfold Tlsf.block_link_next. rewrite (bind_step _ _ _ _ _ Nx4), EN0.
    rewrite (bind_step _ _ _ _ _ S5). reflexivity. }
  rewrite (bind_step _ _ _ _ _ K5). clear LN0 S5 Sz4 Nx4 K5.
  carry_lia m4 F5. clear F5.
  (* the header of the sentinel *)
  rewrite <- EN4 in LN4.
  destruct (header_init (mem + pb) 0 wN m5 LN4 ltac:(lia) eq_refl) as (_ & Hi).
  destruct Hi as (m8 & v8 & S8 & L8 & Z8 & B80 & B81 & F8).
  rewrite (seq3_step _ _ _ _ _ _ S8). rewrite EN4 in F8. clear LN4 S8.
  carry_lia m5 F8. clear F8.
  (* what the memory holds after the call *)
  assert (L8' : load32 (Tlsf.field block Tlsf.off_size) m8 = Done v3 m8)
    by (rewrite EA; exact L3).
  destruct (header_word_read block v3 m8 L8') as (Sz8 & Fr8 & Pf8).
  destruct (header_word_read (mem + pb) v8 m8 L8) as (SzN & FrN & PfN).
  rewrite Z3, B30, B31 in *. rewrite Z8, B80, B81 in *.
  exists m8. split; [reflexivity |].
  split; [exact Sz8 |]. split; [exact Fr8 |]. split; [exact Pf8 |].
  split.
  { rewrite (blocks_at_in tlsf fl sl Gf Gs).
    change (load32 (Tlsf.field tlsf
                      (Tlsf.off_blocks
                       + Tlsf.sizeof_ptr * (fl * Tlsf.SL_INDEX_COUNT + sl))) m8
            = Done block m8).
    rewrite Eha. exact Rha. }
  split; [exact Rfa |].
  split.
  { rewrite (sl_bitmap_at_in tlsf fl Gf).
    change (load32 (Tlsf.field tlsf (Tlsf.off_sl_bitmap + 4 * fl)) m8
            = Done (2 ^ sl) m8).
    rewrite Esa. exact Rsa. }
  split; [rewrite Bn; exact Rbn |]. split; [exact Rbp |].
  split.
  { unfold Tlsf.block_next. rewrite (bind_step _ _ _ _ _ Sz8), Enext.
    reflexivity. }
  split; [exact SzN |]. split; [exact FrN |]. split; [exact PfN |].
  unfold Tlsf.block_prev. rewrite EN0. exact R5.
Qed.

(** X28. [os_tlsf_add_pool] on a heap without blocks, with 20 to 1031 bytes
    of four-aligned memory that does not overlap the control structure:
    whatever that memory holds, the call returns its address and leaves one
    free block of [pool_bytes] bytes (the byte count less 8, rounded down to
    a multiple of four) whose header starts four bytes below the pool.  The
    block is the only entry of the free list that [mapping_insert] names
    for its size, exactly that list is marked in both bitmaps, and the
    block is followed by a sentinel of size 0 that is in use, has its
    prev-free flag set and points back to the block. *)
Theorem os_tlsf_add_pool_empty (tlsf mem bytes : Z) (m : memory) :
  0 <= tlsf -> tlsf + 548 <= modulus -> tlsf mod 4 = 0 ->
  in_bounds m tlsf 548 = true ->
  4 <= mem -> mem + bytes <= modulus -> mem mod 4 = 0 ->
  in_bounds m mem bytes = true ->
  tlsf + 548 <= mem \/ mem + bytes <= tlsf ->
  20 <= bytes <= 1031 ->
  load32 (Tlsf.fl_bitmap_at tlsf) m = Done 0 m ->
  (forall fl, 0 <= fl < 4 ->
     (a <- Tlsf.sl_bitmap_at tlsf fl ;; load32 a) m = Done 0 m) ->
  (forall fl sl, 0 <= fl < 4 -> 0 <= sl < 32 ->
     (a <- Tlsf.blocks_at tlsf fl sl ;; load32 a) m
     = Done (Tlsf.block_null tlsf) m) ->
  let pool_bytes := 4 * ((bytes - 8) / 4) in
  let block := mem - 4 in
  let fl := fst (Tlsf.mapping_insert pool_bytes) in
  let sl := snd (Tlsf.mapping_insert pool_bytes) in
  exists m',
    Tlsf.os_tlsf_add_pool tlsf mem bytes m = Done mem m' /\
    Tlsf.block_size block m' = Done pool_bytes m' /\
    Tlsf.block_is_free block m' = Done true m' /\
    Tlsf.block_is_prev_free block m' = Done false m' /\
    (a <- Tlsf.blocks_at tlsf fl sl ;; load32 a) m' = Done block m' /\
    load32 (Tlsf.fl_bitmap_at tlsf) m' = Done (2 ^ fl) m' /\
    (a <- Tlsf.sl_bitmap_at tlsf fl ;; load32 a) m' = Done (2 ^ sl) m' /\
    load32 (Tlsf.field block Tlsf.off_next_free) m'
    = Done (Tlsf.block_null tlsf) m' /\
    load32 (Tlsf.field block Tlsf.off_prev_free) m'
    = Done (Tlsf.block_null tlsf) m' /\
    Tlsf.block_next block m' = Done (mem + pool_bytes) m' /\
    Tlsf.block_size (mem + pool_bytes) m' = Done 0 m' /\
    Tlsf.block_is_free (mem + pool_bytes) m' = Done false m' /\
    Tlsf.block_is_prev_free (mem + pool_bytes) m' = Done true m' /\
    Tlsf.block_prev (mem + pool_bytes) m' = Done block m'.
Proof. exact (add_pool_empty_spec tlsf mem bytes m). Qed.

(** A pool of 476 bytes behind a control structure created in a zeroed
    buffer of 1024 bytes. *)
Lemma os_tlsf_add_pool_empty_witness :
  exists m1 m2,
    Tlsf.os_tlsf_create heap_base (zeroed heap_base 1024) = Done heap_base m1 /\
    Tlsf.os_tlsf_add_pool heap_base (heap_base + 548) 476 m1
    = Done (heap_base + 548) m2 /\
    Tlsf.block_size (heap_base + 548 - 4) m2 = Done (4 * ((476 - 8) / 4)) m2.
Proof.
  assert (HM : modulus = 4294967296) by reflexivity.
  assert (Hb : heap_base = 536870912) by reflexivity.
  destruct (create_empty_spec heap_base (zeroed heap_base 1024))
    as (m1 & C & S & Lf & Lsl & Lbl & _); [lia | lia | reflexivity | reflexivity |].
  destruct (os_tlsf_add_pool_empty heap_base (heap_base + 548) 476 m1)
    as (m2 & A & B & _); try lia; try assumption;
    try (rewrite (in_bounds_shape _ _ _ _ S); reflexivity);
    try (rewrite Hb; reflexivity).
  exists m1, m2. split; [exact C |]. split; [exact A | exact B].
Defined.

(** X29. [os_tlsf_create_with_pool] on four-aligned memory of 568 to 1579
    bytes, whatever it holds: the call returns the memory address, and the
    heap consists of the control structure, one free block that takes the
    rest of the memory but for eight bytes, filed under the list that
    [mapping_insert] names for its size with exactly that list marked in
    both bitmaps, and the sentinel.  For the 1024 bytes of [os_mem_init]
    the free block has 468 bytes. *)
Theorem os_tlsf_create_with_pool_heap
  (mem bytes : Z) (g : OsMem.globals) (m : memory) :
  0 <= mem -> mem + bytes <= modulus -> mem mod 4 = 0 ->
  in_bounds m mem bytes = true -> 568 <= bytes <= 1579 ->
  let pool := mem + 548 in
  let pool_bytes := 4 * ((bytes - 548 - 8) / 4) in
  let block := pool - 4 in
  let fl := fst (Tlsf.mapping_insert pool_bytes) in
  let sl := snd (Tlsf.mapping_insert pool_bytes) in
  exists m',
    Tlsf.os_tlsf_create_with_pool mem bytes m = Done mem m' /\
    Tlsf.os_tlsf_get_pool mem = pool /\
    Tlsf.block_size block m' = Done pool_bytes m' /\
    Tlsf.block_is_free block m' = Done true m' /\
    Tlsf.block_is_prev_free block m' = Done false m' /\
    (a <- Tlsf.blocks_at mem fl sl ;; load32 a) m' = Done block m' /\
    load32 (Tlsf.fl_bitmap_at mem) m' = Done (2 ^ fl) m' /\
    (a <- Tlsf.sl_bitmap_at mem fl ;; load32 a) m' = Done (2 ^ sl) m' /\
    Tlsf.block_next block m' = Done (pool + pool_bytes) m' /\
    Tlsf.block_size (pool + pool_bytes) m' = Done 0 m' /\
    Tlsf.block_is_free (pool + pool_bytes) m' = Done false m' /\
    Tlsf.block_is_prev_free (pool + pool_bytes) m' = Done true m' /\
    (bytes = Tlsf.OS_MEM_SIZE ->
     pool_bytes = 468 /\
     OsMem.os_mem_init mem g m
     = Done (OsMem.mkGlobals mem (OsMem.cur_used g) (OsMem.max_used g)
                             (OsMem.zero_mem g)) m').
Proof.
  intros Hm Hmm H4 Hb Hby pool pb block fl sl.
  assert (HM : modulus = 4294967296) by reflexivity.
  pose proof (proj1 (in_bounds_spec m mem bytes) Hb) as Bm.
  destruct (create_empty_spec mem m Hm ltac:(lia) H4)
    as (m1 & C & S & Lf & Lsl & Lbl & _).
  { apply in_bounds_spec. lia. }
  assert (Ep : add mem Tlsf.os_tlsf_size = mem + 548).
  { unfold add, u32. change Tlsf.os_tlsf_size with 548.
    apply Z.mod_small. lia. }
  assert (Eb : sub bytes Tlsf.os_tlsf_size = bytes - 548).
  { unfold sub, u32. change Tlsf.os_tlsf_size with 548.
    apply Z.mod_small. lia. }
  destruct (add_pool_empty_spec mem (mem + 548) (bytes - 548) m1)
    as (m2 & A & B1 & B2 & B3 & B4 & B5 & B6 & _ & _ & B9 & B10 & B11 & B12 & _);
    try lia; try assumption;
    try (rewrite (in_bounds_shape _ _ _ _ S); apply in_bounds_spec; lia);
    try (rewrite Z.add_mod, H4 by lia; reflexivity).
  assert (W : Tlsf.os_tlsf_create_with_pool mem bytes m = Done mem m2).
  { unfold Tlsf.os_tlsf_create_with_pool.
    rewrite (bind_step _ _ _ _ _ C), Ep, Eb, (bind_step _ _ _ _ _ A).
    reflexivity. }
  exists m2. split; [exact W |]. split; [exact Ep |].
  split; [exact B1 |]. split; [exact B2 |]. split; [exact B3 |].
  split; [exact B4 |]. split; [exact B5 |]. split; [exact B6 |].
  split; [exact B9 |]. split; [exact B10 |]. split; [exact B11 |].
  split; [exact B12 |].
  intros E. split; [unfold pb; rewrite E; reflexivity |].
  unfold OsMem.os_mem_init. rewrite <- E, (bind_step _ _ _ _ _ W).
  reflexivity.
Qed.

(** [os_mem_init] on the buffer of C2: words left over at offsets 616 and
    636 do not matter. *)
Lemma os_tlsf_create_with_pool_heap_witness :
  exists m',
    Tlsf.os_tlsf_create_with_pool heap_base 1024 stale_buffer_a
    = Done heap_base m' /\
    Tlsf.block_size (heap_base + 548 - 4) m' = Done 468 m'.
Proof.
  assert (HM : modulus = 4294967296) by reflexivity.
  assert (Hb : heap_base = 536870912) by reflexivity.
  destruct (os_tlsf_create_with_pool_heap heap_base 1024 OsMem.initial_globals
              stale_buffer_a)
    as (m' & A & _ & B & _); try lia; try reflexivity;
    try (rewrite Hb; reflexivity).
  exists m'. split; [exact A | exact B].
Defined.

(** ** Taking the only block off a free list *)

Lemma land_word (a b : Z) : 0 <= a < modulus -> 0 <= Z.land a b < modulus.
Proof.
  intros Ha. apply word_of_bits.
  - apply Z.land_nonneg. left. lia.
  - intros n Hn. rewrite Z.land_spec, word_high_bits by assumption.
    reflexivity.
Qed.

Lemma clear_bit (w n j : Z) :
  0 <= n < 32 -> 0 <= j < 32 ->
  Z.testbit (Z.land w (not32 (shl 1 n))) j
  = Z.testbit w j && negb (j =? n).
Proof.
  intros Hn Hj. rewrite Z.land_spec, (shl_1 n Hn). unfold not32, u32, modulus.
  rewrite Z.testbit_mod_pow2 by lia.
  destruct (Z.ltb_spec j 32); [| lia]. cbn [andb].
  rewrite Z.lnot_spec, Z.pow2_bits_eqb by lia.
  rewrite (Z.eqb_sym n j). reflexivity.
Qed.

Lemma remove_free_block_spec
  (control block fl sl f w xc xq : Z) (m : memory) :
  0 <= fl < 4 -> 0 <= sl < 32 ->
  let bnull := Tlsf.block_null control in
  let ha := Tlsf.field control
              (Tlsf.off_blocks + Tlsf.sizeof_ptr * (fl * Tlsf.SL_INDEX_COUNT + sl)) in
  let sa := Tlsf.field control (Tlsf.off_sl_bitmap + 4 * fl) in
  let fa := Tlsf.fl_bitmap_at control in
  let bn := Tlsf.field block Tlsf.off_next_free in
  let bp := Tlsf.field block Tlsf.off_prev_free in
  let cp := Tlsf.field bnull Tlsf.off_prev_free in
  let cq := Tlsf.field bnull Tlsf.off_next_free in
  NoDup [bn; bp; cp; cq; ha; fa; sa] ->
  load32 ha m = Done block m ->
  load32 bn m = Done bnull m -> load32 bp m = Done bnull m ->
  load32 fa m = Done f m -> load32 sa m = Done w m ->
  load32 cp m = Done xc m -> load32 cq m = Done xq m ->
  let w' := Z.land w (not32 (shl 1 sl)) in
  let f' := if w' =? 0 then Z.land f (not32 (shl 1 fl)) else f in
  exists m',
    Tlsf.remove_free_block control block fl sl m = Done tt m' /\
    load32 ha m' = Done bnull m' /\
    load32 sa m' = Done w' m' /\ load32 fa m' = Done f' m' /\
    load32 cp m' = Done bnull m' /\ load32 cq m' = Done bnull m' /\
    load32 bn m' = Done bnull m' /\ load32 bp m' = Done bnull m' /\
    (forall j, 0 <= j < 32 -> Z.testbit w' j = Z.testbit w j && negb (j =? sl)) /\
    forall b x, ~ In b [cp; cq; ha; fa; sa] ->
                load32 b m = Done x m -> load32 b m' = Done x m'.
Proof.
  intros Hfl Hsl bnull ha sa fa bn bp cp cq Hnd Lha Lbn Lbp Lfa Lsa Lcp Lcq
         w' f'.
  assert (Hbn : 0 <= bnull < modulus).
  { unfold bnull, Tlsf.block_null, Tlsf.field, add, u32.
    apply Z.mod_pos_bound. reflexivity. }
  destruct (load32_Done _ _ _ _ Lfa) as (_ & Hf).
  destruct (load32_Done _ _ _ _ Lsa) as (_ & Hw).
  assert (Hw' : 0 <= w' < modulus) by (apply land_word; exact Hw).
  assert (Hf' : 0 <= f' < modulus).
  { unfold f'. destruct (w' =? 0); [apply land_word |]; exact Hf. }
  assert (Bits : forall j, 0 <= j < 32 ->
                   Z.testbit w' j = Z.testbit w j && negb (j =? sl)).
  { intros j Hj. apply clear_bit; assumption. }
  assert (Ep : Tlsf.remove_free_block control block fl sl m
               = (store32 cp bnull ;;;
                  store32 cq bnull ;;;
                  head <- load32 ha ;;
                  if head =? block then
                    store32 ha bnull ;;;
                    (w <- load32 sa ;;
                     store32 sa (Z.land w (not32 (shl 1 sl))) ;;;
                     w' <- load32 sa ;;
                     if w' =? 0 then
                       f <- load32 fa ;;
                       store32 fa (Z.land f (not32 (shl 1 fl)))
                     else ret tt)
                  else ret tt) m).
  { unfold Tlsf.remove_free_block.
    rewrite (bind_step _ _ _ _ _ Lbp), (bind_step _ _ _ _ _ Lbn).
    rewrite (blocks_at_in control fl sl Hfl Hsl),
      (sl_bitmap_at_in control fl Hfl).
    fold bnull. rewrite Z.eqb_refl. reflexivity. }
  rewrite Ep. clear Ep.
  assert (Ew' : Z.land w (not32 (shl 1 sl)) = w') by reflexivity.
  assert (Ef' : (if w' =? 0 then Z.land f (not32 (shl 1 fl)) else f) = f')
    by reflexivity.
  clearbody ha sa fa bn bp cp cq w' f'. clearbody bnull.
  apply NoDup_cons_iff in Hnd as [N1 Hnd].
  apply NoDup_cons_iff in Hnd as [N2 Hnd].
  apply NoDup_cons_iff in Hnd as [N3 Hnd].
  apply NoDup_cons_iff in Hnd as [N4 Hnd].
  apply NoDup_cons_iff in Hnd as [N5 Hnd].
  apply NoDup_cons_iff in Hnd as [N6 _].
  (* the two links of the list *)
  destruct (store32_step cp bnull xc m Lcp Hbn) as (m1 & S1 & R1 & F1).
  rewrite (bind_step _ _ _ _ _ S1).
  assert (Fr1 : forall b x, ~ In b [cp; cq; ha; fa; sa] ->
                            load32 b m = Done x m -> load32 b m1 = Done x m1).
  { intros b x Hn H. apply F1; [| exact H]. intros ->. apply Hn. cbn. tauto. }
  clear Lcp. carry m F1. clear F1 S1.
  destruct (store32_step cq bnull xq m1 Lcq Hbn) as (m2 & S2 & R2 & F2).
  rewrite (bind_step _ _ _ _ _ S2).
  assert (Fr2 : forall b x, ~ In b [cp; cq; ha; fa; sa] ->
                            load32 b m = Done x m -> load32 b m2 = Done x m2).
  { intros b x Hn H. apply F2; [| apply Fr1; assumption].
    intros ->. apply Hn. cbn. tauto. }
  clear Lcq Fr1. carry m1 F2. clear F2 S2.
  (* the head of the list *)
  rewrite (bind_step _ _ _ _ _ Lha), Z.eqb_refl.
  destruct (store32_step ha bnull block m2 Lha Hbn) as (m3 & S3 & R3 & F3).
  rewrite (bind_step _ _ _ _ _ S3).
  assert (Fr3 : forall b x, ~ In b [cp; cq; ha; fa; sa] ->
                            load32 b m = Done x m -> load32 b m3 = Done x m3).
  { intros b x Hn H. apply F3; [| apply Fr2; assumption].
    intros ->. apply Hn. cbn. tauto. }
  clear Lha Fr2. carry m2 F3. clear F3 S3.
  (* the second-level bitmap *)
  rewrite (bind_step _ _ _ _ _ Lsa), Ew'.
  destruct (store32_step sa w' w m3 Lsa Hw') as (m4 & S4 & R4 & F4).
  rewrite (bind_step _ _ _ _ _ S4).
  assert (Fr4 : forall b x, ~ In b [cp; cq; ha; fa; sa] ->
                            load32 b m = Done x m -> load32 b m4 = Done x m4).
  { intros b x Hn H. apply F4; [| apply Fr3; assumption].
    intros ->. apply Hn. cbn. tauto. }
  clear Lsa Fr3. carry m3 F4. clear F4 S4.
  rewrite (bind_step _ _ _ _ _ R4).
  (* the first-level bitmap *)
  destruct (w' =? 0).
  - rewrite (bind_step _ _ _ _ _ Lfa), Ef'.
    destruct (store32_step fa f' f m4 Lfa Hf') as (m5 & S5 & R5 & F5).
    assert (Fr5 : forall b x, ~ In b [cp; cq; ha; fa; sa] ->
                              load32 b m = Done x m -> load32 b m5 = Done x m5).
    { intros b x Hn H. apply F5; [| apply Fr4; assumption].
      intros ->. apply Hn. cbn. tauto. }
    clear Lfa Fr4. carry m4 F5.
    exists m5. split; [exact S5 |].
    repeat (split; [assumption |]). exact Fr5.
  - subst f'. exists m4. split; [reflexivity |].
    repeat (split; [assumption |]). exact Fr4.
Qed.

(** X30. [remove_free_block] of a block that is alone on the list
    [(fl, sl)] (the list head points to it, its [next_free] and
    [prev_free] are [block_null]) empties the list: [blocks[fl][sl]]
    becomes [block_null], bit [sl] of [sl_bitmap[fl]] is cleared and the
    other bits are kept, bit [fl] of [fl_bitmap] is cleared exactly when
    that leaves [sl_bitmap[fl]] zero, both links of [block_null] are
    written with [block_null], the block's own links are left as they were,
    and no other word of memory changes.  The seven words are taken to lie
    at seven different addresses inside memory. *)
Theorem remove_free_block_only_block
  (control block fl sl f w xc xq : Z) (m : memory) :
  0 <= fl < 4 -> 0 <= sl < 32 ->
  let bnull := Tlsf.block_null control in
  let ha := Tlsf.field control
              (Tlsf.off_blocks + Tlsf.sizeof_ptr * (fl * Tlsf.SL_INDEX_COUNT + sl)) in
  let sa := Tlsf.field control (Tlsf.off_sl_bitmap + 4 * fl) in
  let fa := Tlsf.fl_bitmap_at control in
  let bn := Tlsf.field block Tlsf.off_next_free in
  let bp := Tlsf.field block Tlsf.off_prev_free in
  let cp := Tlsf.field bnull Tlsf.off_prev_free in
  let cq := Tlsf.field bnull Tlsf.off_next_free in
  NoDup [bn; bp; cp; cq; ha; fa; sa] ->
  load32 ha m = Done block m ->
  load32 bn m = Done bnull m -> load32 bp m = Done bnull m ->
  load32 fa m = Done f m -> load32 sa m = Done w m ->
  load32 cp m = Done xc m -> load32 cq m = Done xq m ->
  let w' := Z.land w (not32 (shl 1 sl)) in
  let f' := if w' =? 0 then Z.land f (not32 (shl 1 fl)) else f in
  exists m',
    Tlsf.remove_free_block control block fl sl m = Done tt m' /\
    load32 ha m' = Done bnull m' /\
    load32 sa m' = Done w' m' /\ load32 fa m' = Done f' m' /\
    load32 cp m' = Done bnull m' /\ load32 cq m' = Done bnull m' /\
    load32 bn m' = Done bnull m' /\ load32 bp m' = Done bnull m' /\
    (forall j, 0 <= j < 32 -> Z.testbit w' j = Z.testbit w j && negb (j =? sl)) /\
    forall b x, ~ In b [cp; cq; ha; fa; sa] ->
                load32 b m = Done x m -> load32 b m' = Done x m'.
Proof. exact (remove_free_block_spec control block fl sl f w xc xq m). Qed.

(** The block of [one_free_block] taken off its list: both bitmaps are
    zero again. *)
Lemma remove_free_block_only_block_witness :
  exists m',
    Tlsf.remove_free_block heap_base (heap_base + 600) 1 2 one_free_block
    = Done tt m' /\
    load32 (Tlsf.field heap_base
              (Tlsf.off_blocks + Tlsf.sizeof_ptr * (1 * Tlsf.SL_INDEX_COUNT + 2)))
           m' = Done (Tlsf.block_null heap_base) m' /\
    load32 (Tlsf.field heap_base (Tlsf.off_sl_bitmap + 4 * 1)) m' = Done 0 m' /\
    load32 (Tlsf.fl_bitmap_at heap_base) m' = Done 0 m'.
Proof.
  destruct (remove_free_block_only_block heap_base (heap_base + 600) 1 2
              2 4 (heap_base + 600) heap_base one_free_block)
    as (m' & A & B & C & D & _).
  - lia.
  - lia.
  - apply nodupb_NoDup. vm_compute. reflexivity.
  - vm_compute. reflexivity.
  - vm_compute. reflexivity.
  - vm_compute. reflexivity.
  - vm_compute. reflexivity.
  - vm_compute. reflexivity.
  - vm_compute. reflexivity.
  - vm_compute. reflexivity.
  - exists m'. split; [exact A |]. split; [exact B |]. split; [exact C | exact D].
Defined.

(** ** Searching the bitmaps *)

(** Every word of the control structure can be read. *)
Lemma control_word_readable (control o : Z) (m : memory) :
  0 <= control -> control + 548 <= modulus -> control mod 4 = 0 ->
  in_bounds m control 548 = true ->
  0 <= o -> o + 4 <= 548 -> o mod 4 = 0 ->
  exists x, load32 (Tlsf.field control o) m = Done x m /\ 0 <= x < modulus.
Proof.
  intros Hc Hm H4 Hb Ho Ho' Ho4.
  rewrite field_offset by lia.
  destruct (load32_readable (control + o) m) as (x & Hx).
  - rewrite Z.add_mod, H4, Ho4 by lia. reflexivity.
  - eapply in_bounds_sub; [exact Hb | lia | lia].
  - exists x. split; [exact Hx |]. apply (load32_Done _ _ _ _ Hx).
Qed.

Lemma search_suitable_block_spec (control fl sl f : Z) (m : memory) :
  0 <= control -> control + 548 <= modulus -> control mod 4 = 0 ->
  in_bounds m control 548 = true ->
  0 <= fl < Tlsf.FL_INDEX_COUNT -> 0 <= sl < Tlsf.SL_INDEX_COUNT ->
  load32 (Tlsf.fl_bitmap_at control) m = Done f m ->
  (forall i, fl < i -> Z.testbit f i = true ->
             i < Tlsf.FL_INDEX_COUNT /\
             (a <- Tlsf.sl_bitmap_at control i ;; load32 a) m <> Done 0 m) ->
  exists b fl' sl',
    Tlsf.search_suitable_block control fl sl m = Done (b, fl', sl') m /\
    ((b = 0 /\ fl' = fl /\ sl' = sl /\
      (exists w,
          (a <- Tlsf.sl_bitmap_at control fl ;; load32 a) m = Done w m /\
          Z.land w (shl (not32 0) sl) = 0) /\
      Z.land f (shl (not32 0) (fl + 1)) = 0)
     \/
     (0 <= fl' < Tlsf.FL_INDEX_COUNT /\ 0 <= sl' < Tlsf.SL_INDEX_COUNT /\
      lex_le (fl, sl) (fl', sl') = true /\
      (exists w,
          (a <- Tlsf.sl_bitmap_at control fl' ;; load32 a) m = Done w m /\
          Z.testbit w sl' = true) /\
      (a <- Tlsf.blocks_at control fl' sl' ;; load32 a) m = Done b m /\
      (fl' = fl \/ Z.testbit f fl' = true))).
Proof.
  change Tlsf.FL_INDEX_COUNT with 4. change Tlsf.SL_INDEX_COUNT with 32.
  intros Hc Hm H4 Hb Hfl Hsl Lf Wf.
  destruct (load32_Done _ _ _ _ Lf) as (_ & Hf).
  assert (Rs : forall i, 0 <= i < 4 ->
             exists w, load32 (Tlsf.field control (Tlsf.off_sl_bitmap + 4 * i)) m
                       = Done w m /\ 0 <= w < modulus).
  { intros i Hi. change Tlsf.off_sl_bitmap with 20.
    apply control_word_readable; try assumption; try lia.
    rewrite Z.add_mod, Z.mul_comm, Z.mod_mul by lia. reflexivity. }
  assert (Rb : forall i j, 0 <= i < 4 -> 0 <= j < 32 ->
             exists b,
               load32 (Tlsf.field control
                         (Tlsf.off_blocks
                          + Tlsf.sizeof_ptr * (i * Tlsf.SL_INDEX_COUNT + j))) m
               = Done b m).
  { intros i j Hi Hj. change Tlsf.off_blocks with 36.
    change Tlsf.sizeof_ptr with 4. change Tlsf.SL_INDEX_COUNT with 32.
    destruct (control_word_readable control (36 + 4 * (i * 32 + j)) m)
      as (b & Lb & _); try assumption; try lia.
    - rewrite Z.add_mod, Z.mul_comm, Z.mod_mul by lia. reflexivity.
    - exists b. exact Lb. }
  (* the list head returned for a list inside the tables *)
  assert (Fin : forall i w,
             0 <= i < 4 -> 0 <= w < modulus -> w <> 0 ->
             let j := Tlsf.tlsf_ffs w in
             0 <= j < 32 /\ Z.testbit w j = true /\
             exists b,
               (a <- Tlsf.blocks_at control i j ;; load32 a) m = Done b m /\
               (a <- Tlsf.blocks_at control i j ;;
                b <- load32 a ;; ret (b, i, j)) m = Done (b, i, j) m).
  { intros i w Hi Hw Hnz j.
    destruct (ffs_fls_bits w) as ((A1 & A2 & _) & _);
      [unfold modulus in Hw; lia |].
    fold j in A1, A2. split; [exact A1 |]. split; [exact A2 |].
    destruct (Rb i j Hi A1) as (b & Lb). exists b.
    rewrite (blocks_at_in control i j Hi A1). split.
    - exact Lb.
    - change ((b0 <- load32 (Tlsf.field control
                               (Tlsf.off_blocks
                                + Tlsf.sizeof_ptr * (i * Tlsf.SL_INDEX_COUNT + j))) ;;
               ret (b0, i, j)) m = Done (b, i, j) m).
      rewrite (bind_step _ _ _ _ _ Lb). reflexivity. }
  destruct (Rs fl Hfl) as (w & Lw & Hw).
  assert (Lw' : (a <- Tlsf.sl_bitmap_at control fl ;; load32 a) m = Done w m).
  { rewrite (sl_bitmap_at_in control fl Hfl). exact Lw. }
  unfold Tlsf.search_suitable_block. cbv beta zeta.
  rewrite (sl_bitmap_at_in control fl Hfl).
  change ((w0 <- load32 (Tlsf.field control (Tlsf.off_sl_bitmap + 4 * fl)) ;;
           ?k w0) m) with
    ((w0 <- load32 (Tlsf.field control (Tlsf.off_sl_bitmap + 4 * fl)) ;; k w0) m).
  match goal with
  | |- context [bind (ret ?a) ?k m] => change (bind (ret a) k m) with (k a m)
  end.
  cbv beta. rewrite (bind_step _ _ _ _ _ Lw).
  destruct (Z.eqb_spec (Z.land w (shl (not32 0) sl)) 0) as [Hz | Hnz].
  - rewrite (bind_step _ _ _ _ _ Lf).
    destruct (Z.eqb_spec (Z.land f (shl (not32 0) (fl + 1))) 0) as [Hz2 | Hnz2].
    + exists 0, fl, sl. split; [reflexivity |]. left.
      split; [reflexivity |]. split; [reflexivity |]. split; [reflexivity |].
      split; [| exact Hz2]. exists w. split; [exact Lw | exact Hz].
    + destruct (ffs_of_masked f (shl (not32 0) (fl + 1)) Hf Hnz2)
        as (A1 & A2 & A3).
      cbv zeta in A1, A2, A3. apply mask_from_bit in A3; [| lia].
      set (i := Tlsf.tlsf_ffs (Z.land f (shl (not32 0) (fl + 1)))) in *.
      destruct (Wf i ltac:(lia) A2) as (Hi & Hnz3).
      assert (Hi4 : 0 <= i < 4) by lia.
      destruct (Rs i Hi4) as (w2 & Lw2 & Hw2).
      assert (Lw2' : (a <- Tlsf.sl_bitmap_at control i ;; load32 a) m
                     = Done w2 m).
      { rewrite (sl_bitmap_at_in control i Hi4). exact Lw2. }
      assert (Hw2nz : w2 <> 0).
      { intros ->. apply Hnz3. exact Lw2'. }
      destruct (Fin i w2 Hi4 Hw2 Hw2nz) as (B1 & B2 & b & B3 & B4).
      rewrite (sl_bitmap_at_in control i Hi4).
      match goal with
      | |- context [bind (ret ?a) ?k m] => change (bind (ret a) k m) with (k a m)
      end.
      cbv beta. rewrite (bind_step _ _ _ _ _ Lw2).
      exists b, i, (Tlsf.tlsf_ffs w2). split; [exact B4 |]. right.
      split; [exact Hi4 |]. split; [exact B1 |].
      split; [apply lex_le_higher_fl; lia |].
      split; [exists w2; split; [exact Lw2' | exact B2] |].
      split; [exact B3 | right; exact A2].
  - destruct (ffs_of_masked w (shl (not32 0) sl) Hw Hnz) as (A1 & A2 & A3).
    cbv zeta in A1, A2, A3. apply mask_from_bit in A3; [| lia].
    assert (Hm0 : 0 <= Z.land w (shl (not32 0) sl) < modulus).
    { split; [apply Z.land_nonneg; left; lia |].
      apply land_word. exact Hw. }
    destruct (Fin fl _ Hfl Hm0 Hnz) as (B1 & _ & b & B3 & B4).
    exists b, fl, (Tlsf.tlsf_ffs (Z.land w (shl (not32 0) sl))).
    split; [exact B4 |]. right.
    split; [exact Hfl |]. split; [exact B1 |].
    split; [apply lex_le_same_fl; lia |].
    split; [exists w; split; [exact Lw' | exact A2] |].
    split; [exact B3 | left; reflexivity].
Qed.

(** X8. [search_suitable_block] on a readable control structure whose
    first-level bitmap, above [fl], marks only first-level indices below
    [FL_INDEX_COUNT] whose second-level bitmap is not zero: the search
    returns and writes nothing.  It reports exhaustion (a null block,
    indices as given) exactly when no bit at or above the request is set in
    the bitmaps; otherwise the list it returns is inside the tables, is
    marked non-empty in its second-level bitmap, is the requested list or a
    later one, and the block returned is the head of that list. *)
Theorem search_suitable_block_at_or_above
  (control fl sl f : Z) (m : memory) :
  0 <= control -> control + 548 <= modulus -> control mod 4 = 0 ->
  in_bounds m control 548 = true ->
  0 <= fl < Tlsf.FL_INDEX_COUNT -> 0 <= sl < Tlsf.SL_INDEX_COUNT ->
  load32 (Tlsf.fl_bitmap_at control) m = Done f m ->
  (forall i, fl < i -> Z.testbit f i = true ->
             i < Tlsf.FL_INDEX_COUNT /\
             (a <- Tlsf.sl_bitmap_at control i ;; load32 a) m <> Done 0 m) ->
  exists b fl' sl',
    Tlsf.search_suitable_block control fl sl m = Done (b, fl', sl') m /\
    ((b = 0 /\ fl' = fl /\ sl' = sl /\
      (exists w,
          (a <- Tlsf.sl_bitmap_at control fl ;; load32 a) m = Done w m /\
          Z.land w (shl (not32 0) sl) = 0) /\
      Z.land f (shl (not32 0) (fl + 1)) = 0)
     \/
     (0 <= fl' < Tlsf.FL_INDEX_COUNT /\ 0 <= sl' < Tlsf.SL_INDEX_COUNT /\
      lex_le (fl, sl) (fl', sl') = true /\
      (exists w,
          (a <- Tlsf.sl_bitmap_at control fl' ;; load32 a) m = Done w m /\
          Z.testbit w sl' = true) /\
      (a <- Tlsf.blocks_at control fl' sl' ;; load32 a) m = Done b m /\
      (fl' = fl \/ Z.testbit f fl' = true))).
Proof. exact (search_suitable_block_spec control fl sl f m). Qed.

(** On [fresh_heap] a search from list (0, 16) ends at the pool's block in
    list (2, 26). *)
Lemma search_suitable_block_at_or_above_witness :
  Tlsf.search_suitable_block heap_base 0 16 fresh_heap
  = Done (heap_base + 544, 2, 26) fresh_heap /\
  lex_le (0, 16) (2, 26) = true.
Proof.
  assert (H : Tlsf.search_suitable_block heap_base 0 16 fresh_heap
              = Done (heap_base + 544, 2, 26) fresh_heap)
    by (vm_compute; reflexivity).
  split; [exact H |].
  destruct (search_suitable_block_at_or_above heap_base 0 16 4 fresh_heap)
    as (b & fl' & sl' & E & [(Eb & _) | (_ & _ & L & _)]).
  - vm_compute. discriminate.
  - vm_compute. discriminate.
  - reflexivity.
  - reflexivity.
  - change Tlsf.FL_INDEX_COUNT with 4. lia.
  - change Tlsf.SL_INDEX_COUNT with 32. lia.
  - vm_compute. reflexivity.
  - intros i Hi Hbit. change 4 with (2 ^ 2) in Hbit at 1.
    rewrite Z.pow2_bits_eqb in Hbit by lia. apply Z.eqb_eq in Hbit. subst i.
    split; [reflexivity |]. intros Hw. vm_compute in Hw. discriminate.
  - rewrite H in E. inversion E. subst. discriminate.
  - rewrite H in E. inversion E. subst. exact L.
Defined.
